(* ===== verification/_CoqProject ===== *)
-Q . S2P
Prelude.v
Hash.v
Dir.v
Doc.v
DirTrie.v
DirManager.v
DirChain.v
DirOps.v
DirRemove.v
DirSpec.v
DirInit.v
DirValidate.v
Directory.v
DirReinstall.v
HttpInfo.v
RamCache.v
File.v
AggBuffer.v
AggLog.v
OpenDir.v
Evacuation.v
Stripe.v
Ring.v
CacheWriter.v
WriterSpec.v
FragmentWriter.v
CacheReader.v
ReaderSpec.v
ReaderTotal.v
FragmentReader.v
Invalidation.v
Checkpoint.v
CheckpointSpec.v
InvalidationSpec.v
WriteRead.v
ReaderIsolation.v
MetadataRefresh.v
ReadConnection.v
Restart.v
CacheFill.v
Store.v
Budget.v
StripeLoop.v
ResponseBuffers.v
FillGroup.v
HttpText.v
HttpPolicy.v
RangeCache.v
Serving.v
Runtime.v
Ownership.v
Config.v
Balancer.v
Forwarding.v
Upstream.v
HTTPProxy.v
