(* ===== verification/Prelude.v ===== *)
(** * A verification of the bakemono cache

    Bakemono is a caching HTTP proxy.  Its core, the package [cache] under
    src/cache, stores objects on raw file spans the way Apache Traffic Server
    does: every span is divided into stripes, a stripe is a ring log of
    records with a directory in memory, and objects are stored as fragments
    of one mebibyte.  The package [server] under src/server decides what may
    be cached and served, coordinates fills and serves ranges from blocks; it
    sends requests to origins through the package [proxy], which selects them
    with [balancer]; [config] reads and checks the settings.  This development
    models the core and those parts of the other packages and proves the
    properties their correctness rests on.

    ** The program and its models

    - [Prelude]: machine integers ([u16], [u32], [u64], [i64] as [Z] with the
      wrap-around written out), byte strings, the [result] monad, big- and
      little-endian codecs, slices, sorting.  [Hash]: MD5, SHA-256 and CRC-32
      as the code uses them, checked on test vectors.
    - [Dir], [Doc], [HttpInfo]: the on-disk formats (dir.go, doc.go,
      stripe_header.go, identity.go, http_info.go).
    - [DirTrie]: the bounded index from keys to URL selectors (dir_trie.go).
    - [DirManager]: the directory (dir_manager.go), segments of hash chains
      threaded through an array of entries with a free list.  Its theory is
      split: [DirChain] (chains and the free list), [DirOps] (probing,
      purging, insertion), [DirRemove] (deletion, phase removal), [DirSpec]
      (the abstract view of a segment as lists of entries), [DirInit],
      [DirValidate] (the image validator), [Directory] (the theorems).
    - [RamCache]: the RAM cache with the s3-fifo policy (ram_cache.go,
      ram_s3fifo.go, ram_metadata.go); the third-party otter policy is a
      parameter with the interface [RamPolicy].
    - [File]: a file and the outcomes of its system calls.
    - [AggBuffer] and [AggLog]: the double write buffer in front of the disk
      (aggregate_write_buffer.go), one function per critical section, and the
      step relation that interleaves callers, disk worker and failures.
    - [OpenDir], [Evacuation]: the tables of active writers and of hot
      records (open_dir.go, evacuation.go).
    - [Stripe] and [Ring]: a stripe (stripe.go), the disk worker, the validity
      checks, and the step relation of the ring with its invariant.  The RAM
      cache enters through the class [RamStore].
    - [CacheWriter] and [WriterSpec]: the stream side of a writer
      (cache_write.go) against the class [FragmentSink], and what it stores.
      [FragmentWriter]: records, publication, abort and evacuation on a
      stripe, which implements the class.
    - [CacheReader] and [ReaderSpec]: the stream side of a reader
      (cache_read.go) against the class [FragmentSource], and what it
      delivers.  [FragmentReader]: fetching from a stripe, which implements
      the class.
      [ReaderTotal]: a reader returns on any content of the source, however
      damaged, and what it accepts is verified.  [ReaderIsolation]: a reader
      of a stripe whose state other goroutines change between its fetches; the
      states only have to be well formed ([sane]).
    - [Invalidation] and [InvalidationSpec]: fills, epochs, admission, purges
      (invalidation.go, parts of http_update.go and cache.go).
    - [MetadataRefresh]: a new head for a stored object whose metadata the
      origin confirmed ([UpdateHTTPInfo] of http_update.go), in its two
      critical sections.
    - [ReadConnection]: the read side of a virtual connection (cache_vc.go)
      with [OpenRead] and [OpenReadCommitted] of cache.go.
    - [Checkpoint] and [CheckpointSpec]: the sidecar a closed stripe leaves,
      the session marker and the recovery (checkpoint.go), and the life cycle
      of a stripe ([Open], [Save], [Close] of stripe.go).  [DirReinstall]:
      setting the entries of a directory again in an empty one.
    - [Store]: spans and the stripe layout (store.go).
    - [WriteRead] and [Restart]: one concrete object, written, stored, read
      and purged, then closed and recovered; the instances of the theorems; and
      the run in which a delayed publication leads a reader astray.
    - [CacheFill]: the write side of a virtual connection (cache_vc.go), the
      fill of an object from a body (server/cache_fill.go) and the copying
      loops of range_cache.go and shared_fill.go, against the class
      [FillSink].
    - [StripeLoop]: the maintenance loop of a stripe (stripe_sm.go): requests,
      ticks, cancellation and the wait for the loop, as a step relation.
    - [Budget], [ResponseBuffers], [FillGroup]: the limiter of concurrent work
      (internal/budget), the pool of response buffers and the coordinator of
      fills (server/), each as a step relation over any number of callers.
    - [HttpText] and [HttpPolicy]: header text, and the caching policy on it:
      cacheability, freshness, variants, validation (cache_policy.go,
      cache_variant.go, cache_validation.go).  [http.ParseTime] is a
      parameter of which nothing is assumed.
    - [RangeCache]: range requests served from cached blocks
      (range_cache.go); what the rest of the server answers, block by block,
      is the record [answers].
    - [Serving]: requests answered from the cache (handler.go, the end of
      serveSharedMiss in fill_group.go): the lookup of a variant by its key,
      the reply of a hit, its streaming to a client that may fail, and PURGE.
      The cache enters through the record [view]; [cacheView] is that of
      [ReadConnection], and [churning] adds interference.
    - [Runtime]: the runtimes of the server (server/runtime.go, server.go,
      http.go): requests, detached producers, reloads and shutdowns as
      processes over the critical sections of [Server.mu].
    - [Ownership]: which process may open which part of a file
      (stripe_owner.go), over any number of processes that may crash.
    - [Config]: the records file, defaults, bounds, validation and memory
      reservations (config/), the limits of the proxy and [newRuntime].
    - [Balancer]: the class of balancers, the round-robin and consistent-hash
      instances (balancer/; the hash ring is a parameter, read twice by a
      selection), and the health checker that drives them (proxy/health.go).
    - [Forwarding]: what is sent to an origin (proxy/proxy.go, cache_key.go,
      public_request.go): hop headers, forwarded identity, cache keys and the
      canonical request of a shared fill.  Address parsing is a parameter.
    - [Upstream]: the slot of a request to an origin and its counters
      (proxy/limits.go and [trackedBody]), a machine that refines [Budget].
    - [HTTPProxy]: construction of a proxy with its options, the choice of an
      origin, the life of the health checker, and the checks and the
      construction of a reload, on top of [Config] and [Balancer].

    ** Conventions

    A Go function that can fail returns [result]; [None] stands for a panic
    and, where a function takes fuel, for exhausted fuel: the theorems show
    that the fuel chosen is enough ([addFuel], [readFuel], [discardFuel], the
    chain lengths in [DirManager], the eviction measure in [RamCache]; in
    [Serving], two more than the largest object a stripe can hold).  A function guarded
    by a mutex is one atomic step; a call that waits ends its step with
    [Wait].  Map iteration orders and random draws are arguments.  Pointers
    that are shared and compared are addresses.

    ** What the theorems show

    - Formats: records, metadata, directory images and index snapshots decode
      to what was encoded; every accepted directory image is well formed; one
      changed byte of a record is always detected.
    - Directory: insertion, lookup, deletion and phase removal refine lists of
      tagged entries; a key never reads another key's record; the exact
      condition under which insertion panics.
    - RAM cache: hits return the last admitted value; byte and entry limits
      hold with exact accounting.
    - Write buffer: allocations are ordered and disjoint; a returned flush
      barrier means the records are on the disk; nothing blocks with the mutex
      held; a barrier is reached after at most two flushes; reads through the
      buffers are coherent with the disk.
    - Ring: a record accepted by [allocationValid], or reached through a
      directory entry accepted by [dirValid], is intact on the disk in every
      interleaving with overwriting flushes; a publication delayed over two
      wraps is accepted in a window and then aliases another record.
    - Objects: the stored fragments do not depend on the sizes of the writes;
      what is published is what a fetch returns; a reader delivers exactly the
      object and its metadata; a follower of an active writer sees the stream.
      While the stripe changes, a reader still delivers one version: the
      payloads, in order, of records of that version the stripe has held, all
      of them when it reports the end, unless a fetch failed with [io.EOF],
      which a truncated file makes happen.
    - Hits: a response from the cache is the fresh stored variant of the
      request, of one version, complete unless the connection is aborted or a
      fetch failed with [io.EOF].
    - Invalidation: a purge is final for everything that started before it;
      a metadata refresh replaces exactly the head of the object it was
      opened on, or nothing; a read connection delivers the object until it
      is invalidated and gives its reference back once.
    - Maintenance: a requested flush or save is never lost, and nothing runs
      after the loop was stopped.
    - Storage: the stripe layout tiles spans of non-negative size.
    - Restarts: a stripe that was drained and saved recovers every complete
      object; a checkpoint is accepted once, by the session after its own,
      whatever that session then writes.
    - Fills: a fill stores the complete body or no head; the coordinator and
      the limiter count exactly and stay within their limits in every
      interleaving, without double closes; the response buffers stay within
      their capacity, and a release can be missed by a caller about to wait.
    - Policy: a response is served without validation only while it is fresh
      by every clock the headers give and the request accepts it.
    - Ranges: what is sent is the interval announced, whatever fails.
    - Server: leases on runtimes are exact, a proxy is closed once and without
      leases, statistics survive reloads, and the cache is closed last; a
      reload of a validated configuration fails only in the checks before a
      proxy exists or on its CA file.
    - Ownership: stripes open on one file are disjoint and of one process.
    - Configuration: a configuration that loads keeps every reservation within
      the budget, without overflow.
    - Origins: the balancer holds the targets that are up; a selected target
      can always be sent to; slots are given back exactly once; the forwarded
      identity cannot be forged by an untrusted client; cache keys identify
      scheme, authority, path and query up to the order of its items.

    ** Not modelled

    Of cache.go, building and closing the list of stripes; when the tickers of
    stripe_sm.go fire is left open (they may at any time).  In the server, the
    producers of range_cache.go and shared_fill.go up to their copying loops and
    the pass-through of uncached responses are glue between the modelled parts
    and the standard library's HTTP types.  The transport of the proxy, sockets,
    logging and process start-up are I/O. *)

From stdpp Require Export base tactics numbers list gmap strings sorting.

#[global] Open Scope Z_scope.

(** ** Machine integers

    A Go [uintN] is a [Z] in [[0, 2^N)]; every conversion or arithmetic
    operation that can leave that interval is written with its wrap. *)

Definition u8 (z : Z) : Z := z mod 2 ^ 8.
Definition u16 (z : Z) : Z := z mod 2 ^ 16.
Definition u32 (z : Z) : Z := z mod 2 ^ 32.
Definition u64 (z : Z) : Z := z mod 2 ^ 64.
Definition i64 (z : Z) : Z := (z + 2 ^ 63) mod 2 ^ 64 - 2 ^ 63.

Definition fits (w z : Z) : Prop := 0 <= z < 2 ^ w.
Definition fits_i64 (z : Z) : Prop := - 2 ^ 63 <= z < 2 ^ 63.

Lemma u8_small z : fits 8 z -> u8 z = z.
Proof. apply Z.mod_small. Qed.
Lemma u16_small z : fits 16 z -> u16 z = z.
Proof. apply Z.mod_small. Qed.
Lemma u32_small z : fits 32 z -> u32 z = z.
Proof. apply Z.mod_small. Qed.
Lemma u64_small z : fits 64 z -> u64 z = z.
Proof. apply Z.mod_small. Qed.
Lemma u16_fits z : fits 16 (u16 z).
Proof. by apply Z.mod_pos_bound. Qed.
Lemma u32_fits z : fits 32 (u32 z).
Proof. by apply Z.mod_pos_bound. Qed.
Lemma u64_fits z : fits 64 (u64 z).
Proof. by apply Z.mod_pos_bound. Qed.

Lemma i64_small z : fits_i64 z -> i64 z = z.
Proof. unfold fits_i64, i64. intros. rewrite Z.mod_small; lia. Qed.
Lemma i64_fits z : fits_i64 (i64 z).
Proof.
  unfold fits_i64, i64. pose proof (Z.mod_pos_bound (z + 2 ^ 63) (2 ^ 64) ltac:(done)). lia.
Qed.

Create HintDb ints.
Create Rewrite HintDb ints.
Create Rewrite HintDb blen.
#[export] Hint Resolve u16_fits u32_fits u64_fits i64_fits : ints.
#[export] Hint Rewrite u8_small u16_small u32_small u64_small i64_small
  using (unfold fits, fits_i64 in *; lia) : ints.

(** [wraps] removes every wrap whose argument is visibly in range. *)
Ltac wraps := autorewrite with ints.
Tactic Notation "wraps" "in" hyp(H) := autorewrite with ints in H.

(** ** Errors and results

    The error values the code compares by identity are constructors;
    everything built with [fmt.Errorf] or [errors.New] carries its text. *)

Inductive error : Type :=
  | ErrReadFromDisk
  | ErrNotResident
  | ErrWriteInProgress
  | ErrCacheClosed
  | ErrInvalidated
  | ErrIndexFull
  | ErrOverloaded
  | ErrEOF
  | ErrUnexpectedEOF
  | ErrShortWrite
  | ErrContext (code : Z)
  | Errorf (msg : string).

#[global] Instance error_eq_dec : EqDecision error.
Proof. solve_decision. Defined.

Inductive result (A : Type) : Type :=
  | Ok (a : A)
  | Err (e : error).
Arguments Ok {A} a.
Arguments Err {A} e.

#[global] Instance result_eq_dec {A} `{EqDecision A} : EqDecision (result A).
Proof. solve_decision. Defined.

#[global] Instance result_ret : MRet result := fun A a => Ok a.
#[global] Instance result_bind : MBind result := fun A B f r =>
  match r with Ok a => f a | Err e => Err e end.

Definition is_ok {A} (r : result A) : bool :=
  match r with Ok _ => true | Err _ => false end.

(** [guarde c e] fails with [e] unless the condition [c] holds. *)
Definition guarde (c : bool) (e : error) : result unit :=
  if c then Ok tt else Err e.

Lemma result_bind_Ok {A B} (r : result A) (f : A -> result B) b :
  (r ≫= f) = Ok b <-> exists a, r = Ok a /\ f a = Ok b.
Proof. destruct r; cbn; naive_solver. Qed.

Lemma guarde_Ok c e u : guarde c e = Ok u <-> c = true.
Proof. destruct c, u; cbn; naive_solver. Qed.

(** [go_ok] destructs a hypothesis that a monadic computation succeeded. *)
Ltac go_ok H :=
  repeat first
    [ rewrite result_bind_Ok in H
    | rewrite guarde_Ok in H
    | match type of H with
      | exists _, _ => let x := fresh "x" in destruct H as [x H]
      | _ /\ _ => let H1 := fresh H in destruct H as [H1 H]
      end ].

(** ** Bytes *)

Abbreviation bytes := (list Z).

Definition byte_ok (b : Z) : Prop := 0 <= b < 256.
Definition bytes_ok (l : bytes) : Prop := Forall byte_ok l.

Definition blen (l : bytes) : Z := Z.of_nat (length l).

(** [put_be n z]: the [n] low bytes of [z], most significant first
    ([binary.BigEndian]); [put_le] is the little-endian order. *)
Fixpoint put_le (n : nat) (z : Z) : bytes :=
  match n with
  | O => []
  | S n' => z mod 256 :: put_le n' (z / 256)
  end.

Fixpoint get_le (l : bytes) : Z :=
  match l with
  | [] => 0
  | b :: l' => b + 256 * get_le l'
  end.

Definition put_be (n : nat) (z : Z) : bytes := rev (put_le n z).
Definition get_be (l : bytes) : Z := get_le (rev l).

Lemma length_put_le n z : length (put_le n z) = n.
Proof. revert z; induction n; intros; cbn; auto. Qed.
Lemma length_put_be n z : length (put_be n z) = n.
Proof. unfold put_be. by rewrite length_rev, length_put_le. Qed.

Lemma put_le_ok n z : bytes_ok (put_le n z).
Proof.
  revert z; induction n; intros; cbn; constructor; [|apply IHn].
  unfold byte_ok. pose proof (Z.mod_pos_bound z 256 ltac:(lia)). lia.
Qed.
Lemma put_be_ok n z : bytes_ok (put_be n z).
Proof. apply Forall_rev, put_le_ok. Qed.

Lemma get_put_le n z : get_le (put_le n z) = z mod 256 ^ Z.of_nat n.
Proof.
  revert z; induction n as [|n IH]; intros z; cbn [put_le get_le].
  - by rewrite Z.mod_1_r.
  - rewrite IH, Nat2Z.inj_succ, Z.pow_succ_r by lia.
    rewrite Z.rem_mul_r by lia. lia.
Qed.

Lemma get_put_be n z : get_be (put_be n z) = z mod 256 ^ Z.of_nat n.
Proof. unfold get_be, put_be. rewrite rev_involutive. apply get_put_le. Qed.

Lemma get_le_bound l : bytes_ok l -> 0 <= get_le l < 256 ^ blen l.
Proof.
  unfold blen. induction 1 as [|b l Hb Hl IH]; [cbn; lia|].
  cbn [get_le length]. rewrite Nat2Z.inj_succ, Z.pow_succ_r by lia.
  unfold byte_ok in Hb. lia.
Qed.

Lemma put_get_le l : bytes_ok l -> put_le (length l) (get_le l) = l.
Proof.
  induction 1 as [|b l Hb Hl IH]; [done|].
  cbn [get_le length put_le]. unfold byte_ok in Hb.
  rewrite (Z.mul_comm 256), Z.mod_add, Z.div_add by lia.
  rewrite Z.mod_small, Z.div_small, Z.add_0_l by lia. by rewrite IH.
Qed.

Lemma put_get_be l : bytes_ok l -> put_be (length l) (get_be l) = l.
Proof.
  intros Hl. unfold put_be, get_be.
  rewrite <- (length_rev l), put_get_le, rev_involutive; [done|].
  by apply Forall_rev.
Qed.

Lemma get_be_bound l : bytes_ok l -> 0 <= get_be l < 256 ^ blen l.
Proof.
  intros Hl. unfold get_be, blen. rewrite <- (length_rev l).
  by apply get_le_bound, Forall_rev.
Qed.

Lemma get_put_be_fits n z : fits (8 * Z.of_nat n) z -> get_be (put_be n z) = z.
Proof.
  unfold fits. intros H. rewrite get_put_be. apply Z.mod_small.
  change 256 with (2 ^ 8). rewrite <- Z.pow_mul_r by lia. done.
Qed.
Lemma get_put_le_fits n z : fits (8 * Z.of_nat n) z -> get_le (put_le n z) = z.
Proof.
  unfold fits. intros H. rewrite get_put_le. apply Z.mod_small.
  change 256 with (2 ^ 8). rewrite <- Z.pow_mul_r by lia. done.
Qed.

(** Reading a fixed-width big-endian word off the front of a buffer, the step
    [encoding/binary] performs for each field of a struct. *)
Definition take_be (n : nat) (l : bytes) : Z * bytes := (get_be (take n l), drop n l).
Definition take_bytes (n : nat) (l : bytes) : bytes * bytes := (take n l, drop n l).

Lemma take_be_put n z l :
  fits (8 * Z.of_nat n) z -> take_be n (put_be n z ++ l) = (z, l).
Proof.
  intros Hz. unfold take_be.
  rewrite take_app_length', drop_app_length' by (by rewrite length_put_be).
  by rewrite get_put_be_fits.
Qed.
Lemma take_bytes_app n l1 l2 : length l1 = n -> take_bytes n (l1 ++ l2) = (l1, l2).
Proof. intros. unfold take_bytes. by rewrite take_app_length', drop_app_length'. Qed.

(** The error of [binary.Read] into a value of [n] bytes, if any. *)
Definition read_guard (n : Z) (l : bytes) : result unit :=
  if blen l <? n then Err (if blen l =? 0 then ErrEOF else ErrUnexpectedEOF) else Ok tt.

Lemma blen_app l1 l2 : blen (l1 ++ l2) = blen l1 + blen l2.
Proof. unfold blen. rewrite length_app. lia. Qed.
Lemma blen_nonneg l : 0 <= blen l.
Proof. unfold blen. lia. Qed.
Lemma blen_put_be n z : blen (put_be n z) = Z.of_nat n.
Proof. unfold blen. by rewrite length_put_be. Qed.
#[export] Hint Rewrite blen_app blen_put_be length_put_be length_put_le @length_app : blen.

(** Go slices [l[a:b]] for in-range bounds. *)
Definition slice {A} (l : list A) (a b : Z) : list A :=
  take (Z.to_nat (b - a)) (drop (Z.to_nat a) l).

Lemma length_slice {A} (l : list A) a b :
  0 <= a <= b -> b <= Z.of_nat (length l) -> length (slice l a b) = Z.to_nat (b - a).
Proof. intros. unfold slice. rewrite length_take, length_drop. lia. Qed.

Lemma slice_full {A} (l : list A) : slice l 0 (Z.of_nat (length l)) = l.
Proof. unfold slice. rewrite drop_0. apply take_ge. lia. Qed.

Lemma slice_app_l {A} (l1 l2 : list A) a b :
  0 <= a <= b -> b <= Z.of_nat (length l1) -> slice (l1 ++ l2) a b = slice l1 a b.
Proof.
  intros. unfold slice. rewrite drop_app_le by lia.
  rewrite take_app_le; [done|]. rewrite length_drop. lia.
Qed.

Lemma slice_cat {A} (l : list A) a b c :
  0 <= a <= b -> b <= c -> slice l a b ++ slice l b c = slice l a c.
Proof.
  intros. unfold slice.
  replace (Z.to_nat (c - a)) with (Z.to_nat (b - a) + Z.to_nat (c - b))%nat by lia.
  rewrite <- take_take_drop, drop_drop. do 3 f_equal. lia.
Qed.

(** ** Summation over lists *)

Fixpoint sumZ {A} (f : A -> Z) (l : list A) : Z :=
  match l with
  | [] => 0
  | x :: l' => f x + sumZ f l'
  end.

Lemma sumZ_app {A} (f : A -> Z) l1 l2 : sumZ f (l1 ++ l2) = sumZ f l1 + sumZ f l2.
Proof. induction l1; cbn; lia. Qed.
Lemma sumZ_nonneg {A} (f : A -> Z) l : (forall x, x ∈ l -> 0 <= f x) -> 0 <= sumZ f l.
Proof.
  induction l as [|x l IH]; cbn; [lia|]. intros H.
  pose proof (H x ltac:(set_solver)). pose proof (IH ltac:(set_solver)). lia.
Qed.
Lemma sumZ_elem_le {A} (f : A -> Z) l x :
  (forall y, y ∈ l -> 0 <= f y) -> x ∈ l -> f x <= sumZ f l.
Proof.
  induction l as [|y l IH]; [set_solver|]. cbn. intros Hpos Hx.
  pose proof (Hpos y ltac:(set_solver)).
  pose proof (sumZ_nonneg f l ltac:(set_solver)).
  apply elem_of_cons in Hx as [->|Hx]; [lia|].
  pose proof (IH ltac:(set_solver) Hx). lia.
Qed.
Lemma elem_of_list_insert {A} (l : list A) i x y : y ∈ <[i := x]> l -> y = x \/ y ∈ l.
Proof.
  intros [j Hj]%list_elem_of_lookup. destruct (decide (i = j)) as [<-|].
  - destruct (decide (i < length l)%nat); [rewrite list_lookup_insert_eq in Hj by done; injection Hj; auto|].
    rewrite list_insert_ge in Hj by lia. right. by eapply list_elem_of_lookup_2.
  - rewrite list_lookup_insert_ne in Hj by done. right. by eapply list_elem_of_lookup_2.
Qed.

Lemma sumZ_list_insert {A} (f : A -> Z) (l : list A) i x y : l !! i = Some x -> sumZ f (<[i := y]> l) = sumZ f l - f x + f y.
Proof.
  revert i. induction l as [|z l IH]; intros [|i] Hi; [done|done| |].
  - injection Hi as ->. change (<[0%nat := y]> (x :: l)) with (y :: l). cbn [sumZ]. lia.
  - cbn in Hi. change (<[S i := y]> (z :: l)) with (z :: <[i := y]> l). cbn [sumZ]. rewrite (IH i Hi). lia.
Qed.

Lemma sumZ_holder {A} (f : A -> Z) (l : list A) i x : (forall y, 0 <= f y) -> l !! i = Some x -> f x <= sumZ f l.
Proof. intros Hf Hi. apply sumZ_elem_le; [auto|]. by eapply list_elem_of_lookup_2. Qed.

Lemma sumZ_ext {A} (f g : A -> Z) l : (forall x, x ∈ l -> f x = g x) -> sumZ f l = sumZ g l.
Proof.
  induction l as [|x l IH]; cbn; [done|]. intros H.
  rewrite (H x), IH by set_solver. done.
Qed.
#[global] Instance sumZ_proper {A} (f : A -> Z) : Proper (Permutation ==> eq) (sumZ f).
Proof. intros l1 l2 H. induction H; cbn; lia. Qed.

(** Boolean tests as propositions. *)
Ltac b2p :=
  repeat match goal with
  | H : (_ && _)%bool = true |- _ => apply andb_true_iff in H; destruct H
  | H : (_ || _)%bool = false |- _ => apply orb_false_iff in H; destruct H
  | H : negb _ = true |- _ => apply negb_true_iff in H
  | H : negb _ = false |- _ => apply negb_false_iff in H
  | H : (_ =? _) = true |- _ => apply Z.eqb_eq in H
  | H : (_ =? _) = false |- _ => apply Z.eqb_neq in H
  | H : (_ <? _) = true |- _ => apply Z.ltb_lt in H
  | H : (_ <? _) = false |- _ => apply Z.ltb_ge in H
  | H : (_ <=? _) = true |- _ => apply Z.leb_le in H
  | H : (_ <=? _) = false |- _ => apply Z.leb_gt in H
  | H : bool_decide _ = true |- _ => apply bool_decide_eq_true in H
  | H : bool_decide _ = false |- _ => apply bool_decide_eq_false in H
  end.

(** [concrete] closes goals about closed machine integers and byte lists. *)
Ltac concrete :=
  repeat match goal with
  | |- _ /\ _ => split
  | |- fits _ _ => unfold fits
  | |- fits_i64 _ => unfold fits_i64
  | |- byte_ok _ => unfold byte_ok
  | |- bytes_ok _ => unfold bytes_ok
  | |- Forall _ _ => constructor
  | |- _ <= _ => vm_compute; discriminate
  | |- _ < _ => vm_compute; reflexivity
  | |- _ <> _ => vm_compute; discriminate
  | |- _ = _ => vm_compute; reflexivity
  end.

(** ** Go string order: byte-wise lexicographic *)

Fixpoint bytes_leb (a b : bytes) : bool :=
  match a, b with
  | [], _ => true
  | _ :: _, [] => false
  | x :: a', y :: b' => (x <? y) || ((x =? y) && bytes_leb a' b')
  end.
Definition bytes_le (a b : bytes) : Prop := bytes_leb a b = true.

#[global] Instance bytes_le_dec : RelDecision bytes_le.
Proof. intros a b. unfold bytes_le. apply _. Defined.

#[global] Instance bytes_le_total : Total bytes_le.
Proof.
  intros a. induction a as [|x a IH]; intros [|y b]; [by left|by left|by right|].
  unfold bytes_le in *; cbn. destruct (Z.lt_trichotomy x y) as [H|[->|H]].
  - left. apply orb_true_iff; left. lia.
  - rewrite Z.ltb_irrefl, Z.eqb_refl. cbn. apply IH.
  - right. apply orb_true_iff; left. lia.
Qed.
#[global] Instance bytes_le_trans : Transitive bytes_le.
Proof.
  intros a. unfold bytes_le. induction a as [|x a IH]; intros [|y b] [|z c]; cbn; try done.
  intros H1 H2. apply orb_true_iff in H1 as [H1|H1], H2 as [H2|H2]; b2p; apply orb_true_iff.
  1-3: left; lia.
  right. apply andb_true_iff. split; [lia|]. eauto.
Qed.
#[global] Instance bytes_le_antisymm : AntiSymm (=) bytes_le.
Proof.
  intros a. unfold bytes_le. induction a as [|x a IH]; intros [|y b]; cbn; try done.
  intros H1 H2. apply orb_true_iff in H1 as [H1|H1], H2 as [H2|H2]; b2p; try lia.
  f_equal; [done|]. eauto.
Qed.

(** [sort.Strings] *)
Definition sortStrings (l : list bytes) : list bytes := merge_sort bytes_le l.

Lemma sortStrings_perm l : sortStrings l ≡ₚ l.
Proof. apply merge_sort_Permutation. Qed.
Lemma sortStrings_sorted l : Sorted bytes_le (sortStrings l).
Proof. apply Sorted_merge_sort. apply _. Qed.
Lemma sortStrings_ext l1 l2 : l1 ≡ₚ l2 -> sortStrings l1 = sortStrings l2.
Proof.
  intros H. apply (Sorted_unique bytes_le); try apply sortStrings_sorted.
  by rewrite !sortStrings_perm.
Qed.

(** [strings.HasPrefix] *)
Fixpoint HasPrefix (s p : bytes) : bool :=
  match p, s with
  | [], _ => true
  | _ :: _, [] => false
  | x :: p', y :: s' => (x =? y) && HasPrefix s' p'
  end.

Lemma HasPrefix_spec s p : HasPrefix s p = true <-> exists r, s = p ++ r.
Proof.
  revert s. induction p as [|x p IH]; intros [|y s]; cbn; try naive_solver.
  rewrite andb_true_iff, Z.eqb_eq, IH. naive_solver.
Qed.
