(* ===== verification/Hash.v ===== *)
(** * Hash functions of the Go standard library

    Executable definitions of [hash/crc32] (IEEE polynomial), [crypto/md5]
    and [crypto/sha256], with the published test vectors.  The cache uses
    CRC32 for document and checkpoint checksums and for stripe selection,
    MD5 for directory positions and fragment keys, and SHA-256 for the
    on-disk identity of a key. *)

From S2P Require Import Prelude.

(** ** CRC32, IEEE polynomial, reflected *)

Definition crc_bit (c : Z) : Z :=
  if Z.odd c then Z.lxor (Z.shiftr c 1) 0xedb88320 else Z.shiftr c 1.

Definition crc_byte (c b : Z) : Z :=
  Nat.iter 8 crc_bit (Z.lxor c b).

(** [crc32.Update crc IEEETable p] *)
Definition crc32_update (crc : Z) (p : bytes) : Z :=
  Z.lxor 0xffffffff (foldl crc_byte (Z.lxor 0xffffffff crc) p).

Definition ChecksumIEEE (p : bytes) : Z := crc32_update 0 p.

Lemma crc32_update_app c p q :
  crc32_update (crc32_update c p) q = crc32_update c (p ++ q).
Proof.
  unfold crc32_update. rewrite foldl_app. do 2 f_equal.
  by rewrite <- Z.lxor_assoc, Z.lxor_nilpotent, Z.lxor_0_l.
Qed.

(** ** 32-bit word helpers *)

Definition add32 (a b : Z) : Z := u32 (a + b).
Definition not32 (a : Z) : Z := Z.lxor a 0xffffffff.
Definition rotl32 (x n : Z) : Z := Z.lor (u32 (Z.shiftl x n)) (Z.shiftr x (32 - n)).
Definition rotr32 (x n : Z) : Z := rotl32 x (32 - n).

Fixpoint chunks (fuel n : nat) (l : bytes) : list bytes :=
  match fuel with
  | O => []
  | S fuel' => match l with [] => [] | _ => take n l :: chunks fuel' n (drop n l) end
  end.

(** Merkle-Damgard padding with a 64-bit length field produced by [len64]. *)
Definition md_pad (len64 : Z -> bytes) (m : bytes) : bytes :=
  let zeros := (55 - blen m) mod 64 in
  m ++ [0x80] ++ repeat 0 (Z.to_nat zeros) ++ len64 (8 * blen m).

Definition blocks (m : bytes) : list bytes := chunks (S (length m)) 64 m.
Definition nthZ (l : list Z) (i : Z) : Z := nth (Z.to_nat i) l 0.

(** ** MD5 *)

Definition md5_T : list Z :=
  [0xd76aa478; 0xe8c7b756; 0x242070db; 0xc1bdceee; 0xf57c0faf; 0x4787c62a;
   0xa8304613; 0xfd469501; 0x698098d8; 0x8b44f7af; 0xffff5bb1; 0x895cd7be;
   0x6b901122; 0xfd987193; 0xa679438e; 0x49b40821; 0xf61e2562; 0xc040b340;
   0x265e5a51; 0xe9b6c7aa; 0xd62f105d; 0x2441453; 0xd8a1e681; 0xe7d3fbc8;
   0x21e1cde6; 0xc33707d6; 0xf4d50d87; 0x455a14ed; 0xa9e3e905; 0xfcefa3f8;
   0x676f02d9; 0x8d2a4c8a; 0xfffa3942; 0x8771f681; 0x6d9d6122; 0xfde5380c;
   0xa4beea44; 0x4bdecfa9; 0xf6bb4b60; 0xbebfbc70; 0x289b7ec6; 0xeaa127fa;
   0xd4ef3085; 0x4881d05; 0xd9d4d039; 0xe6db99e5; 0x1fa27cf8; 0xc4ac5665;
   0xf4292244; 0x432aff97; 0xab9423a7; 0xfc93a039; 0x655b59c3; 0x8f0ccc92;
   0xffeff47d; 0x85845dd1; 0x6fa87e4f; 0xfe2ce6e0; 0xa3014314; 0x4e0811a1;
   0xf7537e82; 0xbd3af235; 0x2ad7d2bb; 0xeb86d391].
Definition md5_S : list Z :=
  [7; 12; 17; 22; 7; 12;
   17; 22; 7; 12; 17; 22;
   7; 12; 17; 22; 5; 9;
   14; 20; 5; 9; 14; 20;
   5; 9; 14; 20; 5; 9;
   14; 20; 4; 11; 16; 23;
   4; 11; 16; 23; 4; 11;
   16; 23; 4; 11; 16; 23;
   6; 10; 15; 21; 6; 10;
   15; 21; 6; 10; 15; 21;
   6; 10; 15; 21].

Definition md5_round (w : list Z) (st : Z * Z * Z * Z) (i : Z) : Z * Z * Z * Z :=
  let '(a, b, c, d) := st in
  let '(f, g) :=
    if i <? 16 then (Z.lor (Z.land b c) (Z.land (not32 b) d), i)
    else if i <? 32 then (Z.lor (Z.land d b) (Z.land (not32 d) c), (5 * i + 1) mod 16)
    else if i <? 48 then (Z.lxor (Z.lxor b c) d, (3 * i + 5) mod 16)
    else (Z.lxor c (Z.lor b (not32 d)), (7 * i) mod 16) in
  let f' := u32 (f + a + nthZ md5_T i + nthZ w g) in
  (d, add32 b (rotl32 f' (nthZ md5_S i)), b, c).

Definition md5_block (st : Z * Z * Z * Z) (blk : bytes) : Z * Z * Z * Z :=
  let w := get_le <$> chunks 16 4 blk in
  let '(a, b, c, d) := foldl (md5_round w) st (seqZ 0 64) in
  let '(a0, b0, c0, d0) := st in
  (add32 a0 a, add32 b0 b, add32 c0 c, add32 d0 d).

Definition md5 (m : bytes) : bytes :=
  let '(a, b, c, d) :=
    foldl md5_block (0x67452301, 0xefcdab89, 0x98badcfe, 0x10325476)
      (blocks (md_pad (put_le 8) m)) in
  put_le 4 a ++ put_le 4 b ++ put_le 4 c ++ put_le 4 d.

Lemma length_md5 m : length (md5 m) = 16%nat.
Proof.
  unfold md5. destruct (foldl _ _ _) as [[[a b] c] d].
  by rewrite !length_app, !length_put_le.
Qed.

Lemma md5_ok m : bytes_ok (md5 m).
Proof.
  unfold md5. destruct (foldl _ _ _) as [[[a b] c] d].
  repeat apply Forall_app_2; apply put_le_ok.
Qed.

(** ** SHA-256 *)

(** The round constants and the initial state are the first 32 bits of the
    fractional parts of the cube and square roots of the first primes. *)
Definition is_prime (n : Z) : bool :=
  forallb (fun d => negb (n mod d =? 0)) (seqZ 2 (n - 2)).
Definition primes (bound : Z) : list Z := List.filter is_prime (seqZ 2 (bound - 2)).

(** Integer cube root of [n], one bit at a time from bit [k]. *)
Fixpoint cbrt (k : nat) (acc n : Z) : Z :=
  match k with
  | O => acc
  | S k' =>
      let c := acc + 2 ^ Z.of_nat k' in
      cbrt k' (if c * c * c <=? n then c else acc) n
  end.

Definition sha256_K : list Z :=
  Eval vm_compute in (fun p => cbrt 40 0 (p * 2 ^ 96) mod 2 ^ 32) <$> primes 312.
Definition sha256_H : list Z :=
  Eval vm_compute in (fun p => Z.sqrt (p * 2 ^ 64) mod 2 ^ 32) <$> take 8 (primes 20).

(** Message schedule, kept most recent word first. *)
Definition sha256_extend (w : list Z) : list Z :=
  let s0 x := Z.lxor (Z.lxor (rotr32 x 7) (rotr32 x 18)) (Z.shiftr x 3) in
  let s1 x := Z.lxor (Z.lxor (rotr32 x 17) (rotr32 x 19)) (Z.shiftr x 10) in
  u32 (nthZ w 15 + s0 (nthZ w 14) + nthZ w 6 + s1 (nthZ w 1)) :: w.

Definition sha256_schedule (blk : bytes) : list Z :=
  rev (Nat.iter 48 sha256_extend (rev (get_be <$> chunks 16 4 blk))).

Definition sha256_round (st : list Z) (kw : Z * Z) : list Z :=
  match st with
  | [a; b; c; d; e; f; g; h] =>
      let S1 := Z.lxor (Z.lxor (rotr32 e 6) (rotr32 e 11)) (rotr32 e 25) in
      let ch := Z.lxor (Z.land e f) (Z.land (not32 e) g) in
      let t1 := u32 (h + S1 + ch + kw.1 + kw.2) in
      let S0 := Z.lxor (Z.lxor (rotr32 a 2) (rotr32 a 13)) (rotr32 a 22) in
      let maj := Z.lxor (Z.lxor (Z.land a b) (Z.land a c)) (Z.land b c) in
      [u32 (t1 + (S0 + maj)); a; b; c; add32 d t1; e; f; g]
  | _ => st
  end.

Definition sha256_block (st : list Z) (blk : bytes) : list Z :=
  zip_with add32 st (foldl sha256_round st (zip sha256_K (sha256_schedule blk))).

Definition sha256 (m : bytes) : bytes :=
  foldl sha256_block sha256_H (blocks (md_pad (put_be 8) m)) ≫= put_be 4.

(** ** Published test vectors *)

Example crc32_check : ChecksumIEEE (seqZ 0x31 9) = 0xcbf43926.
Proof. vm_compute. reflexivity. Qed.
Example md5_abc : get_be (md5 [0x61; 0x62; 0x63]) = 0x900150983cd24fb0d6963f7d28e17f72.
Proof. vm_compute. reflexivity. Qed.
Example md5_empty : get_be (md5 []) = 0xd41d8cd98f00b204e9800998ecf8427e.
Proof. vm_compute. reflexivity. Qed.
Example sha256_abc :
  get_be (sha256 [0x61; 0x62; 0x63]) =
  0xba7816bf8f01cfea414140de5dae2223b00361a396177a9cb410ff61f20015ad.
Proof. vm_compute. reflexivity. Qed.
Example sha256_empty :
  get_be (sha256 []) = 0xe3b0c44298fc1c149afbf4c8996fb92427ae41e4649b934ca495991b7852b855.
Proof. vm_compute. reflexivity. Qed.
Example sha256_two_blocks :
  get_be (sha256 (repeat 0x61 64)) =
  0xffe054fe7ae0cb6dc65c3af9b61d5209f439851db43d0ba5997337df154668eb.
Proof. vm_compute. reflexivity. Qed.

Lemma sha256_shape st l :
  length st = 8%nat -> length (foldl sha256_round st l) = 8%nat.
Proof.
  revert st. induction l as [|x l IH]; intros st Hst; [done|].
  cbn [foldl]. apply IH.
  do 9 (destruct st as [|? st]; try done).
Qed.

Lemma length_sha256 m : length (sha256 m) = 32%nat.
Proof.
  unfold sha256.
  assert (forall bs st, length st = 8%nat -> length (foldl sha256_block st bs) = 8%nat) as H.
  { induction bs as [|b bs IH]; intros st Hst; [done|]. cbn [foldl]. apply IH.
    unfold sha256_block. rewrite length_zip_with, sha256_shape, Hst by done. done. }
  pose proof (H (blocks (md_pad (put_be 8) m)) sha256_H eq_refl) as Hl.
  destruct (foldl _ _ _) as [|x0 l]; [done|].
  do 8 (destruct l as [|? l]; try done).
Qed.

Lemma sha256_ok m : bytes_ok (sha256 m).
Proof.
  unfold sha256. generalize (foldl sha256_block sha256_H (blocks (md_pad (put_be 8) m))).
  intros l. induction l as [|x l IH]; [constructor|].
  rewrite bind_cons. apply Forall_app_2; [apply put_be_ok | exact IH].
Qed.

(** ** The CRC step is injective on 32-bit words

    Together with linearity of the update over concatenation this gives the
    error detection that document validation relies on. *)

Lemma fits_lxor w a b : 0 <= w -> fits w a -> fits w b -> fits w (Z.lxor a b).
Proof.
  unfold fits. intros Hw Ha Hb.
  assert (0 <= Z.lxor a b) by (apply Z.lxor_nonneg; lia).
  split; [done|]. destruct (decide (Z.lxor a b = 0)) as [->|]; [lia|].
  destruct (decide (w = 0)) as [->|]; [assert (a = 0) as -> by lia; assert (b = 0) as -> by lia; done|].
  pose proof (Z.log2_lxor a b ltac:(lia) ltac:(lia)) as Hlog.
  apply Z.log2_lt_pow2; [lia|].
  assert (forall x, 0 <= x < 2 ^ w -> Z.log2 x < w) as Hx.
  { intros x Hx. destruct (decide (x = 0)) as [->|]; [cbn; lia|]. apply Z.log2_lt_pow2; lia. }
  pose proof (Hx a Ha). pose proof (Hx b Hb). lia.
Qed.

Lemma crc_bit_fits c : fits 32 c -> fits 32 (crc_bit c).
Proof.
  intros Hc. unfold crc_bit.
  assert (fits 32 (Z.shiftr c 1)) by (unfold fits in *; rewrite Z.shiftr_div_pow2 by lia;
    Z.to_euclidean_division_equations; lia).
  destruct (Z.odd c); [|done]. apply fits_lxor; [lia|done|unfold fits; lia].
Qed.

Lemma crc_bit_top c : fits 32 c -> Z.testbit (crc_bit c) 31 = Z.odd c.
Proof.
  intros Hc. unfold crc_bit.
  assert (Z.testbit (Z.shiftr c 1) 31 = false) as Hs.
  { rewrite Z.shiftr_spec by lia. change (31 + 1) with 32.
    destruct (decide (c = 0)) as [->|]; [done|]. unfold fits in Hc.
    apply Z.bits_above_log2; [lia|]. apply Z.log2_lt_pow2; lia. }
  destruct (Z.odd c); [|done]. rewrite Z.lxor_spec, Hs. done.
Qed.

Lemma crc_bit_inj a b : fits 32 a -> fits 32 b -> crc_bit a = crc_bit b -> a = b.
Proof.
  intros Ha Hb Heq.
  assert (Z.odd a = Z.odd b) as Hodd by (rewrite <- !crc_bit_top, Heq by done; done).
  assert (Z.shiftr a 1 = Z.shiftr b 1) as Hs.
  { unfold crc_bit in Heq. rewrite <- Hodd in Heq. destruct (Z.odd a); [|done].
    apply (f_equal (fun x => Z.lxor x 0xedb88320)) in Heq.
    by rewrite !Z.lxor_assoc, Z.lxor_nilpotent, !Z.lxor_0_r in Heq. }
  rewrite <- !Z.div2_spec in Hs.
  pose proof (Z.div2_odd a). pose proof (Z.div2_odd b). rewrite Hs, Hodd in *. lia.
Qed.

Lemma crc_iter_fits n x : fits 32 x -> fits 32 (Nat.iter n crc_bit x).
Proof. intros Hx. induction n; [done|]. rewrite Nat.iter_succ. by apply crc_bit_fits. Qed.

Lemma crc_iter_inj n a b :
  fits 32 a -> fits 32 b -> Nat.iter n crc_bit a = Nat.iter n crc_bit b -> a = b.
Proof.
  intros Ha Hb. induction n as [|n IH]; [done|]. rewrite !Nat.iter_succ. intros Heq. apply IH.
  apply crc_bit_inj in Heq; auto using crc_iter_fits.
Qed.

Lemma byte_fits32 b : byte_ok b -> fits 32 b.
Proof. unfold byte_ok, fits. lia. Qed.

Lemma crc_byte_fits c b : fits 32 c -> byte_ok b -> fits 32 (crc_byte c b).
Proof.
  intros Hc Hb. apply crc_iter_fits, fits_lxor; auto using byte_fits32. lia.
Qed.

Lemma crc_byte_inj c1 b1 c2 b2 :
  fits 32 c1 -> fits 32 c2 -> byte_ok b1 -> byte_ok b2 ->
  crc_byte c1 b1 = crc_byte c2 b2 -> Z.lxor c1 b1 = Z.lxor c2 b2.
Proof.
  intros. eapply (crc_iter_inj 8); try eassumption; apply fits_lxor; auto using byte_fits32; lia.
Qed.

Lemma lxor_cancel_l a b c : Z.lxor a b = Z.lxor a c -> b = c.
Proof.
  intros H. apply (f_equal (Z.lxor a)) in H.
  by rewrite <- !Z.lxor_assoc, Z.lxor_nilpotent, !Z.lxor_0_l in H.
Qed.

Lemma crc_fold_fits c p : fits 32 c -> bytes_ok p -> fits 32 (foldl crc_byte c p).
Proof.
  intros Hc Hp. revert c Hc. induction Hp; intros c Hc; cbn [foldl]; [done|]. auto using crc_byte_fits.
Qed.

Lemma crc_fold_inj c1 c2 p :
  fits 32 c1 -> fits 32 c2 -> bytes_ok p -> foldl crc_byte c1 p = foldl crc_byte c2 p -> c1 = c2.
Proof.
  intros H1 H2 Hp. revert c1 c2 H1 H2. induction Hp as [|b p Hb Hp IH]; intros c1 c2 H1 H2 Heq;
    [done|]. cbn [foldl] in Heq. apply IH, crc_byte_inj in Heq; auto using crc_byte_fits.
  rewrite (Z.lxor_comm c1), (Z.lxor_comm c2) in Heq. by apply lxor_cancel_l in Heq.
Qed.

(** Two messages that differ in exactly one byte have different checksums. *)
Lemma crc32_one_byte c p b1 b2 q :
  fits 32 c -> bytes_ok p -> bytes_ok q -> byte_ok b1 -> byte_ok b2 ->
  crc32_update c (p ++ b1 :: q) = crc32_update c (p ++ b2 :: q) -> b1 = b2.
Proof.
  intros Hc Hp Hq Hb1 Hb2. unfold crc32_update. rewrite !foldl_app. cbn [foldl]. intros Heq.
  apply lxor_cancel_l in Heq.
  assert (fits 32 (foldl crc_byte (Z.lxor 4294967295 c) p)).
  { apply crc_fold_fits; [|done]. apply fits_lxor; [lia| unfold fits; lia | done]. }
  apply crc_fold_inj, crc_byte_inj in Heq; auto using crc_byte_fits.
  by apply lxor_cancel_l in Heq.
Qed.

Lemma crc32_fits c p : fits 32 c -> bytes_ok p -> fits 32 (crc32_update c p).
Proof.
  intros Hc Hp. unfold crc32_update. apply fits_lxor; [lia|unfold fits; lia|].
  apply crc_fold_fits; [|done]. apply fits_lxor; [lia|unfold fits; lia|done].
Qed.
