(* ===== verification/Dir.v ===== *)
(** * Directory entries

    The ten-byte directory entry of [cache/dir.go]: five 16-bit words that
    pack a 40-bit offset, a two-level approximate size, a 12-bit tag, four
    flags and the index of the next entry.  Every accessor and mutator is
    translated with its masks and shifts at the width the code uses. *)

From S2P Require Import Prelude.

(** Constants of [cache/const.go]. *)
Definition SectorSize : Z := 512.
Definition DirDataSizeLv0 : Z := 512.
Definition DirDataSizeLv1 : Z := 4096.
Definition DirDataSizeLv2 : Z := 32768.
Definition DirDataSizeLv3 : Z := 262144.
Definition DirMaxDataSize : Z := 16 * 1024 * 1024.
Definition DirDepth : Z := 4.
Definition MaxBucketsPerSegment : Z := 16384.
Definition TargetFragmentSize : Z := 1 * 1024 * 1024.

Record Dir : Type := mkDir { raw0 : Z; raw1 : Z; raw2 : Z; raw3 : Z; raw4 : Z }.

#[global] Instance Dir_eq_dec : EqDecision Dir.
Proof. solve_decision. Defined.

Definition dir_ok (d : Dir) : Prop :=
  fits 16 (raw0 d) /\ fits 16 (raw1 d) /\ fits 16 (raw2 d) /\ fits 16 (raw3 d) /\ fits 16 (raw4 d).

(** The zero value [Dir{}]. *)
Definition emptyDir : Dir := mkDir 0 0 0 0 0.

#[global] Instance Dir_inhabited : Inhabited Dir := populate emptyDir.

Definition clear (d : Dir) : Dir := mkDir 0 0 0 0 0.

Definition offset (d : Dir) : Z :=
  Z.lor (Z.lor (raw0 d) (Z.shiftl (Z.land (raw1 d) 0xff) 16)) (Z.shiftl (raw4 d) 24).

Definition setOffset (d : Dir) (off : Z) : Dir :=
  mkDir (u16 off)
        (u16 (Z.lor (Z.land (Z.shiftr off 16) 0xff) (Z.land (raw1 d) 0xff00)))
        (raw2 d) (raw3 d)
        (u16 (Z.shiftr off 24)).

Definition set_raw1 (d : Dir) (v : Z) : Dir := mkDir (raw0 d) v (raw2 d) (raw3 d) (raw4 d).
Definition set_raw2 (d : Dir) (v : Z) : Dir := mkDir (raw0 d) (raw1 d) v (raw3 d) (raw4 d).

Definition bigInternal (d : Dir) : Z := u8 (Z.land (Z.shiftr (raw1 d) 8) 0x3).
Definition setBigInternal (d : Dir) (big : Z) : Dir :=
  set_raw1 d (Z.lor (Z.land (raw1 d) 0xfcff) (u16 (Z.shiftl (u16 big) 8))).

Definition sizeInternal (d : Dir) : Z := u8 (Z.land (Z.shiftr (raw1 d) 10) 0x3f).
Definition setSizeInternal (d : Dir) (size : Z) : Dir :=
  set_raw1 d (Z.lor (Z.land (raw1 d) 0x83ff) (u16 (Z.shiftl (u16 size) 10))).

(** [setApproxSize] panics ([None]) above 16 MiB. *)
Definition setApproxSize (d : Dir) (size : Z) : option Dir :=
  if DirMaxDataSize <? size then None
  else if size <=? DirDataSizeLv0 then
    Some (setSizeInternal (setBigInternal d 0) (u8 (u64 (size - 1) / DirDataSizeLv0)))
  else if size <=? DirDataSizeLv1 then
    Some (setSizeInternal (setBigInternal d 1) (u8 (u64 (size - 1) / DirDataSizeLv1)))
  else if size <=? DirDataSizeLv2 then
    Some (setSizeInternal (setBigInternal d 2) (u8 (u64 (size - 1) / DirDataSizeLv2)))
  else
    Some (setSizeInternal (setBigInternal d 3) (u8 (u64 (size - 1) / DirDataSizeLv3))).

Definition approxSize (d : Dir) : Z :=
  u64 (u64 (Z.shiftl SectorSize (u8 (bigInternal d * 3))) * u8 (sizeInternal d + 1)).

Definition prev (d : Dir) : Z := raw2 d.
Definition setPrev (d : Dir) (p : Z) : Dir := set_raw2 d p.

Definition tag (d : Dir) : Z := Z.land (raw2 d) 0xfff.
Definition setTag (d : Dir) (t : Z) : Dir :=
  set_raw2 d (Z.lor (Z.land (raw2 d) 0xf000) (Z.land t 0xfff)).

Definition phase (d : Dir) : bool := Z.land (Z.shiftr (raw2 d) 12) 0x1 =? 1.
Definition setPhase (d : Dir) (p : bool) : Dir :=
  if p then set_raw2 d (Z.lor (raw2 d) (Z.shiftl 1 12))
  else set_raw2 d (Z.land (raw2 d) (Z.lxor 0xffff (Z.shiftl 1 12))).

Definition head (d : Dir) : bool := Z.land (Z.shiftr (raw2 d) 13) 0x1 =? 1.
(** The false branch keeps only the bit it is asked to clear. *)
Definition setHead (d : Dir) (h : bool) : Dir :=
  if h then set_raw2 d (Z.lor (raw2 d) (Z.shiftl 1 13))
  else set_raw2 d (Z.land (raw2 d) (Z.shiftl 1 13)).

Definition pinned (d : Dir) : bool := Z.land (Z.shiftr (raw2 d) 14) 0x1 =? 1.
Definition setPinned (d : Dir) (p : bool) : Dir :=
  if p then set_raw2 d (Z.lor (raw2 d) (Z.shiftl 1 14))
  else set_raw2 d (Z.land (raw2 d) (Z.shiftl 1 14)).

Definition token (d : Dir) : bool := Z.land (Z.shiftr (raw2 d) 15) 0x1 =? 1.
Definition setToken (d : Dir) (t : bool) : Dir :=
  if t then set_raw2 d (Z.lor (raw2 d) (Z.shiftl 1 15))
  else set_raw2 d (Z.land (raw2 d) (Z.lxor 0xffff (Z.shiftl 1 15))).

Definition next (d : Dir) : Z := raw3 d.
Definition setNext (d : Dir) (n : Z) : Dir := mkDir (raw0 d) (raw1 d) (raw2 d) n (raw4 d).

(** [binary.Write]/[binary.Read] of the five words, big endian. *)
Definition MarshalBinary (d : Dir) : bytes :=
  put_be 2 (raw0 d) ++ put_be 2 (raw1 d) ++ put_be 2 (raw2 d) ++
  put_be 2 (raw3 d) ++ put_be 2 (raw4 d).

Definition UnmarshalBinary (data : bytes) : result Dir :=
  _ ← read_guard 10 data;
  let '(r0, l) := take_be 2 data in
  let '(r1, l) := take_be 2 l in
  let '(r2, l) := take_be 2 l in
  let '(r3, l) := take_be 2 l in
  let '(r4, l) := take_be 2 l in
  Ok (mkDir r0 r1 r2 r3 r4).

(** ** Bit-level reasoning *)

Create Rewrite HintDb bits.
#[export] Hint Rewrite Z.lor_spec Z.land_spec Z.lxor_spec Z.testbit_0_l : bits.
#[export] Hint Rewrite Z.shiftl_spec Z.shiftr_spec Z.mod_pow2_bits_low Z.mod_pow2_bits_high
  using lia : bits.

Lemma testbit_high w z i : fits w z -> 0 <= w <= i -> Z.testbit z i = false.
Proof.
  unfold fits. intros Hz Hi. destruct (decide (z = 0)) as [->|Hn]; [apply Z.testbit_0_l|].
  apply Z.bits_above_log2; [lia|].
  assert (Z.log2 z < w); [|lia]. apply Z.log2_lt_pow2; lia.
Qed.

(** Case analysis on the sixteen bit positions of a word. *)
Lemma bit16_cases (P : Z -> Prop) i :
  0 <= i -> P 0 -> P 1 -> P 2 -> P 3 -> P 4 -> P 5 -> P 6 -> P 7 -> P 8 -> P 9 -> P 10 ->
  P 11 -> P 12 -> P 13 -> P 14 -> P 15 -> (forall j, 16 <= j -> P j) -> P i.
Proof.
  intros. destruct (decide (16 <= i)); [auto|].
  assert (i = 0 \/ i = 1 \/ i = 2 \/ i = 3 \/ i = 4 \/ i = 5 \/ i = 6 \/ i = 7 \/ i = 8 \/
    i = 9 \/ i = 10 \/ i = 11 \/ i = 12 \/ i = 13 \/ i = 14 \/ i = 15) by lia.
  destruct_or!; subst; assumption.
Qed.

Lemma lor_shiftl_add a b n : 0 <= n -> 0 <= a < 2 ^ n -> Z.lor a (Z.shiftl b n) = a + b * 2 ^ n.
Proof.
  intros Hn Ha. rewrite <- Z.shiftl_mul_pow2, Z.add_nocarry_lxor, Z.lxor_lor; try done.
  all: apply Z.bits_inj'; intros i Hi; rewrite Z.land_spec, Z.testbit_0_l;
    destruct (decide (i < n)); [rewrite Z.shiftl_spec_low by lia; apply andb_false_r|];
    rewrite (testbit_high n) by (done || lia); done.
Qed.

Lemma land_low x n : 0 <= n -> Z.land x (2 ^ n - 1) = x mod 2 ^ n.
Proof. intros. rewrite <- Z.land_ones by lia. f_equal. rewrite Z.ones_equiv. lia. Qed.

(** [bits16] proves an equation between words built from masks and shifts;
    operands that are known to fit a width vanish above it. *)
Ltac bits_high :=
  repeat match goal with
  | H : fits ?w ?z |- context [Z.testbit ?z ?i] => rewrite (testbit_high w z i H) by lia
  end.
Ltac bits_tail :=
  unfold u8, u16; autorewrite with bits; cbn -[Z.testbit]; bits_high;
  repeat match goal with
  | |- context [Z.testbit (Zpos ?p) ?j] =>
      first [ rewrite (testbit_high 16 (Zpos p) j) by (unfold fits; lia)
            | let v := eval vm_compute in (Z.testbit (Zpos p) j) in
              change (Z.testbit (Zpos p) j) with v ]
  end;
  rewrite ?andb_true_r, ?andb_false_r, ?orb_false_r, ?orb_true_r; cbn -[Z.testbit];
  try reflexivity.
Ltac bits16 :=
  apply Z.bits_inj'; let i := fresh "i" in intros i Hi; pattern i;
  apply bit16_cases; [exact Hi|..];
  try (intros ? ?); bits_tail.

Lemma flag_testbit x n : 0 <= n -> (Z.land (Z.shiftr x n) 0x1 =? 1) = Z.testbit x n.
Proof.
  intros Hn. change 1 with (2 ^ 1 - 1) at 1. rewrite land_low by lia.
  change (2 ^ 1) with 2. rewrite <- Z.bit0_mod, Z.shiftr_spec, Z.add_0_l by lia.
  by destruct (Z.testbit x n).
Qed.

Lemma fits_16_land a b : fits 16 b -> fits 16 (Z.land a b).
Proof.
  unfold fits. intros Hb. split; [apply Z.land_nonneg; lia|].
  destruct (decide (Z.land a b = 0)) as [->|]; [lia|].
  apply Z.log2_lt_cancel. rewrite Z.log2_pow2 by lia.
  apply Z.log2_lt_pow2; [|].
  - pose proof (proj2 (Z.land_nonneg a b) ltac:(lia)). lia.
  - rewrite <- (Z.mod_small b (2 ^ 16)) by lia. rewrite <- Z.land_ones by lia.
    rewrite Z.land_assoc, Z.land_ones by lia. apply Z.mod_pos_bound. lia.
Qed.

Lemma offset_eq d :
  fits 16 (raw0 d) -> offset d = raw0 d + (raw1 d mod 2 ^ 8) * 2 ^ 16 + raw4 d * 2 ^ 24.
Proof.
  unfold fits, offset. intros H0. change 0xff with (2 ^ 8 - 1). rewrite land_low by lia.
  pose proof (Z.mod_pos_bound (raw1 d) (2 ^ 8) ltac:(lia)).
  rewrite (lor_shiftl_add (raw0 d)) by lia. rewrite lor_shiftl_add by lia. lia.
Qed.

Lemma raw1_low_setOffset d off : u16 (Z.lor (Z.land (Z.shiftr off 16) 0xff) (Z.land (raw1 d) 0xff00)) mod 2 ^ 8
  = (off / 2 ^ 16) mod 2 ^ 8.
Proof.
  rewrite <- (land_low (u16 _) 8), <- (land_low (_ / _) 8), <- Z.shiftr_div_pow2 by lia.
  change (2 ^ 8 - 1) with 0xff. bits16.
Qed.

(** The stored offset is the low 40 bits of the argument. *)
Lemma offset_setOffset d off : 0 <= off -> offset (setOffset d off) = off mod 2 ^ 40.
Proof.
  intros Hoff. rewrite offset_eq by apply u16_fits. unfold setOffset; cbn [raw0 raw1 raw4].
  rewrite raw1_low_setOffset, Z.shiftr_div_pow2 by lia. unfold u16.
  change (2 ^ 40) with (2 ^ 16 * (2 ^ 8 * 2 ^ 16)).
  rewrite !Z.rem_mul_r by lia. rewrite Z.div_div by lia.
  change (2 ^ 16 * 2 ^ 8) with (2 ^ 24). lia.
Qed.

Lemma offset_set_raw2 d v : offset (set_raw2 d v) = offset d.
Proof. done. Qed.
Lemma offset_setNext d n : offset (setNext d n) = offset d.
Proof. done. Qed.
Lemma offset_setPrev d n : offset (setPrev d n) = offset d.
Proof. done. Qed.

Lemma offset_setBigInternal d b : offset (setBigInternal d b) = offset d.
Proof.
  unfold offset, setBigInternal, set_raw1; cbn. do 3 f_equal. bits16.
Qed.
Lemma offset_setSizeInternal d s : offset (setSizeInternal d s) = offset d.
Proof.
  unfold offset, setSizeInternal, set_raw1; cbn. do 3 f_equal. bits16.
Qed.

Lemma bigInternal_setBigInternal d b : 0 <= b < 4 -> bigInternal (setBigInternal d b) = b.
Proof.
  intros Hb. assert (fits 2 b) by (unfold fits; lia).
  unfold bigInternal, setBigInternal, set_raw1; cbn. bits16.
Qed.
Lemma bigInternal_setSizeInternal d s : bigInternal (setSizeInternal d s) = bigInternal d.
Proof. unfold bigInternal, setSizeInternal, set_raw1; cbn. bits16. Qed.

(** The mask of [setSizeInternal] keeps bit 15, so the written size is read
    back exactly when the previous size was below 32. *)
Lemma sizeInternal_setSizeInternal d s :
  0 <= s < 64 -> Z.testbit (raw1 d) 15 = false -> sizeInternal (setSizeInternal d s) = s.
Proof.
  intros Hs H15. assert (fits 6 s) by (unfold fits; lia).
  unfold sizeInternal, setSizeInternal, set_raw1; cbn. bits16.
  change (5 + 10) with 15. by rewrite H15.
Qed.
Lemma testbit15_setBigInternal d b :
  0 <= b < 4 -> Z.testbit (raw1 (setBigInternal d b)) 15 = Z.testbit (raw1 d) 15.
Proof.
  intros Hb. assert (fits 2 b) by (unfold fits; lia).
  unfold setBigInternal, set_raw1; cbn [raw1]. bits_tail.
Qed.
Lemma testbit15_setOffset d off : Z.testbit (raw1 (setOffset d off)) 15 = Z.testbit (raw1 d) 15.
Proof. unfold setOffset; cbn [raw1]. bits_tail. Qed.

Lemma tag_setTag d t : tag (setTag d t) = t mod 2 ^ 12.
Proof.
  unfold tag, setTag, set_raw2; cbn. rewrite <- land_low by lia.
  change (2 ^ 12 - 1) with 0xfff. bits16.
Qed.
Lemma tag_setPhase d p : tag (setPhase d p) = tag d.
Proof. destruct p; unfold tag, setPhase, set_raw2; cbn; bits16. Qed.
Lemma phase_setPhase d p : phase (setPhase d p) = p.
Proof.
  unfold phase. rewrite flag_testbit by lia.
  destruct p; unfold setPhase, set_raw2; cbn [raw2]; bits_tail.
Qed.
Lemma head_setPhase d p : head (setPhase d p) = head d.
Proof.
  unfold head. rewrite !flag_testbit by lia.
  destruct p; unfold setPhase, set_raw2; cbn [raw2]; bits_tail.
Qed.
Lemma head_setTag d t : head (setTag d t) = head d.
Proof.
  unfold head. rewrite !flag_testbit by lia. unfold setTag, set_raw2; cbn [raw2]. bits_tail.
Qed.
Lemma head_setHead_true d : head (setHead d true) = true.
Proof.
  unfold head. rewrite !flag_testbit by lia. unfold setHead, set_raw2; cbn [raw2]. bits_tail.
Qed.

Lemma approxSize_eq d :
  0 <= bigInternal d < 4 -> 0 <= sizeInternal d < 64 ->
  approxSize d = SectorSize * 8 ^ bigInternal d * (sizeInternal d + 1).
Proof.
  intros Hb Hs. unfold approxSize.
  rewrite (u8_small (bigInternal d * 3)), (u8_small (_ + 1)) by (unfold fits; lia).
  rewrite Z.shiftl_mul_pow2 by lia.
  assert (2 ^ (bigInternal d * 3) = 8 ^ bigInternal d) as ->.
  { rewrite Z.mul_comm, Z.pow_mul_r by lia. done. }
  assert (8 ^ bigInternal d <= 8 ^ 3) by (apply Z.pow_le_mono_r; lia).
  assert (0 < 8 ^ bigInternal d) by (apply Z.pow_pos_nonneg; lia).
  unfold SectorSize. generalize dependent (8 ^ bigInternal d). intros e He He0.
  change (8 ^ 3) with 512 in He. rewrite (u64_small (512 * e)) by (unfold fits; lia).
  apply u64_small. unfold fits. nia.
Qed.

(** ** The size class of an entry covers the record it describes *)
Lemma setApproxSize_spec d size :
  Z.testbit (raw1 d) 15 = false -> 0 < size <= DirMaxDataSize ->
  exists d', setApproxSize d size = Some d' /\ offset d' = offset d /\ raw2 d' = raw2 d /\
    raw3 d' = raw3 d /\ size <= approxSize d' <= Z.max 512 (8 * size).
Proof.
  intros H15 Hsize. unfold setApproxSize, DirMaxDataSize in *.
  destruct (_ <? size) eqn:E; b2p; [lia|].
  unfold DirDataSizeLv0, DirDataSizeLv1, DirDataSizeLv2, DirDataSizeLv3 in *.
  rewrite u64_small by (unfold fits; lia).
  assert (forall b u, 0 <= b < 4 -> 0 < u -> (size - 1) / u < 64 -> u = 512 * 8 ^ b ->
    exists d', Some (setSizeInternal (setBigInternal d b) (u8 ((size - 1) / u))) = Some d' /\
      offset d' = offset d /\ raw2 d' = raw2 d /\ raw3 d' = raw3 d /\
      approxSize d' = u * ((size - 1) / u + 1)) as Hgen.
  { intros b u Hb Hu Hq Hub. pose proof (Z.div_pos (size - 1) u ltac:(lia) Hu).
    eexists; split; [done|]. split_and!.
    - by rewrite offset_setSizeInternal, offset_setBigInternal.
    - done.
    - done.
    - rewrite (u8_small ((size - 1) / u)) by (unfold fits; lia).
      assert (bigInternal (setSizeInternal (setBigInternal d b) ((size - 1) / u)) = b) as Eb
        by (rewrite bigInternal_setSizeInternal; by apply bigInternal_setBigInternal).
      assert (sizeInternal (setSizeInternal (setBigInternal d b) ((size - 1) / u)) = (size - 1) / u) as Es
        by (apply sizeInternal_setSizeInternal; [lia|]; by rewrite testbit15_setBigInternal).
      rewrite approxSize_eq; rewrite ?Eb, ?Es; unfold SectorSize; lia. }
  destruct (size <=? 512) eqn:E0; [|destruct (size <=? 4096) eqn:E1; [|destruct (size <=? 32768) eqn:E2]]; b2p.
  - destruct (Hgen 0 512) as (d' & ? & ? & ? & ? & ?); [lia|lia|Z.to_euclidean_division_equations; lia|done|].
    exists d'; split_and!; try done; Z.to_euclidean_division_equations; lia.
  - destruct (Hgen 1 4096) as (d' & ? & ? & ? & ? & ?); [lia|lia|Z.to_euclidean_division_equations; lia|done|].
    exists d'; split_and!; try done; Z.to_euclidean_division_equations; lia.
  - destruct (Hgen 2 32768) as (d' & ? & ? & ? & ? & ?); [lia|lia|Z.to_euclidean_division_equations; lia|done|].
    exists d'; split_and!; try done; Z.to_euclidean_division_equations; lia.
  - destruct (Hgen 3 262144) as (d' & ? & ? & ? & ? & ?); [lia|lia|Z.to_euclidean_division_equations; lia|done|].
    exists d'; split_and!; try done; Z.to_euclidean_division_equations; lia.
Qed.

Lemma Dir_roundtrip_raw d : dir_ok d -> UnmarshalBinary (MarshalBinary d) = Ok d.
Proof.
  intros (H0 & H1 & H2 & H3 & H4). unfold UnmarshalBinary, MarshalBinary, read_guard.
  autorewrite with blen. cbn [Z.ltb Z.compare Z.add mbind result_bind].
  destruct d as [r0 r1 r2 r3 r4]; cbn [raw0 raw1 raw2 raw3 raw4] in *.
  rewrite !take_be_put by done. rewrite <- (app_nil_r (put_be 2 r4)), take_be_put by done. done.
Qed.

(** The false branches of [setHead] and [setPinned] do not clear their flag;
    they erase every other bit of the word, the tag included. *)
Lemma setHead_false_effect d :
  head (setHead d false) = head d /\ tag (setHead d false) = 0 /\ phase (setHead d false) = false.
Proof.
  split_and!.
  - unfold head. rewrite !flag_testbit by lia. unfold setHead, set_raw2; cbn [raw2]. bits_tail.
  - unfold tag, setHead, set_raw2; cbn [raw2]. bits16.
  - unfold phase. rewrite !flag_testbit by lia. unfold setHead, set_raw2; cbn [raw2]. bits_tail.
Qed.
