(* ===== verification/Doc.v ===== *)
(** * Documents, identities and stripe headers

    The on-disk record of a fragment ([cache/doc.go]), the fixed-width key
    identity ([cache/identity.go]) and the legacy stripe header
    ([cache/stripe_header.go]): their encodings, the checksum and the
    validation a reader runs. *)

From S2P Require Import Prelude Hash Dir.

Definition DocMagic : Z := 0x5F129B13.
Definition DocHeaderSize : Z := 72.
Definition docIdentityVersion : Z := 3.
Definition AggBufferSize : Z := 4 * 1024 * 1024.
Definition AggHighWaterMark : Z := AggBufferSize / 2.

Record Doc : Type := mkDoc {
  Magic : Z; Len : Z; TotalLen : Z; FirstKey : bytes; Key : bytes; HLen : Z;
  DocType : Z; VMajor : Z; VMinor : Z; Unused : Z;
  SyncSerial : Z; WriteSerial : Z; Pinned : Z; Checksum : Z }.

#[global] Instance Doc_eq_dec : EqDecision Doc.
Proof. solve_decision. Defined.

(** [docKey]: the first sixteen bytes of the SHA-256 digest. *)
Definition docKey (key : bytes) : bytes := take 16 (sha256 key).

Lemma length_docKey key : length (docKey key) = 16%nat.
Proof. unfold docKey. by rewrite length_take, length_sha256. Qed.
Lemma docKey_ok key : bytes_ok (docKey key).
Proof. apply Forall_take, sha256_ok. Qed.

Definition setChecksum (d : Doc) (c : Z) : Doc :=
  mkDoc (Magic d) (Len d) (TotalLen d) (FirstKey d) (Key d) (HLen d) (DocType d) (VMajor d)
        (VMinor d) (Unused d) (SyncSerial d) (WriteSerial d) (Pinned d) c.

Definition MarshalBinary (d : Doc) : bytes :=
  put_be 4 (Magic d) ++ put_be 4 (Len d) ++ put_be 8 (TotalLen d) ++ FirstKey d ++ Key d ++
  put_be 4 (HLen d) ++ put_be 1 (DocType d) ++ put_be 1 (VMajor d) ++ put_be 1 (VMinor d) ++
  put_be 1 (Unused d) ++ put_be 4 (SyncSerial d) ++ put_be 4 (WriteSerial d) ++
  put_be 4 (Pinned d) ++ put_be 4 (Checksum d).

Definition UnmarshalBinary (data : bytes) : result Doc :=
  _ ← read_guard DocHeaderSize data;
  let '(magic, l) := take_be 4 data in
  let '(len, l) := take_be 4 l in
  let '(total, l) := take_be 8 l in
  let '(first, l) := take_bytes 16 l in
  let '(key, l) := take_bytes 16 l in
  let '(hlen, l) := take_be 4 l in
  let '(dtype, l) := take_be 1 l in
  let '(vmajor, l) := take_be 1 l in
  let '(vminor, l) := take_be 1 l in
  let '(unused, l) := take_be 1 l in
  let '(sync, l) := take_be 4 l in
  let '(write, l) := take_be 4 l in
  let '(pinned, l) := take_be 4 l in
  let '(sum, l) := take_be 4 l in
  Ok (mkDoc magic len total first key hlen dtype vmajor vminor unused sync write pinned sum).

(** [uint32] subtraction wraps. *)
Definition DataLen (d : Doc) : Z := u32 (u32 (Len d - DocHeaderSize) - HLen d).
Definition PrefixLen (d : Doc) : Z := u32 (DocHeaderSize + HLen d).
Definition SingleFragment (d : Doc) : bool := DataLen d =? TotalLen d.

Definition CalculateChecksum (d : Doc) (data : bytes) : Z :=
  if (Len d <? DocHeaderSize) || (blen data <? Len d - DocHeaderSize) then 0
  else
    let encoded := MarshalBinary (setChecksum d 0) in
    let sum := crc32_update 0 encoded in
    crc32_update sum (slice data 0 (Len d - DocHeaderSize)).

Definition validate (d : Doc) (data : bytes) : result unit :=
  if negb (Magic d =? DocMagic) || negb (VMajor d =? docIdentityVersion)
     || negb (VMinor d =? 0) || negb (Unused d =? 0)
  then Err (Errorf "unsupported cache document")
  else if (Len d <? DocHeaderSize) || (AggBufferSize <? Len d) || (blen data <? Len d)
          || (Len d - DocHeaderSize <? HLen d) || (TargetFragmentSize <? DataLen d)
  then Err (Errorf "invalid cache fragment length")
  else if negb (Checksum d =? CalculateChecksum d (slice data DocHeaderSize (blen data)))
  then Err (Errorf "cache document checksum mismatch")
  else Ok tt.

(** ** Encoding *)

Definition doc_ok (d : Doc) : Prop :=
  fits 32 (Magic d) /\ fits 32 (Len d) /\ fits 64 (TotalLen d) /\
  (length (FirstKey d) = 16%nat) /\ (length (Key d) = 16%nat) /\
  fits 32 (HLen d) /\ fits 8 (DocType d) /\ fits 8 (VMajor d) /\ fits 8 (VMinor d) /\
  fits 8 (Unused d) /\ fits 32 (SyncSerial d) /\ fits 32 (WriteSerial d) /\
  fits 32 (Pinned d) /\ fits 32 (Checksum d).

Lemma blen_MarshalBinary d : doc_ok d -> blen (MarshalBinary d) = DocHeaderSize.
Proof.
  intros (_ & _ & _ & H1 & H2 & _). unfold MarshalBinary. autorewrite with blen.
  unfold blen. rewrite H1, H2. done.
Qed.

Lemma Doc_decode d rest :
  doc_ok d -> UnmarshalBinary (MarshalBinary d ++ rest) = Ok d.
Proof.
  intros Hd. unfold UnmarshalBinary, read_guard.
  rewrite blen_app, blen_MarshalBinary by done. pose proof (blen_nonneg rest).
  destruct (_ <? _) eqn:E; b2p; [unfold DocHeaderSize in *; lia|]. cbn [mbind result_bind].
  destruct d as [m ln tl fk k hl dt vj vn un sy ws pn ck].
  destruct Hd as (?&?&?&?&?&?&?&?&?&?&?&?&?&?); cbn in * |-.
  unfold MarshalBinary; cbn [Magic Len TotalLen FirstKey Key HLen DocType VMajor VMinor Unused
    SyncSerial WriteSerial Pinned Checksum].
  rewrite <- !app_assoc.
  repeat first [rewrite take_be_put by done | rewrite take_bytes_app by done]. done.
Qed.

Lemma Doc_decode_header d rest :
  doc_ok d -> UnmarshalBinary (take 72 (MarshalBinary d ++ rest)) = Ok d.
Proof.
  intros Hd. pose proof (blen_MarshalBinary d Hd) as Hl. unfold blen, DocHeaderSize in Hl.
  rewrite take_app_length' by lia. rewrite <- (app_nil_r (MarshalBinary d)). by apply Doc_decode.
Qed.

(** ** Sealing and validation *)

Lemma setChecksum_twice d a b : setChecksum (setChecksum d a) b = setChecksum d b.
Proof. done. Qed.

Lemma CalculateChecksum_setChecksum d c data :
  CalculateChecksum (setChecksum d c) data = CalculateChecksum d data.
Proof. done. Qed.

Lemma MarshalBinary_bytes_ok d :
  bytes_ok (FirstKey d) -> bytes_ok (Key d) -> bytes_ok (MarshalBinary d).
Proof.
  intros. unfold MarshalBinary, bytes_ok.
  rewrite !Forall_app. split_and!; first [done | apply put_be_ok].
Qed.

(** The checksum of a sealed record is one CRC over the zeroed header, the
    metadata and the body. *)
Lemma CalculateChecksum_whole d payload :
  Len d = DocHeaderSize + blen payload ->
  CalculateChecksum d payload = ChecksumIEEE (MarshalBinary (setChecksum d 0) ++ payload).
Proof.
  intros Hl. unfold CalculateChecksum, ChecksumIEEE. pose proof (blen_nonneg payload).
  destruct (_ || _) eqn:E; b2p; [apply orb_true_iff in E as [E|E]; b2p; lia|].
  rewrite Hl. replace (DocHeaderSize + blen payload - DocHeaderSize) with (blen payload) by lia.
  unfold blen. rewrite slice_full. apply crc32_update_app.
Qed.

Lemma CalculateChecksum_fits d payload :
  bytes_ok (FirstKey d) -> bytes_ok (Key d) -> bytes_ok payload ->
  fits 32 (CalculateChecksum d payload).
Proof.
  intros. unfold CalculateChecksum. destruct (_ || _); [unfold fits; lia|].
  apply crc32_fits; [apply crc32_fits; [unfold fits; lia|]|].
  - by apply MarshalBinary_bytes_ok.
  - by apply Forall_take, Forall_drop.
Qed.

Definition sealable (d : Doc) (payload : bytes) : Prop :=
  doc_ok d /\ bytes_ok (FirstKey d) /\ bytes_ok (Key d) /\ bytes_ok payload /\
  Magic d = DocMagic /\ VMajor d = docIdentityVersion /\ VMinor d = 0 /\ Unused d = 0 /\
  Len d = DocHeaderSize + blen payload /\ Len d <= AggBufferSize /\ HLen d <= blen payload /\
  blen payload - HLen d <= TargetFragmentSize.

(** The record written for [d] and [payload]: the header with its checksum. *)
Definition seal (d : Doc) (payload : bytes) : Doc := setChecksum d (CalculateChecksum d payload).
Definition record (d : Doc) (payload : bytes) : bytes := MarshalBinary (seal d payload) ++ payload.

Lemma seal_doc_ok d payload : sealable d payload -> doc_ok (seal d payload).
Proof.
  intros (Hd & Hf & Hk & Hp & _).
  pose proof (CalculateChecksum_fits d payload Hf Hk Hp).
  destruct Hd as (?&?&?&?&?&?&?&?&?&?&?&?&?&?). unfold doc_ok; split_and!; done.
Qed.

Lemma DataLen_eq d : fits 32 (Len d) -> 0 <= HLen d <= Len d - DocHeaderSize ->
  DataLen d = Len d - DocHeaderSize - HLen d.
Proof.
  unfold DataLen, DocHeaderSize. intros HL HH. unfold fits in HL.
  rewrite (u32_small (Len d - 72)) by (unfold fits; lia). apply u32_small. unfold fits; lia.
Qed.

Lemma slice_after_header h (payload : bytes) :
  blen h = DocHeaderSize -> slice (h ++ payload) DocHeaderSize (blen (h ++ payload)) = payload.
Proof.
  intros Hh. unfold slice. rewrite blen_app, Hh. unfold blen in Hh.
  rewrite drop_app_length' by lia. apply take_ge. unfold blen. lia.
Qed.

Lemma validate_seal d payload :
  sealable d payload -> validate (seal d payload) (record d payload) = Ok tt.
Proof.
  intros Hs. pose proof (seal_doc_ok _ _ Hs) as Hok. pose proof (blen_MarshalBinary _ Hok) as Hm.
  destruct Hs as (Hd & _ & _ & _ & H1 & H2 & H3 & H4 & Hl & Hmax & Hh & Ht).
  destruct Hd as (_ & HL & _ & _ & _ & HH & _).
  unfold validate, record. rewrite slice_after_header, blen_app, Hm by done.
  change (Len (seal d payload)) with (Len d). change (HLen (seal d payload)) with (HLen d).
  change (DataLen (seal d payload)) with (DataLen d).
  change (Checksum (seal d payload)) with (CalculateChecksum d payload).
  change (CalculateChecksum (seal d payload) payload) with (CalculateChecksum d payload).
  change (Magic (seal d payload)) with (Magic d). change (VMajor (seal d payload)) with (VMajor d).
  change (VMinor (seal d payload)) with (VMinor d). change (Unused (seal d payload)) with (Unused d).
  rewrite H1, H2, H3, H4, Z.eqb_refl. unfold fits in HH.
  rewrite DataLen_eq by (done || lia). pose proof (blen_nonneg payload). cbn [negb orb Z.eqb].
  unfold docIdentityVersion, DocMagic. rewrite !Z.eqb_refl. cbn [negb orb].
  destruct (_ || _) eqn:E; [|done].
  repeat (apply orb_true_iff in E as [E|E]); b2p; unfold DocHeaderSize in *; lia.
Qed.

(** Validation of a record that decodes to [d] fails as soon as one byte of
    the region the checksum covers changes. *)
Lemma validate_one_byte d h p b1 b2 q :
  blen h = DocHeaderSize -> bytes_ok (FirstKey d) -> bytes_ok (Key d) ->
  bytes_ok p -> bytes_ok q -> byte_ok b1 -> byte_ok b2 -> b1 <> b2 ->
  blen p < Len d - DocHeaderSize ->
  validate d (h ++ p ++ b1 :: q) = Ok tt ->
  validate d (h ++ p ++ b2 :: q) = Err (Errorf "cache document checksum mismatch").
Proof.
  intros Hh Hf Hk Hp Hq Hb1 Hb2 Hne Hpos. unfold validate. rewrite !slice_after_header by done.
  rewrite !blen_app. assert (blen (b1 :: q) = blen (b2 :: q)) as -> by done.
  destruct (_ || _); [done|].
  destruct (_ || _) eqn:E; [done|].
  repeat (apply orb_false_iff in E as [E ?]). b2p.
  assert (forall b, b = b1 \/ b = b2 -> CalculateChecksum d (p ++ b :: q) =
    crc32_update (crc32_update 0 (MarshalBinary (setChecksum d 0)))
      (p ++ b :: take (Z.to_nat (Len d - DocHeaderSize) - length p - 1) q)) as Hc.
  { intros b Hb. unfold CalculateChecksum.
    assert (blen (p ++ b :: q) = blen p + blen (b2 :: q)) as -> by (rewrite blen_app; reflexivity).
    destruct (_ || _) eqn:E'; [apply orb_true_iff in E' as [E'|E']; b2p; lia|].
    f_equal. unfold slice, blen in *. rewrite drop_0, Z.sub_0_r, take_app. f_equal.
    - apply take_ge. lia.
    - destruct (Z.to_nat (Len d - DocHeaderSize) - length p)%nat as [|k] eqn:Ek; [lia|].
      cbn [take]. do 2 f_equal. lia. }
  rewrite !Hc by auto. destruct (negb _) eqn:E1; [done|]. intros _. b2p.
  destruct (negb _) eqn:E2; [done|]. b2p. exfalso. apply Hne.
  rewrite E1 in E2.
  eapply crc32_one_byte in E2; try done.
  - apply crc32_fits; [unfold fits; lia|]. by apply MarshalBinary_bytes_ok.
  - by apply Forall_take.
Qed.

(** ** Stripe header ([stripe_header.go]) *)

Definition StripeHeaderMagic : Z := 0xBADBABE.
Definition StripeHeaderVer : Z := 2.
Definition StripeHeaderSize : Z := 24.

Record StripeHeader : Type := mkStripeHeader {
  sh_Magic : Z; sh_Version : Z; sh_WritePos : Z; sh_Phase : bool; sh_SyncSerial : Z }.

Definition StripeHeader_MarshalBinary (h : StripeHeader) : bytes :=
  put_be 4 (sh_Magic h) ++ put_be 4 (sh_Version h) ++ put_be 8 (u64 (sh_WritePos h)) ++
  put_be 1 (if sh_Phase h then 1 else 0) ++ put_be 1 0 ++ put_be 2 0 ++
  put_be 4 (sh_SyncSerial h).

(** One [binary.Read]: on failure the reader has consumed what was left. *)
Definition read_be (n : nat) (l : bytes) : result (Z * bytes) :=
  _ ← read_guard (Z.of_nat n) l; Ok (take_be n l).

Definition StripeHeader_UnmarshalBinary (data : bytes) : result StripeHeader :=
  '(magic, l) ← read_be 4 data;
  '(version, l) ← read_be 4 l;
  '(pos, l) ← read_be 8 l;
  '(phase, l) ← read_be 1 l;
  (* the padding is read and its errors are ignored *)
  let l := drop 1 l in
  let l := drop 2 l in
  '(serial, l) ← read_be 4 l;
  Ok (mkStripeHeader magic version (i64 pos) (phase =? 1) serial).

Lemma read_be_put n z l : fits (8 * Z.of_nat n) z -> read_be n (put_be n z ++ l) = Ok (z, l).
Proof.
  intros Hz. unfold read_be, read_guard. autorewrite with blen. pose proof (blen_nonneg l).
  destruct (_ <? _) eqn:E; b2p; [lia|]. cbn. by rewrite take_be_put.
Qed.

Lemma i64_u64 z : fits_i64 z -> i64 (u64 z) = z.
Proof.
  intros Hz. rewrite <- (i64_small z Hz) at 2. unfold i64, u64. rewrite Zplus_mod_idemp_l. done.
Qed.

Lemma StripeHeader_roundtrip h :
  fits 32 (sh_Magic h) -> fits 32 (sh_Version h) -> fits_i64 (sh_WritePos h) ->
  fits 32 (sh_SyncSerial h) ->
  blen (StripeHeader_MarshalBinary h) = StripeHeaderSize /\
  StripeHeader_UnmarshalBinary (StripeHeader_MarshalBinary h) = Ok h.
Proof.
  intros H1 H2 H3 H4. unfold StripeHeader_MarshalBinary, StripeHeader_UnmarshalBinary.
  split; [by autorewrite with blen|].
  do 4 (rewrite read_be_put by (done || apply u64_fits || (by destruct (sh_Phase h)));
    cbn [mbind result_bind]).
  rewrite drop_app_length' by (by rewrite length_put_be).
  rewrite drop_app_length' by (by rewrite length_put_be).
  rewrite <- (app_nil_r (put_be 4 _)), read_be_put by done. cbn [mbind result_bind].
  rewrite i64_u64 by done. destruct h as [? ? ? [|] ?]; done.
Qed.

(** ** Properties *)

(** A record assembled the way a writer assembles it (header with the CRC
    of the zeroed header, metadata and body in the checksum field) decodes to
    the same header and passes the validation every reader runs. *)
Theorem doc_record_roundtrip d payload :
  sealable d payload ->
  UnmarshalBinary (take 72 (record d payload)) = Ok (seal d payload) /\
  validate (seal d payload) (record d payload) = Ok tt.
Proof.
  intros Hs. split; [|by apply validate_seal].
  by apply Doc_decode_header, seal_doc_ok.
Qed.

Definition doc_example : Doc :=
  mkDoc DocMagic 77 3 (docKey [1]) (docKey [1]) 2 0 3 0 0 7 9 0 0.

Lemma doc_example_sealable : sealable doc_example [10; 20; 30; 40; 50].
Proof.
  unfold sealable, doc_ok. split_and!.
  all: first [apply docKey_ok | apply length_docKey | concrete].
Qed.

Lemma doc_record_roundtrip_witness :
  sealable doc_example [10; 20; 30; 40; 50] /\
  validate (seal doc_example [10; 20; 30; 40; 50]) (record doc_example [10; 20; 30; 40; 50]) = Ok tt.
Proof.
  split; [exact doc_example_sealable|].
  exact (proj2 (doc_record_roundtrip _ _ doc_example_sealable)).
Defined.

(** C38: corruption of any single byte of the metadata or body of a record that
    validates is detected as a checksum mismatch, whatever the byte becomes. *)
Theorem doc_corruption_detected d h p b1 b2 q :
  blen h = DocHeaderSize -> bytes_ok (FirstKey d) -> bytes_ok (Key d) ->
  bytes_ok (p ++ b1 :: q) -> byte_ok b2 -> b1 <> b2 ->
  blen p < Len d - DocHeaderSize ->
  validate d (h ++ p ++ b1 :: q) = Ok tt ->
  validate d (h ++ p ++ b2 :: q) = Err (Errorf "cache document checksum mismatch").
Proof.
  intros Hh Hf Hk [Hp [Hb1 Hq]%Forall_cons]%Forall_app Hb2 Hne Hpos Hv.
  by apply (validate_one_byte d h p b1 b2 q).
Qed.

Lemma doc_corruption_detected_witness :
  validate (seal doc_example [10; 20; 30; 40; 50])
    (MarshalBinary (seal doc_example [10; 20; 30; 40; 50]) ++ [10; 20] ++ 31 :: [40; 50])
  = Err (Errorf "cache document checksum mismatch").
Proof.
  apply (doc_corruption_detected _ _ [10; 20] 30 31 [40; 50]).
  - concrete.
  - apply docKey_ok.
  - apply docKey_ok.
  - concrete.
  - concrete.
  - lia.
  - concrete.
  - exact (validate_seal _ _ doc_example_sealable).
Defined.
