(* ===== verification/DirTrie.v ===== *)
(** * Identity index

    [cache/dir_trie.go]: the bounded map from representation keys to URL
    selectors, its reverse index, the byte budget, prefix and exact
    enumeration, and the snapshot/restore pair the checkpoint uses.

    Go iterates the two maps in an unspecified order; the enumerations here
    take that order as an argument and are shown not to depend on it. *)

From S2P Require Import Prelude.

Definition MaxIndexKeyBytes : Z := Z.shiftl 16 10.
Definition MaxIndexBytes : Z := Z.shiftl 16 20.
Definition MaxIndexEntries : Z := 65536.

Record IndexEntry : Type := mkIndexEntry { ie_Key : bytes; ie_Selector : bytes }.

Record DirTrie : Type := mkDirTrie {
  entries : gmap bytes bytes;
  selectors : gmap bytes (gset bytes);
  capacity : Z;
  nbytes : Z }.

(** [NewDirTrie(capacity...)]; [None] is the call without an argument. *)
Definition NewDirTrie (cap : option Z) : DirTrie :=
  let limit := match cap with
               | Some c => if c <? MaxIndexEntries then c else MaxIndexEntries
               | None => MaxIndexEntries
               end in
  let limit := if limit <? 0 then 0 else limit in
  mkDirTrie ∅ ∅ limit 0.

Definition validateIdentity (key selector : bytes) : result unit :=
  if (blen key =? 0) || (blen selector =? 0) || (MaxIndexKeyBytes <? blen key)
     || (MaxIndexKeyBytes <? blen selector)
  then Err (Errorf "invalid cache identity length") else Ok tt.

Definition deleteLocked (dt : DirTrie) (key : bytes) : DirTrie :=
  match entries dt !! key with
  | Some selector =>
      let set := default ∅ (selectors dt !! selector) ∖ {[ key ]} in
      mkDirTrie (delete key (entries dt))
                (if decide (set = ∅) then delete selector (selectors dt)
                 else <[selector := set]> (selectors dt))
                (capacity dt)
                (nbytes dt - (blen key + blen selector))
  | None => dt
  end.

Definition Delete (dt : DirTrie) (key : bytes) : DirTrie := deleteLocked dt key.

Definition SetIdentity (dt : DirTrie) (key selector : bytes) : result DirTrie :=
  _ ← validateIdentity key selector;
  let old := entries dt !! key in
  let total := nbytes dt + blen key + blen selector in
  let total := match old with Some o => total - (blen key + blen o) | None => total end in
  let present := bool_decide (is_Some old) in
  if (negb present && (capacity dt <=? Z.of_nat (size (entries dt)))) || (MaxIndexBytes <? total)
  then Err ErrIndexFull
  else
    let dt := if present then deleteLocked dt key else dt in
    Ok (mkDirTrie (<[key := selector]> (entries dt))
                  (<[selector := {[ key ]} ∪ default ∅ (selectors dt !! selector)]> (selectors dt))
                  (capacity dt) total).

Definition Set_ (dt : DirTrie) (key : bytes) : DirTrie :=
  match SetIdentity dt key key with Ok dt' => dt' | Err _ => dt end.

(** The range over [dt.selectors], in the order the runtime picks. *)
Fixpoint scanPrefix (order : list (bytes * gset bytes)) (prefix : bytes) (limit : Z)
    (keys : list bytes) : result (list bytes) :=
  match order with
  | [] => Ok keys
  | (selector, set) :: order' =>
      if HasPrefix selector prefix then
        if limit <? Z.of_nat (length keys) + Z.of_nat (size set) then Err ErrIndexFull
        else scanPrefix order' prefix limit (keys ++ elements set)
      else scanPrefix order' prefix limit keys
  end.

Definition KeysForPrefixLimit_order (order : list (bytes * gset bytes)) (prefix : bytes)
    (limit : Z) : result (list bytes) :=
  keys ← scanPrefix order prefix limit []; Ok (sortStrings keys).

Definition KeysForPrefixLimit (dt : DirTrie) (prefix : bytes) (limit : Z) : result (list bytes) :=
  KeysForPrefixLimit_order (map_to_list (selectors dt)) prefix limit.

(** [Get]: the error of the bounded enumeration is dropped, its keys are nil. *)
Definition Get (dt : DirTrie) (prefix : bytes) : list bytes :=
  match KeysForPrefixLimit dt prefix MaxIndexEntries with Ok keys => keys | Err _ => [] end.

Definition KeysForSelectorLimit (dt : DirTrie) (selector : bytes) (limit : Z) : result (list bytes) :=
  let set := default ∅ (selectors dt !! selector) in
  if limit <? Z.of_nat (size set) then Err ErrIndexFull
  else Ok (sortStrings (elements set)).

Definition KeysForSelector (dt : DirTrie) (selector : bytes) : list bytes :=
  match KeysForSelectorLimit dt selector MaxIndexEntries with Ok keys => keys | Err _ => [] end.

Definition entry_le (a b : IndexEntry) : Prop := bytes_le (ie_Key a) (ie_Key b).
#[global] Instance entry_le_dec : RelDecision entry_le.
Proof. intros a b. unfold entry_le. apply _. Defined.

Definition Snapshot (dt : DirTrie) : list IndexEntry :=
  merge_sort entry_le ((fun ks => mkIndexEntry ks.1 ks.2) <$> map_to_list (entries dt)).

Fixpoint restoreInto (replacement : DirTrie) (es : list IndexEntry) : result DirTrie :=
  match es with
  | [] => Ok replacement
  | e :: es' =>
      if bool_decide (is_Some (entries replacement !! ie_Key e))
      then Err (Errorf "duplicate cache identity")
      else
        replacement' ← SetIdentity replacement (ie_Key e) (ie_Selector e);
        restoreInto replacement' es'
  end.

Definition Restore (dt : DirTrie) (es : list IndexEntry) : result DirTrie :=
  replacement ← restoreInto (NewDirTrie (Some (capacity dt))) es;
  Ok (mkDirTrie (entries replacement) (selectors replacement) (capacity dt) (nbytes replacement)).

(** ** Invariant *)

Definition weight (m : gmap bytes bytes) : Z :=
  map_fold (fun k s acc => blen k + blen s + acc) 0 m.

Record wf (dt : DirTrie) : Prop := mk_wf {
  wf_index : forall k s, entries dt !! k = Some s <->
    exists set, selectors dt !! s = Some set /\ k ∈ set;
  wf_nonempty : forall s set, selectors dt !! s = Some set -> set <> ∅;
  wf_bytes : nbytes dt = weight (entries dt);
  wf_budget : nbytes dt <= MaxIndexBytes;
  wf_count : Z.of_nat (size (entries dt)) <= capacity dt <= MaxIndexEntries;
  wf_ident : forall k s, entries dt !! k = Some s -> validateIdentity k s = Ok tt }.

Lemma weight_insert m k s : m !! k = None -> weight (<[k := s]> m) = blen k + blen s + weight m.
Proof. intros. unfold weight. rewrite map_fold_insert_L; [done|intros; lia|done]. Qed.
Lemma weight_delete m k s : m !! k = Some s -> weight m = blen k + blen s + weight (delete k m).
Proof. intros. unfold weight. rewrite (map_fold_delete_L _ _ k s); [done|intros; lia|done]. Qed.

Lemma NewDirTrie_eq c : 0 <= c <= MaxIndexEntries -> NewDirTrie (Some c) = mkDirTrie ∅ ∅ c 0.
Proof.
  intros Hc. unfold NewDirTrie, MaxIndexEntries in *. f_equal.
  destruct (c <? 65536) eqn:E; b2p; destruct (_ <? 0) eqn:E1; b2p; lia.
Qed.

Lemma wf_New cap : wf (NewDirTrie cap).
Proof.
  unfold NewDirTrie. split; cbn; try done.
  - intros. rewrite !lookup_empty. naive_solver.
  - rewrite map_size_empty. unfold MaxIndexEntries. destruct cap as [c|].
    + destruct (c <? 65536) eqn:E; b2p; [destruct (c <? 0) eqn:E1; b2p|]; cbn; lia.
    + cbn; lia.
Qed.

Lemma wf_deleteLocked dt key : wf dt -> wf (deleteLocked dt key).
Proof.
  intros [Hi Hn Hb Hg Hc Hv]. unfold deleteLocked.
  destruct (entries dt !! key) as [s|] eqn:E; [|done].
  destruct (proj1 (Hi key s) E) as (set & Hset & Hin). rewrite Hset; cbn.
  pose proof (weight_delete _ _ _ E) as Hw. pose proof (blen_nonneg key). pose proof (blen_nonneg s).
  split; cbn.
  - intros k s'. rewrite lookup_delete. case_decide as Hk; [subst k|].
    + split; [done|]. intros (set' & Hs' & Hin'). exfalso. revert Hs'.
      case_decide; rewrite ?lookup_delete, ?lookup_insert; case_decide; subst; try done.
      * intros Hs'. assert (entries dt !! key = Some s') by (apply Hi; eauto). congruence.
      * intros [= <-]. set_solver.
      * intros Hs'. assert (entries dt !! key = Some s') by (apply Hi; eauto). congruence.
    + rewrite Hi. case_decide as Hempty; rewrite ?lookup_delete, ?lookup_insert;
        case_decide as Hs; subst; try done.
      * rewrite Hset. split; [intros (? & [= <-] & ?)|intros (? & ? & ?); done]. set_solver.
      * rewrite Hset. split.
        -- intros (? & [= <-] & ?). eexists; split; [done|]. set_solver.
        -- intros (? & [= <-] & ?). eexists; split; [done|]. set_solver.
  - intros s' set'. case_decide as Hempty; rewrite ?lookup_delete, ?lookup_insert;
      case_decide; subst; try done; eauto. intros [= <-]; done.
  - lia.
  - lia.
  - rewrite map_size_delete, E. cbn. lia.
  - intros k s'. rewrite lookup_delete. case_decide; [done|]. apply Hv.
Qed.

Lemma SetIdentity_inv dt key selector dt' :
  SetIdentity dt key selector = Ok dt' ->
  validateIdentity key selector = Ok tt /\
  let dt0 := deleteLocked dt key in
  entries dt' = <[key := selector]> (entries dt0) /\
  selectors dt' = <[selector := {[ key ]} ∪ default ∅ (selectors dt0 !! selector)]> (selectors dt0) /\
  capacity dt' = capacity dt /\
  nbytes dt' = nbytes dt0 + blen key + blen selector /\ nbytes dt' <= MaxIndexBytes /\
  (entries dt !! key = None -> Z.of_nat (size (entries dt)) < capacity dt).
Proof.
  unfold SetIdentity. destruct (validateIdentity _ _) as [[]|] eqn:Ev; [|done]. cbn [mbind result_bind].
  unfold deleteLocked. destruct (entries dt !! key) as [o|] eqn:E; cbn.
  - destruct (MaxIndexBytes <? _) eqn:Eb; [done|]. b2p. intros [= <-]; cbn. split_and!; try done; lia.
  - destruct (_ || _) eqn:Eb; [done|]. apply orb_false_iff in Eb as [E1 E2]. b2p.
    intros [= <-]; cbn. split_and!; try done; lia.
Qed.

Lemma deleteLocked_absent dt key : entries (deleteLocked dt key) !! key = None.
Proof.
  unfold deleteLocked. destruct (entries dt !! key) eqn:E; [|done]. apply lookup_delete_eq.
Qed.
Lemma deleteLocked_entries dt key : entries (deleteLocked dt key) = delete key (entries dt).
Proof.
  unfold deleteLocked. destruct (entries dt !! key) eqn:E; [done|]. by rewrite delete_id.
Qed.

Lemma SetIdentity_entries dt key selector dt' :
  SetIdentity dt key selector = Ok dt' -> entries dt' = <[key := selector]> (entries dt).
Proof.
  intros (_ & He & _)%SetIdentity_inv. rewrite He, deleteLocked_entries. apply insert_delete_eq.
Qed.

Lemma wf_SetIdentity dt key selector dt' :
  wf dt -> SetIdentity dt key selector = Ok dt' -> wf dt'.
Proof.
  intros Hwf HS. pose proof (SetIdentity_entries _ _ _ _ HS) as Hent.
  apply SetIdentity_inv in HS as (Hv & He & Hs & Hc & Hb & Hbud & Hroom).
  pose proof (deleteLocked_absent dt key) as Habs.
  destruct (wf_deleteLocked dt key Hwf) as [Hi Hn Hbytes Hg Hcnt Hid].
  set (dt0 := deleteLocked dt key) in *. split.
  - intros k s. rewrite He, Hs, !lookup_insert. case_decide as Hk; [subst k|].
    + split.
      * intros [= <-]. rewrite decide_True by done. eexists; split; [done|]. set_solver.
      * intros (set & Hset & Hin). case_decide as Hd; [by subst|]. exfalso.
        assert (entries dt0 !! key = Some s) by (apply Hi; eauto). congruence.
    + rewrite Hi. case_decide as Hd; [subst s|done]. split.
      * intros (set & -> & Hin). cbn. eexists; split; [done|]. set_solver.
      * intros (set & [= <-] & Hin). destruct (selectors dt0 !! selector) as [set|] eqn:E; cbn in Hin.
        -- exists set; split; [done|]. set_solver.
        -- set_solver.
  - intros s set. rewrite Hs, lookup_insert. case_decide; [|eauto]. intros [= <-]. set_solver.
  - rewrite Hb, He, weight_insert by done. rewrite Hbytes. lia.
  - done.
  - rewrite Hc, Hent. destruct Hwf as [_ _ _ _ Hcnt0 _].
    destruct (entries dt !! key) as [o|] eqn:E.
    + by rewrite (map_size_insert_Some _ _ _ (mk_is_Some _ _ E)).
    + rewrite map_size_insert_None by done. pose proof (Hroom eq_refl). lia.
  - intros k s. rewrite Hent, lookup_insert. case_decide; [by intros [= <-]; subst|].
    apply (wf_ident _ Hwf).
Qed.

Lemma KeysForSelectorLimit_spec dt selector limit ks :
  wf dt -> KeysForSelectorLimit dt selector limit = Ok ks ->
  Sorted bytes_le ks /\ NoDup ks /\ Z.of_nat (length ks) <= limit /\
  forall k, k ∈ ks <-> entries dt !! k = Some selector.
Proof.
  intros Hwf. unfold KeysForSelectorLimit. destruct (_ <? _) eqn:E; [done|]. b2p. intros [= <-].
  split_and!.
  - apply sortStrings_sorted.
  - rewrite sortStrings_perm. apply NoDup_elements.
  - rewrite sortStrings_perm. exact E.
  - intros k. rewrite sortStrings_perm, elem_of_elements, (wf_index _ Hwf).
    destruct (selectors dt !! selector); cbn; set_solver.
Qed.

(** The keys a prefix scan visits, in the order of the range. *)
Definition matching (order : list (bytes * gset bytes)) (prefix : bytes) : list bytes :=
  filter (fun x => HasPrefix x.1 prefix = true) order ≫= fun x => elements x.2.

Lemma scanPrefix_spec order prefix limit keys :
  Z.of_nat (length keys) <= limit ->
  scanPrefix order prefix limit keys =
    if decide (Z.of_nat (length (keys ++ matching order prefix)) <= limit)
    then Ok (keys ++ matching order prefix) else Err ErrIndexFull.
Proof.
  unfold matching. revert keys. induction order as [|[s set] order IH]; intros keys Hk; cbn [scanPrefix].
  - rewrite app_nil_r. by rewrite decide_True.
  - rewrite filter_cons. cbn [fst].
    destruct (HasPrefix s prefix) eqn:E.
    + rewrite (decide_True (P := true = true)) by done. rewrite bind_cons. cbn [snd].
      change (size set) with (length (elements set)).
      destruct (_ <? _) eqn:El; b2p.
      * rewrite decide_False; [done|]. rewrite !length_app. lia.
      * rewrite IH by (rewrite length_app; lia). by rewrite <- app_assoc.
    + rewrite (decide_False (P := false = true)) by done. by apply IH.
Qed.

Lemma matching_elem dt prefix order k :
  wf dt -> order ≡ₚ map_to_list (selectors dt) ->
  k ∈ matching order prefix <->
  exists s, entries dt !! k = Some s /\ HasPrefix s prefix = true.
Proof.
  intros Hwf Ho. unfold matching. rewrite list_elem_of_bind. split.
  - intros ([s set] & Hk & Hf). apply list_elem_of_filter in Hf as [Hp Hin].
    rewrite Ho in Hin. apply elem_of_map_to_list in Hin. cbn in *.
    exists s; split; [|done]. apply (wf_index _ Hwf). exists set. set_solver.
  - intros (s & He & Hp). apply (wf_index _ Hwf) in He as (set & Hs & Hin).
    exists (s, set). split; [set_solver|]. apply list_elem_of_filter. split; [done|].
    rewrite Ho. by apply elem_of_map_to_list.
Qed.

Lemma matching_NoDup dt prefix order :
  wf dt -> order ≡ₚ map_to_list (selectors dt) -> NoDup (matching order prefix).
Proof.
  intros Hwf Ho. unfold matching.
  assert (NoDup (filter (fun x => HasPrefix x.1 prefix = true) order)) as Hnd.
  { apply NoDup_filter. rewrite Ho. apply NoDup_map_to_list. }
  assert (forall x, x ∈ filter (fun x => HasPrefix x.1 prefix = true) order ->
    selectors dt !! x.1 = Some x.2) as Hin.
  { intros [s set] [_ H]%list_elem_of_filter. rewrite Ho in H. by apply elem_of_map_to_list in H. }
  induction Hnd as [|x l Hx Hl IH]; [constructor|]. rewrite bind_cons. apply NoDup_app. split_and!.
  - apply NoDup_elements.
  - intros k Hk Hk'. apply list_elem_of_bind in Hk' as (y & Hky & Hy).
    assert (x.1 = y.1) as Heq.
    { assert (entries dt !! k = Some x.1) by (apply (wf_index _ Hwf); exists x.2; split;
        [apply Hin; set_solver|set_solver]).
      assert (entries dt !! k = Some y.1) by (apply (wf_index _ Hwf); exists y.2; split;
        [apply Hin; set_solver|set_solver]). congruence. }
    apply Hx. assert (x = y) as ->; [|done]. destruct x as [x1 x2], y as [y1 y2]; cbn in *; subst y1.
    pose proof (Hin (x1, x2) ltac:(set_solver)). pose proof (Hin (x1, y2) ltac:(set_solver)).
    cbn in *. congruence.
  - apply IH. intros. apply Hin. set_solver.
Qed.

(** ** Determinacy and restore *)

(** A well-formed index never exceeds the enumeration limit. *)
Lemma matching_max dt prefix order :
  wf dt -> order ≡ₚ map_to_list (selectors dt) -> Z.of_nat (length (matching order prefix)) <= MaxIndexEntries.
Proof.
  intros Hwf Ho. destruct (wf_count _ Hwf) as [H1 H2]. etrans; [|etrans; [exact H1|done]]. apply Nat2Z.inj_le.
  rewrite <- size_dom, <- (size_list_to_set (C := gset bytes)) by (by eapply matching_NoDup).
  apply subseteq_size. intros k. rewrite elem_of_list_to_set, (matching_elem dt) by done.
  intros (s & Hs & _). apply elem_of_dom. eauto.
Qed.

Lemma Get_elem dt prefix k :
  wf dt -> k ∈ Get dt prefix <-> exists s, entries dt !! k = Some s /\ HasPrefix s prefix = true.
Proof.
  intros Hwf. unfold Get, KeysForPrefixLimit, KeysForPrefixLimit_order. rewrite scanPrefix_spec by (cbn; unfold MaxIndexEntries; lia). cbn [app].
  rewrite decide_True by (by apply (matching_max dt)). cbn [mbind result_bind]. rewrite sortStrings_perm. by apply matching_elem.
Qed.

Lemma KeysForSelector_elem dt selector k : wf dt -> k ∈ KeysForSelector dt selector <-> entries dt !! k = Some selector.
Proof.
  intros Hwf. unfold KeysForSelector. destruct (KeysForSelectorLimit dt selector MaxIndexEntries) as [ks|] eqn:E.
  - by destruct (KeysForSelectorLimit_spec _ _ _ _ Hwf E) as (_ & _ & _ & ?).
  - unfold KeysForSelectorLimit in E. destruct (_ <? _) eqn:El; [|done]. b2p. destruct (wf_count _ Hwf) as [H1 H2].
    assert (Z.of_nat (size (default ∅ (selectors dt !! selector))) <= Z.of_nat (size (entries dt))); [|lia].
    apply Nat2Z.inj_le. rewrite <- size_dom. apply subseteq_size. intros x Hx. destruct (selectors dt !! selector) as [set|] eqn:Es; [|set_solver].
    apply elem_of_dom. exists selector. apply (wf_index _ Hwf). eauto.
Qed.

Lemma wf_selectors_dom dt s :
  wf dt -> selectors dt !! s = None <-> forall k, entries dt !! k <> Some s.
Proof.
  intros Hwf. split.
  - intros Hn k Hk. apply (wf_index _ Hwf) in Hk as (set & ? & _). congruence.
  - intros H. destruct (selectors dt !! s) as [set|] eqn:E; [|done]. exfalso.
    destruct (set_choose_L set (wf_nonempty _ Hwf _ _ E)) as [k Hk].
    apply (H k). apply (wf_index _ Hwf). eauto.
Qed.

(** A well-formed index is determined by its entries and its capacity. *)
Lemma wf_determined dt1 dt2 :
  wf dt1 -> wf dt2 -> entries dt1 = entries dt2 -> capacity dt1 = capacity dt2 -> dt1 = dt2.
Proof.
  intros H1 H2 He Hc.
  assert (selectors dt1 = selectors dt2) as Hs.
  { apply map_eq. intros s.
    destruct (selectors dt1 !! s) as [set1|] eqn:E1, (selectors dt2 !! s) as [set2|] eqn:E2; [|..|done].
    - f_equal. apply set_eq. intros k.
      assert (k ∈ set1 <-> entries dt1 !! k = Some s) as -> by (rewrite (wf_index _ H1); naive_solver).
      rewrite He, (wf_index _ H2). naive_solver.
    - rewrite wf_selectors_dom in E2 by done. exfalso. rewrite <- He, <- wf_selectors_dom in E2 by done.
      congruence.
    - rewrite wf_selectors_dom in E1 by done. exfalso. rewrite He, <- wf_selectors_dom in E1 by done.
      congruence. }
  pose proof (wf_bytes _ H1). pose proof (wf_bytes _ H2).
  destruct dt1, dt2; cbn in *; congruence.
Qed.

Lemma weight_subseteq m1 m2 : m1 ⊆ m2 -> weight m1 <= weight m2.
Proof.
  revert m2. induction m1 as [|k s m1 Hk IH] using map_ind; intros m2 Hsub.
  - clear. induction m2 as [|k s m2 Hk IH] using map_ind; [done|].
    rewrite weight_insert by done. pose proof (blen_nonneg k). pose proof (blen_nonneg s). lia.
  - assert (m2 !! k = Some s) as E by (eapply lookup_weaken; [|done]; apply lookup_insert_eq).
    rewrite weight_insert, (weight_delete m2 k s) by done.
    assert (weight m1 <= weight (delete k m2)); [|lia]. apply IH.
    rewrite <- (delete_insert_id m1 k s Hk). by apply delete_mono.
Qed.

Definition pairs (es : list IndexEntry) : list (bytes * bytes) :=
  (fun e => (ie_Key e, ie_Selector e)) <$> es.

Lemma restoreInto_complete dt es r :
  wf dt -> wf r -> capacity r = capacity dt -> NoDup (pairs es).*1 ->
  (forall e, e ∈ es -> entries dt !! ie_Key e = Some (ie_Selector e) /\ entries r !! ie_Key e = None) ->
  entries r ⊆ entries dt ->
  exists r', restoreInto r es = Ok r' /\ wf r' /\ capacity r' = capacity r /\
    entries r' = list_to_map (pairs es) ∪ entries r.
Proof.
  intros Hdt. revert r. induction es as [|[k s] es IH]; intros r Hr Hcap Hnd Hes Hsub.
  - exists r. split_and!; try done. cbn. by rewrite (left_id_L ∅ (∪)).
  - cbn in Hnd. apply NoDup_cons in Hnd as [Hk Hnd].
    destruct (Hes (mkIndexEntry k s)) as [Hin Hnone]; [set_solver|]. cbn in Hin, Hnone.
    cbn [restoreInto ie_Key ie_Selector]. rewrite Hnone. rewrite bool_decide_false by (intros [? ?]; done).
    assert (<[k := s]> (entries r) ⊆ entries dt) as Hsub' by (by apply insert_subseteq_l).
    assert (exists r1, SetIdentity r k s = Ok r1) as [r1 Hset].
    { unfold SetIdentity. rewrite (wf_ident _ Hdt _ _ Hin), Hnone. cbn [mbind result_bind].
      pose proof (weight_subseteq _ _ Hsub') as Hw. rewrite weight_insert in Hw by done.
      pose proof (map_subseteq_size _ _ Hsub') as Hz. rewrite map_size_insert_None in Hz by done.
      destruct Hdt as [_ _ Hb Hbud Hcnt _]. rewrite (wf_bytes _ Hr).
      rewrite bool_decide_false by (intros [? ?]; done). cbn [negb andb].
      destruct (_ || _) eqn:E; [|eauto]. apply orb_true_iff in E as [E|E]; b2p; lia. }
    rewrite Hset; cbn [mbind result_bind].
    pose proof (SetIdentity_entries _ _ _ _ Hset) as He1.
    destruct (IH r1) as (r' & Hr' & Hwf' & Hc' & He').
    + by eapply wf_SetIdentity.
    + apply SetIdentity_inv in Hset as (_ & _ & _ & Hc & _). congruence.
    + done.
    + intros e He. destruct (Hes e) as [Ha Hb]; [set_solver|]. split; [done|].
      rewrite He1, lookup_insert_ne; [done|]. intros Heq. apply Hk.
      unfold pairs. rewrite <- list_fmap_compose. apply list_elem_of_fmap. exists e. done.
    + by rewrite He1.
    + exists r'. split_and!; [done|done| |].
      * apply SetIdentity_inv in Hset as (_ & _ & _ & Hc & _). congruence.
      * rewrite He', He1. cbn [pairs fmap list_fmap]. rewrite list_to_map_cons.
        rewrite <- insert_union_r; [by rewrite insert_union_l|].
        by apply not_elem_of_list_to_map_1.
Qed.

Lemma Snapshot_perm dt : pairs (Snapshot dt) ≡ₚ map_to_list (entries dt).
Proof.
  unfold pairs, Snapshot. rewrite merge_sort_Permutation, <- list_fmap_compose.
  rewrite <- (list_fmap_id (map_to_list (entries dt))) at 2.
  by apply list_fmap_equiv_ext || (apply Permutation_refl'; apply list_fmap_ext; intros ? [? ?] ?; done).
Qed.

Lemma Restore_Snapshot dt : wf dt -> Restore dt (Snapshot dt) = Ok dt.
Proof.
  intros Hwf. unfold Restore.
  assert (capacity (NewDirTrie (Some (capacity dt))) = capacity dt) as Hcap.
  { destruct (wf_count _ Hwf). rewrite NewDirTrie_eq; [done|lia]. }
  destruct (restoreInto_complete dt (Snapshot dt) (NewDirTrie (Some (capacity dt))))
    as (r & -> & Hr & Hc & He); [done|apply wf_New|done| | |apply map_empty_subseteq|].
  - rewrite Snapshot_perm. apply NoDup_fst_map_to_list.
  - intros e Hin. split; [|done]. apply elem_of_map_to_list. rewrite <- Snapshot_perm.
    apply list_elem_of_fmap. exists e. done.
  - cbn [mbind result_bind]. f_equal. cbn in He. rewrite (right_id_L ∅ (∪)) in He.
    rewrite (list_to_map_proper _ (map_to_list (entries dt))) in He.
    2: { rewrite Snapshot_perm. apply NoDup_fst_map_to_list. }
    2: apply Snapshot_perm.
    rewrite list_to_map_to_list in He.
    assert (r = dt) as -> by (apply wf_determined; congruence). by destruct dt.
Qed.

Lemma wf_restoreInto r es r' : wf r -> restoreInto r es = Ok r' -> wf r' /\ capacity r' = capacity r.
Proof.
  revert r. induction es as [|e es IH]; intros r Hr; cbn; [by intros [= <-]|].
  case_bool_decide; [done|]. destruct (SetIdentity _ _ _) as [r1|] eqn:E; [|done]. cbn.
  intros H1. pose proof (wf_SetIdentity _ _ _ _ Hr E).
  apply SetIdentity_inv in E as (_ & _ & _ & Hc & _).
  destruct (IH r1); [done|done|]. split; [done|congruence].
Qed.

(** ** Operations as a transition system *)

Inductive op : Type :=
  | OpSetIdentity (key selector : bytes)
  | OpDelete (key : bytes)
  | OpRestore (es : list IndexEntry).

(** A failed operation returns its error and leaves the index untouched. *)
Definition step (dt : DirTrie) (o : op) : DirTrie :=
  match o with
  | OpSetIdentity k s => match SetIdentity dt k s with Ok dt' => dt' | Err _ => dt end
  | OpDelete k => Delete dt k
  | OpRestore es => match Restore dt es with Ok dt' => dt' | Err _ => dt end
  end.

Lemma wf_step dt o : wf dt -> wf (step dt o).
Proof.
  intros Hwf. destruct o as [k s|k|es]; cbn.
  - destruct (SetIdentity dt k s) eqn:E; [|done]. by eapply wf_SetIdentity.
  - by apply wf_deleteLocked.
  - unfold Restore. destruct (restoreInto _ _) as [r|] eqn:E; [|done]. cbn.
    apply wf_restoreInto in E as [Hr Hc]; [|apply wf_New].
    destruct (wf_count _ Hwf). unfold NewDirTrie in Hc; cbn in Hc. unfold MaxIndexEntries in *.
    assert (capacity r = capacity dt) as <-; [|by destruct r].
    destruct (capacity dt <? 65536) eqn:E1 in Hc; b2p; destruct (_ <? 0) eqn:E2 in Hc; b2p; lia.
Qed.

Lemma wf_run dt ops : wf dt -> wf (foldl step dt ops).
Proof. revert dt. induction ops as [|o ops IH]; intros dt Hdt; [done|]. cbn. by apply IH, wf_step. Qed.

(** ** Properties *)

(** In every state reachable by any sequence of insertions, replacements,
    deletions and restores the forward and reverse index agree, no selector
    set is empty, the byte counter is the exact weight of the entries, and the
    entry, byte and key-length limits hold. *)
Theorem dirtrie_reachable_wf cap ops : wf (foldl step (NewDirTrie cap) ops).
Proof. apply wf_run, wf_New. Qed.

(** Whatever order the runtime ranges over the selector map, a prefix
    enumeration returns the sorted, duplicate-free list of exactly the keys
    whose selector has the prefix, and fails only when there are more of them
    than the limit; the unlimited form never fails on a well-formed index. *)
Theorem dirtrie_prefix_exact dt order prefix limit :
  wf dt -> order ≡ₚ map_to_list (selectors dt) -> 0 <= limit ->
  KeysForPrefixLimit_order order prefix limit = KeysForPrefixLimit dt prefix limit /\
  (forall k, k ∈ Get dt prefix <-> exists s, entries dt !! k = Some s /\ HasPrefix s prefix = true) /\
  match KeysForPrefixLimit dt prefix limit with
  | Ok ks => ks = Get dt prefix /\ Sorted bytes_le ks /\ NoDup ks /\ Z.of_nat (length ks) <= limit
  | Err e => e = ErrIndexFull /\ limit < Z.of_nat (length (Get dt prefix))
  end.
Proof.
  intros Hwf Ho Hl. unfold Get, KeysForPrefixLimit, KeysForPrefixLimit_order.
  rewrite !scanPrefix_spec by (cbn; unfold MaxIndexEntries; lia). cbn [app].
  set (m := map_to_list (selectors dt)).
  pose proof (matching_NoDup dt prefix m Hwf ltac:(done)) as Hnd.
  assert (matching order prefix ≡ₚ matching m prefix) as Hperm.
  { apply NoDup_Permutation; [by eapply matching_NoDup|done|]. intros k.
    by rewrite !(matching_elem dt). }
  pose proof (matching_max dt prefix m Hwf ltac:(done)) as Hmax.
  rewrite (decide_True (P := _ <= MaxIndexEntries)) by done. cbn [mbind result_bind].
  split_and!.
  - assert (length (matching order prefix) = length (matching m prefix)) as Hlen by (by rewrite Hperm).
    do 2 case_decide; cbn [mbind result_bind]; try lia; [|done]. f_equal. by apply sortStrings_ext.
  - intros k. rewrite sortStrings_perm. by apply matching_elem.
  - case_decide; cbn [mbind result_bind].
    + split_and!; [done|apply sortStrings_sorted| |]; by rewrite sortStrings_perm.
    + rewrite sortStrings_perm. split; [done|lia].
Qed.

Definition trie_example : DirTrie :=
  foldl step (NewDirTrie (Some 8)) [OpSetIdentity [1; 2] [7]; OpSetIdentity [1] [7; 10]; OpSetIdentity [3] [8]].

Lemma dirtrie_prefix_exact_witness :
  KeysForPrefixLimit_order (map_to_list (selectors trie_example)) [7] 5 = Ok [[1]; [1; 2]].
Proof.
  rewrite (proj1 (dirtrie_prefix_exact trie_example (map_to_list (selectors trie_example)) [7] 5
    (wf_run _ _ (wf_New (Some 8))) (Permutation_refl _) ltac:(lia))).
  vm_compute. reflexivity.
Defined.

(** Restoring the snapshot of a well-formed index gives the index back,
    both maps and the byte counter included. *)
Theorem dirtrie_snapshot_roundtrip dt : wf dt -> Restore dt (Snapshot dt) = Ok dt.
Proof. apply Restore_Snapshot. Qed.

Lemma dirtrie_snapshot_roundtrip_witness :
  length (Snapshot trie_example) = 3%nat /\ Restore trie_example (Snapshot trie_example) = Ok trie_example.
Proof.
  split; [vm_compute; reflexivity|].
  apply (dirtrie_snapshot_roundtrip trie_example).
  exact (wf_run _ _ (wf_New (Some 8))).
Defined.
