(* ===== verification/DirManager.v ===== *)
(** * Directory manager

    [cache/dir_manager.go] and the diagnostics of [cache/dir_manager_diag.go].
    The directory is a flat array of entries cut into segments; each segment
    has buckets of four slots, one collision chain per bucket threaded through
    [next], and a doubly linked free chain through [prev]/[next].

    Indices inside a segment are [nat]; [Dir.next] and [Dir.prev] keep their
    16-bit width.  An index out of range and an explicit [panic] are both
    [None].  Each operation on a segment takes and returns the segment view
    (the slices of [Dirs] and [identities] and the entry of [DirFreeStart]). *)

From S2P Require Import Prelude Hash Dir Doc DirTrie.

(** The zero identity [[16]byte{}]. *)
Definition noIdentity : bytes := repeat 0 16.

Record Segment : Type := mkSegment {
  dirs : list Dir;
  freeStart : Z;
  ids : list bytes }.

Definition setDirs (s : Segment) (ds : list Dir) : Segment := mkSegment ds (freeStart s) (ids s).
Definition setFree (s : Segment) (f : Z) : Segment := mkSegment (dirs s) f (ids s).
Definition setId (s : Segment) (i : nat) (id : bytes) : Segment :=
  mkSegment (dirs s) (freeStart s) (<[i := id]> (ids s)).

(** The index a stored 16-bit link denotes. *)
Definition ix (z : Z) : nat := Z.to_nat z.
(** Writing [uint16(i)]. *)
Definition link (i : nat) : Z := u16 (Z.of_nat i).

(** [dirs[i].f()] as an update; [None] when [i] is out of range. *)
Definition upd (ds : list Dir) (i : nat) (f : Dir -> Dir) : option (list Dir) :=
  d ← ds !! i; Some (<[i := f d]> ds).

Definition depth : nat := 4.

(** ** Initialisation *)

Definition linkEmptyNext (buckets : nat) (ds : list Dir) (bucket : nat) : option (list Dir) :=
  ds ← foldl (fun acc dp => ds ← acc; upd ds (bucket * depth + dp) (fun d => setNext d (link (bucket * depth + dp + 1))))
             (Some ds) [1; 2]%nat;
  if decide (bucket = buckets - 1)%nat then Some ds
  else upd ds (bucket * depth + depth - 1) (fun d => setNext d (link (bucket * depth + depth - 1 + 2))).

Definition linkEmptyPrev (ds : list Dir) (bucket : nat) : option (list Dir) :=
  ds ← foldl (fun acc dp => ds ← acc; upd ds (bucket * depth + dp) (fun d => setPrev d (link (bucket * depth + dp - 1))))
             (Some ds) [3; 2]%nat;
  if decide (bucket = 0)%nat then Some ds
  else upd ds (bucket * depth + 1) (fun d => setPrev d (link (bucket * depth + 1 - 2))).

Definition linkEmptyDirs (ds : list Dir) : option (result (list Dir)) :=
  if decide (length ds mod depth = 0)%nat then
    let buckets := (length ds / depth)%nat in
    ds ← foldl (fun acc b => ds ← acc; linkEmptyNext buckets ds b) (Some ds) (seq 0 buckets);
    ds ← foldl (fun acc b => ds ← acc; linkEmptyPrev ds b) (Some ds) (seq 0 buckets);
    Some (Ok ds)
  else Some (Err (Errorf "dirs length should be multiple of DirDepth")).

(** One segment of [InitEmptyDirs]; the fatal log of the error branch ends the
    process. *)
Definition initSegment (n : nat) : option Segment :=
  r ← linkEmptyDirs (repeat emptyDir n);
  match r with
  | Ok ds => Some (mkSegment ds 1 (repeat noIdentity n))
  | Err _ => None
  end.

(** ** Free chain *)

(** The package function [freeChainDelete]: whether the removed slot was the
    first one, the new head in that case, and the relinked slice. *)
Definition freeChainDelete_slice (ds : list Dir) (i : nat) : option (bool * Z * list Dir) :=
  d ← ds !! i;
  if decide (offset d <> 0) then None
  else
    let p := prev d in
    r ← (if decide (p = 0) then Some (true, next d, ds)
         else ds' ← upd ds (ix p) (fun e => setNext e (next d)); Some (false, 0, ds'));
    let '(isFirst, h, ds) := r in
    d ← ds !! i;
    let n := next d in
    ds ← (if decide (n <> 0) then upd ds (ix n) (fun e => setPrev e p) else Some ds);
    Some (isFirst, h, ds).

Definition freeChainDelete (s : Segment) (i : nat) : option Segment :=
  r ← freeChainDelete_slice (dirs s) i;
  let '(isFirst, h, ds) := r in
  Some (mkSegment ds (if isFirst : bool then h else freeStart s) (ids s)).

(** [freeChainSet] relinks the old head even when there is none ([index = 0]),
    in which case it writes the [prev] word of slot 0. *)
Definition freeChainSet (s : Segment) (i : nat) : option Segment :=
  d ← dirs s !! i;
  if decide (offset d <> 0) then None
  else
    let index := freeStart s in
    ds ← upd (dirs s) (ix index) (fun e => setPrev e (link i));
    ds ← upd ds i (fun e => setNext e index);
    Some (mkSegment ds (link i) (ids s)).

(** ** Lookup *)

(** The loop of [dirProbe]; the counter guard is the fuel [length ds]. *)
Fixpoint probeLoop (fuel : nat) (key : Z) (ds : list Dir) (index prevIndex : nat)
    : bool * nat * nat * Dir :=
  match fuel with
  | O => (false, 0%nat, 0%nat, emptyDir)
  | S fuel' =>
      match ds !! index with
      | None => (false, 0%nat, 0%nat, emptyDir)
      | Some d =>
          if decide (offset d = 0) then (false, index, prevIndex, emptyDir)
          else if decide (tag d = key) then (true, index, prevIndex, d)
          else
            let nxt := ix (next d) in
            if decide (nxt = 0%nat) then (false, 0%nat, index, emptyDir)
            else probeLoop fuel' key ds nxt index
      end
  end.

Definition dirProbe (key : Z) (bucketId : nat) (ds : list Dir) : bool * nat * nat * Dir :=
  probeLoop (length ds) key ds (bucketId * depth) 0.

Definition calcDirHashPosition (key : bytes) (segmentsNum bucketsNumPerSegment : Z)
    : Z * nat * nat :=
  let keyInt64 := get_be (take 8 (md5 key)) in
  let keyInt12 := u16 (Z.shiftr keyInt64 52) in
  let segmentId := (Z.shiftr keyInt64 32) mod segmentsNum in
  let bucketId := (Z.land keyInt64 0xffffffff) mod bucketsNumPerSegment in
  (keyInt12, Z.to_nat segmentId, Z.to_nat bucketId).

(** ** Reclaiming slots *)

(** [freeChainRebuild]: state is (slice, head, prev, counter). *)
Definition rebuildSlot (st : option (list Dir * Z * nat * nat)) (i : nat)
    : option (list Dir * Z * nat * nat) :=
  st ← st;
  let '(ds, h, prv, counter) := st in
  d ← ds !! i;
  if decide (offset d = 0) then
    let h := if decide (h = 0) then link i else h in
    ds ← upd ds i clear;
    ds ← upd ds i (fun e => setPrev e (link prv));
    ds ← (if decide (prv <> 0)%nat then upd ds prv (fun e => setNext e (link i)) else Some ds);
    Some (ds, h, i, S counter)
  else Some (ds, h, prv, counter).

(** The non-head slots of a segment, in scan order. *)
Definition slots (buckets : nat) : list nat :=
  seq 0 buckets ≫= fun b => [b * depth + 1; b * depth + 2; b * depth + 3]%nat.

Definition freeChainRebuild (s : Segment) : option (Segment * nat) :=
  let buckets := (length (dirs s) / depth)%nat in
  st ← foldl rebuildSlot (Some (dirs s, 0, 0%nat, 0%nat)) (slots buckets);
  let '(ds, h, _, counter) := st in
  Some (mkSegment ds h (ids s), counter).

(** Clearing one bucket chain; every visited slot is cleared, so a chain
    cannot be followed for more than [length ds] steps. *)
Fixpoint purgeChain (fuel : nat) (ds : list Dir) (index counter : nat) : option (list Dir * nat) :=
  match fuel with
  | O => None
  | S fuel' =>
      d ← ds !! index;
      let nxt := ix (next d) in
      ds ← upd ds index clear;
      if decide (nxt = 0%nat) then Some (ds, S counter)
      else purgeChain fuel' ds nxt (S counter)
  end.

(** The common body of [purgeRandom10], [purgeRandom33] and
    [purgeRandom100]: purge every selected bucket but the protected one. *)
Definition purgeBuckets (sel : nat -> bool) (keep : nat) (s : Segment) : option (Segment * nat) :=
  let buckets := (length (dirs s) / depth)%nat in
  st ← foldl (fun acc b =>
         st ← acc;
         let '(ds, counter) := st in
         if negb (sel b) || bool_decide (b = keep) then Some (ds, counter)
         else purgeChain (S (S (length ds))) ds (b * depth) counter)
       (Some (dirs s, 0%nat)) (seq 0 buckets);
  let '(ds, counter) := st in
  r ← freeChainRebuild (setDirs s ds);
  Some (r.1, counter).

Definition purgeRandom10 (randomIndex : nat) (s : Segment) (keep : nat) : option (Segment * nat) :=
  let buckets := (length (dirs s) / depth)%nat in
  purgeBuckets (fun i => negb (bool_decide (10 < buckets)%nat && bool_decide (i mod 10 <> randomIndex)%nat)) keep s.

Definition purgeRandom33 (randomIndex : nat) (s : Segment) (keep : nat) : option (Segment * nat) :=
  let buckets := (length (dirs s) / depth)%nat in
  purgeBuckets (fun i => negb (bool_decide (3 < buckets)%nat && bool_decide (i mod 3 <> randomIndex)%nat)) keep s.

Definition purgeRandom100 (s : Segment) (keep : nat) : option (Segment * nat) :=
  purgeBuckets (fun _ => true) keep s.

(** ** Allocation *)

(** One pass through the label [FindFreeDir] with loop number [loop];
    [rnd loop] is the draw of [rand.Intn(10)] in that pass. *)
Fixpoint popLoop (n : nat) (loop : nat) (rnd : nat -> nat) (s : Segment) (keep : nat)
    : option (Segment * nat) :=
  match n with
  | O => None (* panic: loop > 50 *)
  | S n' =>
      s ← (if decide (49 < loop)%nat then r ← purgeRandom100 s keep; Some r.1 else Some s);
      if decide (50 < loop)%nat then None
      else
        r ← (if decide (freeStart s = 0) then
               r ← freeChainRebuild s;
               let '(s, found) := r in
               if decide (found = 0%nat)
               then r ← purgeRandom10 (rnd loop) s keep; Some (inr r.1)
               else Some (inl s)
             else Some (inl s));
        match r with
        | inr s => popLoop n' (S loop) rnd s keep
        | inl s =>
            let i := ix (freeStart s) in
            s ← freeChainDelete s i;
            Some (s, i)
        end
  end.

Definition freeChainPop (rnd : nat -> nat) (s : Segment) (keep : nat) : option (Segment * nat) :=
  popLoop 51 1 rnd s keep.

(** The first empty slot of a bucket after its head. *)
Definition isFree (ds : list Dir) (i : nat) : bool :=
  match ds !! i with Some d => offset d =? 0 | None => false end.

Definition findSlot (ds : list Dir) (index : nat) : option nat :=
  if isFree ds (index + 1) then Some (index + 1)%nat
  else if isFree ds (index + 2) then Some (index + 2)%nat
  else if isFree ds (index + 3) then Some (index + 3)%nat
  else None.

Definition getFreeDir (rnd : nat -> nat) (s : Segment) (bucketId : nat)
    : option (Segment * (bool * nat)) :=
  let index := (bucketId * depth)%nat in
  if isFree (dirs s) index then Some (s, (true, index))
  else match findSlot (dirs s) index with
       | Some i => s ← freeChainDelete s i; Some (s, (true, i))
       | None => r ← freeChainPop rnd s bucketId; Some (r.1, (false, r.2))
       end.

(** The last slot of the chain that starts at [index]; running out of fuel is
    a cyclic chain, on which the loop of [dirInsert] does not terminate. *)
Fixpoint lastOfChain (fuel : nat) (ds : list Dir) (index : nat) : option nat :=
  match fuel with
  | O => None
  | S fuel' =>
      d ← ds !! index;
      if decide (next d = 0) then Some index else lastOfChain fuel' ds (ix (next d))
  end.

Definition dirInsert (rnd : nat -> nat) (s : Segment) (key : Z) (bucketId : nat) (dir : Dir)
    : option (Segment * nat) :=
  let '(hit, dirOffset, _, _) := dirProbe key bucketId (dirs s) in
  if hit : bool then
    d ← dirs s !! dirOffset;
    ds ← upd (dirs s) dirOffset (fun _ => setNext dir (next d));
    Some (setDirs s ds, dirOffset)
  else
    r ← getFreeDir rnd s bucketId;
    let '(s, (_, freeDirOffset)) := r in
    ds ← upd (dirs s) freeDirOffset (fun _ => dir);
    ds ← (if decide (freeDirOffset = bucketId * depth)%nat then Some ds
          else last ← lastOfChain (S (length ds)) ds (bucketId * depth);
               upd ds last (fun e => setNext e (link freeDirOffset)));
    Some (setDirs s ds, freeDirOffset).

Definition dirDelete (s : Segment) (key : Z) (bucketId : nat) : option (Segment * nat) :=
  let '(hit, dirOffset, prevDirOffset, _) := dirProbe key bucketId (dirs s) in
  if negb hit then Some (s, dirOffset)
  else
    let s := setId s dirOffset noIdentity in
    d ← dirs s !! dirOffset;
    if decide (dirOffset = bucketId * depth)%nat then
      let nxt := ix (next d) in
      if decide (nxt <> 0%nat) then
        e ← dirs s !! nxt;
        nid ← ids s !! nxt;
        ds ← upd (dirs s) dirOffset (fun _ => e);
        let s := setId (setId s dirOffset nid) nxt noIdentity in
        ds ← upd ds nxt clear;
        s ← freeChainSet (setDirs s ds) nxt;
        Some (s, dirOffset)
      else
        ds ← upd (dirs s) dirOffset clear;
        Some (setDirs s ds, dirOffset)
    else
      ds ← upd (dirs s) prevDirOffset (fun e => setNext e (next d));
      ds ← upd ds dirOffset clear;
      s ← freeChainSet (setDirs s ds) dirOffset;
      Some (s, dirOffset).

(** The loop of [removePhase] over one bucket. *)
Fixpoint removeLoop (fuel : nat) (s : Segment) (ph : bool) (bucket index : nat) : option Segment :=
  match fuel with
  | O => None
  | S fuel' =>
      d ← dirs s !! index;
      if decide (offset d = 0) then Some s
      else if decide (phase d = ph) then
        r ← dirDelete s (tag d) bucket;
        removeLoop fuel' r.1 ph bucket (bucket * depth)
      else if decide (next d = 0) then Some s
      else removeLoop fuel' s ph bucket (ix (next d))
  end.

(** Each deletion shortens the chain and each pass over it is no longer than
    the segment. *)
Definition removeFuel (s : Segment) : nat := S (length (dirs s)) * S (length (dirs s)).

Definition removePhaseSeg (ph : bool) (s : Segment) : option Segment :=
  foldl (fun acc b => s ← acc; removeLoop (removeFuel s) s ph b (b * depth))
        (Some s) (seq 0 (length (dirs s) / depth)).

(** ** The manager *)

Record DirManager : Type := mkDirManager {
  FragmentsNum : Z;
  SegmentsNum : Z;
  BucketsNum : Z;
  BucketsNumPerSegment : Z;
  Segs : list Segment;   (** [Dirs], [DirFreeStart] and [identities], cut by [getSegmentDirs] *)
  Trie : DirTrie }.

Definition setSegs (dm : DirManager) (l : list Segment) : DirManager :=
  mkDirManager (FragmentsNum dm) (SegmentsNum dm) (BucketsNum dm) (BucketsNumPerSegment dm) l (Trie dm).
Definition setTrie (dm : DirManager) (t : DirTrie) : DirManager :=
  mkDirManager (FragmentsNum dm) (SegmentsNum dm) (BucketsNum dm) (BucketsNumPerSegment dm) (Segs dm) t.

(** A directory without buckets divides by zero. *)
Definition Init (dirNum : Z) : option DirManager :=
  let bucketsNum := dirNum / DirDepth in
  let segmentsNum := u64 (bucketsNum + MaxBucketsPerSegment - 1) / MaxBucketsPerSegment in
  if decide (segmentsNum = 0) then None
  else
    let perSegment := u64 (bucketsNum + segmentsNum - 1) / segmentsNum in
    let fragments := u64 (perSegment * DirDepth * segmentsNum) in
    seg ← initSegment (Z.to_nat (perSegment * DirDepth));
    Some (mkDirManager fragments segmentsNum bucketsNum perSegment
            (repeat seg (Z.to_nat segmentsNum)) (NewDirTrie (Some (i64 fragments)))).

Definition InitEmptyDirs (dm : DirManager) : option DirManager :=
  segs ← mapM (fun s : Segment => initSegment (length (dirs s))) (Segs dm);
  Some (setSegs dm segs).

Definition hashPosition (dm : DirManager) (key : bytes) : Z * nat * nat :=
  calcDirHashPosition key (SegmentsNum dm) (BucketsNumPerSegment dm).

Definition globalOffset (dm : DirManager) (seg index : nat) : Z :=
  BucketsNumPerSegment dm * DirDepth * Z.of_nat seg + Z.of_nat index.

(** The identity check of [Get], [Delete] and [deleteAt]. *)
Definition foreign (s : Segment) (index : nat) (key : bytes) : option bool :=
  id ← ids s !! index;
  Some (negb (bool_decide (id = noIdentity)) && negb (bool_decide (id = docKey key))).

Definition Get (dm : DirManager) (key : bytes) : option (bool * Z * Dir) :=
  let '(keyInt12, seg, bucket) := hashPosition dm key in
  s ← Segs dm !! seg;
  let '(hit, dirOffset, _, d) := dirProbe keyInt12 bucket (dirs s) in
  f ← (if hit : bool then foreign s dirOffset key else Some false);
  if f : bool then Some (false, Z.of_nat dirOffset, emptyDir)
  else Some (hit, globalOffset dm seg dirOffset, d).

(** The entry [Set] builds; [None] when [setApproxSize] panics. *)
Definition newEntry (keyInt12 off size : Z) (ph : bool) : option Dir :=
  d ← setApproxSize (setOffset emptyDir off) (u64 size);
  Some (setPhase (setTag (setHead d true) keyInt12) ph).

Definition Set_ (rnd : nat -> nat) (dm : DirManager) (key : bytes) (off size : Z) (ph : bool)
    : option (DirManager * Z) :=
  let '(keyInt12, seg, bucket) := hashPosition dm key in
  dir ← newEntry keyInt12 off size ph;
  s ← Segs dm !! seg;
  r ← dirInsert rnd s keyInt12 bucket dir;
  let '(s, i) := r in
  Some (setSegs dm (<[seg := setId s i (docKey key)]> (Segs dm)), globalOffset dm seg i).

Definition Delete (dm : DirManager) (key : bytes) : option (DirManager * Z) :=
  let '(keyInt12, seg, bucket) := hashPosition dm key in
  s ← Segs dm !! seg;
  let '(hit, index, _, _) := dirProbe keyInt12 bucket (dirs s) in
  f ← (if hit : bool then foreign s index key else Some false);
  if f : bool then Some (dm, 0)
  else
    r ← dirDelete s keyInt12 bucket;
    Some (setSegs dm (<[seg := r.1]> (Segs dm)), globalOffset dm seg r.2).

Definition deleteAt (dm : DirManager) (key : bytes) (expected : Z) : option (DirManager * bool) :=
  let '(keyInt12, seg, bucket) := hashPosition dm key in
  s ← Segs dm !! seg;
  let '(hit, index, _, d) := dirProbe keyInt12 bucket (dirs s) in
  f ← (if hit : bool then foreign s index key else Some false);
  if f : bool then Some (dm, false)
  else if negb hit then Some (dm, true)
  else if decide (i64 (offset d) <> expected) then Some (dm, false)
  else
    r ← dirDelete s keyInt12 bucket;
    Some (setSegs dm (<[seg := r.1]> (Segs dm)), true).

Definition removePhase (dm : DirManager) (ph : bool) : option DirManager :=
  segs ← mapM (removePhaseSeg ph) (Segs dm);
  Some (setSegs dm segs).

(** ** Directory image *)

Definition DirSize : Z := 10.
Definition DirIDSize : Z := 2.

Definition BinarySize (dm : DirManager) : Z :=
  SegmentsNum dm * (BucketsNumPerSegment dm * DirDepth * DirSize + DirIDSize).

Definition encodeDir (d : Dir) : bytes :=
  put_le 2 (raw0 d) ++ put_le 2 (raw1 d) ++ put_le 2 (raw2 d) ++ put_le 2 (raw3 d) ++ put_le 2 (raw4 d).

Definition encodeSegment (s : Segment) : bytes :=
  (dirs s ≫= encodeDir) ++ put_le 2 (freeStart s).

Definition MarshalBinary (dm : DirManager) : bytes := Segs dm ≫= encodeSegment.

(** One chain of [validateDirectory] from slot [i]; [seen] marks visited
    slots.  A slot is visited once, so the walk is bounded by the fuel. *)
Fixpoint validateChain (fuel : nat) (ds : list Dir) (bucket i : nat) (seen : list bool)
    : result (list bool) :=
  match fuel with
  | O => Err (Errorf "invalid directory chain")
  | S fuel' =>
      match ds !! i, seen !! i with
      | Some d, Some false =>
          if negb (Nat.eqb i bucket) && Nat.eqb (i mod depth) 0 then Err (Errorf "invalid directory chain")
          else if offset d =? 0 then Err (Errorf "invalid directory chain")
          else
            let seen := <[i := true]> seen in
            if next d =? 0 then Ok seen
            else validateChain fuel' ds bucket (ix (next d)) seen
      | _, _ => Err (Errorf "invalid directory chain")
      end
  end.

Definition validateBucket (ds : list Dir) (acc : result (list bool)) (b : nat) : result (list bool) :=
  seen ← acc;
  let bucket := (b * depth)%nat in
  match ds !! bucket with
  | None => Ok seen
  | Some d =>
      if offset d =? 0 then
        if next d =? 0 then Ok seen else Err (Errorf "empty directory bucket has chain")
      else validateChain (S (length ds)) ds bucket bucket seen
  end.

Fixpoint validateFree (fuel : nat) (ds : list Dir) (free prv : Z) (seen : list bool)
    : result (list bool) :=
  if free =? 0 then Ok seen
  else match fuel with
  | O => Err (Errorf "invalid directory free chain")
  | S fuel' =>
      let i := ix free in
      match ds !! i, seen !! i with
      | Some d, Some false =>
          if Nat.eqb (i mod depth) 0 || negb (offset d =? 0) || negb (prev d =? prv)
          then Err (Errorf "invalid directory free chain")
          else validateFree fuel' ds (next d) free (<[i := true]> seen)
      | _, _ => Err (Errorf "invalid directory free chain")
      end
  end.

Definition unreachable (ds : list Dir) (seen : list bool) (i : nat) : bool :=
  match ds !! i, seen !! i with
  | Some d, Some false => negb (Nat.eqb (i mod depth) 0) || negb (offset d =? 0)
  | _, _ => false
  end.

Definition validateDirectory (ds : list Dir) (free : Z) : result unit :=
  let buckets := ((length ds + 3) / depth)%nat in
  seen ← foldl (validateBucket ds) (Ok (repeat false (length ds))) (seq 0 buckets);
  seen ← validateFree (S (length ds)) ds free 0 seen;
  if existsb (unreachable ds seen) (seq 0 (length ds)) then Err (Errorf "unreachable directory entry")
  else Ok tt.

Definition take_le (n : nat) (l : bytes) : Z * bytes := (get_le (take n l), drop n l).

Definition decodeDir (data : bytes) : Dir * bytes :=
  let '(r0, l) := take_le 2 data in
  let '(r1, l) := take_le 2 l in
  let '(r2, l) := take_le 2 l in
  let '(r3, l) := take_le 2 l in
  let '(r4, l) := take_le 2 l in
  (mkDir r0 r1 r2 r3 r4, l).

Fixpoint decodeDirs (n : nat) (data : bytes) : list Dir * bytes :=
  match n with
  | O => ([], data)
  | S n' =>
      let '(d, l) := decodeDir data in
      let '(ds, l) := decodeDirs n' l in
      (d :: ds, l)
  end.

(** Decode and validate [segs] segments of [count] entries. *)
Fixpoint decodeSegments (segs count : nat) (data : bytes) : result (list Segment) :=
  match segs with
  | O => Ok []
  | S segs' =>
      let '(ds, l) := decodeDirs count data in
      let '(free, l) := take_le 2 l in
      _ ← validateDirectory ds free;
      rest ← decodeSegments segs' count l;
      Ok (mkSegment ds free (repeat noIdentity count) :: rest)
  end.

Definition UnmarshalBinary (dm : DirManager) (data : bytes) : result DirManager :=
  if negb (blen data =? BinarySize dm) then Err (Errorf "invalid directory size")
  else
    segs ← decodeSegments (length (Segs dm)) (Z.to_nat (BucketsNumPerSegment dm * DirDepth)) data;
    Ok (setSegs dm segs).

Definition UnmarshalBinaryConcurrency (dm : DirManager) (data : bytes) : result DirManager :=
  UnmarshalBinary dm data.

(** ** Diagnostics *)

(** Marking the slots linked from a bucket head; running out of fuel is a
    cycle, on which the code counts up to its panic. *)
Fixpoint markChain (fuel : nat) (ds : list Dir) (index : nat) (counter : Z) (mp : gset nat)
    : option (Z * gset nat) :=
  match fuel with
  | O => None
  | S fuel' =>
      d ← ds !! index;
      if decide (offset d = 0) then Some (counter, mp)
      else
        let counter := counter + 1 in
        let mp := {[ index ]} ∪ mp in
        if decide (next d = 0) then Some (counter, mp)
        else if decide (100000000 < counter) then None
        else markChain fuel' ds (ix (next d)) counter mp
  end.

Fixpoint markFree (fuel : nat) (ds : list Dir) (index : Z) (counter : Z) (mp : gset nat)
    : option (Z * gset nat) :=
  if decide (index = 0) then Some (counter, mp)
  else match fuel with
  | O => None
  | S fuel' =>
      let counter := counter + 1 in
      let mp := {[ ix index ]} ∪ mp in
      d ← ds !! ix index;
      if decide (100000000 < counter) then None
      else markFree fuel' ds (next d) counter mp
  end.

Definition markUsedSeg (counter : Z) (s : Segment) : option (Z * gset nat) :=
  foldl (fun acc b => st ← acc;
           markChain (S (length (dirs s))) (dirs s) (b * depth) st.1 st.2)
        (Some (counter, ∅)) (seq 0 (length (dirs s) / depth)).

Fixpoint markSegs (mark : Z -> Segment -> option (Z * gset nat)) (counter : Z) (l : list Segment)
    : option (Z * list (gset nat)) :=
  match l with
  | [] => Some (counter, [])
  | s :: l' =>
      st ← mark counter s;
      r ← markSegs mark st.1 l';
      Some (r.1, st.2 :: r.2)
  end.

Definition hangError : error := Errorf "find a hang-up dir".

Definition DiagHangUsedDirs (dm : DirManager) : option (result Z) :=
  r ← markSegs markUsedSeg 0 (Segs dm);
  let hung := existsb (fun p : Segment * gset nat =>
      existsb (fun i => negb (isFree (dirs p.1) i) && negb (bool_decide (i ∈ p.2)))
              (seq 0 (length (dirs p.1)))) (zip (Segs dm) r.2) in
  Some (if hung then Err hangError else Ok r.1).

Definition DiagHangFreeDirs (dm : DirManager) : option (result Z) :=
  r ← markSegs (fun c (s : Segment) => markFree (S (length (dirs s))) (dirs s) (freeStart s) c ∅) 0 (Segs dm);
  let hung := existsb (fun p : Segment * gset nat =>
      existsb (fun i => isFree (dirs p.1) i && negb (bool_decide (i ∈ p.2)))
              (slots (length (dirs p.1) / depth))) (zip (Segs dm) r.2) in
  Some (if hung then Err hangError else Ok r.1).
