(* ===== verification/DirChain.v ===== *)
(** * Chains of a directory segment

    The structural invariant of a segment of [cache/dir_manager.go]: every
    bucket is an acyclic chain of used slots starting at its head, the unused
    non-head slots form one doubly linked free chain, and no slot is in two
    places.  The lemmas below are the pointer surgery the operations do. *)

From S2P Require Import Prelude Hash Dir Doc DirTrie DirManager.

Definition nonhead (i : nat) : Prop := (i mod depth <> 0)%nat.

Lemma nonhead_nonzero i : nonhead i -> i <> 0%nat.
Proof. by intros H ->. Qed.
Lemma nonhead_bucket b i : nonhead i -> i <> (b * depth)%nat.
Proof. intros H ->. apply H. by rewrite Nat.Div0.mod_mul. Qed.
#[global] Instance nonhead_dec i : Decision (nonhead i).
Proof. unfold nonhead. apply _. Defined.

(** [useg ds l e]: the slots [l] are in use and linked in order, the last one
    to [e]. *)
Fixpoint useg (ds : list Dir) (l : list nat) (e : nat) : Prop :=
  match l with
  | [] => True
  | i :: l' =>
      (exists d, ds !! i = Some d /\ offset d <> 0 /\ next d = Z.of_nat (hd e l')) /\ useg ds l' e
  end.

(** [fseg ds p l e]: the slots [l] are free and doubly linked, entered from
    [p] and left to [e]. *)
Fixpoint fseg (ds : list Dir) (p : nat) (l : list nat) (e : nat) : Prop :=
  match l with
  | [] => True
  | i :: l' =>
      (exists d, ds !! i = Some d /\ offset d = 0 /\ prev d = Z.of_nat p /\
        next d = Z.of_nat (hd e l')) /\ fseg ds i l' e
  end.

Lemma hd_app {A} (e : A) l1 l2 : hd e (l1 ++ l2) = hd (hd e l2) l1.
Proof. by destruct l1. Qed.

Lemma useg_app ds l1 l2 e : useg ds (l1 ++ l2) e <-> useg ds l1 (hd e l2) /\ useg ds l2 e.
Proof.
  induction l1 as [|i l1 IH]; cbn; [naive_solver|]. rewrite IH, hd_app. naive_solver.
Qed.

Lemma fseg_app ds p l1 l2 e :
  fseg ds p (l1 ++ l2) e <-> fseg ds p l1 (hd e l2) /\ fseg ds (default p (last l1)) l2 e.
Proof.
  revert p. induction l1 as [|i l1 IH]; intros p; cbn [app fseg]; [cbn; naive_solver|].
  rewrite IH, hd_app, last_cons. destruct (last l1); cbn; naive_solver.
Qed.

Lemma useg_frame ds ds' l e :
  (forall i d, i ∈ l -> ds !! i = Some d -> offset d <> 0 ->
    exists d', ds' !! i = Some d' /\ offset d' = offset d /\ next d' = next d) ->
  useg ds l e -> useg ds' l e.
Proof.
  induction l as [|i l IH]; cbn; [done|]. intros Hf [(d & Hd & Ho & Hn) Hl]. split.
  - destruct (Hf i d) as (d' & ? & ? & ?); [set_solver|done|done|]. exists d'. split_and!; congruence.
  - apply IH; [|done]. intros ????. eapply Hf; set_solver.
Qed.

Lemma fseg_frame ds ds' p l e :
  (forall i, i ∈ l -> ds' !! i = ds !! i) -> fseg ds p l e -> fseg ds' p l e.
Proof.
  revert p. induction l as [|i l IH]; intros p; cbn; [done|]. intros Hf [Hd Hl].
  rewrite Hf by set_solver. split; [done|]. apply IH; [|done]. set_solver.
Qed.

Lemma useg_elem ds l e i :
  useg ds l e -> i ∈ l -> exists d, ds !! i = Some d /\ offset d <> 0.
Proof.
  induction l as [|j l IH]; cbn; [set_solver|]. intros [(d & ? & ? & ?) Hl] Hi.
  apply elem_of_cons in Hi as [->|Hi]; eauto.
Qed.
Lemma fseg_elem ds p l e i :
  fseg ds p l e -> i ∈ l -> exists d, ds !! i = Some d /\ offset d = 0.
Proof.
  revert p. induction l as [|j l IH]; intros p; cbn; [set_solver|]. intros [(d & ? & ? & ?) Hl] Hi.
  apply elem_of_cons in Hi as [->|Hi]; eauto.
Qed.

(** Following [next] is deterministic, so a chain that ends visits no slot
    twice. *)
Lemma fseg_det ds p q l1 l2 :
  fseg ds p l1 0 -> fseg ds q l2 0 -> Forall nonhead l1 -> Forall nonhead l2 ->
  hd 0%nat l1 = hd 0%nat l2 -> l1 = l2.
Proof.
  revert p q l2. induction l1 as [|i l1 IH]; intros p q [|j l2]; cbn; intros H1 H2 F1 F2 E; [done| | |].
  - inversion F2; subst. by apply nonhead_nonzero in H3.
  - inversion F1; subst. by apply nonhead_nonzero in H3.
  - subst j. destruct H1 as [(d1 & ? & ? & ? & N1) H1], H2 as [(d2 & ? & ? & ? & N2) H2].
    inversion F1; inversion F2; subst. f_equal. simplify_eq.
    eapply IH; [exact H1|exact H2|done|done|lia].
Qed.

Lemma fseg_NoDup ds p l : fseg ds p l 0 -> Forall nonhead l -> NoDup l.
Proof.
  revert p. induction l as [|i l IH]; intros p H F; [constructor|].
  inversion F; subst. destruct (H) as [_ Hl]. constructor; [|eapply IH; eauto].
  intros Hi. apply list_elem_of_split in Hi as (l1 & l2 & ->).
  assert (i :: l1 ++ i :: l2 = i :: l2) as E.
  { apply fseg_app in Hl as [_ Hl2]. eapply fseg_det; [exact H|exact Hl2|done| |done].
    apply Forall_app in H3 as [_ ?]. done. }
  apply (f_equal length) in E. cbn in E. rewrite length_app in E. cbn in E. lia.
Qed.

(** ** The invariant *)

Definition bucket_wf (ds : list Dir) (b : nat) (c : list nat) : Prop :=
  match c with
  | [] => exists d, ds !! (b * depth)%nat = Some d /\ offset d = 0 /\ next d = 0
  | i :: l => i = (b * depth)%nat /\ Forall nonhead l
  end /\ useg ds c 0.

Record used_wf (ds : list Dir) (chs : list (list nat)) : Prop := mk_used_wf {
  uw_len : length ds = (depth * length chs)%nat;
  uw_bound : Z.of_nat (length ds) <= 65536;
  uw_bucket : forall b c, chs !! b = Some c -> bucket_wf ds b c;
  uw_nodup : NoDup (concat chs);
  uw_cover : forall i d, nonhead i -> ds !! i = Some d -> offset d <> 0 -> i ∈ concat chs }.

Record free_wf (ds : list Dir) (fs : Z) (fl : list nat) : Prop := mk_free_wf {
  fw_seg : fseg ds 0 fl 0;
  fw_nonhead : Forall nonhead fl;
  fw_start : fs = Z.of_nat (hd 0%nat fl);
  fw_cover : forall i d, nonhead i -> ds !! i = Some d -> offset d = 0 -> i ∈ fl }.

Definition seg_wf (s : Segment) (chs : list (list nat)) (fl : list nat) : Prop :=
  length (ids s) = length (dirs s) /\ Forall dir_ok (dirs s) /\
  used_wf (dirs s) chs /\ free_wf (dirs s) (freeStart s) fl.

(** Changes that no chain can see: offsets, and the links of used and head
    slots, are kept. *)
Definition chain_eq (ds ds' : list Dir) : Prop :=
  length ds' = length ds /\
  forall i d, ds !! i = Some d -> exists d', ds' !! i = Some d' /\ offset d' = offset d /\
    (offset d <> 0 \/ ~ nonhead i -> next d' = next d).

#[global] Instance chain_eq_preorder : PreOrder chain_eq.
Proof.
  split.
  - intros ds. split; [done|]. intros i d Hd. exists d. done.
  - intros d1 d2 d3 [L1 H1] [L2 H2]. split; [congruence|]. intros i d Hd.
    destruct (H1 i d Hd) as (d' & Hd' & Ho' & Hn'). destruct (H2 i d' Hd') as (d'' & ? & ? & Hn'').
    exists d''. split_and!; [done|congruence|]. intros Hc. rewrite Hn'', Hn' by naive_solver congruence. done.
Qed.

Lemma used_wf_chain_eq ds ds' chs : chain_eq ds ds' -> used_wf ds chs -> used_wf ds' chs.
Proof.
  intros [L H] [Ul Ub Uk Un Uc]. split; [congruence|by rewrite L| |done|].
  - intros b c Hc. destruct (Uk b c Hc) as [Hh Hs]. split.
    + destruct c; [|done]. destruct Hh as (d & Hd & Ho & Hn).
      destruct (H _ d Hd) as (d' & ? & ? & Hn'). exists d'. split_and!; [done|congruence|].
      rewrite Hn', Hn; [done|]. right. intros Hnh. by eapply nonhead_bucket in Hnh.
    + eapply useg_frame; [|exact Hs]. intros i d _ Hd Ho.
      destruct (H i d Hd) as (d' & ? & ? & Hn'). exists d'. split_and!; auto.
  - intros i d' Hnh Hd' Ho'. destruct (lookup_lt_is_Some_2 ds i) as [d Hd].
    { rewrite <- L. by apply lookup_lt_Some in Hd'. }
    destruct (H i d Hd) as (e & ? & ? & _). simplify_eq. eapply Uc; eauto. congruence.
Qed.

Lemma chain_eq_insert_prev ds i d p :
  ds !! i = Some d -> chain_eq ds (<[i := setPrev d p]> ds).
Proof.
  intros Hd. split; [apply length_insert|]. intros j e He.
  destruct (decide (i = j)) as [->|Hne].
  - assert (e = d) as -> by congruence. exists (setPrev d p).
    rewrite list_lookup_insert_eq by (by apply lookup_lt_Some in He).
    split_and!; done.
  - exists e. rewrite list_lookup_insert_ne by done. done.
Qed.

Lemma chain_eq_insert_free ds i d d' :
  ds !! i = Some d -> offset d = 0 -> nonhead i -> offset d' = 0 -> chain_eq ds (<[i := d']> ds).
Proof.
  intros Hd Ho Hn Ho'. split; [apply length_insert|]. intros j e He.
  destruct (decide (i = j)) as [->|Hne].
  - assert (e = d) as -> by congruence. exists d'.
    rewrite list_lookup_insert_eq by (by apply lookup_lt_Some in He).
    split_and!; [done|congruence|]. naive_solver.
  - exists e. rewrite list_lookup_insert_ne by done. done.
Qed.

Lemma upd_lookup ds i f d : ds !! i = Some d -> upd ds i f = Some (<[i := f d]> ds).
Proof. intros H. unfold upd. by rewrite H. Qed.

Lemma ix_nat n : ix (Z.of_nat n) = n.
Proof. apply Nat2Z.id. Qed.
Lemma link_small i n : (i < n)%nat -> Z.of_nat n <= 65536 -> link i = Z.of_nat i.
Proof. intros. unfold link. apply u16_small. unfold fits. lia. Qed.

Lemma dir_ok_setNext d n : dir_ok d -> fits 16 n -> dir_ok (setNext d n).
Proof. unfold dir_ok, setNext; cbn. tauto. Qed.
Lemma dir_ok_setPrev d n : dir_ok d -> fits 16 n -> dir_ok (setPrev d n).
Proof. unfold dir_ok, setPrev, set_raw2; cbn. tauto. Qed.
Lemma dir_ok_empty : dir_ok emptyDir.
Proof. unfold dir_ok, fits; cbn. lia. Qed.
Lemma dir_ok_lookup ds i d : Forall dir_ok ds -> ds !! i = Some d -> dir_ok d.
Proof. intros H Hd. rewrite Forall_lookup in H. eauto. Qed.
Lemma dir_ok_next d : dir_ok d -> fits 16 (next d).
Proof. unfold dir_ok, next. tauto. Qed.
Lemma dir_ok_prev d : dir_ok d -> fits 16 (prev d).
Proof. unfold dir_ok, prev. tauto. Qed.
Lemma link_fits i : fits 16 (link i).
Proof. apply u16_fits. Qed.

Create HintDb dirs.
#[export] Hint Resolve dir_ok_setNext dir_ok_setPrev dir_ok_empty dir_ok_next dir_ok_prev
  dir_ok_lookup link_fits Forall_insert : dirs.

Lemma lookup_insert_cases {A} (ds : list A) i j x :
  (i < length ds)%nat -> <[i := x]> ds !! j = if decide (i = j) then Some x else ds !! j.
Proof.
  intros H. destruct (decide (i = j)) as [->|Hne].
  - by apply list_lookup_insert_eq.
  - by apply list_lookup_insert_ne.
Qed.

(** Redirecting the exit of a free segment, and its entry. *)
Lemma fseg_set_exit ds p l q e e' d :
  fseg ds p (l ++ [q]) e -> NoDup (l ++ [q]) -> ds !! q = Some d ->
  fseg (<[q := setNext d (Z.of_nat e')]> ds) p (l ++ [q]) e'.
Proof.
  intros H Hnd Hd. apply NoDup_app in Hnd as (_ & Hdis & _).
  apply fseg_app in H as [H1 [(d' & Hd' & Ho & Hp & _) _]]. assert (d' = d) as -> by congruence.
  apply fseg_app. split.
  - eapply fseg_frame; [|exact H1]. intros i Hi. apply list_lookup_insert_ne. set_solver.
  - cbn. split; [|done]. exists (setNext d (Z.of_nat e')).
    rewrite list_lookup_insert_eq by (by eapply lookup_lt_Some). split_and!; done.
Qed.

Lemma fseg_set_entry ds p p' i l e d :
  fseg ds p (i :: l) e -> i ∉ l -> ds !! i = Some d ->
  fseg (<[i := setPrev d (Z.of_nat p')]> ds) p' (i :: l) e.
Proof.
  intros [(d' & Hd' & Ho & Hp & Hn) H] Hi Hd. assert (d' = d) as -> by congruence. split.
  - exists (setPrev d (Z.of_nat p')). rewrite list_lookup_insert_eq by (by eapply lookup_lt_Some).
    split_and!; done.
  - eapply fseg_frame; [|exact H]. intros j Hj. apply list_lookup_insert_ne. set_solver.
Qed.

(** [linked ds ds' l]: only the links of the free slots [l] changed. *)
Definition relinked (ds ds' : list Dir) (l : list nat) : Prop :=
  chain_eq ds ds' /\ (forall i, i ∉ l -> ds' !! i = ds !! i) /\ (Forall dir_ok ds -> Forall dir_ok ds').

Lemma relinked_refl ds l : relinked ds ds l.
Proof. split_and!; done. Qed.
Lemma relinked_trans ds1 ds2 ds3 l : relinked ds1 ds2 l -> relinked ds2 ds3 l -> relinked ds1 ds3 l.
Proof.
  intros (? & H1 & ?) (? & H2 & ?). split_and!; [by etrans| |auto].
  intros i Hi. by rewrite H2, H1.
Qed.
Lemma relinked_insert ds i d d' l :
  ds !! i = Some d -> offset d = 0 -> nonhead i -> offset d' = 0 -> i ∈ l -> (dir_ok d -> dir_ok d') ->
  relinked ds (<[i := d']> ds) l.
Proof.
  intros Hd Ho Hn Ho' Hi Hok. split_and!.
  - by eapply chain_eq_insert_free.
  - intros j Hj. apply list_lookup_insert_ne. set_solver.
  - intros F. apply Forall_insert; eauto with dirs.
Qed.

(** The two writes that take the free slot [k] out of the chain. *)
Lemma unlink_prev ds l1 k l2 d :
  fseg ds 0 (l1 ++ k :: l2) 0 -> Forall nonhead (l1 ++ k :: l2) -> NoDup (l1 ++ k :: l2) ->
  ds !! k = Some d -> fits 16 (next d) ->
  exists r ds1,
    (if decide (prev d = 0) then Some (true, next d, ds)
     else ds' ← upd ds (ix (prev d)) (fun e => setNext e (next d)); Some (false, 0, ds'))
      = Some (bool_decide (l1 = []), r, ds1) /\
    (l1 = [] -> r = next d) /\ relinked ds ds1 (l1 ++ l2) /\ ds1 !! k = Some d /\
    fseg ds1 0 l1 (hd 0%nat l2) /\ fseg ds1 k l2 0.
Proof.
  intros H F Hnd Hd Hfit. apply fseg_app in H as [H1 [(d' & Hd' & Ho & Hp & Hn) H2]].
  assert (d' = d) as -> by congruence. cbn [hd] in H1. apply Forall_app in F as [F1 F2].
  apply NoDup_app in Hnd as (N1 & Hdis & N2). apply NoDup_cons in N2 as [Hk2 N2].
  destruct l1 as [|q l1 _] using rev_ind.
  - cbn in Hp. rewrite decide_True by done. exists (next d), ds.
    split_and!; eauto using relinked_refl.
  - rewrite last_snoc in Hp. cbn in Hp. assert (nonhead q) as Hq.
    { apply Forall_app in F1 as [_ F1]. by inversion F1. }
    pose proof (nonhead_nonzero q Hq). rewrite decide_False by lia. rewrite Hp, ix_nat.
    destruct (fseg_elem _ _ _ _ q H1) as (e & He & Heo); [set_solver|].
    rewrite (upd_lookup _ _ _ _ He). cbn [mbind option_bind].
    rewrite bool_decide_eq_false_2 by (by destruct l1). eexists _, _. split; [done|].
    assert (q <> k) by set_solver. split_and!.
    + by destruct l1.
    + eapply relinked_insert; [done|done|done|done|set_solver|]. intros; by apply dir_ok_setNext.
    + by rewrite list_lookup_insert_ne.
    + rewrite Hn. by eapply fseg_set_exit.
    + eapply fseg_frame; [|exact H2]. intros i Hi. apply list_lookup_insert_ne.
      intros ->. apply (Hdis i); set_solver.
Qed.

Lemma freeChainDelete_spec s l1 k l2 :
  fseg (dirs s) 0 (l1 ++ k :: l2) 0 -> Forall nonhead (l1 ++ k :: l2) -> Forall dir_ok (dirs s) ->
  freeStart s = Z.of_nat (hd 0%nat (l1 ++ k :: l2)) ->
  exists ds', freeChainDelete s k = Some (mkSegment ds' (Z.of_nat (hd 0%nat (l1 ++ l2))) (ids s)) /\
    relinked (dirs s) ds' (l1 ++ l2) /\ fseg ds' 0 (l1 ++ l2) 0.
Proof.
  intros H F Hok Hfs. pose proof (fseg_NoDup _ _ _ H F) as Hnd.
  destruct (fseg_elem _ _ _ _ k H) as (d & Hd & Ho); [set_solver|].
  destruct (unlink_prev (dirs s) l1 k l2 d) as (r & ds1 & E1 & Hr & R1 & Hk1 & S1 & S2); eauto with dirs.
  assert (next d = Z.of_nat (hd 0%nat l2) /\ prev d = Z.of_nat (default 0%nat (last l1))) as [Hn Hp].
  { apply fseg_app in H as [_ [(d' & ? & ? & ? & ?) _]]. by simplify_eq. }
  unfold freeChainDelete, freeChainDelete_slice. rewrite Hd. cbn [mbind option_bind].
  rewrite decide_False by (intros C; by apply C). rewrite E1. cbn [mbind option_bind]. rewrite Hk1. cbn [mbind option_bind].
  apply Forall_app in F as [F1 F2]. apply Forall_cons in F2 as [_ F2].
  apply NoDup_app in Hnd as (N1 & Hdis & N2). apply NoDup_cons in N2 as [Hk2 N2].
  assert (forall ds2, (if bool_decide (l1 = []) then r else freeStart s) = Z.of_nat (hd 0%nat (l1 ++ l2)) /\
    mkSegment ds2 (if bool_decide (l1 = []) then r else freeStart s) (ids s) =
    mkSegment ds2 (Z.of_nat (hd 0%nat (l1 ++ l2))) (ids s)) as Hhd.
  { intros ds2. assert ((if bool_decide (l1 = []) then r else freeStart s) = Z.of_nat (hd 0%nat (l1 ++ l2))) as ->; [|done].
    destruct l1 as [|a l1]; cbn; [by rewrite Hr by done|]. by rewrite Hfs. }
  destruct l2 as [|j l2].
  - cbn in Hn. rewrite decide_False by (rewrite Hn; intros C; by apply C). cbn [mbind option_bind].
    eexists; split; [f_equal; apply Hhd|]. split; [done|]. apply fseg_app. done.
  - cbn [hd] in Hn, S1. apply Forall_cons in F2 as [Hj F2]. apply NoDup_cons in N2 as [Hjl N2].
    pose proof (nonhead_nonzero j Hj). rewrite decide_True by lia. rewrite Hn, ix_nat.
    destruct (fseg_elem _ _ _ _ j S2) as (e & He & Heo); [set_solver|].
    rewrite (upd_lookup _ _ _ _ He). cbn [mbind option_bind].
    eexists; split; [f_equal; apply Hhd|]. split.
    + eapply relinked_trans; [exact R1|]. eapply relinked_insert; [done|done|done|done|set_solver|].
      intros; apply dir_ok_setPrev; eauto with dirs.
    + apply fseg_app. cbn [hd]. rewrite Hp. split.
      * eapply fseg_frame; [|exact S1]. intros i Hi. apply list_lookup_insert_ne.
        intros ->. apply (Hdis i); set_solver.
      * by eapply fseg_set_entry.
Qed.

(** [freeChainSet] puts a cleared slot in front of the chain; when the chain
    was empty it also overwrites the flags word of slot 0. *)
Lemma freeChainSet_spec s k fl d0 :
  fseg (dirs s) 0 fl 0 -> Forall nonhead fl -> freeStart s = Z.of_nat (hd 0%nat fl) ->
  Z.of_nat (length (dirs s)) <= 65536 -> Forall dir_ok (dirs s) ->
  dirs s !! 0%nat = Some d0 -> dirs s !! k = Some emptyDir -> nonhead k -> k ∉ fl ->
  exists ds', freeChainSet s k = Some (mkSegment ds' (Z.of_nat k) (ids s)) /\
    fseg ds' 0 (k :: fl) 0 /\ chain_eq (dirs s) ds' /\ Forall dir_ok ds' /\
    forall i, i ∉ k :: fl ->
      ds' !! i = if decide (fl = [] /\ i = 0%nat) then Some (setPrev d0 (link k)) else dirs s !! i.
Proof.
  intros H F Hfs Hlen Hok H0 Hk Hnk Hnot. unfold freeChainSet. rewrite Hk. cbn [mbind option_bind].
  rewrite decide_False by (intros C; by apply C). rewrite Hfs, ix_nat.
  assert (link k = Z.of_nat k) as Hlk by (eapply link_small; [by eapply lookup_lt_Some|done]).
  pose proof (nonhead_nonzero k Hnk) as Hk0.
  assert (exists e, dirs s !! hd 0%nat fl = Some e) as [e He].
  { destruct fl as [|j fl]; cbn; [eauto|]. destruct H as [(e & ? & _) _]; eauto. }
  rewrite (upd_lookup _ _ _ _ He). cbn [mbind option_bind].
  assert (hd 0%nat fl <> k) as Hne by (destruct fl; set_solver).
  rewrite (upd_lookup _ k _ emptyDir) by (by rewrite list_lookup_insert_ne).
  cbn [mbind option_bind]. rewrite Hlk. eexists; split; [done|].
  assert (chain_eq (dirs s) (<[hd 0%nat fl := setPrev e (Z.of_nat k)]> (dirs s))) as Hce
    by (by apply chain_eq_insert_prev).
  set (ds1 := <[hd 0%nat fl := setPrev e (Z.of_nat k)]> (dirs s)) in *.
  assert (ds1 !! k = Some emptyDir) as Hk1 by (by unfold ds1; rewrite list_lookup_insert_ne).
  assert (fits 16 (Z.of_nat (hd 0%nat fl))) as Hfit.
  { unfold fits. apply lookup_lt_Some in He. lia. }
  split_and!.
  - split.
    + exists (setNext emptyDir (Z.of_nat (hd 0%nat fl))).
      rewrite list_lookup_insert_eq by (by eapply lookup_lt_Some). done.
    + apply (fseg_frame ds1); [intros i Hi; apply list_lookup_insert_ne; set_solver|].
      destruct fl as [|j fl]; [done|]. unfold ds1; cbn [hd] in *. eapply fseg_set_entry; [exact H| |done].
      pose proof (fseg_NoDup _ _ _ H F) as N. by inversion N.
  - etrans; [exact Hce|]. by eapply chain_eq_insert_free.
  - apply Forall_insert; [apply Forall_insert; [done|]|]; eauto with dirs.
    rewrite <- Hlk. eauto with dirs.
  - intros i Hi. rewrite list_lookup_insert_ne by set_solver. unfold ds1.
    destruct fl as [|j fl]; cbn [hd] in *.
    + destruct (decide (i = 0%nat)) as [->|].
      * rewrite decide_True by done. rewrite list_lookup_insert_eq by (by eapply lookup_lt_Some).
        congruence.
      * rewrite decide_False by naive_solver. by apply list_lookup_insert_ne.
    + rewrite decide_False by naive_solver. apply list_lookup_insert_ne. set_solver.
Qed.

(** ** Rebuilding the free chain *)

Lemma slots_S n : slots (S n) = slots n ++ [n * depth + 1; n * depth + 2; n * depth + 3]%nat.
Proof. unfold slots. rewrite seq_S, bind_app. done. Qed.

Lemma elem_of_slots n i : i ∈ slots n <-> nonhead i /\ (i < depth * n)%nat.
Proof.
  unfold nonhead, depth. induction n as [|n IH]; [cbn; set_solver by lia|].
  rewrite slots_S, elem_of_app, IH, !elem_of_cons, elem_of_nil. unfold depth.
  pose proof (Nat.Div0.mod_mul n 4). split.
  - intros [?|[->|[->|[->|?]]]]; [split; [tauto|lia]| | |  |done];
      (split; [rewrite Nat.add_comm, Nat.Div0.mod_add; cbn; lia|lia]).
  - intros [Hm Hi]. destruct (decide (i < 4 * n)%nat); [left; done|right].
    assert (i = n * 4 \/ i = n * 4 + 1 \/ i = n * 4 + 2 \/ i = n * 4 + 3)%nat as [->|?] by lia; [done|]. tauto.
Qed.

Lemma slots_NoDup n : NoDup (slots n).
Proof.
  induction n as [|n IH]; [constructor|]. rewrite slots_S. apply NoDup_app. split_and!; [done| |].
  - intros i Hi. apply elem_of_slots in Hi as [_ Hi]. unfold depth in *.
    rewrite !elem_of_cons, elem_of_nil. lia.
  - repeat constructor; rewrite ?elem_of_cons, ?elem_of_nil; lia.
Qed.

Lemma length_slots n : length (slots n) = (3 * n)%nat.
Proof. induction n as [|n IH]; [done|]. rewrite slots_S, length_app, IH. cbn. lia. Qed.

Lemma isFree_true ds i : isFree ds i = true <-> exists d, ds !! i = Some d /\ offset d = 0.
Proof.
  unfold isFree. destruct (ds !! i); [rewrite Z.eqb_eq; naive_solver|naive_solver].
Qed.

Lemma relinked_mono ds ds' l l' : l ⊆ l' -> relinked ds ds' l -> relinked ds ds' l'.
Proof. intros Hl (? & H & ?). split_and!; [done| |done]. intros i Hi. apply H. set_solver. Qed.

(** State of the scan when the free slots met so far are [fl]. *)
Record rebuilding (ds0 : list Dir) (fl : list nat) (st : list Dir * Z * nat * nat) : Prop :=
  mk_rebuilding {
    rb_seg : fseg st.1.1.1 0 fl 0;
    rb_head : st.1.1.2 = Z.of_nat (hd 0%nat fl);
    rb_prev : st.1.2 = default 0%nat (last fl);
    rb_count : st.2 = length fl;
    rb_rel : relinked ds0 st.1.1.1 fl }.

Lemma fseg_last_lt ds p l e : fseg ds p l e -> l <> [] -> (default p (last l) < length ds)%nat.
Proof.
  intros Hs Hl. destruct l as [|q l' _] using rev_ind; [done|]. rewrite last_snoc. cbn.
  destruct (fseg_elem _ _ _ _ q Hs) as (? & Hq & _); [set_solver|]. by apply lookup_lt_Some in Hq.
Qed.

(** Appending a cleared slot to a free chain under construction. *)
Lemma fseg_snoc ds fl i :
  Z.of_nat (length ds) <= 65536 -> fseg ds 0 fl 0 -> Forall nonhead (fl ++ [i]) -> i ∉ fl ->
  (i < length ds)%nat -> (exists d, ds !! i = Some d /\ offset d = 0) ->
  let ds1 := <[i := setPrev emptyDir (link (default 0%nat (last fl)))]> ds in
  exists ds2,
    (if decide (default 0%nat (last fl) <> 0)%nat
     then upd ds1 (default 0%nat (last fl)) (fun e => setNext e (link i)) else Some ds1) = Some ds2 /\
    fseg ds2 0 (fl ++ [i]) 0 /\ relinked ds ds2 (fl ++ [i]).
Proof.
  intros Hlen Hs F Hi Hlt (d & Hd & Ho) ds1. apply Forall_app in F as [F Fi]. apply Forall_cons in Fi as [Hni _].
  assert (relinked ds ds1 (fl ++ [i])) as R1.
  { eapply relinked_insert; [exact Hd|done|done|done|set_solver|]. intros; eauto with dirs. }
  assert (fseg ds1 0 fl 0) as Hs1.
  { eapply fseg_frame; [|exact Hs]. intros j Hj. apply list_lookup_insert_ne. set_solver. }
  assert (fseg ds1 (default 0%nat (last fl)) [i] 0) as Hsi.
  { cbn. split; [|done]. eexists. unfold ds1. rewrite list_lookup_insert_eq by done. split_and!; [done|done| |done].
    cbn. destruct (decide (fl = [])) as [->|Hne]; [done|].
    eapply (link_small _ (length ds)); [by apply (fseg_last_lt ds 0 fl 0)|done]. }
  destruct fl as [|q l' _] eqn:Efl using rev_ind.
  - cbn in *. exists ds1. done.
  - rewrite last_snoc in *; cbn [default from_option] in *.
    assert (nonhead q) as Hq by (apply Forall_app in F as [_ Ffl]; by inversion Ffl).
    pose proof (nonhead_nonzero q Hq). rewrite decide_True by done.
    destruct (fseg_elem _ _ _ _ q Hs1) as (e & He & Heo); [set_solver|].
    rewrite (upd_lookup _ _ _ _ He). eexists; split; [done|].
    rewrite (link_small i _ Hlt Hlen). split.
    + apply fseg_app. rewrite last_snoc; cbn [hd default from_option]. split.
      * eapply fseg_set_exit; [exact Hs1|by eapply fseg_NoDup|done].
      * eapply fseg_frame; [|exact Hsi]. intros j Hj. apply list_lookup_insert_ne. set_solver.
    + eapply relinked_trans; [exact R1|].
      eapply relinked_insert; [done|done|done|done|set_solver|].
      intros; apply dir_ok_setNext; [done|]. unfold fits. lia.
Qed.

Lemma rebuildSlot_step ds0 fl st i :
  Z.of_nat (length ds0) <= 65536 -> Forall nonhead (fl ++ [i]) -> i ∉ fl ->
  (i < length ds0)%nat -> rebuilding ds0 fl st ->
  exists st', rebuildSlot (Some st) i = Some st' /\
    rebuilding ds0 (if isFree ds0 i then fl ++ [i] else fl) st'.
Proof.
  intros Hlen F Hif Hlt. destruct st as [[[ds h] prv] counter]. intros [Hs Hh Hp Hc Hr]; cbn in Hs, Hh, Hp, Hc, Hr.
  destruct (Hr) as (Hce & Hfr & Hok). pose proof (Hfr i Hif) as Hlook. subst h prv counter.
  destruct (lookup_lt_is_Some_2 ds0 i Hlt) as [d Hd].
  assert (length ds = length ds0) as Hl by apply Hce.
  unfold isFree. rewrite Hd. unfold rebuildSlot. cbn [mbind option_bind].
  rewrite Hlook, Hd. cbn [mbind option_bind].
  destruct (decide (offset d = 0)) as [Ho|Ho].
  2: { destruct (_ =? _) eqn:E; b2p; [done|]. eexists; split; [done|]. split; done. }
  rewrite Ho, Z.eqb_refl. rewrite (upd_lookup _ _ _ d) by congruence. cbn [mbind option_bind].
  rewrite (upd_lookup _ _ _ emptyDir) by (apply list_lookup_insert_eq; lia).
  cbn [mbind option_bind]. rewrite list_insert_insert_eq.
  destruct (fseg_snoc ds fl i) as (ds2 & E & Hs2 & R2); [lia|done|done|done|lia|exists d; split; congruence|].
  cbn [mbind option_bind] in E |- *. rewrite E. cbn [mbind option_bind].
  eexists; split; [done|]. apply Forall_app in F as [F Fi]. split; cbn [fst snd].
  - done.
  - destruct fl as [|j fl']; cbn [hd app]; [rewrite decide_True by done; eapply link_small; eauto|].
    apply Forall_cons in F as [Hj _]. pose proof (nonhead_nonzero j Hj). by rewrite decide_False by lia.
  - by rewrite last_snoc.
  - rewrite length_app. cbn. lia.
  - eapply relinked_trans; [|exact R2]. eapply relinked_mono; [|exact Hr]. set_solver.
Qed.

Definition freeSlots (ds : list Dir) (l : list nat) : list nat := filter (fun i => isFree ds i = true) l.

Lemma freeSlots_snoc ds l i :
  freeSlots ds (l ++ [i]) = if isFree ds i then freeSlots ds l ++ [i] else freeSlots ds l.
Proof.
  unfold freeSlots. rewrite filter_app. destruct (isFree ds i) eqn:E.
  - by rewrite filter_cons_True.
  - by rewrite filter_cons_False, filter_nil, app_nil_r by congruence.
Qed.

Lemma rebuild_scan ds0 l :
  Z.of_nat (length ds0) <= 65536 -> NoDup l -> Forall nonhead l ->
  Forall (fun i => i < length ds0)%nat l ->
  exists st, foldl rebuildSlot (Some (ds0, 0, 0%nat, 0%nat)) l = Some st /\
    rebuilding ds0 (freeSlots ds0 l) st.
Proof.
  intros Hlen. induction l as [|i l IH] using rev_ind; intros N F B.
  - eexists; split; [done|]. split; cbn; auto using relinked_refl.
  - apply NoDup_app in N as (N & Hdis & _). apply Forall_app in F as [F Fi], B as [B Bi].
    destruct IH as (st & E & Hst); [done..|]. rewrite foldl_app, E. cbn [foldl].
    inversion Fi; inversion Bi; subst. rewrite freeSlots_snoc. apply rebuildSlot_step; try done.
    + apply Forall_app. split; [|done]. apply Forall_forall. intros j Hj.
      apply list_elem_of_filter in Hj as [_ Hj]. rewrite Forall_forall in F. auto.
    + unfold freeSlots. rewrite list_elem_of_filter. intros [_ Hj]. by apply (Hdis i); set_solver.
Qed.

(** [freeChainRebuild] always succeeds and restores the free chain from the
    offsets alone, touching only unused slots. *)
Lemma freeChainRebuild_spec s chs :
  used_wf (dirs s) chs -> Forall dir_ok (dirs s) ->
  exists ds' fl, freeChainRebuild s = Some (mkSegment ds' (Z.of_nat (hd 0%nat fl)) (ids s), length fl) /\
    relinked (dirs s) ds' fl /\ used_wf ds' chs /\ free_wf ds' (Z.of_nat (hd 0%nat fl)) fl.
Proof.
  intros U Hok. pose proof (uw_len _ _ U) as Hl. unfold freeChainRebuild.
  assert (length (dirs s) / depth = length chs)%nat as ->.
  { rewrite Hl, Nat.mul_comm. apply Nat.div_mul. done. }
  destruct (rebuild_scan (dirs s) (slots (length chs))) as ([[[ds h] prv] c] & -> & [Hs Hh Hp Hc Hr]).
  { by apply uw_bound in U. } { apply slots_NoDup. }
  1-2: apply Forall_forall; intros i Hi; apply elem_of_slots in Hi as [? ?]; try done; lia.
  cbn in *. subst. exists ds, (freeSlots (dirs s) (slots (length chs))). split_and!; [done..| |].
  - eapply used_wf_chain_eq; [|done]. apply Hr.
  - split; [done| |done|].
    + apply Forall_forall. intros i Hi. apply list_elem_of_filter in Hi as [_ Hi].
      by apply elem_of_slots in Hi as [? _].
    + intros i d' Hn Hd' Ho'. destruct Hr as ([Hlen Hce] & _ & _).
      assert (i < length (dirs s))%nat as Hi by (rewrite <- Hlen; by apply lookup_lt_Some in Hd').
      destruct (lookup_lt_is_Some_2 _ _ Hi) as [d Hd]. apply list_elem_of_filter. split.
      * apply isFree_true. exists d. split; [done|]. destruct (Hce i d Hd) as (? & ? & ? & _). congruence.
      * apply elem_of_slots. split; [done|by rewrite <- (uw_len _ _ U)].
Qed.
