(* ===== verification/DirOps.v ===== *)
(** * Segment operations preserve the chain invariant

    Purging, slot allocation, insertion, deletion and phase removal of
    [cache/dir_manager.go] never leave a segment malformed and, where the code
    means them to, never fail. *)

From S2P Require Import Prelude Hash Dir Doc DirTrie DirManager DirChain.

(** ** Replacing the chain of one bucket *)

Lemma concat_delete {A} (chs : list (list A)) b c :
  chs !! b = Some c -> concat chs ≡ₚ c ++ concat (delete b chs).
Proof.
  intros Hc. rewrite <- (take_drop_middle chs b c Hc) at 1. rewrite delete_take_drop, !concat_app. cbn.
  by rewrite Permutation_app_swap_app.
Qed.
Lemma concat_insert {A} (chs : list (list A)) b c c' :
  chs !! b = Some c -> concat (<[b := c']> chs) ≡ₚ c' ++ concat (delete b chs).
Proof.
  intros Hc. rewrite insert_take_drop by (by eapply lookup_lt_Some).
  rewrite delete_take_drop, !concat_app. cbn. by rewrite Permutation_app_swap_app.
Qed.
Lemma elem_of_concat {A} (chs : list (list A)) b c i : chs !! b = Some c -> i ∈ c -> i ∈ concat chs.
Proof. intros Hc Hi. rewrite (concat_delete _ _ _ Hc). set_solver. Qed.
Lemma concat_disjoint {A} (chs : list (list A)) b b' c c' i :
  NoDup (concat chs) -> chs !! b = Some c -> chs !! b' = Some c' -> i ∈ c -> i ∈ c' -> b = b'.
Proof.
  intros N Hb Hb' Hi Hi'. destruct (decide (b = b')) as [|Hne]; [done|].
  rewrite (concat_delete _ _ _ Hb) in N. apply NoDup_app in N as (_ & Hdis & _).
  destruct (Hdis i Hi). destruct (decide (b < b')%nat).
  - eapply (elem_of_concat _ (pred b')); [|done]. rewrite list_lookup_delete_ge by lia. by rewrite Nat.succ_pred by lia.
  - eapply (elem_of_concat _ b'); [|done]. by rewrite list_lookup_delete_lt by lia.
Qed.

Lemma elem_of_concat_inv {A} (chs : list (list A)) i :
  i ∈ concat chs -> exists b c, chs !! b = Some c /\ i ∈ c.
Proof.
  intros Hi. apply list_elem_of_In, in_concat in Hi as (c & Hc & Hi). apply list_elem_of_In in Hc, Hi.
  apply list_elem_of_lookup_1 in Hc as [b Hb]. eauto.
Qed.
Lemma used_elem ds chs i :
  used_wf ds chs -> i ∈ concat chs -> exists d, ds !! i = Some d /\ offset d <> 0.
Proof.
  intros U Hi. apply elem_of_concat_inv in Hi as (b & c & Hc & Hi).
  eapply useg_elem; [|done]. by apply (uw_bucket _ _ U b c).
Qed.

Lemma bucket_elem ds b c i : bucket_wf ds b c -> i ∈ c -> i = (b * depth)%nat \/ nonhead i.
Proof.
  intros [Hh _] Hi. destruct c as [|h l]; [set_solver|]. destruct Hh as [-> F].
  apply elem_of_cons in Hi as [->|Hi]; [by left|right]. rewrite Forall_forall in F. auto.
Qed.

(** What an update of bucket [b] from [c] to [c'] may do elsewhere. *)
Definition update_frame (ds ds' : list Dir) (b : nat) (c c' : list nat) : Prop :=
  length ds' = length ds /\
  (forall i, i ∈ c' -> i ∈ c \/ i = (b * depth)%nat \/
     nonhead i /\ exists d, ds !! i = Some d /\ offset d = 0) /\
  (forall i, i ∈ c -> i ∉ c' -> exists d, ds' !! i = Some d /\ offset d = 0) /\
  (forall i d, ds !! i = Some d -> i ∉ c -> i ∉ c' -> i <> (b * depth)%nat ->
     exists d', ds' !! i = Some d' /\ offset d' = offset d /\
       (offset d <> 0 \/ ~ nonhead i -> next d' = next d)).

Lemma used_wf_update ds ds' chs b c c' :
  used_wf ds chs -> chs !! b = Some c -> bucket_wf ds' b c' -> NoDup c' ->
  update_frame ds ds' b c c' -> used_wf ds' (<[b := c']> chs).
Proof.
  intros [Ul Ub Uk Un Uc] Hc Hb' Hn' (L & Hin & Hout & Hfr).
  assert (b < length chs)%nat as Hlt by (by eapply lookup_lt_Some).
  assert (forall b2 c2 i, b <> b2 -> chs !! b2 = Some c2 -> i ∈ c2 ->
    i ∉ c /\ i ∉ c' /\ i <> (b * depth)%nat) as Hoth.
  { intros b2 c2 i Hne Hc2 Hi. assert (i ∉ c) as Hic by (intros Hi'; by eapply Hne, concat_disjoint).
    assert (i <> (b * depth)%nat) as Hib.
    { intros ->. destruct (bucket_elem _ _ _ _ (Uk _ _ Hc2) Hi) as [E|E]; [unfold depth in E; lia|].
      by eapply nonhead_bucket. }
    split_and!; [done| |done]. intros Hi'. destruct (Hin i Hi') as [?|[?|(Hn & d & Hd & Ho)]]; [done..|].
    destruct (useg_elem _ _ _ i (proj2 (Uk _ _ Hc2)) Hi) as (? & ? & ?). congruence. }
  split; [by rewrite L, length_insert|by rewrite L| | |].
  - intros b2 c2. rewrite lookup_insert_cases by done. destruct (decide (b = b2)) as [<-|Hne]; [by intros [= <-]|].
    intros Hc2. destruct (Uk _ _ Hc2) as [Hh Hs]. split.
    + destruct c2 as [|h l]; [|done]. destruct Hh as (d & Hd & Ho & Hx).
      assert (b2 * depth <> b * depth)%nat by (unfold depth; lia).
      assert (forall cc dd, bucket_wf dd b cc -> (b2 * depth)%nat ∉ cc) as Hnot.
      { intros cc dd Hw Hi. destruct (bucket_elem _ _ _ _ Hw Hi) as [E|E]; [done|]. by eapply nonhead_bucket. }
      destruct (Hfr _ d Hd) as (d' & ? & ? & Hx'); [eauto..|done|]. exists d'. split_and!; [done|congruence|].
      rewrite Hx', Hx; [done|]. right. intros E. by eapply nonhead_bucket.
    + eapply useg_frame; [|exact Hs]. intros i d Hi Hd Ho. destruct (Hoth _ _ i Hne Hc2 Hi) as (? & ? & ?).
      destruct (Hfr i d Hd) as (d' & ? & ? & ?); [done..|]. exists d'. split_and!; auto.
  - rewrite (concat_insert _ _ _ _ Hc). rewrite (concat_delete _ _ _ Hc) in Un.
    apply NoDup_app in Un as (_ & Hdis & Un). apply NoDup_app. split_and!; [done| |done].
    intros i Hi Hd. apply elem_of_concat_inv in Hd as (k & c2 & Hk & Hi2).
    destruct (decide (k < b)%nat).
    + rewrite list_lookup_delete_lt in Hk by done. destruct (Hoth k c2 i) as (_ & ? & _); [lia|done..].
    + rewrite list_lookup_delete_ge in Hk by lia. destruct (Hoth (S k) c2 i) as (_ & ? & _); [lia|done..].
  - intros i d' Hn Hd' Ho'. rewrite (concat_insert _ _ _ _ Hc). apply elem_of_app.
    destruct (decide (i ∈ c')) as [|Hc']; [by left|right].
    destruct (decide (i ∈ c)) as [Hic|Hic].
    { destruct (Hout i Hic Hc') as (? & ? & ?). congruence. }
    destruct (lookup_lt_is_Some_2 ds i) as [d Hd]; [rewrite <- L; by eapply lookup_lt_Some|].
    destruct (Hfr i d Hd) as (? & ? & ? & _); [done|done|by apply nonhead_bucket|].
    pose proof (Uc i d Hn Hd ltac:(congruence)) as Hi. rewrite (concat_delete _ _ _ Hc) in Hi. set_solver.
Qed.

(** ** Purging *)

Lemma purgeChain_spec fuel ds c counter :
  useg ds c 0 -> NoDup c -> Forall nonhead (tail c) -> c <> [] -> (length c <= fuel)%nat ->
  Forall dir_ok ds ->
  exists ds', purgeChain fuel ds (hd 0%nat c) counter = Some (ds', (counter + length c)%nat) /\
    length ds' = length ds /\ Forall dir_ok ds' /\
    (forall i, i ∈ c -> ds' !! i = Some emptyDir) /\ (forall i, i ∉ c -> ds' !! i = ds !! i).
Proof.
  revert fuel ds counter. induction c as [|i c IH]; intros [|fuel] ds counter Hs N F Hne Hf Hok; cbn in Hf; try done; [lia|].
  destruct Hs as [(d & Hd & Ho & Hn) Hs]. apply NoDup_cons in N as [Hi N]. cbn [hd purgeChain tail] in *.
  assert (i < length ds)%nat as Hlt by (by eapply lookup_lt_Some).
  rewrite Hd. cbn [mbind option_bind]. rewrite (upd_lookup _ _ _ _ Hd). cbn [mbind option_bind].
  change (clear d) with emptyDir. rewrite Hn, ix_nat. destruct c as [|j c].
  - cbn [hd]. rewrite decide_True by done. eexists; split; [do 2 f_equal; cbn; lia|].
    rewrite length_insert. split_and!; [done|eauto with dirs| |].
    + intros k Hk. apply list_elem_of_singleton in Hk as ->. by apply list_lookup_insert_eq.
    + intros k Hk. apply list_lookup_insert_ne. set_solver.
  - cbn [hd]. inversion F as [|? ? Hj F']; subst. pose proof (nonhead_nonzero j Hj).
    rewrite decide_False by done.
    destruct (IH fuel (<[i := emptyDir]> ds) (S counter)) as (ds' & E & L & Ok' & Hin & Hout);
      [|done|done|done|cbn in *; lia|eauto with dirs|].
    { eapply useg_frame; [|exact Hs]. intros k e Hk He _. exists e.
      rewrite list_lookup_insert_ne by (intros ->; done). done. }
    exists ds'. cbn [hd] in E. rewrite E. rewrite length_insert in L.
    split_and!; [do 2 f_equal; cbn; lia|done|done| |].
    + intros k Hk. apply elem_of_cons in Hk as [->|Hk]; [|by apply Hin].
      destruct (decide (i ∈ j :: c)); [done|]. rewrite Hout by done. by apply list_lookup_insert_eq.
    + intros k Hk. rewrite Hout by set_solver. apply list_lookup_insert_ne. set_solver.
Qed.

Lemma chain_length ds l e : useg ds l e -> NoDup l -> (length l <= length ds)%nat.
Proof.
  intros Hs N. rewrite <- (length_seq (length ds) 0).
  apply submseteq_length, NoDup_submseteq; [done|]. intros i Hi.
  destruct (useg_elem _ _ _ _ Hs Hi) as (d & Hd & _). apply elem_of_seq. apply lookup_lt_Some in Hd. lia.
Qed.

Lemma chain_NoDup ds chs b c : used_wf ds chs -> chs !! b = Some c -> NoDup c.
Proof.
  intros U Hc. pose proof (uw_nodup _ _ U) as N. rewrite (concat_delete _ _ _ Hc) in N.
  by apply NoDup_app in N as (? & _).
Qed.

Lemma purgeBucket_spec ds chs b c counter :
  used_wf ds chs -> chs !! b = Some c -> Forall dir_ok ds ->
  exists ds', purgeChain (S (S (length ds))) ds (b * depth) counter =
      Some (ds', (counter + max 1 (length c))%nat) /\
    used_wf ds' (<[b := []]> chs) /\ Forall dir_ok ds' /\
    (forall i, i ∉ c -> i <> (b * depth)%nat -> ds' !! i = ds !! i).
Proof.
  intros U Hc Hok. pose proof (uw_bucket _ _ U _ _ Hc) as Hb.
  pose proof (chain_NoDup _ _ _ _ U Hc) as N.
  assert (exists ds', purgeChain (S (S (length ds))) ds (b * depth) counter =
      Some (ds', (counter + max 1 (length c))%nat) /\
    length ds' = length ds /\ Forall dir_ok ds' /\
    (forall i, i ∈ c \/ i = (b * depth)%nat -> ds' !! i = Some emptyDir) /\
    (forall i, i ∉ c -> i <> (b * depth)%nat -> ds' !! i = ds !! i)) as (ds' & E & L & Ok' & Hin & Hout).
  { destruct Hb as [Hh Hs]. pose proof (chain_length _ _ _ Hs N). destruct c as [|h l].
    - destruct Hh as (d & Hd & Ho & Hn). cbn [purgeChain]. rewrite Hd. cbn [mbind option_bind].
      rewrite (upd_lookup _ _ _ _ Hd), Hn. cbn -[Nat.mul length]. eexists; split; [do 2 f_equal; cbn; lia|].
      rewrite length_insert. split_and!; [done|apply Forall_insert; eauto with dirs| |].
      + intros i [Hi| ->]; [set_solver|]. apply list_lookup_insert_eq. by eapply lookup_lt_Some.
      + intros i _ Hi. apply list_lookup_insert_ne. done.
    - destruct Hh as [-> F].
      destruct (purgeChain_spec (S (S (length ds))) ds (b * depth :: l)%nat counter) as (ds' & E & ? & ? & Hin & Hout);
        [done|done|done|done|lia|done|].
      exists ds'. cbn [hd] in E. rewrite E. split_and!; [do 2 f_equal; cbn; lia|done|done| |auto].
      intros i [Hi|Hi]; apply Hin; set_solver. }
  exists ds'. split_and!; try done. eapply used_wf_update; [done|done| |constructor|].
  - split; [|done]. exists emptyDir. rewrite Hin by auto. done.
  - split_and!; [done|set_solver| |].
    + intros i Hi _. exists emptyDir. rewrite Hin by auto. done.
    + intros i d Hd Hi _ Hb'. exists d. rewrite Hout by done. done.
Qed.

Definition spared (sel : nat -> bool) (keep b : nat) : bool := negb (sel b) || bool_decide (b = keep).

(** The chains after purging the buckets [bs]. *)
Definition purged (sel : nat -> bool) (keep : nat) (chs : list (list nat)) (bs : list nat) : list (list nat) :=
  foldl (fun chs b => if spared sel keep b then chs else <[b := []]> chs) chs bs.

Lemma purged_length sel keep chs bs : length (purged sel keep chs bs) = length chs.
Proof.
  revert chs. induction bs as [|b bs IH]; intros chs; cbn; [done|]. unfold purged in *.
  rewrite IH. destruct (spared _ _ _); [done|]. apply length_insert.
Qed.

Lemma purged_lookup sel keep chs bs b c :
  purged sel keep chs bs !! b = Some c ->
  chs !! b = Some c /\ (spared sel keep b = true \/ b ∉ bs \/ c = []) \/ c = [] /\ spared sel keep b = false.
Proof.
  revert chs. induction bs as [|a bs IH]; intros chs; cbn.
  { intros H. left. split; [done|]. set_solver. }
  intros H. apply IH in H as [[H H']|?]; [|tauto].
  destruct (spared sel keep a) eqn:E.
  - left. split; [done|]. destruct (decide (b = a)) as [->|]; [tauto|]. set_solver.
  - destruct (decide (a = b)) as [->|Hne].
    + destruct (decide (b < length chs)%nat) as [Hlt|Hge].
      * rewrite list_lookup_insert_eq in H by done. right. split; congruence.
      * rewrite list_insert_ge in H by lia. apply lookup_lt_Some in H. lia.
    + rewrite list_lookup_insert_ne in H by done. left. split; [done|]. set_solver.
Qed.

Lemma purged_keep sel keep chs bs : purged sel keep chs bs !! keep = chs !! keep.
Proof.
  revert chs. induction bs as [|a bs IH]; intros chs; cbn; [done|]. unfold purged in *. rewrite IH.
  unfold spared. destruct (sel a); cbn; [|done]. case_bool_decide; [done|].
  by apply list_lookup_insert_ne.
Qed.

Lemma purge_fold sel keep ds chs bs counter :
  used_wf ds chs -> Forall dir_ok ds -> Forall (fun b => b < length chs)%nat bs ->
  exists ds' n, foldl (fun acc b =>
         st ← acc;
         let '(ds, counter) := st in
         if negb (sel b) || bool_decide (b = keep) then Some (ds, counter)
         else purgeChain (S (S (length ds))) ds (b * depth) counter)
       (Some (ds, counter)) bs = Some (ds', n) /\
    used_wf ds' (purged sel keep chs bs) /\ Forall dir_ok ds' /\
    (forall i, i ∈ concat (purged sel keep chs bs) -> ds' !! i = ds !! i).
Proof.
  revert ds chs counter. induction bs as [|b bs IH]; intros ds chs counter U Hok F; cbn [foldl].
  { exists ds, counter. done. }
  apply Forall_cons in F as [Hb F]. cbn [mbind option_bind]. unfold purged; cbn [foldl].
  change (negb (sel b) || bool_decide (b = keep)) with (spared sel keep b).
  destruct (spared sel keep b) eqn:E; [by apply IH|].
  destruct (lookup_lt_is_Some_2 chs b Hb) as [c Hc].
  destruct (purgeBucket_spec ds chs b c counter U Hc Hok) as (ds1 & -> & U1 & Ok1 & Hfr).
  destruct (IH ds1 (<[b := []]> chs) (counter + max 1 (length c))%nat) as (ds' & n & E' & U' & Ok' & Hk');
    [done|done|by rewrite length_insert|].
  exists ds', n. split_and!; try done. intros i Hi. rewrite (Hk' i Hi). apply Hfr.
  - intros Hic. apply elem_of_concat_inv in Hi as (k & c2 & Hk & Hi2).
    apply purged_lookup in Hk as [[Hk _]|[-> _]]; [|set_solver].
    destruct (decide (k = b)) as [->|Hne].
    + rewrite list_lookup_insert_eq in Hk by done. simplify_eq. set_solver.
    + rewrite list_lookup_insert_ne in Hk by done. apply Hne.
      eapply concat_disjoint; [by apply uw_nodup in U|exact Hk|exact Hc|done|done].
  - intros ->. destruct (uw_bucket _ _ U' b []) as [(d & Hd & Ho & _) _].
    { unfold purged. destruct (lookup_lt_is_Some_2 (purged sel keep (<[b:=[]]> chs) bs) b) as [x Hx].
      - by rewrite purged_length, length_insert.
      - pose proof Hx as Hx'. apply purged_lookup in Hx as [[Hx _]|[-> _]]; [|done].
        rewrite list_lookup_insert_eq in Hx by done. by simplify_eq. }
    destruct (used_elem _ _ _ U' Hi) as (? & ? & ?). congruence.
Qed.

Lemma purgeBuckets_spec sel keep s chs :
  used_wf (dirs s) chs -> Forall dir_ok (dirs s) ->
  let chs' := purged sel keep chs (seq 0 (length chs)) in
  exists ds' fl n, purgeBuckets sel keep s = Some (mkSegment ds' (Z.of_nat (hd 0%nat fl)) (ids s), n) /\
    used_wf ds' chs' /\ free_wf ds' (Z.of_nat (hd 0%nat fl)) fl /\ Forall dir_ok ds' /\
    (forall i, i ∈ concat chs' -> ds' !! i = dirs s !! i).
Proof.
  intros U Hok chs'. unfold purgeBuckets.
  assert (length (dirs s) / depth = length chs)%nat as ->.
  { rewrite (uw_len _ _ U), Nat.mul_comm. apply Nat.div_mul. done. }
  destruct (purge_fold sel keep (dirs s) chs (seq 0 (length chs)) 0) as (ds1 & n & -> & U1 & Ok1 & Hk1); [done|done| |].
  { apply Forall_forall. intros b Hb. apply elem_of_seq in Hb. lia. }
  cbn [mbind option_bind].
  destruct (freeChainRebuild_spec (setDirs s ds1) chs' U1 Ok1) as (ds' & fl & -> & (? & Hr & Hok') & U' & F').
  cbn [mbind option_bind fst]. exists ds', fl, n. split_and!; auto.
  intros i Hi. rewrite Hr; [by apply Hk1|]. intros Hif.
  destruct (fseg_elem _ _ _ _ i (fw_seg _ _ _ F') Hif) as (d & Hd & Ho).
  destruct (used_elem _ _ _ U' Hi) as (? & ? & ?). congruence.
Qed.

(** ** Allocation of a slot *)

(** Reclaiming may empty whole buckets other than [keep]; it changes no entry
    that stays in a chain. *)
Definition shrinks (keep : nat) (ds : list Dir) (chs : list (list nat)) (ds' : list Dir)
    (chs' : list (list nat)) : Prop :=
  length chs' = length chs /\ chs' !! keep = chs !! keep /\
  (forall b c, chs' !! b = Some c -> c = [] \/ chs !! b = Some c) /\
  (forall i, i ∈ concat chs' -> ds' !! i = ds !! i).

Lemma shrinks_refl keep ds chs : shrinks keep ds chs ds chs.
Proof. split_and!; auto. Qed.
Lemma shrinks_concat keep ds chs ds' chs' i :
  shrinks keep ds chs ds' chs' -> i ∈ concat chs' -> i ∈ concat chs.
Proof.
  intros (_ & _ & H & _) Hi. apply elem_of_concat_inv in Hi as (b & c & Hc & Hi).
  destruct (H _ _ Hc) as [->|Hc']; [set_solver|]. by eapply elem_of_concat.
Qed.
Lemma shrinks_trans keep d1 c1 d2 c2 d3 c3 :
  shrinks keep d1 c1 d2 c2 -> shrinks keep d2 c2 d3 c3 -> shrinks keep d1 c1 d3 c3.
Proof.
  intros S1 S2. pose proof (fun i => shrinks_concat _ _ _ _ _ i S2) as Hc.
  destruct S1 as (L1 & K1 & B1 & F1), S2 as (L2 & K2 & B2 & F2). split_and!; [congruence..| |].
  - intros b c Hb. destruct (B2 _ _ Hb) as [|Hb']; auto.
  - intros i Hi. rewrite F2 by done. auto.
Qed.

(** Slot [k] is out of the free chain [fl] and ready to be filled. *)
Record allocated (keep : nat) (s : Segment) (chs : list (list nat)) (s' : Segment)
    (chs' : list (list nat)) (fl : list nat) (k : nat) : Prop := mk_allocated {
  al_ids : ids s' = ids s;
  al_ok : Forall dir_ok (dirs s');
  al_used : used_wf (dirs s') chs';
  al_seg : fseg (dirs s') 0 fl 0;
  al_nonhead : Forall nonhead (k :: fl);
  al_start : freeStart s' = Z.of_nat (hd 0%nat fl);
  al_out : k ∉ fl;
  al_free : exists d, dirs s' !! k = Some d /\ offset d = 0;
  al_cover : forall i d, nonhead i -> dirs s' !! i = Some d -> offset d = 0 -> i = k \/ i ∈ fl;
  al_shrinks : shrinks keep (dirs s) chs (dirs s') chs' }.

Lemma relinked_shrinks keep ds chs ds' fl :
  used_wf ds chs -> fseg ds 0 fl 0 -> relinked ds ds' fl -> shrinks keep ds chs ds' chs.
Proof.
  intros U Hs (_ & Hr & _). split_and!; auto. intros i Hi. apply Hr. intros Hif.
  destruct (used_elem _ _ _ U Hi) as (? & ? & ?).
  destruct (fseg_elem _ _ _ _ _ Hs Hif) as (? & ? & ?). congruence.
Qed.

Lemma freeChainDelete_allocated keep s chs l1 k l2 :
  used_wf (dirs s) chs -> free_wf (dirs s) (freeStart s) (l1 ++ k :: l2) -> Forall dir_ok (dirs s) ->
  exists s', freeChainDelete s k = Some s' /\ allocated keep s chs s' chs (l1 ++ l2) k.
Proof.
  intros U [Hs Hn Hfs Hcov] Hok.
  destruct (freeChainDelete_spec s l1 k l2) as (ds' & -> & R & Hs'); [done..|].
  pose proof (fseg_NoDup _ _ _ Hs Hn) as N. assert (k ∉ l1 ++ l2) as Hk.
  { apply NoDup_app in N as (_ & Hd & N). apply NoDup_cons in N as [? _]. set_solver. }
  eexists; split; [done|]. destruct (R) as (Hce & Hr & Hok'). split; cbn.
  - done.
  - auto.
  - by eapply used_wf_chain_eq.
  - done.
  - apply Forall_app in Hn as [? Hn]. apply Forall_cons in Hn as [? ?]. constructor; [done|]. by apply Forall_app.
  - done.
  - done.
  - rewrite Hr by done. eapply fseg_elem; [done|set_solver].
  - intros i d' Hi Hd' Ho'. destruct (lookup_lt_is_Some_2 (dirs s) i) as [d Hd].
    { destruct Hce as [<- _]. by eapply lookup_lt_Some. }
    destruct (proj2 Hce i d Hd) as (e & ? & ? & _).
    pose proof (Hcov i d Hi Hd ltac:(congruence)). set_solver.
  - eapply (relinked_shrinks _ _ _ _ (l1 ++ k :: l2)); [done|done|]. eapply relinked_mono; [|done]. set_solver.
Qed.

Lemma allocated_shrinks keep s0 chs0 s chs s' chs' fl k :
  shrinks keep (dirs s0) chs0 (dirs s) chs -> ids s = ids s0 ->
  allocated keep s chs s' chs' fl k -> allocated keep s0 chs0 s' chs' fl k.
Proof. intros Hs Hi []. split; try done; [congruence|]. by eapply shrinks_trans. Qed.

Lemma pop_head keep s chs fl :
  used_wf (dirs s) chs -> free_wf (dirs s) (freeStart s) fl -> Forall dir_ok (dirs s) ->
  freeStart s <> 0 ->
  exists s' k fl', (let i := ix (freeStart s) in s ← freeChainDelete s i; Some (s, i)) = Some (s', k) /\
    allocated keep s chs s' chs fl' k.
Proof.
  intros U F Hok Hne. pose proof (fw_start _ _ _ F) as Hfs. destruct fl as [|k fl]; [cbn in Hfs; lia|].
  rewrite Hfs; cbn [hd]. rewrite ix_nat.
  destruct (freeChainDelete_allocated keep s chs [] k fl U F Hok) as (s' & E & A).
  cbn zeta. rewrite E. cbn. eauto.
Qed.

(** Some slot that may be reclaimed exists: a non-head slot outside the chain
    of the protected bucket. *)
Definition room (n : nat) (c : list nat) : Prop := exists i, nonhead i /\ (i < n)%nat /\ i ∉ c.

Lemma purge_spec_shrinks sel keep s chs :
  used_wf (dirs s) chs -> Forall dir_ok (dirs s) ->
  exists s' chs' fl n, purgeBuckets sel keep s = Some (s', n) /\ ids s' = ids s /\
    used_wf (dirs s') chs' /\ free_wf (dirs s') (freeStart s') fl /\ Forall dir_ok (dirs s') /\
    shrinks keep (dirs s) chs (dirs s') chs' /\
    ((forall b, sel b = true) -> forall c, chs !! keep = Some c -> room (length (dirs s)) c -> freeStart s' <> 0).
Proof.
  intros U Hok. destruct (purgeBuckets_spec sel keep s chs U Hok) as (ds' & fl & n & -> & U' & F' & Ok' & Hfr).
  eexists _, _, _, _. split; [done|]. cbn. split_and!; try done.
  { split_and!; [apply purged_length|apply purged_keep| |done].
    intros b c Hb. apply purged_lookup in Hb as [[? _]|[? _]]; auto. }
  intros Hsel c Hc (i & Hi & Hlt & Hic).
  assert (length ds' = length (dirs s)) as Hlen.
  { rewrite (uw_len _ _ U'), (uw_len _ _ U), purged_length. done. }
  destruct (lookup_lt_is_Some_2 ds' i) as [d Hd]; [lia|].
  destruct (decide (offset d = 0)) as [Ho|Ho].
  - pose proof (fw_cover _ _ _ F' i d Hi Hd Ho) as Hif. pose proof (fw_nonhead _ _ _ F') as Fn.
    destruct fl as [|j fl]; [set_solver|]. inversion Fn; subst. cbn.
    pose proof (nonhead_nonzero j ltac:(done)). lia.
  - pose proof (uw_cover _ _ U' i d Hi Hd Ho) as Hif. apply elem_of_concat_inv in Hif as (b & c' & Hb & Hib).
    pose proof (lookup_lt_Some _ _ _ Hb) as Hbl. rewrite purged_length in Hbl.
    apply purged_lookup in Hb as [[Hb [Hsp|[Hn| ->]]]|[-> _]].
    + unfold spared in Hsp. rewrite Hsel in Hsp. cbn in Hsp. apply bool_decide_eq_true in Hsp as ->. congruence.
    + destruct Hn. apply elem_of_seq. lia.
    + set_solver.
    + set_solver.
Qed.

(** [freeChainPop] finds a slot within its fifty rounds, whatever the random
    draws, as long as one can be reclaimed. *)
Lemma popLoop_spec n loop rnd s keep chs fl c :
  (n + loop = 52)%nat -> (1 <= loop <= 50)%nat ->
  used_wf (dirs s) chs -> free_wf (dirs s) (freeStart s) fl -> Forall dir_ok (dirs s) ->
  chs !! keep = Some c -> room (length (dirs s)) c ->
  exists s' k chs' fl', popLoop n loop rnd s keep = Some (s', k) /\ allocated keep s chs s' chs' fl' k /\
    ((loop <= 49)%nat -> freeStart s <> 0 -> chs' = chs).
Proof.
  revert loop s chs fl. induction n as [|n IH]; intros loop s chs fl Hn Hl U F Hok Hc Hroom; [lia|].
  cbn [popLoop].
  assert (exists s1 chs1 fl1,
    (if decide (49 < loop)%nat then r ← purgeRandom100 s keep; Some r.1 else Some s) = Some s1 /\
    ids s1 = ids s /\ used_wf (dirs s1) chs1 /\ free_wf (dirs s1) (freeStart s1) fl1 /\
    Forall dir_ok (dirs s1) /\ shrinks keep (dirs s) chs (dirs s1) chs1 /\
    ((49 < loop)%nat -> freeStart s1 <> 0) /\ ((loop <= 49)%nat -> s1 = s /\ chs1 = chs))
    as (s1 & chs1 & fl1 & -> & I1 & U1 & F1 & Ok1 & S1 & Hfin & Hsame).
  { destruct (decide (49 < loop)%nat).
    - destruct (purge_spec_shrinks (fun _ => true) keep s chs U Hok) as (s1 & chs1 & fl1 & m & E & ? & ? & ? & ? & ? & Hp).
      unfold purgeRandom100. rewrite E. cbn. exists s1, chs1, fl1. split_and!; try done; [|lia]. intros _. by eapply Hp.
    - exists s, chs, fl. split_and!; auto using shrinks_refl; lia. }
  cbn [mbind option_bind]. rewrite decide_False by lia.
  assert (length (dirs s1) = length (dirs s)) as Hlen.
  { rewrite (uw_len _ _ U1), (uw_len _ _ U). destruct S1 as [-> _]. done. }
  destruct (decide (freeStart s1 = 0)) as [H0|H0].
  2: { cbn [mbind option_bind]. destruct (pop_head keep s1 chs1 fl1 U1 F1 Ok1 H0) as (s' & k & fl' & E & A).
       cbn zeta in E. cbn [mbind option_bind] in E. rewrite E. exists s', k, chs1, fl'. split_and!; [done| |naive_solver].
       by eapply allocated_shrinks. }
  assert (loop < 50)%nat as Hl50. { destruct (decide (49 < loop)%nat); [by apply Hfin in H0|lia]. }
  destruct (freeChainRebuild_spec s1 chs1 U1 Ok1) as (ds2 & fl2 & -> & R2 & U2 & F2).
  cbn [mbind option_bind]. set (s2 := mkSegment ds2 _ _).
  assert (shrinks keep (dirs s1) chs1 ds2 chs1) as S2.
  { split_and!; auto. intros i Hi. destruct R2 as (_ & Hr & _). apply Hr. intros Hif.
    destruct (used_elem _ _ _ U2 Hi) as (? & ? & ?).
    destruct (fseg_elem _ _ _ _ _ (fw_seg _ _ _ F2) Hif) as (? & ? & ?). congruence. }
  assert (Forall dir_ok ds2) as Ok2 by (by apply R2).
  destruct (decide (length fl2 = 0)%nat) as [E2|E2].
  - destruct (purge_spec_shrinks (fun i => negb (bool_decide (10 < length ds2 / depth)%nat &&
      bool_decide (i mod 10 <> rnd loop)%nat)) keep s2 chs1 U2 Ok2) as (s3 & chs3 & fl3 & m & E & I3 & U3 & F3 & Ok3 & S3 & _).
    unfold purgeRandom10. cbn [dirs s2] in E |- *. rewrite E. cbn [mbind option_bind fst].
    assert (chs3 !! keep = Some c) as Hc3.
    { destruct S3 as (_ & -> & _). destruct S1 as (_ & -> & _). done. }
    assert (length (dirs s3) = length (dirs s)) as Hlen3.
    { rewrite (uw_len _ _ U3), (uw_len _ _ U). destruct S3 as [-> _], S1 as [-> _]. done. }
    destruct (IH (S loop) s3 chs3 fl3) as (s' & k & chs' & fl' & -> & A & _); try done; [lia|lia|by rewrite Hlen3|].
    exists s', k, chs', fl'. split_and!; [done| |intros ? Hx; destruct Hx; by destruct Hsame as [<- _]; [lia|]]. eapply allocated_shrinks; [| |exact A].
    + eapply shrinks_trans; [exact S1|]. eapply shrinks_trans; [exact S2|exact S3].
    + rewrite I3. done.
  - cbn [mbind option_bind].
    destruct (pop_head keep s2 chs1 fl2 U2 F2 Ok2) as (s' & k & fl' & E & A).
    { cbn. pose proof (fw_nonhead _ _ _ F2) as Fn. destruct fl2 as [|j fl2]; [done|]. inversion Fn; subst.
      pose proof (nonhead_nonzero j ltac:(done)). cbn. lia. }
    cbn zeta in E. cbn [mbind option_bind] in E. rewrite E. exists s', k, chs1, fl'.
    split_and!; [done| |intros ? Hx; destruct Hx; by destruct Hsame as [<- _]; [lia|]].
    eapply allocated_shrinks; [| |exact A]; [by eapply shrinks_trans|done].
Qed.

(** ** Probing *)

Definition tag_is (ds : list Dir) (key : Z) (i : nat) : Prop := tag <$> ds !! i = Some key.
#[global] Instance tag_is_dec ds key i : Decision (tag_is ds key i).
Proof. unfold tag_is. apply _. Defined.

(** A chain either has a first slot with the tag, or none. *)
Lemma chain_split ds key c :
  (exists l1 i l2, c = l1 ++ i :: l2 /\ tag_is ds key i /\ Forall (fun j => ~ tag_is ds key j) l1) \/
  Forall (fun j => ~ tag_is ds key j) c.
Proof.
  induction c as [|i c IH]; [by right; constructor|].
  destruct (decide (tag_is ds key i)) as [Hi|Hi].
  - left. exists [], i, c. split_and!; [done|done|constructor].
  - destruct IH as [(l1 & j & l2 & -> & Hj & F)|F].
    + left. exists (i :: l1), j, l2. split_and!; [done|done|by constructor].
    + right. by constructor.
Qed.

Lemma probeLoop_step fuel key ds i prv d :
  ds !! i = Some d -> offset d <> 0 -> ~ tag_is ds key i ->
  probeLoop (S fuel) key ds i prv =
    if decide (ix (next d) = 0%nat) then (false, 0%nat, i, emptyDir)
    else probeLoop fuel key ds (ix (next d)) i.
Proof.
  intros Hd Ho Ht. cbn [probeLoop]. rewrite Hd. rewrite decide_False by done.
  rewrite decide_False; [done|]. intros E. apply Ht. unfold tag_is. rewrite Hd. cbn. congruence.
Qed.

Lemma probeLoop_hit fuel key ds l1 i l2 prv e d :
  useg ds (l1 ++ i :: l2) e -> Forall nonhead (tail (l1 ++ i :: l2)) -> (length l1 < fuel)%nat ->
  Forall (fun j => ~ tag_is ds key j) l1 -> ds !! i = Some d -> tag d = key ->
  probeLoop fuel key ds (hd 0%nat (l1 ++ i :: l2)) prv = (true, i, default prv (last l1), d).
Proof.
  revert fuel prv. induction l1 as [|j l1 IH]; intros [|fuel] prv Hs F Hf Fn Hd Ht; cbn in Hf; try lia.
  - destruct Hs as [(d' & ? & Ho & _) _]. assert (d' = d) as -> by congruence. cbn. rewrite Hd.
    rewrite decide_False by done. by rewrite decide_True.
  - cbn [app] in Hs. destruct Hs as [(dj & Hj & Hoj & Hnj) Hs]. apply Forall_cons in Fn as [Hnt Fn].
    cbn [app hd tail] in *. rewrite (probeLoop_step _ _ _ _ _ dj Hj Hoj Hnt).
    assert (hd e (l1 ++ i :: l2) = hd 0%nat (l1 ++ i :: l2)) as Ehd by (by destruct l1).
    rewrite Hnj, ix_nat, Ehd.
    assert (nonhead (hd 0%nat (l1 ++ i :: l2))) as Hnh by (destruct l1; inversion F; done).
    rewrite decide_False by (by apply nonhead_nonzero).
    rewrite (IH fuel j) by (done || lia || (destruct l1; inversion F; done)).
    rewrite last_cons. by destruct (last l1).
Qed.

Lemma probeLoop_miss fuel key ds c prv :
  useg ds c 0 -> Forall nonhead (tail c) -> (length c <= fuel)%nat -> c <> [] ->
  Forall (fun j => ~ tag_is ds key j) c ->
  probeLoop fuel key ds (hd 0%nat c) prv = (false, 0%nat, default prv (last c), emptyDir).
Proof.
  revert fuel prv. induction c as [|j c IH]; intros [|fuel] prv Hs F Hf Hne Fn; cbn in Hf; try done; [lia|].
  destruct Hs as [(dj & Hj & Hoj & Hnj) Hs]. apply Forall_cons in Fn as [Hnt Fn]. cbn [hd tail] in *.
  rewrite (probeLoop_step _ _ _ _ _ dj Hj Hoj Hnt), Hnj, ix_nat, last_cons.
  destruct c as [|k c]; [done|]. inversion F; subst.
  rewrite decide_False by (by apply nonhead_nonzero). rewrite (IH fuel j) by (done || lia).
  rewrite last_cons. by destruct (last c).
Qed.

Lemma dirProbe_hit ds chs b key l1 i l2 :
  used_wf ds chs -> chs !! b = Some (l1 ++ i :: l2) -> tag_is ds key i ->
  Forall (fun j => ~ tag_is ds key j) l1 ->
  exists d, ds !! i = Some d /\ offset d <> 0 /\ tag d = key /\
    dirProbe key b ds = (true, i, default 0%nat (last l1), d).
Proof.
  intros U Hc Hi Fn. destruct (uw_bucket _ _ U _ _ Hc) as [Hh Hs].
  pose proof (chain_length _ _ _ Hs (chain_NoDup _ _ _ _ U Hc)) as Hl. rewrite length_app in Hl. cbn in Hl.
  destruct (useg_elem _ _ _ i Hs) as (d & Hd & Ho); [set_solver|].
  unfold tag_is in Hi. rewrite Hd in Hi. injection Hi as Ht. exists d. split_and!; try done.
  assert (hd 0%nat (l1 ++ i :: l2) = (b * depth)%nat /\ Forall nonhead (tail (l1 ++ i :: l2))) as [Eh Ft].
  { destruct l1; cbn in *; naive_solver. }
  unfold dirProbe. rewrite <- Eh. eapply probeLoop_hit; eauto; lia.
Qed.

Lemma dirProbe_miss ds chs b c key :
  used_wf ds chs -> chs !! b = Some c -> Forall (fun j => ~ tag_is ds key j) c ->
  exists x, dirProbe key b ds = (false, x, default 0%nat (last c), emptyDir).
Proof.
  intros U Hc Fn. destruct (uw_bucket _ _ U _ _ Hc) as [Hh Hs].
  pose proof (chain_length _ _ _ Hs (chain_NoDup _ _ _ _ U Hc)) as Hl. unfold dirProbe.
  destruct c as [|h l].
  - destruct Hh as (d & Hd & Ho & _). assert (0 < length ds)%nat by (apply lookup_lt_Some in Hd; lia).
    destruct (length ds); [lia|]. cbn [probeLoop]. rewrite Hd, decide_True by done. eauto.
  - destruct Hh as [-> F]. exists 0%nat.
    pose proof (probeLoop_miss (length ds) key ds (b * depth :: l)%nat 0 Hs F Hl ltac:(done) Fn) as E.
    cbn [hd] in E. exact E.
Qed.

(** ** Insertion *)

(** The fields of an entry other than its link. *)
Definition payload (d : Dir) : Z * Z * Z * Z := (raw0 d, raw1 d, raw2 d, raw4 d).

Lemma payload_setNext d n : payload (setNext d n) = payload d.
Proof. done. Qed.
Lemma payload_offset d d' : payload d = payload d' -> offset d = offset d'.
Proof. unfold payload, offset. intros [=]; congruence. Qed.
Lemma payload_tag d d' : payload d = payload d' -> tag d = tag d'.
Proof. unfold payload, tag. intros [=]; congruence. Qed.
Lemma payload_phase d d' : payload d = payload d' -> phase d = phase d'.
Proof. unfold payload, phase. intros [=]; congruence. Qed.

Lemma lastOfChain_spec fuel ds c q :
  useg ds c 0 -> Forall nonhead (tail c) -> (length c <= fuel)%nat -> last c = Some q ->
  lastOfChain fuel ds (hd 0%nat c) = Some q.
Proof.
  revert fuel. induction c as [|j c IH]; intros [|fuel] Hs F Hf Hq; cbn in Hf; try done; [lia|].
  destruct Hs as [(dj & Hj & Hoj & Hnj) Hs]. cbn [hd tail lastOfChain] in *. rewrite Hj. cbn [mbind option_bind].
  rewrite last_cons in Hq. destruct c as [|k c]; cbn [hd] in Hnj.
  - rewrite decide_True by done. done.
  - inversion F; subst. pose proof (nonhead_nonzero k ltac:(done)). rewrite decide_False by lia.
    rewrite Hnj, ix_nat. apply (IH fuel); [done|done|lia|].
    rewrite last_cons in *. by destruct (last c).
Qed.

Lemma findSlot_spec ds b :
  match findSlot ds (b * depth) with
  | Some k => nonhead k /\ isFree ds k = true
  | None => True
  end.
Proof.
  unfold findSlot. assert (forall j, (0 < j < 4)%nat -> nonhead (b * depth + j)) as Hn.
  { intros j Hj. unfold nonhead, depth. rewrite Nat.add_comm, Nat.Div0.mod_add, Nat.mod_small; lia. }
  destruct (isFree ds (b * depth + 1)) eqn:E1; [split; [apply Hn; lia|done]|].
  destruct (isFree ds (b * depth + 2)) eqn:E2; [split; [apply Hn; lia|done]|].
  destruct (isFree ds (b * depth + 3)) eqn:E3; [split; [apply Hn; lia|done]|done].
Qed.

(** Outside the empty-head case, [getFreeDir] hands out a slot of the free
    chain. *)
Lemma getFreeDir_spec rnd s chs fl b h l :
  seg_wf s chs fl -> chs !! b = Some (h :: l) -> room (length (dirs s)) (h :: l) ->
  exists s' x k chs' fl', getFreeDir rnd s b = Some (s', (x, k)) /\ allocated b s chs s' chs' fl' k /\
    (freeStart s <> 0 -> chs' = chs).
Proof.
  intros (Hids & Hok & U & F) Hc Hroom. unfold getFreeDir.
  destruct (uw_bucket _ _ U _ _ Hc) as [[-> Fn] [(d & Hd & Ho & _) _]].
  assert (isFree (dirs s) (b * depth) = false) as ->.
  { unfold isFree. rewrite Hd. by apply Z.eqb_neq. }
  pose proof (findSlot_spec (dirs s) b) as Hf. destruct (findSlot _ _) as [k|].
  - destruct Hf as [Hn Hfree]. apply isFree_true in Hfree as (e & He & Hoe).
    pose proof (fw_cover _ _ _ F k e Hn He Hoe) as Hk. apply list_elem_of_split in Hk as (l1 & l2 & ->).
    destruct (freeChainDelete_allocated b s chs l1 k l2 U F Hok) as (s' & -> & A). cbn. eauto 10.
  - unfold freeChainPop.
    destruct (popLoop_spec 51 1 rnd s b chs fl (b * depth :: l)%nat) as (s' & k & chs' & fl' & -> & A & Hs); try done; [lia|].
    cbn. eexists _, _, _, _, _. split_and!; [done..|]. apply Hs. lia.
Qed.

(** Filling the allocated slot and hanging it behind the chain. *)
Lemma fill_slot s chs s1 chs1 fl k b c q dir :
  allocated b s chs s1 chs1 fl k -> chs1 !! b = Some (c ++ [q]) ->
  dir_ok dir -> offset dir <> 0 -> next dir = 0 ->
  exists e ds2, dirs s1 !! q = Some e /\
    (last ← lastOfChain (S (length (<[k := dir]> (dirs s1)))) (<[k := dir]> (dirs s1)) (b * depth);
     upd (<[k := dir]> (dirs s1)) last (fun e => setNext e (link k))) = Some ds2 /\
    ds2 = <[q := setNext e (link k)]> (<[k := dir]> (dirs s1)) /\
    used_wf ds2 (<[b := (c ++ [q]) ++ [k]]> chs1) /\ free_wf ds2 (freeStart s1) fl /\ Forall dir_ok ds2.
Proof.
  intros [_ Hok U Hs Hnh Hfs Hout (dk & Hdk & Hok0) Hcov _] Hc Hdir Ho Hn0.
  destruct (uw_bucket _ _ U _ _ Hc) as [Hh Hu]. pose proof (chain_NoDup _ _ _ _ U Hc) as N.
  destruct (useg_elem _ _ _ q Hu) as (e & He & Hoe); [set_solver|].
  assert (k ∉ c ++ [q]) as Hkc. { intros Hk. destruct (useg_elem _ _ _ _ Hu Hk) as (? & ? & ?). congruence. }
  assert (k <> q) as Hkq by set_solver.
  apply Forall_cons in Hnh as [Hnk Hnfl].
  assert (k < length (dirs s1))%nat as Hkl by (by eapply lookup_lt_Some).
  assert (hd 0%nat (c ++ [q]) = (b * depth)%nat /\ Forall nonhead (tail (c ++ [q]))) as [Eh Ft].
  { destruct c; cbn in *; naive_solver. }
  set (ds1 := <[k := dir]> (dirs s1)).
  assert (useg ds1 (c ++ [q]) 0) as Hu1.
  { eapply useg_frame; [|exact Hu]. intros i d Hi Hd _. exists d.
    unfold ds1. rewrite list_lookup_insert_ne by (intros ->; done). done. }
  assert (ds1 !! q = Some e) as Hq1 by (by unfold ds1; rewrite list_lookup_insert_ne).
  assert (lastOfChain (S (length ds1)) ds1 (b * depth) = Some q) as ->.
  { rewrite <- Eh. apply lastOfChain_spec; [done|done| |apply last_snoc].
    pose proof (chain_length _ _ _ Hu1 N). lia. }
  cbn [mbind option_bind]. rewrite (upd_lookup _ _ _ _ Hq1).
  assert (link k = Z.of_nat k) as Hlk by (eapply link_small; [done|by apply uw_bound in U]).
  set (ds2 := <[q := setNext e (link k)]> ds1).
  assert (forall i, i <> q -> i <> k -> ds2 !! i = dirs s1 !! i) as Hfr.
  { intros i Hq Hk. unfold ds2, ds1. by rewrite !list_lookup_insert_ne by done. }
  assert (ds2 !! k = Some dir) as Hk2.
  { unfold ds2. rewrite list_lookup_insert_ne by done. unfold ds1. by rewrite list_lookup_insert_eq. }
  assert (ds2 !! q = Some (setNext e (link k))) as Hq2.
  { unfold ds2. apply list_lookup_insert_eq. by eapply lookup_lt_Some. }
  assert (q ∉ fl) as Hqfl. { intros Hi. destruct (fseg_elem _ _ _ _ _ Hs Hi) as (? & ? & ?). congruence. }
  exists e, ds2. split_and!; try done.
  - eapply used_wf_update; [exact U|exact Hc| | |].
    + split.
      { destruct c as [|h c]; cbn; [destruct Hh; split; [done|by constructor]|].
        destruct Hh. split; [done|]. apply Forall_app. split; [done|by constructor]. }
      apply useg_app. split.
      2: { split; [|done]. exists dir. done. }
      apply NoDup_app in N as (_ & Hdis & _). apply useg_app in Hu as [Hu _]. apply useg_app. split.
      * eapply useg_frame; [|exact Hu]. intros i d Hi Hd _. exists d. rewrite Hfr; [done|..]; intros ->; set_solver.
      * split; [|done]. eexists; split_and!; [exact Hq2|done|]. cbn. done.
    + apply NoDup_app.
      split_and!; [done| |apply NoDup_singleton]. set_solver.
    + split_and!; [by unfold ds2, ds1; rewrite !length_insert| |set_solver|].
      * intros i Hi. destruct (decide (i = k)) as [->|]; [|set_solver]. right; right. eauto.
      * intros i d Hd Hic Hic' _. exists d. rewrite Hfr by set_solver. done.
  - split; [|done|done|].
    + eapply fseg_frame; [|exact Hs]. intros i Hi. apply Hfr; intros ->; done.
    + intros i d Hi Hd Hod. destruct (decide (i = k)) as [->|Hik]; [congruence|].
      destruct (decide (i = q)) as [->|Hiq]; [rewrite Hq2 in Hd; simplify_eq; done|].
      rewrite Hfr in Hd by done. destruct (Hcov i d Hi Hd Hod); done.
  - unfold ds2, ds1. apply Forall_insert; [by apply Forall_insert|]. eauto with dirs.
Qed.

Lemma room_spec nb ds b c chs :
  used_wf ds chs -> chs !! b = Some c -> length chs = nb -> (length c <= 3 * nb)%nat -> c <> [] ->
  room (length ds) c.
Proof.
  intros U Hc <- Hlen Hne. destruct (uw_bucket _ _ U _ _ Hc) as [Hh Hs]. destruct c as [|h l]; [done|].
  destruct Hh as [-> F]. cbn in Hlen.
  destruct (decide (Forall (fun i => i ∈ l) (slots (length chs)))) as [Fa|Fa].
  - assert (length (slots (length chs)) <= length l)%nat as Hle; [|rewrite length_slots in Hle; lia].
    apply submseteq_length, NoDup_submseteq; [apply slots_NoDup|]. by apply Forall_forall.
  - apply not_Forall_Exists in Fa; [|apply _]. apply Exists_exists in Fa as (i & Hi & Hn).
    apply elem_of_slots in Hi as [Hnh Hlt]. exists i. rewrite (uw_len _ _ U). split_and!; [done|done|].
    cbn in Hn. intros Hx. apply elem_of_cons in Hx as [->|]; [|done]. by eapply nonhead_bucket.
Qed.

Lemma dirInsert_hit rnd s chs fl b key l1 i l2 dir :
  seg_wf s chs fl -> chs !! b = Some (l1 ++ i :: l2) -> tag_is (dirs s) key i ->
  Forall (fun j => ~ tag_is (dirs s) key j) l1 -> dir_ok dir -> offset dir <> 0 ->
  exists d, dirs s !! i = Some d /\
    dirInsert rnd s key b dir = Some (setDirs s (<[i := setNext dir (next d)]> (dirs s)), i) /\
    seg_wf (setDirs s (<[i := setNext dir (next d)]> (dirs s))) chs fl.
Proof.
  intros (Hids & Hok & U & F) Hc Hi Fn Hdir Ho.
  destruct (dirProbe_hit _ _ _ _ _ _ _ U Hc Hi Fn) as (d & Hd & Hod & _ & E).
  exists d. split; [done|]. unfold dirInsert. rewrite E, Hd. cbn [mbind option_bind].
  rewrite (upd_lookup _ _ _ _ Hd). cbn [mbind option_bind]. split; [done|].
  assert (i < length (dirs s))%nat as Hlt by (by eapply lookup_lt_Some).
  assert (i ∉ fl) as Hif.
  { intros Hif. destruct (fseg_elem _ _ _ _ _ (fw_seg _ _ _ F) Hif) as (? & ? & ?). congruence. }
  split_and!; cbn.
  - by rewrite length_insert.
  - apply Forall_insert; eauto with dirs.
  - rewrite <- (list_insert_id chs b _ Hc). eapply used_wf_update; [done|exact Hc| |by eapply chain_NoDup|].
    + destruct (uw_bucket _ _ U _ _ Hc) as [Hh Hs]. split.
      * destruct l1; done.
      * pose proof (chain_NoDup _ _ _ _ U Hc) as N. apply NoDup_app in N as (_ & Hdis & N).
        apply NoDup_cons in N as [Hil2 _]. apply useg_app in Hs as [Hs1 [(d' & Hd' & _ & Hn) Hs2]].
        assert (d' = d) as -> by congruence. apply useg_app. split; [|split].
        -- eapply useg_frame; [|exact Hs1]. intros j e Hj He _. exists e.
           rewrite list_lookup_insert_ne; [done|]. intros ->. apply (Hdis j); set_solver.
        -- eexists; rewrite list_lookup_insert_eq by done. done.
        -- eapply useg_frame; [|exact Hs2]. intros j e Hj He _. exists e.
           rewrite list_lookup_insert_ne; [done|]. intros ->. done.
    + split_and!; [by rewrite length_insert|tauto|tauto|]. intros j e He Hj _ _. exists e.
      rewrite list_lookup_insert_ne; [done|]. intros ->. set_solver.
  - destruct F as [Fs Fnh Fst Fc]. split; [|done|done|].
    + eapply fseg_frame; [|exact Fs]. intros j Hj. apply list_lookup_insert_ne. intros ->. done.
    + intros j e Hj He Hoe. rewrite lookup_insert_cases in He by done.
      destruct (decide (i = j)) as [->|]; [simplify_eq; done|eauto].
Qed.

(** An insertion that finds no entry with the tag puts the new one last in
    its bucket; entries elsewhere keep their contents unless their whole
    bucket was reclaimed, which needs an exhausted free chain. *)
Lemma dirInsert_miss rnd s chs fl b c key dir :
  seg_wf s chs fl -> chs !! b = Some c -> Forall (fun j => ~ tag_is (dirs s) key j) c ->
  dir_ok dir -> offset dir <> 0 -> next dir = 0 -> (length c <= 3 * length chs)%nat ->
  exists s' k chs1 fl', dirInsert rnd s key b dir = Some (s', k) /\
    seg_wf s' (<[b := c ++ [k]]> chs1) fl' /\ ids s' = ids s /\ k ∉ concat chs1 /\
    dirs s' !! k = Some dir /\ length chs1 = length chs /\ chs1 !! b = Some c /\
    (forall b' c', chs1 !! b' = Some c' -> c' = [] \/ chs !! b' = Some c') /\
    (freeStart s <> 0 \/ c = [] -> chs1 = chs) /\
    (forall i, i ∈ concat chs1 -> payload <$> dirs s' !! i = payload <$> dirs s !! i).
Proof.
  intros (Hids & Hok & U & F) Hc Fn Hdir Ho Hn0 Hlen.
  destruct (dirProbe_miss _ _ _ _ _ U Hc Fn) as (x & E). unfold dirInsert. rewrite E.
  destruct c as [|h l].
  - destruct (uw_bucket _ _ U _ _ Hc) as [(d & Hd & Hod & Hnd) _].
    assert (b * depth < length (dirs s))%nat as Hlt by (by eapply lookup_lt_Some).
    assert (~ nonhead (b * depth)) as Hnh by (intros Hx; by eapply nonhead_bucket).
    unfold getFreeDir. assert (isFree (dirs s) (b * depth) = true) as -> by (apply isFree_true; eauto).
    cbn [mbind option_bind]. rewrite (upd_lookup _ _ _ _ Hd). cbn [mbind option_bind].
    rewrite decide_True by done. eexists _, _, chs, fl. split; [done|].
    assert ((b * depth)%nat ∉ concat chs) as Hout.
    { intros Hi. destruct (used_elem _ _ _ U Hi) as (? & ? & ?). congruence. }
    unfold seg_wf; split_and!; cbn; try done.
    + by rewrite length_insert.
    + by apply Forall_insert.
    + eapply used_wf_update; [done|exact Hc| |apply NoDup_singleton|].
      * split; [done|]. split; [|done]. exists dir. by rewrite list_lookup_insert_eq.
      * split_and!; [apply length_insert|set_solver|set_solver|]. intros j e He _ Hj _. exists e.
        rewrite list_lookup_insert_ne by set_solver. done.
    + destruct F as [Fs Fnh Fst Fc]. split; [|done|done|].
      * eapply fseg_frame; [|exact Fs]. intros j Hj. apply list_lookup_insert_ne.
        rewrite Forall_forall in Fnh. intros <-. by apply Hnh, Fnh.
      * intros j e Hj He Hoe. rewrite list_lookup_insert_ne in He by (intros <-; done). eauto.
    + by apply list_lookup_insert_eq.
    + auto.
    + intros i Hi. rewrite list_lookup_insert_ne; [done|]. intros <-. done.
  - destruct (getFreeDir_spec rnd s chs fl b h l) as (s1 & y & k & chs1 & fl1 & -> & A & Hsame).
    { done. } { done. } { by eapply room_spec. }
    cbn [mbind option_bind]. destruct (A) as [Ai Aok AU As Anh Ast Aout (dk & Hdk & Hok0) Acov (SL & SK & SB & SF)].
    rewrite (upd_lookup _ _ _ _ Hdk). cbn [mbind option_bind].
    apply Forall_cons in Anh as [Hnk _]. rewrite decide_False by (by apply nonhead_bucket).
    assert (exists c q, h :: l = c ++ [q]) as (c & q & Ec).
    { destruct (exists_last (l := h :: l)) as (c & q & ?); eauto. }
    destruct (fill_slot s chs s1 chs1 fl1 k b c q dir A) as (e & ds2 & He & -> & -> & U2 & F2 & Ok2);
      [by rewrite SK, Hc, Ec|done..|].
    cbn [mbind option_bind]. assert (freeStart s <> 0 \/ h :: l = [] -> chs1 = chs) as Hsame' by (intros [?|?]; [auto|done]).
    rewrite Ec in *. eexists _, _, chs1, fl1. split; [done|].
    assert (k ∉ concat chs1) as Hk.
    { intros Hk. destruct (used_elem _ _ _ AU Hk) as (? & ? & ?). congruence. }
    assert (chs1 !! b = Some (c ++ [q])) as Hcq by congruence.
    assert (q ∈ concat chs1) as Hq by (eapply elem_of_concat; [exact Hcq|set_solver]).
    assert (k <> q) as Hkq by (intros ->; done).
    assert (k < length (dirs s1))%nat as Hkl by (by eapply lookup_lt_Some).
    unfold seg_wf; split_and!; cbn; try done.
    + rewrite !length_insert, Ai. rewrite (uw_len _ _ AU), SL, <- (uw_len _ _ U). done.
    + rewrite list_lookup_insert_ne by done. by rewrite list_lookup_insert_eq.
    + intros i Hi. rewrite <- (SF i Hi). destruct (decide (i = q)) as [->|Hiq].
      * rewrite list_lookup_insert_eq by (rewrite length_insert; by eapply lookup_lt_Some). rewrite He. done.
      * rewrite list_lookup_insert_ne by done. rewrite list_lookup_insert_ne by (intros ->; done). done.
Qed.

(** ** Exhaustion *)

Lemma full_no_free ds chs keep c fs fl :
  used_wf ds chs -> chs !! keep = Some c -> ~ room (length ds) c -> free_wf ds fs fl -> fl = [] /\ fs = 0.
Proof.
  intros U Hc Hr [Hs Fn -> _]. destruct fl as [|i fl]; [done|]. exfalso. apply Hr.
  apply Forall_cons in Fn as [Hi _]. destruct Hs as [(d & Hd & Ho & _) _].
  exists i. split_and!; [done|by eapply lookup_lt_Some|]. intros Hx.
  destruct (used_elem _ _ i U) as (? & ? & ?); [by eapply elem_of_concat|]. congruence.
Qed.

(** When the protected chain owns every non-head slot, [freeChainPop] runs
    into its panic. *)
Lemma popLoop_full n loop rnd s keep chs c :
  (n + loop = 52)%nat -> (1 <= loop)%nat -> used_wf (dirs s) chs -> Forall dir_ok (dirs s) ->
  chs !! keep = Some c -> ~ room (length (dirs s)) c -> freeStart s = 0 -> popLoop n loop rnd s keep = None.
Proof.
  revert loop s chs. induction n as [|n IH]; intros loop s chs Hn Hl U Hok Hc Hr H0; [done|]. cbn [popLoop].
  assert (exists s1 chs1,
    (if decide (49 < loop)%nat then r ← purgeRandom100 s keep; Some r.1 else Some s) = Some s1 /\
    used_wf (dirs s1) chs1 /\ Forall dir_ok (dirs s1) /\ chs1 !! keep = Some c /\
    length (dirs s1) = length (dirs s) /\ freeStart s1 = 0) as (s1 & chs1 & -> & U1 & Ok1 & Hc1 & L1 & H1).
  { destruct (decide _); [|eauto 10].
    destruct (purge_spec_shrinks (fun _ => true) keep s chs U Hok) as (s1 & chs1 & fl1 & m & E & _ & U1 & F1 & Ok1 & S1 & _).
    unfold purgeRandom100. rewrite E. cbn. exists s1, chs1. destruct S1 as (SL & SK & _).
    assert (length (dirs s1) = length (dirs s)) as L1 by (rewrite (uw_len _ _ U1), (uw_len _ _ U); congruence).
    split_and!; try done; [congruence|]. eapply (full_no_free _ _ keep c); [exact U1|congruence|by rewrite L1|done]. }
  cbn [mbind option_bind]. destruct (decide (50 < loop)%nat); [done|]. rewrite decide_True by done.
  destruct (freeChainRebuild_spec s1 chs1 U1 Ok1) as (ds2 & fl2 & -> & R2 & U2 & F2). cbn [mbind option_bind].
  assert (length ds2 = length (dirs s1)) as L2 by (rewrite (uw_len _ _ U2), (uw_len _ _ U1); done).
  assert (~ room (length ds2) c) as Hr2 by (by rewrite L2, L1).
  destruct (full_no_free ds2 chs1 keep c _ _ U2 Hc1 Hr2 F2) as [-> _].
  rewrite decide_True by done. set (s2 := mkSegment ds2 _ _).
  destruct (purge_spec_shrinks (fun i => negb (bool_decide (10 < length ds2 / depth)%nat &&
    bool_decide (i mod 10 <> rnd loop)%nat)) keep s2 chs1 U2) as (s3 & chs3 & fl3 & m & E & _ & U3 & F3 & Ok3 & (SL & SK & _) & _).
  { by apply R2. }
  unfold purgeRandom10. cbn [dirs s2] in E |- *. rewrite E. cbn [mbind option_bind fst].
  assert (length (dirs s3) = length (dirs s)) as L3.
  { rewrite (uw_len _ _ U3), SL, <- (uw_len _ _ U1), L1. done. }
  apply (IH (S loop) s3 chs3); try done; [lia|lia|congruence|by rewrite L3|].
  eapply (full_no_free _ _ keep c); [exact U3|congruence|by rewrite L3|done].
Qed.

(** The chain of a bucket cannot outgrow its head and the non-head slots. *)
Lemma chain_bound ds chs b c : used_wf ds chs -> chs !! b = Some c -> (length c <= S (3 * length chs))%nat.
Proof.
  intros U Hc. destruct c as [|h l]; [cbn; lia|]. destruct (uw_bucket _ _ U _ _ Hc) as [[-> F] Hs].
  pose proof (chain_NoDup _ _ _ _ U Hc) as N. apply NoDup_cons in N as [_ N]. cbn [length].
  rewrite <- length_slots. apply le_n_S, submseteq_length, NoDup_submseteq; [done|]. intros i Hi. apply elem_of_slots.
  rewrite Forall_forall in F. split; [by apply F|]. rewrite <- (uw_len _ _ U).
  destruct (useg_elem _ _ _ i Hs) as (? & Hd & _); [set_solver|]. by eapply lookup_lt_Some.
Qed.

Lemma not_room ds chs b c :
  used_wf ds chs -> chs !! b = Some c -> length c = S (3 * length chs) -> ~ room (length ds) c.
Proof.
  intros U Hc Hl (i & Hi & Hlt & Hic). destruct c as [|h l]; [done|].
  destruct (uw_bucket _ _ U _ _ Hc) as [[-> F] Hs]. pose proof (chain_NoDup _ _ _ _ U Hc) as N.
  apply NoDup_cons in N as [_ N]. cbn in Hl. injection Hl as Hl.
  assert (length (i :: l) <= length (slots (length chs)))%nat as Hx.
  { apply submseteq_length, NoDup_submseteq; [apply NoDup_cons; set_solver|]. intros j Hj. apply elem_of_slots.
    rewrite <- (uw_len _ _ U). apply elem_of_cons in Hj as [->|Hj]; [done|]. rewrite Forall_forall in F. split; [by apply F|].
    destruct (useg_elem _ _ _ j Hs) as (? & Hd & _); [set_solver|]. by eapply lookup_lt_Some. }
  rewrite length_slots in Hx. cbn in Hx. lia.
Qed.

Lemma dirInsert_full rnd s chs fl b c key dir :
  seg_wf s chs fl -> chs !! b = Some c -> Forall (fun j => ~ tag_is (dirs s) key j) c ->
  length c = S (3 * length chs) -> dirInsert rnd s key b dir = None.
Proof.
  intros (Hids & Hok & U & F) Hc Fn Hl. unfold dirInsert.
  destruct (dirProbe_miss _ _ _ _ _ U Hc Fn) as (x & ->).
  pose proof (not_room _ _ _ _ U Hc Hl) as Hr. destruct c as [|h l]; [done|].
  destruct (full_no_free _ _ _ _ _ _ U Hc Hr F) as [-> H0].
  destruct (uw_bucket _ _ U _ _ Hc) as [[-> Fl] [(d & Hd & Ho & _) _]].
  unfold getFreeDir. assert (isFree (dirs s) (b * depth) = false) as ->.
  { unfold isFree. rewrite Hd. by apply Z.eqb_neq. }
  pose proof (findSlot_spec (dirs s) b) as Hf. destruct (findSlot _ _) as [k|].
  - destruct Hf as [Hn Hfree]. apply isFree_true in Hfree as (e & He & Hoe).
    pose proof (fw_cover _ _ _ F k e Hn He Hoe). set_solver.
  - unfold freeChainPop. rewrite (popLoop_full 51 1 rnd s b chs (b * depth :: l)%nat) by (done || lia). done.
Qed.
