(* ===== verification/DirRemove.v ===== *)
(** * Deletion and phase removal

    What [dirDelete] and [removePhase] of [cache/dir_manager.go] do to the
    contents of a segment.  The contents of a bucket is the list of its
    entries, links left out, each with the identity stored beside it. *)

From S2P Require Import Prelude Hash Dir Doc DirTrie DirManager DirChain DirOps.

Definition Entry : Type := (Z * Z * Z * Z) * bytes.
Definition eraw2 (e : Entry) : Z := e.1.1.2.
Definition etag (e : Entry) : Z := Z.land (eraw2 e) 0xfff.
Definition ephase (e : Entry) : bool := Z.land (Z.shiftr (eraw2 e) 12) 0x1 =? 1.

Definition entryAt (s : Segment) (i : nat) : Entry := (payload (dirs s !!! i), ids s !!! i).
Definition view (s : Segment) (c : list nat) : list Entry := entryAt s <$> c.
Definition views (s : Segment) (chs : list (list nat)) : list (list Entry) := view s <$> chs.

Lemma view_ext s s' c : (forall i, i ∈ c -> entryAt s' i = entryAt s i) -> view s' c = view s c.
Proof. intros H. apply list_fmap_ext. intros k i Hi. apply H. by eapply list_elem_of_lookup_2. Qed.

Lemma entryAt_eq s s' i i' :
  payload <$> dirs s' !! i' = payload <$> dirs s !! i -> is_Some (dirs s !! i) ->
  ids s' !! i' = ids s !! i -> entryAt s' i' = entryAt s i.
Proof.
  intros Hp [d Hd] Hi. unfold entryAt. rewrite !list_lookup_total_alt, Hi. rewrite Hd in *.
  destruct (dirs s' !! i') as [d'|]; [|done]. cbn in *. congruence.
Qed.

Lemma tag_entryAt s i key : is_Some (dirs s !! i) -> tag_is (dirs s) key i <-> etag (entryAt s i) = key.
Proof.
  intros [d Hd]. unfold tag_is, entryAt. rewrite list_lookup_total_alt, Hd. cbn.
  unfold etag, eraw2, payload, tag. cbn. split; [by intros [=]|intros ->; done].
Qed.

(** The overwrite of the flags word of slot 0 by [freeChainSet]. *)
Definition clobberEntry (k : nat) (e : Entry) : Entry :=
  ((e.1.1.1.1, e.1.1.1.2, link k, e.1.2), e.2).
Definition clobber (o : option nat) (A : list (list Entry)) : list (list Entry) :=
  match o with
  | None => A
  | Some k => alter (fun l => match l with [] => [] | e :: l' => clobberEntry k e :: l' end) 0%nat A
  end.

(** A cleared slot [k] outside every chain, ready to go back to the free
    chain [fl]. *)
Record released (s : Segment) (chs : list (list nat)) (fl : list nat) (k : nat) : Prop := mk_released {
  re_ids : length (ids s) = length (dirs s);
  re_ok : Forall dir_ok (dirs s);
  re_used : used_wf (dirs s) chs;
  re_seg : fseg (dirs s) 0 fl 0;
  re_nonhead : Forall nonhead (k :: fl);
  re_start : freeStart s = Z.of_nat (hd 0%nat fl);
  re_out : k ∉ fl;
  re_empty : dirs s !! k = Some emptyDir;
  re_cover : forall i d, nonhead i -> dirs s !! i = Some d -> offset d = 0 -> i = k \/ i ∈ fl }.

Lemma freeChainSet_released s chs fl k :
  released s chs fl k ->
  exists s', freeChainSet s k = Some s' /\ seg_wf s' chs (k :: fl) /\
    views s' chs = clobber (if decide (fl = []) then Some k else None) (views s chs).
Proof.
  intros [Hids Hok U Hs Hn Hst Hout Hk Hcov]. apply Forall_cons in Hn as [Hnk Hn].
  destruct (lookup_lt_is_Some_2 (dirs s) 0) as [d0 Hd0]; [apply lookup_lt_Some in Hk; lia|].
  destruct (freeChainSet_spec s k fl d0) as (ds' & -> & Hs' & Hce & Hok' & Hfr);
    [done|done|done|by apply uw_bound in U|done..|].
  eexists; split; [done|]. split; [unfold seg_wf; split_and!; cbn|].
  - rewrite Hids. symmetry. apply Hce.
  - done.
  - by eapply used_wf_chain_eq.
  - split; [done|by constructor|done|]. intros i d' Hi Hd' Ho'.
    destruct (lookup_lt_is_Some_2 (dirs s) i) as [d Hd].
    { destruct Hce as [<- _]. by eapply lookup_lt_Some. }
    destruct (proj2 Hce i d Hd) as (? & ? & ? & _). destruct (Hcov i d Hi Hd); [congruence|set_solver..].
  - assert (forall i, i ∈ concat chs -> i ∉ k :: fl) as Hnin.
    { intros i Hi Hx. destruct (used_elem _ _ _ U Hi) as (d & Hd & Ho).
      apply elem_of_cons in Hx as [->|Hx]; [rewrite Hk in Hd; simplify_eq; done|].
      destruct (fseg_elem _ _ _ _ _ Hs Hx) as (? & ? & ?). congruence. }
    assert (forall i, i ∈ concat chs -> fl <> [] \/ i <> 0%nat ->
      entryAt (mkSegment ds' (Z.of_nat k) (ids s)) i = entryAt s i) as Hsame.
    { intros i Hi Hx. apply entryAt_eq; cbn; [|apply lookup_lt_is_Some|done].
      - rewrite Hfr by auto. by rewrite decide_False by naive_solver.
      - destruct (used_elem _ _ _ U Hi) as (d & Hd & _). by eapply lookup_lt_Some. }
    unfold views. apply list_eq. intros b. rewrite list_lookup_fmap.
    destruct (decide (fl = [])) as [->|Hfl]; cbn [clobber].
    + destruct (decide (b = 0%nat)) as [->|Hb].
      * rewrite list_lookup_alter_eq, list_lookup_fmap. destruct (chs !! 0%nat) as [c|] eqn:Hc; [|done]. cbn.
        destruct (uw_bucket _ _ U _ _ Hc) as [Hh _]. pose proof (chain_NoDup _ _ _ _ U Hc) as N.
        destruct c as [|h l]; [done|]. destruct Hh as [-> F]. apply NoDup_cons in N as [Nh _]. cbn. do 2 f_equal.
        -- unfold entryAt, clobberEntry; cbn. rewrite !list_lookup_total_alt, Hfr, Hd0.
           2: { apply Hnin. eapply elem_of_concat; [exact Hc|set_solver]. }
           rewrite decide_True by done. done.
        -- apply list_fmap_ext. intros j i Hi. apply list_elem_of_lookup_2 in Hi. apply Hsame.
           { eapply elem_of_concat; [exact Hc|set_solver]. } right. intros ->. done.
      * rewrite list_lookup_alter_ne by done. rewrite list_lookup_fmap.
        destruct (chs !! b) as [c|] eqn:Hc; [|done]. cbn. f_equal. apply view_ext. intros i Hi. apply Hsame.
        { by eapply elem_of_concat. } right. intros ->.
        destruct (bucket_elem _ _ _ _ (uw_bucket _ _ U _ _ Hc) Hi) as [E|E]; [unfold depth in E; lia|done].
    + rewrite list_lookup_fmap. destruct (chs !! b) as [c|] eqn:Hc; [|done]. cbn. f_equal. apply view_ext.
      intros i Hi. apply Hsame; [by eapply elem_of_concat|auto].
Qed.

Lemma views_update s s' chs b c c' L :
  NoDup (concat chs) -> chs !! b = Some c ->
  (forall i, i ∈ concat chs -> i ∉ c -> entryAt s' i = entryAt s i) -> view s' c' = L ->
  views s' (<[b := c']> chs) = <[b := L]> (views s chs).
Proof.
  intros N Hc Hfr <-. unfold views. rewrite list_fmap_insert. apply list_eq. intros b'.
  assert (b < length chs)%nat as Hlt by (by eapply lookup_lt_Some).
  rewrite !lookup_insert_cases by (by rewrite length_fmap). destruct (decide (b = b')) as [|Hne]; [done|].
  rewrite !list_lookup_fmap. destruct (chs !! b') as [c2|] eqn:Hc2; [|done]. cbn. f_equal.
  apply view_ext. intros i Hi. apply Hfr; [by eapply elem_of_concat|].
  intros Hi'. by eapply Hne, concat_disjoint.
Qed.

(** The facts about a segment that a change confined to one bucket keeps. *)
Lemma released_intro s s' chs fl b c c' k :
  seg_wf s chs fl -> chs !! b = Some c -> length (ids s') = length (ids s) ->
  Forall dir_ok (dirs s') -> freeStart s' = freeStart s ->
  bucket_wf (dirs s') b c' -> NoDup c' -> length (dirs s') = length (dirs s) ->
  (forall i, i ∈ c' -> i ∈ c) -> k ∈ c -> nonhead k -> dirs s' !! k = Some emptyDir ->
  (forall i, i ∈ c -> i ∉ c' -> i = k) -> (forall i, i ∉ c -> dirs s' !! i = dirs s !! i) ->
  released s' (<[b := c']> chs) fl k.
Proof.
  intros (Hids & Hok & U & [Fs Fnh Fst Fc]) Hc Li Ok' Hst Hb N L Hsub Hkc Hk Hke Honly Hfr.
  assert (forall i, i ∈ c -> i ∉ fl) as Hcfl.
  { intros i Hi Hif. destruct (used_elem _ _ i U) as (? & ? & ?); [by eapply elem_of_concat|].
    destruct (fseg_elem _ _ _ _ _ Fs Hif) as (? & ? & ?). congruence. }
  split; try done; [congruence| | |by constructor|congruence|auto|].
  - eapply used_wf_update; [exact U|exact Hc|done|done|]. split_and!; [done|auto| |].
    + intros i Hi Hi'. rewrite (Honly i Hi Hi'). exists emptyDir. done.
    + intros i d Hd Hi _ _. exists d. rewrite Hfr by done. done.
  - eapply fseg_frame; [|exact Fs]. intros i Hi. apply Hfr. intros Hx. by eapply Hcfl.
  - intros i d Hi Hd Ho. destruct (decide (i ∈ c)) as [Hic|Hic].
    + left. apply Honly; [done|]. intros Hic'. destruct (useg_elem _ _ _ _ (proj2 Hb) Hic') as (? & ? & ?). congruence.
    + right. rewrite Hfr in Hd by done. eauto.
Qed.

Lemma unlink_tail s chs fl b l1 p i l2 dp di :
  seg_wf s chs fl -> chs !! b = Some (l1 ++ p :: i :: l2) ->
  dirs s !! p = Some dp -> dirs s !! i = Some di ->
  let s1 := mkSegment (<[i := emptyDir]> (<[p := setNext dp (next di)]> (dirs s))) (freeStart s)
                      (<[i := noIdentity]> (ids s)) in
  released s1 (<[b := l1 ++ p :: l2]> chs) fl i /\
  views s1 (<[b := l1 ++ p :: l2]> chs) = <[b := view s (l1 ++ p :: l2)]> (views s chs).
Proof.
  intros W Hc Hp Hi s1. destruct (W) as (Hids & Hok & U & F).
  destruct (uw_bucket _ _ U _ _ Hc) as [Hh Hs]. pose proof (chain_NoDup _ _ _ _ U Hc) as N.
  apply NoDup_app in N as (N1 & Hdis & N2). apply NoDup_cons in N2 as [Hp2 N2]. apply NoDup_cons in N2 as [Hi2 N2].
  assert (i < length (dirs s))%nat as Hil by (by eapply lookup_lt_Some).
  assert (p < length (dirs s))%nat as Hpl by (by eapply lookup_lt_Some).
  assert (i ∉ l1) as Hi1 by (intros Hx; apply (Hdis i); set_solver).
  assert (p ∉ l1) as Hp1 by (intros Hx; apply (Hdis p); set_solver).
  assert (p <> i) as Hpi by set_solver.
  assert (forall j, j <> p -> j <> i -> dirs s1 !! j = dirs s !! j) as Hfr.
  { intros j Hj1 Hj2. cbn. by rewrite !list_lookup_insert_ne by done. }
  assert (dirs s1 !! i = Some emptyDir) as Ei by (cbn; rewrite list_lookup_insert_eq by (by rewrite length_insert); done).
  assert (dirs s1 !! p = Some (setNext dp (next di))) as Ep.
  { cbn. rewrite list_lookup_insert_ne by done. by rewrite list_lookup_insert_eq. }
  assert (nonhead i) as Hni. { destruct l1; cbn in Hh; destruct Hh as [_ Fh]; rewrite ?Forall_app, ?Forall_cons in Fh; tauto. }
  apply useg_app in Hs as [Hs1 [(dp' & ? & Hop & Hnp) [(di' & ? & Hoi & Hdi) Hs2]]].
  assert (dp' = dp) as -> by congruence. assert (di' = di) as -> by congruence.
  assert (forall l e, i ∉ l -> p ∉ l -> useg (dirs s) l e -> useg (dirs s1) l e) as Hfu.
  { intros l e Hx Hy. apply useg_frame. intros j d Hj Hd _. exists d.
    rewrite Hfr by (intros ->; done). done. }
  split.
  - apply (released_intro s s1 chs fl b (l1 ++ p :: i :: l2)); cbn [ids freeStart s1]; try done.
    + by rewrite length_insert.
    + apply Forall_insert; [apply Forall_insert; [done|]|]; eauto 6 with dirs.
    + split.
      * destruct l1; cbn in *; destruct Hh as [-> Fh]; rewrite ?Forall_app, ?Forall_cons in *; tauto.
      * apply useg_app. split; [by apply Hfu|]. split; [|by apply Hfu; set_solver].
        eexists; split_and!; [exact Ep|done|]. cbn. by rewrite Hdi.
    + apply NoDup_app. split_and!; [done|set_solver|]. apply NoDup_cons. set_solver.
    + cbn. by rewrite !length_insert.
    + set_solver.
    + set_solver.
    + set_solver.
    + intros j Hj. apply Hfr; set_solver.
  - assert (forall j, j <> i -> is_Some (dirs s !! j) -> entryAt s1 j = entryAt s j) as He.
    { intros j Hj Hx. apply entryAt_eq; [|done|cbn; by rewrite list_lookup_insert_ne].
      destruct (decide (j = p)) as [->|]; [rewrite Ep, Hp; done|]. by rewrite Hfr. }
    eapply views_update; [by apply uw_nodup in U|exact Hc| |].
    + intros j Hj Hx. apply He; [set_solver|]. destruct (used_elem _ _ _ U Hj) as (? & ? & _); eauto.
    + apply view_ext. intros j Hj. apply He; [set_solver|].
      destruct (used_elem _ _ j U) as (? & ? & _); [eapply elem_of_concat; [exact Hc|set_solver]|eauto].
Qed.

Lemma unlink_head s chs fl b h n l2 dn nid :
  seg_wf s chs fl -> chs !! b = Some (h :: n :: l2) ->
  dirs s !! n = Some dn -> ids s !! n = Some nid ->
  let s1 := mkSegment (<[n := emptyDir]> (<[h := dn]> (dirs s))) (freeStart s)
                      (<[n := noIdentity]> (<[h := nid]> (<[h := noIdentity]> (ids s)))) in
  released s1 (<[b := h :: l2]> chs) fl n /\
  views s1 (<[b := h :: l2]> chs) = <[b := view s (n :: l2)]> (views s chs).
Proof.
  intros W Hc Hn Hid s1. destruct (W) as (Hids & Hok & U & F).
  destruct (uw_bucket _ _ U _ _ Hc) as [[-> Fh] Hs]. set (h := (b * depth)%nat) in *.
  apply Forall_cons in Fh as [Hnn Fh].
  pose proof (chain_NoDup _ _ _ _ U Hc) as N. apply NoDup_cons in N as [Nh N]. apply NoDup_cons in N as [Nn N].
  destruct Hs as [(dh & Hdh & Hoh & _) [(dn' & ? & Hon & Hxn) Hs]]. assert (dn' = dn) as -> by congruence.
  assert (h < length (dirs s))%nat as Hhl by (by eapply lookup_lt_Some).
  assert (n < length (dirs s))%nat as Hnl by (by eapply lookup_lt_Some).
  assert (h <> n) as Hhn by set_solver.
  assert (forall j, j <> h -> j <> n -> dirs s1 !! j = dirs s !! j) as Hfr.
  { intros j Hj1 Hj2. cbn. by rewrite !list_lookup_insert_ne by done. }
  assert (dirs s1 !! n = Some emptyDir) as En by (cbn; rewrite list_lookup_insert_eq by (by rewrite length_insert); done).
  assert (dirs s1 !! h = Some dn) as Eh.
  { cbn. rewrite list_lookup_insert_ne by done. by rewrite list_lookup_insert_eq. }
  assert (ids s1 !! h = Some nid) as Ih.
  { cbn. rewrite list_lookup_insert_ne by done. rewrite list_lookup_insert_eq; [done|]. rewrite length_insert. lia. }
  split.
  - apply (released_intro s s1 chs fl b (h :: n :: l2)); cbn [ids freeStart s1]; try done.
    + by rewrite !length_insert.
    + apply Forall_insert; [apply Forall_insert; [done|]|]; eauto 6 with dirs.
    + split; [done|]. split; [exists dn; done|]. eapply useg_frame; [|exact Hs].
      intros j d Hj Hd _. exists d. rewrite Hfr by (intros ->; set_solver). done.
    + apply NoDup_cons. set_solver.
    + cbn. by rewrite !length_insert.
    + set_solver.
    + set_solver.
    + set_solver.
    + intros j Hj. apply Hfr; set_solver.
  - assert (forall j, j <> h -> j <> n -> is_Some (dirs s !! j) -> entryAt s1 j = entryAt s j) as He.
    { intros j Hj1 Hj2 Hx. apply entryAt_eq; [|done|cbn; by rewrite !list_lookup_insert_ne]. by rewrite Hfr. }
    eapply views_update; [by apply uw_nodup in U|exact Hc| |].
    + intros j Hj Hx. apply He; [set_solver..|]. destruct (used_elem _ _ _ U Hj) as (? & ? & _); eauto.
    + cbn. f_equal.
      * apply entryAt_eq; [by rewrite Eh, Hn|eauto|congruence].
      * apply view_ext. intros j Hj. apply He; [set_solver..|].
        destruct (useg_elem _ _ _ _ Hs Hj) as (? & ? & _); eauto.
Qed.

Lemma clear_head s chs fl b h :
  seg_wf s chs fl -> chs !! b = Some [h] ->
  let s1 := mkSegment (<[h := emptyDir]> (dirs s)) (freeStart s) (<[h := noIdentity]> (ids s)) in
  seg_wf s1 (<[b := []]> chs) fl /\ views s1 (<[b := []]> chs) = <[b := []]> (views s chs).
Proof.
  intros W Hc s1. destruct (W) as (Hids & Hok & U & F). destruct (uw_bucket _ _ U _ _ Hc) as [[-> _] Hs].
  set (h := (b * depth)%nat) in *. destruct Hs as [(d & Hd & Ho & _) _].
  assert (h < length (dirs s))%nat as Hhl by (by eapply lookup_lt_Some).
  assert (forall j, j <> h -> dirs s1 !! j = dirs s !! j) as Hfr.
  { intros j Hj. cbn. by rewrite !list_lookup_insert_ne by done. }
  assert (dirs s1 !! h = Some emptyDir) as Eh by (cbn; by rewrite list_lookup_insert_eq).
  split.
  - unfold seg_wf; cbn [ids s1]. split_and!.
    + cbn. by rewrite !length_insert.
    + apply Forall_insert; eauto with dirs.
    + eapply used_wf_update; [exact U|exact Hc| |constructor|].
      * split; [|done]. exists emptyDir. done.
      * split_and!; [apply length_insert|set_solver| |].
        -- intros i Hi _. apply list_elem_of_singleton in Hi as ->. exists emptyDir. done.
        -- intros i e He Hi _ _. exists e. rewrite Hfr by set_solver. done.
    + destruct F as [Fs Fnh Fst Fc]. rewrite Forall_forall in Fnh. split; [|by apply Forall_forall|done|].
      * eapply fseg_frame; [|exact Fs]. intros j Hj. apply Hfr. intros ->.
        apply Fnh in Hj. by eapply nonhead_bucket.
      * intros j e Hj He Hoe. rewrite Hfr in He by (by apply nonhead_bucket). eauto.
  - eapply views_update; [by apply uw_nodup in U|exact Hc| |done].
    intros j Hj Hx. assert (j <> h) by set_solver. apply entryAt_eq; [by rewrite Hfr| |cbn; by rewrite list_lookup_insert_ne].
    destruct (used_elem _ _ _ U Hj) as (? & ? & _); eauto.
Qed.

(** ** Deletion *)

Fixpoint removeTag (t : Z) (l : list Entry) : list Entry :=
  match l with
  | [] => []
  | e :: l' => if etag e =? t then l' else e :: removeTag t l'
  end.

Lemma removeTag_notin t l : Forall (fun e => etag e <> t) l -> removeTag t l = l.
Proof.
  induction 1 as [|e l He _ IH]; cbn; [done|]. apply Z.eqb_neq in He. by rewrite He, IH.
Qed.
Lemma removeTag_split t l1 e l2 :
  Forall (fun e => etag e <> t) l1 -> etag e = t -> removeTag t (l1 ++ e :: l2) = l1 ++ l2.
Proof.
  intros F He. induction F as [|e' l He' _ IH]; cbn.
  - by rewrite He, Z.eqb_refl.
  - apply Z.eqb_neq in He'. by rewrite He', IH.
Qed.

Lemma chain_lookup ds chs b c i : used_wf ds chs -> chs !! b = Some c -> i ∈ c -> is_Some (ds !! i).
Proof.
  intros U Hc Hi. destruct (used_elem _ _ i U) as (? & ? & _); [by eapply elem_of_concat|eauto].
Qed.

Lemma view_tags s chs b c l key :
  used_wf (dirs s) chs -> chs !! b = Some c -> l ⊆ c ->
  Forall (fun j => ~ tag_is (dirs s) key j) l -> Forall (fun e => etag e <> key) (view s l).
Proof.
  intros U Hc Hsub F. unfold view. apply Forall_fmap. rewrite Forall_forall in *. intros i Hi. cbn.
  rewrite <- tag_entryAt; [by apply F|]. eapply chain_lookup; eauto.
Qed.

Lemma seg_wf_start s chs fl : seg_wf s chs fl -> freeStart s <> 0 <-> fl <> [].
Proof.
  intros (_ & _ & _ & [_ Fn -> _]). destruct fl as [|j fl]; cbn; [naive_solver|].
  apply Forall_cons in Fn as [Hj _]. pose proof (nonhead_nonzero j Hj). split; [done|lia].
Qed.

Record deletion (s : Segment) (chs : list (list nat)) (b : nat) (c : list nat) (key : Z)
    (s' : Segment) (chs' : list (list nat)) : Prop := mk_deletion {
  de_wf : exists fl, seg_wf s' chs' fl;
  de_views : exists o, views s' chs' = clobber o (<[b := removeTag key (view s c)]> (views s chs)) /\
    (freeStart s <> 0 -> o = None);
  de_start : freeStart s <> 0 -> freeStart s' <> 0 }.

Lemma finish_delete s s1 chs chs1 fl k b c key :
  released s1 chs1 fl k -> freeStart s1 = freeStart s ->
  views s1 chs1 = <[b := removeTag key (view s c)]> (views s chs) ->
  exists s', freeChainSet s1 k = Some s' /\ deletion s chs b c key s' chs1.
Proof.
  intros R Hst Hv. destruct (freeChainSet_released _ _ _ _ R) as (s' & E & W & Hv').
  exists s'. split; [done|]. rewrite Hv in Hv'. split; [eauto| |].
  - eexists; split; [exact Hv'|]. rewrite <- Hst, (re_start _ _ _ _ R).
    destruct fl as [|j fl]; cbn; [done|]. intros _. by rewrite decide_False.
  - intros _. by apply (seg_wf_start _ _ _ W).
Qed.

Lemma dirDelete_spec s chs fl b c key :
  seg_wf s chs fl -> chs !! b = Some c ->
  exists s' i chs', dirDelete s key b = Some (s', i) /\ deletion s chs b c key s' chs'.
Proof.
  intros W Hc. destruct (W) as (Hids & Hok & U & F). unfold dirDelete.
  destruct (chain_split (dirs s) key c) as [(l1 & i & l2 & -> & Hi & Fn)|Fn].
  2: { destruct (dirProbe_miss _ _ _ _ _ U Hc Fn) as (x & ->). cbn. eexists _, _, chs. split; [done|].
       split; [eauto| |done]. exists None. split; [|done]. cbn.
       rewrite removeTag_notin by (eapply view_tags; eauto).
       symmetry. apply list_insert_id. unfold views. by rewrite list_lookup_fmap, Hc. }
  destruct (dirProbe_hit _ _ _ _ _ _ _ U Hc Hi Fn) as (d & Hd & Ho & Ht & ->). cbn [negb].
  assert (removeTag key (view s (l1 ++ i :: l2)) = view s (l1 ++ l2)) as Hrem.
  { unfold view. rewrite !fmap_app. cbn. apply removeTag_split.
    - eapply (view_tags s chs b (l1 ++ i :: l2)); eauto. set_solver.
    - apply tag_entryAt; eauto. }
  cbn [dirs ids setId setDirs freeStart]. rewrite Hd. cbn [mbind option_bind].
  destruct (uw_bucket _ _ U _ _ Hc) as [Hh Hs].
  destruct l1 as [|p l1 _] using rev_ind.
  - cbn [app] in *. destruct Hh as [-> Fh]. rewrite decide_True by done.
    destruct Hs as [(d' & ? & _ & Hnx) Hs]. assert (d' = d) as -> by congruence. rewrite Hnx, ix_nat.
    destruct l2 as [|n l2]; cbn [hd] in *.
    + rewrite decide_False by (intros X; by apply X). rewrite (upd_lookup _ _ _ _ Hd). cbn [mbind option_bind].
      destruct (clear_head s chs fl b (b * depth)%nat W Hc) as [W1 V1].
      eexists _, _, _. split; [done|]. split; [eauto|exists None; split; [|done]|done].
      cbn [clobber]. rewrite Hrem. exact V1.
    + apply Forall_cons in Fh as [Hn _]. rewrite decide_True by (by apply nonhead_nonzero).
      destruct Hs as [(dn & Hdn & _ & _) _]. rewrite Hdn. cbn [mbind option_bind].
      assert ((b * depth)%nat <> n) as Hne by (intros E; by apply (nonhead_bucket b n)).
      assert (n < length (ids s))%nat as Hnl by (rewrite Hids; by eapply lookup_lt_Some).
      destruct (lookup_lt_is_Some_2 _ _ Hnl) as [nid Hnid].
      rewrite list_lookup_insert_ne by done. rewrite Hnid. cbn [mbind option_bind].
      rewrite (upd_lookup _ _ _ _ Hd). cbn [mbind option_bind].
      rewrite (upd_lookup _ n _ dn) by (by rewrite list_lookup_insert_ne). cbn [mbind option_bind].
      destruct (unlink_head s chs fl b (b * depth)%nat n l2 dn nid W Hc Hdn Hnid) as [R1 V1].
      destruct (finish_delete s _ chs _ fl n b (b * depth :: n :: l2)%nat key R1) as (s' & E & D);
        [done|by rewrite Hrem|].
      change (clear dn) with emptyDir. unfold setDirs, setId; cbn [dirs ids freeStart].
      rewrite E. cbn. eauto.
  - rewrite <- app_assoc in *. cbn [app] in *.
    assert (nonhead i) as Hni.
    { destruct l1; cbn in Hh; destruct Hh as [_ Fh]; rewrite ?Forall_app, ?Forall_cons in Fh; tauto. }
    rewrite decide_False by (by apply nonhead_bucket). rewrite last_snoc. cbn [default from_option].
    destruct (useg_elem _ _ _ p Hs) as (dp & Hdp & _); [set_solver|].
    rewrite (upd_lookup _ _ _ _ Hdp). cbn [mbind option_bind].
    assert (p <> i) as Hpi.
    { intros ->. pose proof (chain_NoDup _ _ _ _ U Hc) as N. apply NoDup_app in N as (_ & _ & N).
      apply NoDup_cons in N as [N _]. set_solver. }
    rewrite (upd_lookup _ i _ d) by (by rewrite list_lookup_insert_ne). cbn [mbind option_bind].
    destruct (unlink_tail s chs fl b l1 p i l2 dp d W Hc Hdp Hd) as [R1 V1].
    destruct (finish_delete s _ chs _ fl i b (l1 ++ p :: i :: l2) key R1) as (s' & E & D); [done| |].
    { rewrite V1. f_equal. rewrite Hrem, <- app_assoc. done. }
    change (clear d) with emptyDir. unfold setDirs, setId; cbn [dirs ids freeStart]. rewrite E. cbn. eauto.
Qed.

(** ** Phase removal *)

Definition tags (l : list Entry) : list Z := etag <$> l.
Definition keepPhase (ph : bool) (l : list Entry) : list Entry := filter (fun e => ephase e <> ph) l.

Lemma removeTag_sublist t l : removeTag t l `sublist_of` l.
Proof. induction l as [|e l IH]; cbn; [constructor|]. destruct (_ =? _); by constructor. Qed.

Lemma removeTag_length t l : t ∈ tags l -> length l = S (length (removeTag t l)).
Proof.
  induction l as [|e l IH]; cbn; [set_solver|]. destruct (_ =? _) eqn:E; b2p; [done|].
  intros Hin. apply elem_of_cons in Hin as [?|Hin]; [congruence|]. cbn. by rewrite <- IH.
Qed.

Lemma keepPhase_removeTag ph t l :
  (forall e, e ∈ l -> etag e = t -> ephase e = ph) -> keepPhase ph (removeTag t l) = keepPhase ph l.
Proof.
  unfold keepPhase. induction l as [|e l IH]; cbn [removeTag]; [done|]. intros H. destruct (_ =? _) eqn:E; b2p.
  - rewrite filter_cons_False; [done|]. intros Hn. by apply Hn, H; [set_solver|].
  - rewrite !filter_cons, IH by set_solver. done.
Qed.

Lemma NoDup_tags_removeTag t l : NoDup (tags l) -> NoDup (tags (removeTag t l)).
Proof.
  intros N. eapply sublist_NoDup; [exact N|]. apply fmap_sublist, removeTag_sublist.
Qed.

Lemma NoDup_tags_inj l e e' : NoDup (tags l) -> e ∈ l -> e' ∈ l -> etag e = etag e' -> e = e'.
Proof.
  intros N He He' Ht. apply list_elem_of_lookup_1 in He as [k Hk], He' as [k' Hk'].
  assert (k = k'); [|congruence]. eapply NoDup_lookup; [exact N| |].
  - unfold tags. by rewrite list_lookup_fmap, Hk.
  - unfold tags. rewrite list_lookup_fmap, Hk'. cbn. congruence.
Qed.

Lemma views_lookup s chs b : views s chs !! b = view s <$> chs !! b.
Proof. unfold views. apply list_lookup_fmap. Qed.

Lemma clobber_length o A : length (clobber o A) = length A.
Proof. destruct o; [|done]. apply length_alter. Qed.

Lemma clobber_lookup_length o A b l :
  A !! b = Some l -> exists l', clobber o A !! b = Some l' /\ length l' = length l.
Proof.
  intros H. destruct o as [k|]; [|eauto]. cbn. destruct (decide (b = 0%nat)) as [->|].
  - rewrite list_lookup_alter_eq, H. cbn. destruct l; eauto.
  - rewrite list_lookup_alter_ne by done. eauto.
Qed.

(** The chain of a bucket after a deletion that hit is one slot shorter. *)
Lemma deletion_chain s chs b c key s' chs' :
  chs !! b = Some c -> deletion s chs b c key s' chs' -> key ∈ tags (view s c) ->
  length chs' = length chs /\ exists c', chs' !! b = Some c' /\ length c = S (length c').
Proof.
  intros Hc [_ (o & Hv & _) _] Hin. split.
  { apply (f_equal length) in Hv. unfold views in Hv. rewrite clobber_length, length_insert, !length_fmap in Hv. done. } assert (b < length chs)%nat as Hlt by (by eapply lookup_lt_Some).
  destruct (clobber_lookup_length o (<[b := removeTag key (view s c)]> (views s chs)) b (removeTag key (view s c)))
    as (l' & Hl' & Hlen).
  { apply list_lookup_insert_eq. unfold views. by rewrite length_fmap. }
  rewrite <- Hv, views_lookup in Hl'. destruct (chs' !! b) as [c'|] eqn:Hc'; [|done].
  injection Hl' as <-. exists c'. split; [done|]. apply removeTag_length in Hin.
  unfold view in *. rewrite !length_fmap in *. congruence.
Qed.

Record phaseRemoved (ph : bool) (b : nat) (s : Segment) (chs : list (list nat)) (c : list nat)
    (s' : Segment) (chs' : list (list nat)) (c' : list nat) : Prop := mk_phaseRemoved {
  pr_wf : exists fl, seg_wf s' chs' fl;
  pr_chain : chs' !! b = Some c';
  pr_len : length chs' = length chs;
  pr_gone : Forall (fun e => ephase e <> ph) (view s' c');
  pr_start : freeStart s <> 0 -> freeStart s' <> 0;
  pr_exact : freeStart s <> 0 -> NoDup (tags (view s c)) ->
    views s' chs' = <[b := keepPhase ph (view s c)]> (views s chs) }.

Lemma phase_entryAt s i d : dirs s !! i = Some d -> ephase (entryAt s i) = phase d.
Proof. intros Hd. unfold entryAt. rewrite list_lookup_total_alt, Hd. done. Qed.

Lemma keepPhase_all ph l : Forall (fun e => ephase e <> ph) l -> keepPhase ph l = l.
Proof. unfold keepPhase. induction 1; [done|]. rewrite filter_cons_True by done. by f_equal. Qed.

Lemma phaseRemoved_done ph b s chs fl c :
  seg_wf s chs fl -> chs !! b = Some c -> Forall (fun e => ephase e <> ph) (view s c) ->
  phaseRemoved ph b s chs c s chs c.
Proof.
  intros W Hc F. split; eauto. intros _ _. rewrite keepPhase_all by done.
  symmetry. apply list_insert_id. by rewrite views_lookup, Hc.
Qed.

Lemma removeLoop_spec fuel ph b s chs fl c l1 l2 :
  seg_wf s chs fl -> chs !! b = Some c -> c = l1 ++ l2 ->
  Forall (fun e => ephase e <> ph) (view s l1) -> (l2 = [] -> c = []) ->
  (length c * S (length c) + length l2 < fuel)%nat ->
  exists s' chs' c', removeLoop fuel s ph b (hd (b * depth)%nat l2) = Some s' /\
    phaseRemoved ph b s chs c s' chs' c'.
Proof.
  revert s chs fl c l1 l2. induction fuel as [|fuel IH]; intros s chs fl c l1 l2 W Hc Ec Fp Hne Hf; [lia|].
  destruct (W) as (Hids & Hok & U & F). destruct (uw_bucket _ _ U _ _ Hc) as [Hh Hs]. cbn [removeLoop].
  destruct l2 as [|i l2]; cbn [hd].
  - rewrite (Hne eq_refl) in *. destruct Hh as (d & Hd & Ho & _). rewrite Hd. cbn [mbind option_bind].
    rewrite decide_True by done. exists s, chs, []. split; [done|]. by eapply phaseRemoved_done.
  - destruct (useg_elem _ _ _ i Hs) as (d & Hd & Ho); [set_solver|]. rewrite Hd. cbn [mbind option_bind].
    rewrite decide_False by done. assert (is_Some (dirs s !! i)) as Hsi by eauto.
    assert (etag (entryAt s i) = tag d) as Ht.
    { apply tag_entryAt; [done|]. unfold tag_is. by rewrite Hd. }
    assert (entryAt s i ∈ view s c) as Hin.
    { unfold view. apply list_elem_of_fmap. exists i. split; [done|set_solver]. }
    destruct (decide (phase d = ph)) as [Hph|Hph].
    + destruct (dirDelete_spec s chs fl b c (tag d) W Hc) as (s1 & j & chs1 & E & D). rewrite E. cbn [mbind option_bind fst].
      destruct (deletion_chain _ _ _ _ _ _ _ Hc D) as (Hlen1 & c1 & Hc1 & Hl1).
      { rewrite <- Ht. unfold tags. apply list_elem_of_fmap. eauto. }
      destruct (de_wf _ _ _ _ _ _ _ D) as (fl1 & W1).
      destruct (IH s1 chs1 fl1 c1 [] c1) as (s' & chs' & c' & E' & P); [done|done|done|constructor|done| |].
      { cbn in Hf. rewrite Hl1 in Hf. nia. }
      exists s', chs', c'. split.
      { destruct (uw_bucket _ _ (proj1 (proj2 (proj2 W1))) _ _ Hc1) as [Hh1 _].
        rewrite <- E'. f_equal. destruct c1; [done|]. by destruct Hh1 as [-> _]. }
      destruct P as [P1 P2 P2' P3 P4 P5]. destruct D as [_ (o & Hv & Ho') Dst]. split; auto; [congruence|].
      intros Hst N. rewrite (Ho' Hst) in Hv. cbn in Hv.
      assert (view s1 c1 = removeTag (tag d) (view s c)) as Hv1.
      { apply (f_equal (lookup b)) in Hv. rewrite views_lookup, Hc1 in Hv. cbn in Hv.
        rewrite list_lookup_insert_eq in Hv; [by injection Hv|]. unfold views. rewrite length_fmap. by eapply lookup_lt_Some. }
      rewrite P5, Hv1, Hv, list_insert_insert_eq; [|auto|rewrite Hv1; by apply NoDup_tags_removeTag].
      f_equal. apply keepPhase_removeTag. intros e He Hte.
      rewrite (NoDup_tags_inj _ e (entryAt s i) N He Hin) by congruence.
      by rewrite (phase_entryAt _ _ _ Hd).
    + assert (Forall (fun e => ephase e <> ph) (view s (l1 ++ [i]))) as Fp'.
      { unfold view. rewrite fmap_app. apply Forall_app. split; [done|]. constructor; [|constructor].
        cbn. by rewrite (phase_entryAt _ _ _ Hd). }
      rewrite Ec in Hs. apply useg_app in Hs as [_ [(d' & ? & _ & Hn) _]]. assert (d' = d) as -> by congruence.
      rewrite Hn. destruct l2 as [|j l2]; cbn [hd].
      * rewrite decide_True by done. exists s, chs, c. split; [done|]. eapply phaseRemoved_done; [done|done|].
        by rewrite Ec.
      * assert (nonhead j) as Hj.
        { rewrite Ec in Hh. destruct l1; cbn in Hh; destruct Hh as [_ Fh]; rewrite ?Forall_app, ?Forall_cons in Fh; tauto. }
        pose proof (nonhead_nonzero j Hj). rewrite decide_False by lia. rewrite ix_nat.
        destruct (IH s chs fl c (l1 ++ [i]) (j :: l2)) as (s' & chs' & c' & E' & P); [done|done| |done|done|cbn in *; lia|].
        { rewrite Ec, <- app_assoc. done. }
        eauto.
Qed.
