(* ===== verification/DirSpec.v ===== *)
(** * What the directory promises

    An abstract directory is, per segment and bucket, the list of entries a
    probe walks.  The operations of [cache/dir_manager.go] refine the list
    operations [findTag], [putTag] and [removeTag] on it; the theorems about
    lookup, insertion, deletion, phase removal and initialisation are stated
    and proved through that refinement. *)

From S2P Require Import Prelude Hash Dir Doc DirTrie DirManager DirChain DirOps DirRemove.

Fixpoint findTag (t : Z) (l : list Entry) : option Entry :=
  match l with
  | [] => None
  | e :: l' => if etag e =? t then Some e else findTag t l'
  end.

Fixpoint putTag (e : Entry) (l : list Entry) : list Entry :=
  match l with
  | [] => [e]
  | e' :: l' => if etag e' =? etag e then e :: l' else e' :: putTag e l'
  end.

Lemma findTag_notin t l : Forall (fun e => etag e <> t) l -> findTag t l = None.
Proof. induction 1 as [|e l He _ IH]; cbn; [done|]. apply Z.eqb_neq in He. by rewrite He. Qed.
Lemma findTag_split t l1 e l2 :
  Forall (fun e => etag e <> t) l1 -> etag e = t -> findTag t (l1 ++ e :: l2) = Some e.
Proof.
  intros F He. induction F as [|e' l He' _ IH]; cbn; [by rewrite He, Z.eqb_refl|].
  apply Z.eqb_neq in He'. by rewrite He'.
Qed.
Lemma putTag_notin e l : Forall (fun e' => etag e' <> etag e) l -> putTag e l = l ++ [e].
Proof. induction 1 as [|e' l He _ IH]; cbn; [done|]. apply Z.eqb_neq in He. by rewrite He, IH. Qed.
Lemma putTag_split e l1 e' l2 :
  Forall (fun x => etag x <> etag e) l1 -> etag e' = etag e -> putTag e (l1 ++ e' :: l2) = l1 ++ e :: l2.
Proof.
  intros F He. induction F as [|x l Hx _ IH]; cbn; [by rewrite He, Z.eqb_refl|].
  apply Z.eqb_neq in Hx. by rewrite Hx, IH.
Qed.
Lemma find_put_same e l : findTag (etag e) (putTag e l) = Some e.
Proof.
  induction l as [|x l IH]; cbn; [by rewrite Z.eqb_refl|].
  destruct (etag x =? etag e) eqn:E; cbn; [by rewrite Z.eqb_refl|]. by rewrite E.
Qed.
Lemma find_put_other t e l : t <> etag e -> findTag t (putTag e l) = findTag t l.
Proof.
  intros Hne. assert ((etag e =? t) = false) as Ee by (by apply Z.eqb_neq).
  induction l as [|x l IH]; cbn; [by rewrite Ee|].
  destruct (etag x =? etag e) eqn:E; cbn; [|by rewrite IH]. apply Z.eqb_eq in E. by rewrite E, Ee.
Qed.
Lemma find_remove_other t t' l : t <> t' -> findTag t (removeTag t' l) = findTag t l.
Proof.
  intros Hne. induction l as [|x l IH]; cbn; [done|].
  destruct (etag x =? t') eqn:E; b2p; cbn; [|by rewrite IH].
  destruct (etag x =? t) eqn:E'; b2p; [congruence|done].
Qed.
Lemma find_None t l : findTag t l = None <-> t ∉ tags l.
Proof.
  induction l as [|x l IH]; cbn; [set_solver|]. destruct (_ =? _) eqn:E; b2p; [set_solver|].
  rewrite IH. set_solver.
Qed.
Lemma find_remove_same t l : NoDup (tags l) -> findTag t (removeTag t l) = None.
Proof.
  induction l as [|x l IH]; cbn; [done|]. intros N. apply NoDup_cons in N as [Hx N].
  destruct (_ =? _) eqn:E; b2p; [apply find_None; by rewrite <- E|]. cbn.
  apply Z.eqb_neq in E. rewrite E. auto.
Qed.
Lemma findTag_Some t l e : findTag t l = Some e -> etag e = t /\ e ∈ l.
Proof.
  induction l as [|x l IH]; cbn; [done|]. destruct (_ =? _) eqn:E; b2p; [intros [= ->]; set_solver|].
  intros H. destruct (IH H). set_solver.
Qed.
Lemma NoDup_tags_putTag e l : NoDup (tags l) -> NoDup (tags (putTag e l)).
Proof.
  induction l as [|x l IH]; cbn; [intros _; apply NoDup_singleton|]. intros N. apply NoDup_cons in N as [Hx N].
  destruct (_ =? _) eqn:E; b2p; cbn; [rewrite <- E; by apply NoDup_cons|].
  apply NoDup_cons. split; [|auto]. rewrite <- find_None in *. rewrite find_put_other by done. done.
Qed.

(** ** Segments *)

Definition seg_abs (s : Segment) (A : list (list Entry)) : Prop :=
  exists chs fl, seg_wf s chs fl /\ A = views s chs.

Lemma view_length s c : length (view s c) = length c.
Proof. apply length_fmap. Qed.

Lemma views_lookup_inv s chs b l :
  views s chs !! b = Some l -> exists c, chs !! b = Some c /\ l = view s c.
Proof. rewrite views_lookup. destruct (chs !! b); cbn; [|done]. intros [= <-]. eauto. Qed.

Lemma view_entry s chs b c i :
  length (ids s) = length (dirs s) -> used_wf (dirs s) chs -> chs !! b = Some c -> i ∈ c ->
  exists d id, dirs s !! i = Some d /\ ids s !! i = Some id /\ entryAt s i = (payload d, id).
Proof.
  intros Hids U Hc Hi. destruct (chain_lookup _ _ _ _ _ U Hc Hi) as [d Hd].
  destruct (lookup_lt_is_Some_2 (ids s) i) as [id Hid]; [rewrite Hids; by eapply lookup_lt_Some|].
  exists d, id. unfold entryAt. rewrite !list_lookup_total_alt, Hd, Hid. done.
Qed.

(** A probe is [findTag]. *)
Lemma dirProbe_abs s A b l key :
  seg_abs s A -> A !! b = Some l ->
  exists hit i p d, dirProbe key b (dirs s) = (hit, i, p, d) /\
    match findTag key l with
    | Some e => hit = true /\ dirs s !! i = Some d /\ ids s !! i = Some e.2 /\ payload d = e.1 /\ tag d = key
    | None => hit = false /\ d = emptyDir
    end.
Proof.
  intros (chs & fl & (Hids & Hok & U & F) & ->) Hl. apply views_lookup_inv in Hl as (c & Hc & ->).
  destruct (chain_split (dirs s) key c) as [(l1 & i & l2 & -> & Hi & Fn)|Fn].
  - destruct (dirProbe_hit _ _ _ _ _ _ _ U Hc Hi Fn) as (d & Hd & Ho & Ht & E).
    destruct (view_entry s chs b _ i Hids U Hc) as (d' & id & Hd' & Hid & He); [set_solver|].
    assert (d' = d) as -> by congruence.
    exists true, i, (default 0%nat (last l1)), d. split; [done|]. unfold view. rewrite fmap_app. cbn.
    rewrite findTag_split; [rewrite He; done| |].
    + eapply (view_tags s chs b (l1 ++ i :: l2)); eauto. set_solver.
    + apply tag_entryAt; eauto.
  - destruct (dirProbe_miss _ _ _ _ _ U Hc Fn) as (x & E).
    rewrite findTag_notin by (eapply view_tags; eauto). eauto 10.
Qed.

Lemma entryAt_setId_ne s i j id : i <> j -> entryAt (setId s i id) j = entryAt s j.
Proof. intros Hne. unfold entryAt, setId; cbn. by rewrite list_lookup_total_insert_ne. Qed.
Lemma entryAt_setId_eq s i id :
  (i < length (ids s))%nat -> entryAt (setId s i id) i = (payload (dirs s !!! i), id).
Proof. intros. unfold entryAt, setId; cbn. by rewrite list_lookup_total_insert_eq. Qed.

Lemma seg_wf_setId s i id chs fl : seg_wf s chs fl -> seg_wf (setId s i id) chs fl.
Proof. intros (H & ?). split; [cbn; by rewrite length_insert|done]. Qed.

(** An insertion is [putTag] in its bucket; other buckets are untouched, or
    reclaimed as a whole when the free chain is exhausted. *)
Lemma dirInsert_abs rnd s A b l dir id :
  seg_abs s A -> A !! b = Some l -> dir_ok dir -> offset dir <> 0 -> next dir = 0 ->
  findTag (tag dir) l <> None \/ (length l <= 3 * length A)%nat ->
  exists s' i A', dirInsert rnd s (tag dir) b dir = Some (s', i) /\ seg_abs (setId s' i id) A' /\
    length A' = length A /\ A' !! b = Some (putTag (payload dir, id) l) /\
    (forall b', b' <> b -> A' !! b' = A !! b' \/ A' !! b' = Some []) /\
    (freeStart s <> 0 \/ l = [] \/ findTag (tag dir) l <> None -> A' = <[b := putTag (payload dir, id) l]> A).
Proof.
  intros (chs & fl & W & ->) Hl Hdir Ho Hn Hroom. apply views_lookup_inv in Hl as (c & Hc & ->).
  destruct (W) as (Hids & Hok & U & F).
  assert (etag (payload dir, id) = tag dir) as Het by done.
  assert (b < length chs)%nat as Hb by (by eapply lookup_lt_Some).
  destruct (chain_split (dirs s) (tag dir) c) as [(l1 & i & l2 & -> & Hi & Fn)|Fn].
  - destruct (dirInsert_hit rnd s chs fl b (tag dir) l1 i l2 dir W Hc Hi Fn Hdir Ho) as (d & Hd & E & W').
    assert (i < length (dirs s))%nat as Hlt by (by eapply lookup_lt_Some).
    pose proof (chain_NoDup _ _ _ _ U Hc) as N. apply NoDup_app in N as (_ & Hdis & N). apply NoDup_cons in N as [Hi2 _].
    eexists _, _, _. split; [exact E|]. split; [exists chs, fl; split; [by apply seg_wf_setId|done]|].
    set (s' := setId _ _ _).
    assert (forall j, j <> i -> entryAt s' j = entryAt s j) as He.
    { intros j Hj. unfold s'. rewrite entryAt_setId_ne by done. unfold entryAt; cbn.
      by rewrite list_lookup_total_insert_ne. }
    assert (views s' chs = <[b := putTag (payload dir, id) (view s (l1 ++ i :: l2))]> (views s chs)) as Hv.
    { rewrite <- (list_insert_id chs b _ Hc) at 1. eapply views_update; [by apply uw_nodup in U|exact Hc| |].
      - intros j Hj Hx. apply He. set_solver.
      - unfold view. rewrite !fmap_app. cbn. rewrite (putTag_split _ _ (entryAt s i)).
        + f_equal; [apply view_ext; intros j Hj; apply He; intros ->; by apply (Hdis i); set_solver|]. f_equal.
          * unfold s'. rewrite entryAt_setId_eq by (cbn; lia). cbn. by rewrite list_lookup_total_insert_eq.
          * apply view_ext. intros j Hj. apply He. intros ->. done.
        + rewrite Het. eapply (view_tags s chs b (l1 ++ i :: l2)); eauto. set_solver.
        + rewrite Het. apply tag_entryAt; eauto. }
    rewrite Hv. split_and!; [by rewrite length_insert| | |done].
    + apply list_lookup_insert_eq. unfold views. by rewrite length_fmap.
    + intros b' Hb'. left. by rewrite list_lookup_insert_ne.
  - rewrite findTag_notin in Hroom by (eapply view_tags; eauto).
    assert (length c <= 3 * length chs)%nat as Hlen.
    { destruct Hroom as [?|Hr]; [done|]. unfold views in Hr. by rewrite view_length, length_fmap in Hr. }
    destruct (dirInsert_miss rnd s chs fl b c (tag dir) dir W Hc Fn Hdir Ho Hn Hlen)
      as (s' & k & chs1 & fl' & E & W' & Hi' & Hk & Hdk & L1 & Hc1 & HB & Hsame & Hpay).
    eexists _, _, _. split; [exact E|]. split; [eexists _, _; split; [by apply seg_wf_setId|done]|].
    destruct W' as (Hids' & Hok' & U' & F').
    assert (forall j, j ∈ concat chs1 -> entryAt (setId s' k id) j = entryAt s j) as He.
    { intros j Hj. rewrite entryAt_setId_ne by (intros ->; done). apply entryAt_eq; [auto| |by rewrite Hi'].
      apply elem_of_concat_inv in Hj as (b2 & c2 & Hc2 & Hj). destruct (HB _ _ Hc2) as [->|Hc2']; [set_solver|].
      by eapply chain_lookup. }
    assert (k < length (ids s'))%nat as Hkl by (rewrite Hids'; by eapply lookup_lt_Some).
    assert (view (setId s' k id) (c ++ [k]) = putTag (payload dir, id) (view s c)) as Hv.
    { rewrite putTag_notin by (rewrite Het; eapply view_tags; eauto). unfold view. rewrite fmap_app. cbn. f_equal.
      - apply view_ext. intros j Hj. apply He. by eapply elem_of_concat.
      - rewrite entryAt_setId_eq by done. rewrite list_lookup_total_alt, Hdk. done. }
    split_and!.
    + unfold views. by rewrite !length_fmap, length_insert.
    + rewrite views_lookup, list_lookup_insert_eq by congruence. cbn. by rewrite Hv.
    + intros b' Hb'. rewrite !views_lookup, list_lookup_insert_ne by done.
      destruct (chs1 !! b') as [c'|] eqn:Hc'.
      * destruct (HB _ _ Hc') as [->|Hc'']; [by right|left]. rewrite Hc''. cbn. f_equal.
        apply view_ext. intros j Hj. apply He. by eapply elem_of_concat.
      * left. destruct (chs !! b') eqn:E'; [|done]. apply lookup_lt_Some in E'. apply lookup_ge_None in Hc'. lia.
    + rewrite findTag_notin by (eapply view_tags; eauto). intros Hst.
      assert (chs1 = chs) as -> by (apply Hsame; destruct Hst as [?|[?%fmap_nil_inv|?]]; auto; done).
      eapply views_update; [by apply uw_nodup in U|exact Hc| |done].
      intros j Hj _. by apply He.
Qed.

Lemma dirDelete_abs s A b l key :
  seg_abs s A -> A !! b = Some l ->
  exists s' i A' o, dirDelete s key b = Some (s', i) /\ seg_abs s' A' /\
    A' = clobber o (<[b := removeTag key l]> A) /\ (freeStart s <> 0 -> o = None /\ freeStart s' <> 0).
Proof.
  intros (chs & fl & W & ->) Hl. apply views_lookup_inv in Hl as (c & Hc & ->).
  destruct (dirDelete_spec s chs fl b c key W Hc) as (s' & i & chs' & E & [(fl' & W') (o & Hv & Ho) Hst]).
  exists s', i, (views s' chs'), o. split_and!; [done|by exists chs', fl'|done|auto].
Qed.
