(* ===== verification/DirInit.v ===== *)
(** * Directory initialisation

    [linkEmptyDirs] and [Init] of [cache/dir_manager.go] produce a segment
    whose every non-head slot is on one free chain. *)

From S2P Require Import Prelude Hash Dir Doc DirTrie DirManager DirChain DirOps DirRemove DirSpec.

(** The links of slot [i] in a fresh segment of [nb] buckets. *)
Definition freshNext (nb i : nat) : nat :=
  if decide (i mod depth = 0)%nat then 0%nat
  else if decide (i mod depth = 3)%nat then
    if decide (i / depth = nb - 1)%nat then 0%nat else (i + 2)%nat
  else (i + 1)%nat.
Definition freshPrev (i : nat) : nat :=
  if decide (i mod depth = 0)%nat then 0%nat
  else if decide (i mod depth = 1)%nat then
    if decide (i / depth = 0)%nat then 0%nat else (i - 2)%nat
  else (i - 1)%nat.

Lemma slot_divmod b j : (j < 4)%nat -> ((b * depth + j) mod depth = j /\ (b * depth + j) / depth = b)%nat.
Proof.
  intros Hj. unfold depth. rewrite (Nat.add_comm (b * 4)). split.
  - rewrite Nat.Div0.mod_add. by apply Nat.mod_small.
  - rewrite Nat.div_add by lia. rewrite Nat.div_small by lia. lia.
Qed.
Lemma slot_cases i : exists b j, (i = b * depth + j /\ j < 4)%nat.
Proof.
  exists (i / depth)%nat, (i mod depth)%nat. unfold depth. split; [|by apply Nat.mod_upper_bound].
  rewrite Nat.mul_comm. by apply Nat.div_mod.
Qed.

Lemma freshNext_slot nb b j : (j < 4)%nat ->
  freshNext nb (b * depth + j) = match j with
    | 0 => 0 | 3 => if decide (b = nb - 1)%nat then 0 else b * depth + 5 | _ => b * depth + j + 1 end%nat.
Proof.
  intros Hj. unfold freshNext. destruct (slot_divmod b j Hj) as [-> ->].
  destruct j as [|[|[|[|j]]]]; cbn -[Nat.mul]; try lia; try done.
  rewrite decide_False, decide_True by done. destruct (decide _); [done|]. lia.
Qed.
Lemma freshPrev_slot b j : (j < 4)%nat ->
  freshPrev (b * depth + j) = match j with
    | 0 => 0 | 1 => if decide (b = 0)%nat then 0 else b * depth + 1 - 2 | _ => b * depth + j - 1 end%nat.
Proof.
  intros Hj. unfold freshPrev. destruct (slot_divmod b j Hj) as [-> ->].
  destruct j as [|[|[|[|j]]]]; cbn -[Nat.mul]; try lia; done.
Qed.

(** Three writes into the non-head slots of one bucket. *)
Lemma write3_lookup (ds : list Dir) (b : nat) d1 d2 d3 i :
  (b * depth + 3 < length ds)%nat ->
  <[(b * depth + 3)%nat := d3]> (<[(b * depth + 2)%nat := d2]> (<[(b * depth + 1)%nat := d1]> ds)) !! i =
    if decide (i = b * depth + 1)%nat then Some d1
    else if decide (i = b * depth + 2)%nat then Some d2
    else if decide (i = b * depth + 3)%nat then Some d3 else ds !! i.
Proof.
  intros H. rewrite !lookup_insert_cases by (rewrite ?length_insert; lia).
  repeat case_decide; try lia; done.
Qed.

Definition freshDir (nb : nat) (withPrev : bool) (i : nat) : Dir :=
  mkDir 0 0 (if withPrev then Z.of_nat (freshPrev i) else 0) (Z.of_nat (freshNext nb i)) 0.

Lemma fresh_head nb w b : freshDir nb w (b * depth) = emptyDir.
Proof.
  unfold freshDir. rewrite <- (Nat.add_0_r (b * depth)), freshNext_slot, freshPrev_slot by lia. by destruct w.
Qed.

(** [ds] agrees with [f] below bucket [k] and with [g] from there on. *)
Definition split_at (nb k : nat) (f g : nat -> Dir) (ds : list Dir) : Prop :=
  length ds = (nb * depth)%nat /\
  forall i, (i < nb * depth)%nat -> ds !! i = Some (if decide (i < k * depth)%nat then f i else g i).

Lemma split_at_step nb k f g ds d3 :
  (k < nb)%nat -> split_at nb k f g ds -> f (k * depth)%nat = g (k * depth)%nat -> d3 = f (k * depth + 3)%nat ->
  split_at nb (S k) f g
    (<[(k * depth + 3)%nat := d3]> (<[(k * depth + 2)%nat := f (k * depth + 2)%nat]>
      (<[(k * depth + 1)%nat := f (k * depth + 1)%nat]> ds))).
Proof.
  intros Hk [L H] H0 ->. split; [by rewrite !length_insert|]. intros i Hi. unfold depth in *.
  rewrite (write3_lookup ds k) by (unfold depth; lia). unfold depth.
  repeat (case_decide; [subst; rewrite decide_True by lia; done|]). rewrite H by done.
  destruct (decide (i < k * 4)%nat).
  - by rewrite decide_True by lia.
  - destruct (decide (i = k * 4)%nat) as [->|]; [rewrite decide_True by lia; by rewrite H0|].
    by rewrite decide_False by lia.
Qed.

Lemma linkEmptyNext_step nb k ds :
  (k < nb)%nat -> Z.of_nat (nb * depth) <= 65536 ->
  split_at nb k (freshDir nb false) (fun _ => emptyDir) ds ->
  exists ds', linkEmptyNext nb ds k = Some ds' /\
    split_at nb (S k) (freshDir nb false) (fun _ => emptyDir) ds'.
Proof.
  intros Hk Hb S0. pose proof S0 as [L H]. unfold depth in *.
  assert (forall j, (0 < j < 4)%nat -> ds !! (k * 4 + j)%nat = Some emptyDir) as He.
  { intros j Hj. rewrite H by lia. by rewrite decide_False by lia. }
  assert (forall j, (j <= 5)%nat -> (k * 4 + j < nb * 4)%nat -> link (k * 4 + j) = Z.of_nat (k * 4 + j)) as Hl.
  { intros j Hj Hx. eapply link_small; [|exact Hb]. done. }
  unfold linkEmptyNext. cbn [foldl]. unfold depth. cbn [mbind option_bind].
  rewrite (upd_lookup _ _ _ emptyDir) by (apply He; lia). cbn [mbind option_bind].
  rewrite (upd_lookup _ _ _ emptyDir).
  2: { rewrite list_lookup_insert_ne by lia. apply He. lia. }
  cbn [mbind option_bind]. replace (k * 4 + 1 + 1)%nat with (k * 4 + 2)%nat by lia.
  replace (k * 4 + 2 + 1)%nat with (k * 4 + 3)%nat by lia. replace (k * 4 + 4 - 1)%nat with (k * 4 + 3)%nat by lia.
  rewrite !Hl by lia.
  pose proof (split_at_step nb k _ _ ds (freshDir nb false (k * 4 + 3)%nat) Hk S0
    (fresh_head nb false k) eq_refl) as St. unfold depth in St.
  pose proof (freshNext_slot nb k) as Hfn. unfold depth in Hfn.
  assert (forall j, setNext emptyDir (Z.of_nat (freshNext nb (k * 4 + j))) = freshDir nb false (k * 4 + j)) as Hset by done.
  pose proof (Hset 1%nat) as E1. pose proof (Hset 2%nat) as E2. pose proof (Hset 3%nat) as E3.
  rewrite Hfn in E1, E2, E3 by lia.
  replace (k * 4 + 2 + 1)%nat with (k * 4 + 3)%nat in E2 by lia.
  replace (k * 4 + 1 + 1)%nat with (k * 4 + 2)%nat in E1 by lia. rewrite E1, E2.
  destruct (decide (k = nb - 1)%nat) as [E|E].
  - eexists; split; [done|].
    match type of St with split_at _ _ _ _ (<[?j := ?d]> ?l) => replace l with (<[j := d]> l) at 1; [exact St|] end.
    apply list_insert_id. rewrite !list_lookup_insert_ne by lia. rewrite He by lia. by rewrite <- E3.
  - rewrite (upd_lookup _ _ _ emptyDir).
    2: { rewrite !list_lookup_insert_ne by lia. apply He. lia. }
    eexists; split; [done|]. replace (k * 4 + 3 + 2)%nat with (k * 4 + 5)%nat by lia.
    rewrite Hl, E3 by lia. exact St.
Qed.

Lemma linkEmptyPrev_step nb k ds :
  (k < nb)%nat -> Z.of_nat (nb * depth) <= 65536 ->
  split_at nb k (freshDir nb true) (freshDir nb false) ds ->
  exists ds', linkEmptyPrev ds k = Some ds' /\ split_at nb (S k) (freshDir nb true) (freshDir nb false) ds'.
Proof.
  intros Hk Hb S0. pose proof S0 as [L H]. unfold depth in *.
  assert (forall j, (0 < j < 4)%nat -> ds !! (k * 4 + j)%nat = Some (freshDir nb false (k * 4 + j))) as He.
  { intros j Hj. rewrite H by lia. by rewrite decide_False by lia. }
  assert (forall j, (j < nb * 4)%nat -> link j = Z.of_nat j) as Hl.
  { intros j Hj. eapply link_small; [|exact Hb]. done. }
  unfold linkEmptyPrev. cbn [foldl]. unfold depth. cbn [mbind option_bind].
  rewrite (upd_lookup _ _ _ _ (He 3%nat ltac:(lia))). cbn [mbind option_bind].
  rewrite (upd_lookup _ _ _ (freshDir nb false (k * 4 + 2))).
  2: { rewrite list_lookup_insert_ne by lia. apply He. lia. }
  cbn [mbind option_bind]. rewrite !Hl by lia.
  pose proof (freshPrev_slot k) as Hfp. unfold depth in Hfp.
  pose proof (split_at_step nb k _ _ ds (freshDir nb true (k * 4 + 3)%nat) Hk S0
    ltac:(by rewrite !fresh_head) eq_refl) as St. unfold depth in St.
  assert (forall j, (0 < j < 4)%nat -> setPrev (freshDir nb false (k * 4 + j)) (Z.of_nat (freshPrev (k * 4 + j)))
    = freshDir nb true (k * 4 + j)) as Hset by done.
  pose proof (Hset 1%nat ltac:(lia)) as E1. pose proof (Hset 2%nat ltac:(lia)) as E2. pose proof (Hset 3%nat ltac:(lia)) as E3.
  rewrite Hfp in E1, E2, E3 by lia. rewrite E2, E3.
  rewrite (list_insert_insert_ne ds _ (k * 4 + 1)%nat) in St by lia.
  rewrite (list_insert_insert_ne _ (k * 4 + 3)%nat (k * 4 + 1)%nat) in St by lia.
  rewrite (list_insert_insert_ne _ (k * 4 + 3)%nat (k * 4 + 2)%nat) in St by lia.
  destruct (decide (k = 0)%nat) as [E|E].
  - eexists; split; [done|].
    match type of St with split_at _ _ _ _ (<[?j := ?d]> ?l) => replace l with (<[j := d]> l) at 1; [exact St|] end.
    apply list_insert_id. rewrite !list_lookup_insert_ne by lia. rewrite He by lia. by rewrite <- E1.
  - rewrite (upd_lookup _ _ _ (freshDir nb false (k * 4 + 1))).
    2: { rewrite !list_lookup_insert_ne by lia. apply He. lia. }
    eexists; split; [done|]. rewrite E1. exact St.
Qed.

Lemma lookup_repeat {A} (x y : A) n i : repeat x n !! i = Some y <-> y = x /\ (i < n)%nat.
Proof.
  assert (repeat x n = replicate n x) as -> by (induction n; cbn; congruence). apply lookup_replicate.
Qed.

Lemma foldl_seq {A} (step : A -> nat -> option A) (P : nat -> A -> Prop) nb a :
  (forall k a, (k < nb)%nat -> P k a -> exists a', step a k = Some a' /\ P (S k) a') -> P 0%nat a ->
  exists a', foldl (fun acc b => a ← acc; step a b) (Some a) (seq 0 nb) = Some a' /\ P nb a'.
Proof.
  intros Hs H0. cut (forall k, (k <= nb)%nat ->
    exists a', foldl (fun acc b => a ← acc; step a b) (Some a) (seq 0 k) = Some a' /\ P k a').
  { intros H. by apply H. }
  induction k as [|k IH]; intros Hk; [by exists a|]. destruct IH as (a' & E & HP); [lia|].
  rewrite seq_S, foldl_app, E. cbn. by apply Hs.
Qed.

Lemma linkEmptyDirs_spec nb :
  Z.of_nat (nb * depth) <= 65536 ->
  exists ds, linkEmptyDirs (repeat emptyDir (nb * depth)) = Some (Ok ds) /\ length ds = (nb * depth)%nat /\
    forall i, (i < nb * depth)%nat -> ds !! i = Some (freshDir nb true i).
Proof.
  intros Hb. unfold linkEmptyDirs. rewrite repeat_length. rewrite decide_True by apply Nat.Div0.mod_mul.
  rewrite Nat.div_mul by done. cbn zeta.
  destruct (foldl_seq (linkEmptyNext nb) (fun k => split_at nb k (freshDir nb false) (fun _ => emptyDir)) nb
    (repeat emptyDir (nb * depth))) as (ds1 & -> & [L1 H1]).
  { intros k ds Hk. by apply linkEmptyNext_step. }
  { split; [apply repeat_length|]. intros i Hi. rewrite decide_False by lia. by apply lookup_repeat. }
  cbn [mbind option_bind].
  destruct (foldl_seq linkEmptyPrev (fun k => split_at nb k (freshDir nb true) (freshDir nb false)) nb ds1)
    as (ds2 & -> & [L2 H2]).
  { intros k ds Hk. by apply linkEmptyPrev_step. }
  { split; [done|]. intros i Hi. rewrite H1, decide_True by done. by rewrite decide_False by lia. }
  cbn [mbind option_bind]. exists ds2. split_and!; [done..|]. intros i Hi. by rewrite H2, decide_True by done.
Qed.

Lemma fresh_fseg nb ds k :
  (forall i, (i < nb * depth)%nat -> ds !! i = Some (freshDir nb true i)) -> (k <= nb)%nat ->
  fseg ds 0 (slots k) (if decide (k = nb) then 0%nat else (k * depth + 1)%nat) /\
  default 0%nat (last (slots k)) = (if decide (k = 0)%nat then 0 else k * depth - 1)%nat.
Proof.
  intros H. induction k as [|k IH]; intros Hk; [done|]. destruct IH as [IH IHl]; [lia|].
  rewrite decide_False in IH by lia. rewrite slots_S. split.
  - apply fseg_app. cbn [hd]. split; [done|]. rewrite IHl.
    assert (forall j, (0 < j < 4)%nat -> ds !! (k * depth + j)%nat = Some (freshDir nb true (k * depth + j))) as He.
    { intros j Hj. apply H. unfold depth. lia. }
    cbn [fseg hd]. split_and!; [eexists; split_and!; [apply He; lia|done| |]..|done]; cbn [freshDir prev next raw2 raw3];
      rewrite ?freshPrev_slot, ?freshNext_slot by lia.
    + unfold depth. destruct (decide (k = 0)%nat); lia.
    + f_equal. lia.
    + f_equal. lia.
    + f_equal. lia.
    + f_equal. lia.
    + unfold depth. destruct (decide (k = nb - 1)%nat), (decide (S k = nb)); lia.
  - rewrite last_app. cbn. rewrite decide_False by done. unfold depth. lia.
Qed.

Definition freshViews (nb : nat) : list (list Entry) := repeat [] nb.

Lemma initSegment_spec nb :
  (0 < nb)%nat -> Z.of_nat (nb * depth) <= 65536 ->
  exists s, initSegment (nb * depth) = Some s /\ seg_abs s (freshViews nb) /\ freeStart s = 1 /\
    length (dirs s) = (nb * depth)%nat.
Proof.
  intros Hnb Hb. destruct (linkEmptyDirs_spec nb Hb) as (ds & E & L & H).
  unfold initSegment. rewrite E. cbn [mbind option_bind]. eexists; split; [done|]. split; [|done].
  assert (forall i d, ds !! i = Some d -> offset d = 0) as Hfree.
  { intros i d Hd. pose proof (lookup_lt_Some _ _ _ Hd) as Hlt. rewrite H in Hd by lia. by injection Hd as <-. }
  destruct (fresh_fseg nb ds nb H ltac:(done)) as [Hs _]. rewrite decide_True in Hs by done.
  exists (repeat [] nb), (slots nb). split.
  - unfold seg_wf; cbn. split_and!.
    + by rewrite repeat_length.
    + apply Forall_lookup. intros i d Hd. pose proof (lookup_lt_Some _ _ _ Hd) as Hlt. rewrite L in Hlt.
      rewrite H in Hd by done. injection Hd as <-.
      assert (freshPrev i <= i /\ freshNext nb i < nb * depth)%nat as [Hp Hn].
      { destruct (slot_cases i) as (b & j & -> & Hj). rewrite freshPrev_slot, freshNext_slot by done.
        unfold depth in *. destruct j as [|[|[|[|j]]]]; repeat case_decide; lia. }
      unfold dir_ok, fits; cbn. lia.
    + split.
      * rewrite L, repeat_length. apply Nat.mul_comm.
      * by rewrite L.
      * intros b c Hc. apply lookup_repeat in Hc as [-> Hb']. split; [|done]. exists emptyDir.
        rewrite H by (unfold depth; lia). by rewrite fresh_head.
      * assert (concat (repeat (A := list nat) [] nb) = []) as -> by (clear; induction nb; auto). constructor.
      * intros i d _ Hd Ho. by apply Hfree in Hd.
    + split.
      * done.
      * apply Forall_forall. intros i Hi. by apply elem_of_slots in Hi as [? _].
      * destruct nb; [lia|]. done.
      * intros i d Hi Hd _. apply elem_of_slots. split; [done|]. apply lookup_lt_Some in Hd. unfold depth in *. lia.
  - unfold views, freshViews. generalize (mkSegment ds 1 (repeat noIdentity (nb * depth))). clear. intros s.
    induction nb as [|n IH]; [done|]. cbn. f_equal. exact IH.
Qed.
