(* ===== verification/DirValidate.v ===== *)
(** * Directory image validation

    [validateDirectory] of [cache/dir_manager.go] accepts a decoded segment
    exactly when it satisfies the chain invariant, so a restored directory is
    as good as one built by the operations. *)

From S2P Require Import Prelude Hash Dir Doc DirTrie DirManager DirChain DirOps.

(** [marks seen l seen']: [seen'] additionally marks the slots [l], which
    were not marked before. *)
Definition marks (seen : list bool) (l : list nat) (seen' : list bool) : Prop :=
  length seen' = length seen /\ NoDup l /\ (forall j, j ∈ l -> seen !! j = Some false) /\
  forall j, seen' !! j = if decide (j ∈ l) then Some true else seen !! j.

Lemma marks_nil seen : marks seen [] seen.
Proof. split_and!; [done|constructor|set_solver|]. intros j. by rewrite decide_False by set_solver. Qed.

Lemma marks_nil_inv seen seen' : marks seen [] seen' -> seen' = seen.
Proof.
  intros (_ & _ & _ & Hm). apply list_eq. intros j. rewrite Hm. by rewrite decide_False by set_solver.
Qed.

Lemma marks_cons seen i l seen' :
  seen !! i = Some false -> marks (<[i := true]> seen) l seen' -> marks seen (i :: l) seen'.
Proof.
  intros Hi (L & N & Hf & Hm). rewrite length_insert in L.
  assert (i < length seen)%nat as Hlt by (by eapply lookup_lt_Some).
  assert (i ∉ l) as Hil.
  { intros Hx. apply Hf in Hx. by rewrite list_lookup_insert_eq in Hx. }
  split_and!; [done|by apply NoDup_cons| |].
  - intros j Hj. apply elem_of_cons in Hj as [->|Hj]; [done|]. specialize (Hf j Hj).
    rewrite list_lookup_insert_ne in Hf by (intros ->; done). done.
  - intros j. rewrite Hm. destruct (decide (j ∈ l)); [by rewrite decide_True by set_solver|].
    rewrite lookup_insert_cases by done. destruct (decide (i = j)) as [->|].
    + by rewrite decide_True by set_solver.
    + by rewrite decide_False by set_solver.
Qed.

Lemma marks_cons_inv seen i l seen' :
  marks seen (i :: l) seen' -> seen !! i = Some false /\ marks (<[i := true]> seen) l seen'.
Proof.
  intros (L & N & Hf & Hm). apply NoDup_cons in N as [Hi N].
  assert (seen !! i = Some false) as Hs by (apply Hf; set_solver).
  assert (i < length seen)%nat as Hlt by (by eapply lookup_lt_Some).
  split; [done|]. split_and!; [by rewrite length_insert|done| |].
  - intros j Hj. rewrite list_lookup_insert_ne by (intros ->; done). apply Hf. set_solver.
  - intros j. rewrite Hm. rewrite lookup_insert_cases by done. destruct (decide (i = j)) as [->|].
    + rewrite decide_True by set_solver. by rewrite decide_False.
    + destruct (decide (j ∈ l)); [by rewrite decide_True by set_solver|by rewrite decide_False by set_solver].
Qed.

Lemma marks_app seen l1 seen1 l2 seen2 :
  marks seen l1 seen1 -> marks seen1 l2 seen2 -> marks seen (l1 ++ l2) seen2.
Proof.
  revert seen. induction l1 as [|i l1 IH]; intros seen H1 H2.
  - by rewrite <- (marks_nil_inv _ _ H1).
  - apply marks_cons_inv in H1 as [Hi H1]. cbn. apply marks_cons; [done|]. by eapply IH.
Qed.

(** Marking is total on slots that are in range and unmarked. *)
Lemma marks_exists seen l :
  NoDup l -> (forall j, j ∈ l -> seen !! j = Some false) -> exists seen', marks seen l seen'.
Proof.
  revert seen. induction l as [|i l IH]; intros seen N H; [exists seen; apply marks_nil|].
  apply NoDup_cons in N as [Hi N]. destruct (IH (<[i := true]> seen)) as [seen' M]; [done| |].
  - intros j Hj. rewrite list_lookup_insert_ne by (intros ->; done). apply H. set_solver.
  - exists seen'. apply marks_cons; [apply H; set_solver|done].
Qed.

Lemma mod_nonhead i : Nat.eqb (i mod depth) 0 = false <-> nonhead i.
Proof. unfold nonhead. apply Nat.eqb_neq. Qed.

(** ** Bucket chains *)

Lemma validateChain_sound fuel ds bucket i seen seen' :
  length seen = length ds -> Forall dir_ok ds -> (i = bucket \/ seen !! bucket = Some true) ->
  validateChain fuel ds bucket i seen = Ok seen' ->
  exists l, useg ds (i :: l) 0 /\ Forall nonhead l /\ (i = bucket \/ nonhead i) /\ marks seen (i :: l) seen'.
Proof.
  revert i seen. induction fuel as [|fuel IH]; intros i seen L Hok Hb; cbn [validateChain]; [done|].
  destruct (ds !! i) as [d|] eqn:Hd; [|done]. destruct (seen !! i) as [[]|] eqn:Hs; [done| |done].
  destruct (negb (i =? bucket)%nat && (i mod depth =? 0)%nat) eqn:E1; [done|].
  destruct (offset d =? 0) eqn:Eo; [done|]. b2p.
  assert (i = bucket \/ nonhead i) as Hi.
  { apply andb_false_iff in E1 as [E1|E1]; [left|right; by apply mod_nonhead].
    apply negb_false_iff, Nat.eqb_eq in E1. done. }
  assert (<[i := true]> seen !! bucket = Some true) as Hb'.
  { destruct (decide (i = bucket)) as [->|]; [apply list_lookup_insert_eq; by eapply lookup_lt_Some|].
    rewrite list_lookup_insert_ne by done. naive_solver. }
  destruct (next d =? 0) eqn:En; b2p.
  - intros [= <-]. exists []. cbn. split_and!; [exists d; by split_and!|done|constructor|done|].
    apply marks_cons; [done|apply marks_nil].
  - intros Hv. destruct (IH (ix (next d)) (<[i := true]> seen)) as (l & Hu & Fl & Hn & M);
      [by rewrite length_insert|done|auto|done|].
    destruct (marks_cons_inv _ _ _ _ M) as [Hnew _].
    assert (nonhead (ix (next d))) as Hnh by (destruct Hn as [Hn|]; [rewrite Hn in Hnew; congruence|done]).
    exists (ix (next d) :: l). split_and!; [|by constructor|done|by apply marks_cons].
    split; [|done]. exists d. split_and!; [done|done|]. cbn. unfold ix.
    pose proof (dir_ok_next d (dir_ok_lookup _ _ _ Hok Hd)) as Hf. unfold fits in Hf. lia.
Qed.

Lemma validateChain_complete fuel ds bucket i l seen seen' :
  useg ds (i :: l) 0 -> Forall nonhead l -> (i = bucket \/ nonhead i) -> marks seen (i :: l) seen' ->
  length seen = length ds -> (length l < fuel)%nat -> validateChain fuel ds bucket i seen = Ok seen'.
Proof.
  revert i l seen. induction fuel as [|fuel IH]; intros i l seen Hu Fl Hi M L Hf; [lia|].
  destruct Hu as [(d & Hd & Ho & Hn) Hu]. apply marks_cons_inv in M as [Hs M]. cbn [validateChain].
  rewrite Hd, Hs.
  assert (negb (i =? bucket)%nat && (i mod depth =? 0)%nat = false) as ->.
  { destruct Hi as [->|Hi]; [by rewrite Nat.eqb_refl|]. apply mod_nonhead in Hi. rewrite Hi. apply andb_false_r. }
  apply Z.eqb_neq in Ho. rewrite Ho. destruct l as [|j l]; cbn [hd] in Hn.
  - rewrite Hn. cbn. by rewrite (marks_nil_inv _ _ M).
  - apply Forall_cons in Fl as [Hj Fl]. pose proof (nonhead_nonzero j Hj).
    assert ((next d =? 0) = false) as -> by (apply Z.eqb_neq; lia). rewrite Hn, ix_nat.
    apply (IH j l); [done|done|by right|done|by rewrite length_insert|cbn in Hf; lia].
Qed.

(** The state after the first [k] buckets. *)
Definition validating (ds : list Dir) (k : nat) (chs : list (list nat)) (seen : list bool) : Prop :=
  length chs = k /\ (forall b c, chs !! b = Some c -> bucket_wf ds b c) /\
  marks (repeat false (length ds)) (concat chs) seen.

Lemma validateBucket_sound ds k chs seen seen' :
  Forall dir_ok ds -> (k * depth < length ds)%nat -> validating ds k chs seen ->
  validateBucket ds (Ok seen) k = Ok seen' -> exists c, validating ds (S k) (chs ++ [c]) seen'.
Proof.
  intros Hok Hk (L & Hb & M) Hv.
  assert (length seen = length ds) as Ls by (destruct M as [-> _]; apply repeat_length).
  cut (exists c, bucket_wf ds k c /\ marks seen c seen').
  { intros (c & Hc & Mc). exists c. split_and!; [rewrite length_app; cbn; lia| |].
    - intros b c' Hl. apply lookup_app_Some in Hl as [Hl|[Hge Hl]]; [auto|].
      apply list_lookup_singleton_Some in Hl as [Hl <-]. assert (b = k) as -> by lia. done.
    - rewrite concat_app. cbn. rewrite app_nil_r. by eapply marks_app. }
  unfold validateBucket in Hv. cbn [mbind result_bind] in Hv.
  destruct (ds !! (k * depth)%nat) as [d|] eqn:Hd; [|apply lookup_ge_None in Hd; lia].
  destruct (offset d =? 0) eqn:Eo; b2p.
  - destruct (next d =? 0) eqn:En; b2p; [|done]. injection Hv as <-. exists []. split; [|apply marks_nil].
    split; [|done]. exists d. done.
  - apply validateChain_sound in Hv as (l & Hu & Fl & _ & Mc); [|done|done|by left].
    exists (k * depth :: l)%nat. split; [|done]. split; done.
Qed.

Lemma validateBucket_complete ds b c seen seen' :
  bucket_wf ds b c -> NoDup c -> marks seen c seen' -> length seen = length ds ->
  validateBucket ds (Ok seen) b = Ok seen'.
Proof.
  intros [Hh Hu] N M L. unfold validateBucket. cbn [mbind result_bind]. destruct c as [|i l].
  - destruct Hh as (d & Hd & Ho & Hn). rewrite Hd, Ho, Hn. cbn. by rewrite (marks_nil_inv _ _ M).
  - destruct Hh as [-> Fl]. pose proof (chain_length _ _ _ Hu N) as Hl. cbn in Hl.
    destruct (Hu) as [(d & Hd & Ho & _) _]. rewrite Hd. apply Z.eqb_neq in Ho. rewrite Ho.
    apply (validateChain_complete _ _ _ _ l); [done|done|by left|done|done|lia].
Qed.

(** ** The free chain *)

Lemma validateFree_sound fuel ds free prv seen seen' :
  length seen = length ds -> Forall dir_ok ds -> fits 16 free ->
  validateFree fuel ds free (Z.of_nat prv) seen = Ok seen' ->
  exists fl, fseg ds prv fl 0 /\ Forall nonhead fl /\ free = Z.of_nat (hd 0%nat fl) /\ marks seen fl seen'.
Proof.
  revert free prv seen. induction fuel as [|fuel IH]; intros free prv seen L Hok Hf; cbn [validateFree].
  { destruct (free =? 0) eqn:E; b2p; [|done]. intros [= <-]. exists []. split_and!; [done|constructor|done|apply marks_nil]. }
  destruct (free =? 0) eqn:E; b2p.
  { intros [= <-]. exists []. split_and!; [done|constructor|done|apply marks_nil]. }
  destruct (ds !! ix free) as [d|] eqn:Hd; [|done]. destruct (seen !! ix free) as [[]|] eqn:Hs; [done| |done].
  destruct (_ || _) eqn:Ec; [done|]. b2p. intros Hv.
  assert (free = Z.of_nat (ix free)) as Hfx by (unfold ix, fits in *; lia).
  rewrite Hfx in Hv at 1.
  apply IH in Hv as (fl & Hs' & Fl & Hn & M); [|by rewrite length_insert|done|by eauto with dirs].
  exists (ix free :: fl). split_and!; [|constructor; [by apply mod_nonhead|done]|done|by apply marks_cons].
  split; [|done]. exists d. done.
Qed.

Lemma validateFree_complete fuel ds prv fl seen seen' :
  fseg ds prv fl 0 -> Forall nonhead fl -> marks seen fl seen' -> (length fl <= fuel)%nat ->
  validateFree fuel ds (Z.of_nat (hd 0%nat fl)) (Z.of_nat prv) seen = Ok seen'.
Proof.
  revert prv fl seen. induction fuel as [|fuel IH]; intros prv fl seen Hs Fl M Hf.
  - destruct fl; [|cbn in Hf; lia]. cbn. by rewrite (marks_nil_inv _ _ M).
  - destruct fl as [|i fl].
    { cbn. by rewrite (marks_nil_inv _ _ M). }
    apply Forall_cons in Fl as [Hi Fl]. pose proof (nonhead_nonzero i Hi). apply marks_cons_inv in M as [Hsi M].
    destruct Hs as [(d & Hd & Ho & Hp & Hn) Hs]. cbn [validateFree hd].
    assert ((Z.of_nat i =? 0) = false) as -> by (apply Z.eqb_neq; lia).
    rewrite ix_nat, Hd, Hsi, Ho, Hp, !Z.eqb_refl. apply mod_nonhead in Hi. rewrite Hi. cbn [orb negb Z.eqb].
    rewrite Hn. apply IH; [done|done|done|cbn in Hf; lia].
Qed.

(** ** Acceptance is the invariant *)

Lemma validateBuckets_sound ds k seen :
  Forall dir_ok ds -> (k * depth <= length ds)%nat ->
  foldl (validateBucket ds) (Ok (repeat false (length ds))) (seq 0 k) = Ok seen ->
  exists chs, validating ds k chs seen.
Proof.
  intros Hok. revert seen. induction k as [|k IH]; intros seen Hk.
  - intros [= <-]. exists []. split_and!; [done|done|apply marks_nil].
  - rewrite seq_S, foldl_app. cbn [foldl plus]. intros H.
    destruct (foldl _ _ (seq 0 k)) as [seen1|e] eqn:E; [|done].
    destruct (IH seen1) as (chs & V); [unfold depth in *; lia|done|].
    destruct (validateBucket_sound ds k chs seen1 seen) as (c & V'); [done|unfold depth in *; lia|done|done|eauto].
Qed.

Lemma validateBuckets_complete ds chs k seen :
  used_wf ds chs -> (k <= length chs)%nat -> marks (repeat false (length ds)) (concat (take k chs)) seen ->
  foldl (validateBucket ds) (Ok (repeat false (length ds))) (seq 0 k) = Ok seen.
Proof.
  intros U. revert seen. induction k as [|k IH]; intros seen Hk M.
  - cbn in *. by rewrite (marks_nil_inv _ _ M).
  - destruct (lookup_lt_is_Some_2 chs k) as [c Hc]; [lia|].
    rewrite (take_S_r _ _ _ Hc), concat_app in M. cbn in M. rewrite app_nil_r in M.
    destruct (M) as (LM & N & Hf & Hm). apply NoDup_app in N as (N1 & Hdis & N2).
    destruct (marks_exists (repeat false (length ds)) (concat (take k chs))) as [seen1 M1];
      [done|intros j Hj; apply Hf; set_solver|].
    rewrite seq_S, foldl_app, (IH seen1) by (done || lia). cbn [foldl plus].
    destruct (M1) as (L1 & _ & _ & Hm1). apply (validateBucket_complete _ _ c); [by apply (uw_bucket _ _ U)|done| |].
    + split_and!; [congruence|done| |].
      * intros j Hj. rewrite Hm1. rewrite decide_False by (intros Hx; by apply (Hdis j)). apply Hf. set_solver.
      * intros j. rewrite Hm, Hm1. repeat case_decide; set_solver.
    + by rewrite L1, repeat_length.
Qed.

Lemma validateDirectory_sound ds nb free :
  length ds = (depth * nb)%nat -> Z.of_nat (length ds) <= 65536 -> Forall dir_ok ds -> fits 16 free ->
  validateDirectory ds free = Ok tt ->
  exists chs fl, used_wf ds chs /\ free_wf ds free fl.
Proof.
  intros Hl Hb Hok Hf. unfold validateDirectory.
  assert ((length ds + 3) / depth = nb)%nat as ->.
  { rewrite Hl. unfold depth. rewrite Nat.mul_comm, Nat.add_comm, Nat.div_add by lia. cbn. lia. }
  intros H. go_ok H.
  destruct (validateBuckets_sound ds nb x Hok) as (chs & Lc & Hbk & M); [unfold depth in *; lia|done|].
  assert (length x = length ds) as Lx by (destruct M as [-> _]; apply repeat_length).
  destruct (validateFree_sound _ _ _ 0 _ _ Lx Hok Hf H1) as (fl & Hs & Fn & Hst & M').
  destruct (existsb _ _) eqn:Eu; [done|]. exists chs, fl.
  assert (forall i d, nonhead i -> ds !! i = Some d -> i ∈ concat chs \/ i ∈ fl) as Hcov.
  { intros i d Hi Hd. assert (unreachable ds x0 i = false) as Hu.
    { apply not_true_is_false. intros Hu. apply not_true_iff_false in Eu. apply Eu, existsb_exists.
      exists i. split; [|done]. apply in_seq. apply lookup_lt_Some in Hd. lia. }
    unfold unreachable in Hu. rewrite Hd in Hu. destruct M as (_ & _ & _ & Hm), M' as (_ & _ & _ & Hm').
    rewrite Hm', Hm in Hu. destruct (decide (i ∈ fl)); [by right|]. destruct (decide (i ∈ concat chs)); [by left|].
    apply lookup_lt_Some in Hd. destruct (repeat false (length ds) !! i) as [y|] eqn:Ey.
    - assert (repeat false (length ds) = replicate (length ds) false) as Er by (clear; induction (length ds); cbn; congruence).
      rewrite Er in Ey. apply lookup_replicate in Ey as [-> _]. apply mod_nonhead in Hi. by rewrite Hi in Hu.
    - apply lookup_ge_None in Ey. rewrite repeat_length in Ey. lia. }
  split; split.
  - congruence.
  - done.
  - done.
  - apply M.
  - intros i d Hi Hd Ho. destruct (Hcov i d Hi Hd) as [|Hx]; [done|].
    destruct (fseg_elem _ _ _ _ _ Hs Hx) as (? & ? & ?). congruence.
  - done.
  - done.
  - done.
  - intros i d Hi Hd Ho. destruct (Hcov i d Hi Hd) as [Hx|]; [|done].
    apply elem_of_concat_inv in Hx as (b & c & Hc & Hx).
    destruct (useg_elem _ _ _ _ (proj2 (Hbk _ _ Hc)) Hx) as (? & ? & ?). congruence.
Qed.

Lemma validateDirectory_complete ds chs free fl :
  used_wf ds chs -> free_wf ds free fl -> validateDirectory ds free = Ok tt.
Proof.
  intros U [Hs Fn -> Hcov]. unfold validateDirectory. pose proof (uw_len _ _ U) as Hl.
  assert ((length ds + 3) / depth = length chs)%nat as ->.
  { rewrite Hl. unfold depth. rewrite Nat.mul_comm, Nat.add_comm, Nat.div_add by lia. cbn. lia. }
  assert (forall j, (j < length ds)%nat -> repeat false (length ds) !! j = Some false) as Hrep.
  { intros j Hj. assert (repeat false (length ds) = replicate (length ds) false) as ->
      by (clear; induction (length ds); cbn; congruence). by apply lookup_replicate. }
  destruct (marks_exists (repeat false (length ds)) (concat chs)) as [seen M]; [by apply uw_nodup in U| |].
  { intros j Hj. apply Hrep. destruct (used_elem _ _ _ U Hj) as (? & Hd & _). by eapply lookup_lt_Some. }
  rewrite (validateBuckets_complete ds chs (length chs) seen) by (done || by rewrite firstn_all).
  cbn [mbind result_bind]. pose proof (fseg_NoDup _ _ _ Hs Fn) as N.
  destruct (M) as (L & _ & _ & Hm). destruct (marks_exists seen fl) as [seen' M']; [done| |].
  { intros j Hj. destruct (fseg_elem _ _ _ _ _ Hs Hj) as (d & Hd & Ho). rewrite Hm, decide_False, Hrep.
    - done.
    - by eapply lookup_lt_Some.
    - intros Hx. destruct (used_elem _ _ _ U Hx) as (? & ? & ?). congruence. }
  assert (length fl <= S (length ds))%nat as Hlen.
  { assert (length fl <= length (seq 0 (length ds)))%nat as Hx; [|rewrite length_seq in Hx; lia].
    apply submseteq_length, NoDup_submseteq; [done|]. intros i Hi. apply elem_of_seq.
    destruct (fseg_elem _ _ _ _ _ Hs Hi) as (d & Hd & _). apply lookup_lt_Some in Hd. lia. }
  change 0 with (Z.of_nat 0). rewrite (validateFree_complete _ _ _ _ _ _ Hs Fn M' Hlen). cbn [mbind result_bind].
  destruct (existsb _ _) eqn:E; [|done]. apply existsb_exists in E as (i & _ & Hu).
  unfold unreachable in Hu. destruct (ds !! i) as [d|] eqn:Hd; [|done].
  destruct M' as (_ & _ & _ & Hm'). rewrite Hm', Hm in Hu.
  destruct (decide (i ∈ fl)) as [|Hif]; [done|]. destruct (decide (i ∈ concat chs)) as [|Hic]; [done|].
  destruct (repeat false (length ds) !! i) as [[]|]; [done| |done].
  exfalso. destruct (decide (nonhead i)) as [Hn|Hn].
  - destruct (decide (offset d = 0)); [by apply Hif, (Hcov i d)|by apply Hic, (uw_cover _ _ U i d)].
  - destruct (decide (offset d = 0)) as [Ho|Ho].
    + rewrite Ho in Hu. destruct (Nat.eqb (i mod depth) 0) eqn:Ei; [done|]. by apply mod_nonhead in Ei.
    + assert (i = (i / depth) * depth)%nat as Ei.
      { unfold nonhead in Hn. rewrite Nat.mul_comm. assert (i mod depth = 0)%nat by lia.
        rewrite (Nat.div_mod_eq i depth) at 1. lia. }
      pose proof (lookup_lt_Some _ _ _ Hd) as Hlt.
      destruct (lookup_lt_is_Some_2 chs (i / depth)) as [c Hc].
      { apply Nat.Div0.div_lt_upper_bound. lia. }
      destruct (uw_bucket _ _ U _ _ Hc) as [Hh _]. rewrite <- Ei in Hh. destruct c as [|h l].
      * destruct Hh as (? & ? & ? & _). congruence.
      * destruct Hh as [-> _]. apply Hic. eapply elem_of_concat; [exact Hc|set_solver].
Qed.
