(* ===== verification/Directory.v ===== *)
(** * The directory as a whole

    Theorems about [DirManager] of [cache/dir_manager.go]: what [Get] returns
    after [Set], [Delete] and [removePhase], the invariant of every reachable
    directory, the exact condition under which [Set] panics, and the round
    trip of the on-disk image. *)

From S2P Require Import Prelude Hash Dir Doc DirTrie DirManager DirChain DirOps DirRemove DirSpec DirInit DirValidate.

(** [dm_abs dm A]: the directory holds, per segment and bucket, the entries
    [A]; every segment satisfies the chain invariant. *)
Definition dm_abs (dm : DirManager) (A : list (list (list Entry))) : Prop :=
  exists nb, (0 < nb)%nat /\ BucketsNumPerSegment dm = Z.of_nat nb /\ Segs dm <> [] /\
    SegmentsNum dm = Z.of_nat (length (Segs dm)) /\
    Forall2 (fun s a => seg_abs s a /\ length a = nb) (Segs dm) A.

Definition dm_wf (dm : DirManager) : Prop := exists A, dm_abs dm A.

(** What a lookup of [key] at a hash position finds. *)
Definition alookup (A : list (list (list Entry))) (pos : Z * nat * nat) (key : bytes)
    : option (Z * Z * Z * Z) :=
  a ← A !! pos.1.2;
  l ← a !! pos.2;
  e ← findTag pos.1.1 l;
  if bool_decide (e.2 = noIdentity) || bool_decide (e.2 = docKey key) then Some e.1 else None.

Definition bucketOf (A : list (list (list Entry))) (pos : Z * nat * nat) : list Entry :=
  default [] (a ← A !! pos.1.2; a !! pos.2).

(** Tags are unique within a bucket. *)
Definition unique_tags (A : list (list (list Entry))) : Prop :=
  Forall (Forall (fun l => NoDup (tags l))) A.

Lemma md5_take8 key : length (take 8 (md5 key)) = 8%nat.
Proof. by rewrite length_take, length_md5. Qed.

Lemma hashPosition_bound dm A key t seg b :
  dm_abs dm A -> hashPosition dm key = (t, seg, b) ->
  0 <= t < 4096 /\ exists s a l, Segs dm !! seg = Some s /\ A !! seg = Some a /\ seg_abs s a /\ a !! b = Some l /\
    length a = Z.to_nat (BucketsNumPerSegment dm).
Proof.
  intros (nb & Hnb & Eb & Hne & Es & F) H. unfold hashPosition, calcDirHashPosition in H.
  set (k := get_be (take 8 (md5 key))) in H. injection H as <- <- <-.
  assert (0 <= k < 2 ^ 64) as Hk.
  { unfold k. pose proof (get_be_bound (take 8 (md5 key)) ltac:(apply Forall_take, md5_ok)) as Hb.
    unfold blen in Hb. rewrite md5_take8 in Hb. done. }
  assert (0 < SegmentsNum dm) as Hs by (rewrite Es; destruct (Segs dm); [done|cbn; lia]).
  split.
  - assert (0 <= Z.shiftr k 52 < 4096) as Hsh.
    { rewrite Z.shiftr_div_pow2 by lia. split; [apply Z.div_pos; lia|apply Z.div_lt_upper_bound; lia]. }
    rewrite u16_small by (unfold fits; lia). done.
  - pose proof (Z.mod_pos_bound (Z.shiftr k 32) _ Hs) as H1.
    pose proof (Z.mod_pos_bound (Z.land k 0xffffffff) (BucketsNumPerSegment dm) ltac:(lia)) as H2.
    destruct (lookup_lt_is_Some_2 (Segs dm) (Z.to_nat (Z.shiftr k 32 mod SegmentsNum dm))) as [s Hseg]; [lia|].
    destruct (Forall2_lookup_l _ _ _ _ _ F Hseg) as (a & Ha & Habs & Hlen).
    destruct (lookup_lt_is_Some_2 a (Z.to_nat (Z.land k 0xffffffff mod BucketsNumPerSegment dm))) as [l Hl]; [lia|].
    exists s, a, l. split_and!; try done. lia.
Qed.

(** [Get] is [alookup]. *)
Lemma Get_abs dm A key :
  dm_abs dm A -> exists hit g d, Get dm key = Some (hit, g, d) /\
    alookup A (hashPosition dm key) key = if hit : bool then Some (payload d) else None.
Proof.
  intros HA. unfold Get. destruct (hashPosition dm key) as [[t seg] b] eqn:Hp.
  destruct (hashPosition_bound _ _ _ _ _ _ HA Hp) as (_ & s & a & l & Hs & Ha & Habs & Hl & _).
  unfold alookup; cbn [fst snd]. rewrite Ha. cbn [mbind option_bind]. rewrite Hl. cbn [mbind option_bind].
  rewrite Hs. cbn [mbind option_bind].
  destruct (dirProbe_abs s a b l t Habs Hl) as (hit & i & p & d & -> & Hf).
  destruct (findTag t l) as [e|].
  - destruct Hf as (-> & Hd & Hid & Hpay & _). unfold foreign. rewrite Hid. cbn [mbind option_bind].
    rewrite <- negb_orb. destruct (_ || _) eqn:E; cbn [negb]; eexists _, _, _; (split; [done|]); congruence.
  - destruct Hf as [-> ->]. cbn. eauto.
Qed.

(** ** Insertion *)

Lemma fits_16_lor a b : fits 16 a -> fits 16 b -> fits 16 (Z.lor a b).
Proof.
  intros Ha Hb. assert (0 <= Z.lor a b) as Hn by (unfold fits in *; apply Z.lor_nonneg; lia).
  unfold fits in *. split; [done|].
  destruct (decide (Z.lor a b = 0)) as [->|]; [lia|]. apply Z.log2_lt_cancel. rewrite Z.log2_lor by lia.
  rewrite Z.log2_pow2 by lia.
  assert (forall x, 0 <= x < 2 ^ 16 -> Z.log2 x < 16) as Hlog.
  { intros x Hx. destruct (decide (x = 0)) as [->|]; [cbn; lia|]. apply Z.log2_lt_pow2; lia. }
  pose proof (Hlog a Ha). pose proof (Hlog b Hb). lia.
Qed.

Lemma dir_ok_sized d big size :
  dir_ok d -> dir_ok (setSizeInternal (setBigInternal d big) size).
Proof.
  unfold dir_ok, setSizeInternal, setBigInternal, set_raw1; cbn. intros (? & ? & ? & ? & ?).
  split_and!; try done. apply fits_16_lor; [apply fits_16_land; unfold fits; lia|apply u16_fits].
Qed.

Lemma setApproxSize_ok d size d' : dir_ok d -> setApproxSize d size = Some d' -> dir_ok d'.
Proof.
  unfold setApproxSize. intros Hd H.
  repeat (case_match; [|]); simplify_eq; by apply dir_ok_sized.
Qed.

Lemma dir_ok_set_raw2 d v : dir_ok d -> fits 16 v -> dir_ok (set_raw2 d v).
Proof. unfold dir_ok, set_raw2; cbn. tauto. Qed.

Lemma dir_ok_flags d t ph : dir_ok d -> dir_ok (setPhase (setTag (setHead d true) t) ph).
Proof.
  intros Hd. set (d1 := setTag _ _).
  assert (dir_ok d1) as Hd1.
  { unfold d1, setTag. apply dir_ok_set_raw2.
    - unfold setHead. apply dir_ok_set_raw2; [done|]. apply fits_16_lor; [by destruct Hd as (_ & _ & ? & _)|].
      unfold fits; vm_compute; split; congruence.
    - apply fits_16_lor; apply fits_16_land; unfold fits; lia. }
  unfold setPhase. destruct ph; apply dir_ok_set_raw2; try done.
  - apply fits_16_lor; [by destruct Hd1 as (_ & _ & ? & _)|unfold fits; vm_compute; split; congruence].
  - apply fits_16_land. unfold fits; vm_compute; split; congruence.
Qed.

(** The entry a [Set] publishes describes its record. *)
Lemma newEntry_spec t off size ph :
  0 <= t < 4096 -> 0 < off < 2 ^ 40 -> 0 < size <= DirMaxDataSize ->
  exists d, newEntry t off size ph = Some d /\ dir_ok d /\ offset d = off /\ tag d = t /\ phase d = ph /\
    next d = 0 /\ size <= approxSize d <= Z.max 512 (8 * size).
Proof.
  intros Ht Ho Hs. unfold newEntry.
  rewrite (u64_small size) by (unfold fits, DirMaxDataSize in *; lia).
  destruct (setApproxSize_spec (setOffset emptyDir off) size) as (d & E & Hod & H2 & H3 & Hsz); [|done|].
  { by rewrite testbit15_setOffset. }
  rewrite E. cbn [mbind option_bind]. eexists; split; [done|].
  assert (dir_ok d) as Hok.
  { eapply setApproxSize_ok; [|exact E]. unfold dir_ok, setOffset; cbn.
    pose proof u16_fits. split_and!; auto; unfold fits; lia. }
  assert (approxSize (setPhase (setTag (setHead d true) t) ph) = approxSize d) as Ea by (destruct ph; done).
  split_and!.
  - by apply dir_ok_flags.
  - transitivity (offset d); [destruct ph; done|]. rewrite Hod, offset_setOffset, Z.mod_small by lia. done.
  - rewrite tag_setPhase, tag_setTag. apply Z.mod_small. lia.
  - apply phase_setPhase.
  - transitivity (raw3 d); [destruct ph; done|]. rewrite H3. done.
  - rewrite Ea. tauto.
  - rewrite Ea. tauto.
Qed.

(** The entry [Get] finds for a key, links left out. *)
Definition found (dm : DirManager) (key : bytes) : option (Z * Z * Z * Z) :=
  match Get dm key with
  | Some (true, _, d) => Some (payload d)
  | _ => None
  end.

Lemma found_abs dm A key : dm_abs dm A -> found dm key = alookup A (hashPosition dm key) key.
Proof.
  intros H. destruct (Get_abs dm A key H) as (hit & g & d & E & ->). unfold found. rewrite E. by destruct hit.
Qed.

(** Whether the segment of a key has a free slot. *)
Definition hasFree (dm : DirManager) (key : bytes) : Prop :=
  exists s, Segs dm !! (hashPosition dm key).1.2 = Some s /\ freeStart s <> 0.

(** A new entry for the key fits: its tag is present, or its bucket does not
    own every slot it could use. *)
Definition fitsBucket (dm : DirManager) (A : list (list (list Entry))) (key : bytes) : Prop :=
  let pos := hashPosition dm key in
  findTag pos.1.1 (bucketOf A pos) <> None \/
  Z.of_nat (length (bucketOf A pos)) <= 3 * BucketsNumPerSegment dm.

Lemma bucketOf_eq A t seg b a l : A !! seg = Some a -> a !! b = Some l -> bucketOf A (t, seg, b) = l.
Proof. intros Ha Hl. unfold bucketOf; cbn [fst snd]. rewrite Ha. cbn [mbind option_bind]. by rewrite Hl. Qed.

Lemma dm_abs_insert dm A nb seg s a :
  dm_abs dm A -> (0 < nb)%nat -> BucketsNumPerSegment dm = Z.of_nat nb ->
  seg_abs s a -> length a = nb -> dm_abs (setSegs dm (<[seg := s]> (Segs dm))) (<[seg := a]> A).
Proof.
  intros (nb' & Hnb & Eb & Hne & Es & F) Hn Eb' Hs Hl. exists nb. cbn. split_and!; try done.
  - intros E. apply Hne. apply length_zero_iff_nil. rewrite <- (length_insert (Segs dm) seg s), E. done.
  - by rewrite length_insert.
  - assert (nb' = nb) as -> by lia. by apply Forall2_insert.
Qed.

Lemma hashPosition_setSegs dm l key : hashPosition (setSegs dm l) key = hashPosition dm key.
Proof. done. Qed.

Lemma alookup_insert_ne A seg a pos key :
  pos.1.2 <> seg -> alookup (<[seg := a]> A) pos key = alookup A pos key.
Proof. intros H. unfold alookup. by rewrite list_lookup_insert_ne. Qed.

Lemma alookup_bucket A seg a a' t b key :
  A !! seg = Some a -> a' !! b = a !! b ->
  alookup (<[seg := a']> A) (t, seg, b) key = alookup A (t, seg, b) key.
Proof.
  intros Ha Hb. unfold alookup; cbn [fst snd].
  rewrite list_lookup_insert_eq by (by eapply lookup_lt_Some). rewrite Ha. cbn [mbind option_bind]. by rewrite Hb.
Qed.

Lemma alookup_in A seg a' t b l key :
  (seg < length A)%nat -> a' !! b = Some l ->
  alookup (<[seg := a']> A) (t, seg, b) key =
    (e ← findTag t l; if bool_decide (e.2 = noIdentity) || bool_decide (e.2 = docKey key) then Some e.1 else None).
Proof.
  intros Ha Hb. unfold alookup; cbn [fst snd]. rewrite list_lookup_insert_eq by done.
  cbn [mbind option_bind]. rewrite Hb. done.
Qed.

Lemma Set_abs rnd dm A key off size ph :
  dm_abs dm A -> 0 < off < 2 ^ 40 -> 0 < size <= DirMaxDataSize -> fitsBucket dm A key ->
  exists dm' g A' d, Set_ rnd dm key off size ph = Some (dm', g) /\ dm_abs dm' A' /\
    (forall k, hashPosition dm' k = hashPosition dm k) /\
    newEntry (hashPosition dm key).1.1 off size ph = Some d /\
    found dm' key = Some (payload d) /\
    (forall key', hashPosition dm key' <> hashPosition dm key ->
       found dm' key' = found dm key' \/ found dm' key' = None /\ ~ hasFree dm key) /\
    (forall key', hashPosition dm key' = hashPosition dm key -> docKey key <> noIdentity ->
       docKey key' <> docKey key -> found dm' key' = None) /\
    (unique_tags A -> unique_tags A').
Proof.
  intros HA Ho Hs Hfit. destruct (hashPosition dm key) as [[t seg] b] eqn:Hp.
  destruct (hashPosition_bound _ _ _ _ _ _ HA Hp) as (Ht & s & a & l & Hseg & Ha & Habs & Hl & Hlen).
  destruct (newEntry_spec t off size ph Ht Ho Hs) as (d & Hd & Hok & Hod & Htd & Hph & Hn & _).
  unfold fitsBucket in Hfit. rewrite Hp in Hfit. rewrite (bucketOf_eq A t seg b a l Ha Hl) in Hfit. cbn [fst snd] in Hfit.
  destruct (dirInsert_abs rnd s a b l d (docKey key) Habs Hl Hok) as (s' & i & a' & E & Habs' & Hla' & Hb' & Hoth & Hsame);
    [lia|done|rewrite Htd; destruct Hfit; [by left|right; lia]|].
  rewrite Htd in E. unfold Set_. rewrite Hp. cbn [mbind option_bind]. rewrite Hd. cbn [mbind option_bind].
  rewrite Hseg. cbn [mbind option_bind]. rewrite E. cbn [mbind option_bind].
  set (e := (payload d, docKey key)) in *. assert (etag e = t) as Het by done.
  assert (seg < length A)%nat as Hsl by (by eapply lookup_lt_Some).
  eexists _, _, (<[seg := a']> A), d. split; [done|].
  assert (dm_abs (setSegs dm (<[seg := setId s' i (docKey key)]> (Segs dm))) (<[seg := a']> A)) as HA'.
  { pose proof HA as (nb & Hnb & Eb & _). eapply dm_abs_insert; [done|exact Hnb|done|done|]. rewrite Hla', Hlen, Eb. lia. }
  split_and!; try done.
  - rewrite (found_abs _ _ _ HA'), hashPosition_setSegs, Hp, (alookup_in _ _ _ _ _ _ _ Hsl Hb').
    rewrite <- Het, find_put_same. cbn [mbind option_bind e snd fst].
    rewrite (bool_decide_eq_true_2 (docKey key = docKey key)) by done. by rewrite orb_true_r.
  - intros key' Hne. rewrite (found_abs _ _ _ HA'), (found_abs _ _ _ HA), hashPosition_setSegs.
    destruct (hashPosition dm key') as [[t' seg'] b'].
    destruct (decide (seg' = seg)) as [->|]; [|left; by apply alookup_insert_ne].
    destruct (decide (b' = b)) as [->|Hbb].
    + left. rewrite (alookup_in _ _ _ _ _ _ _ Hsl Hb'). unfold alookup; cbn [fst snd]. rewrite Ha.
      cbn [mbind option_bind]. rewrite Hl. cbn [mbind option_bind]. rewrite find_put_other; [done|].
      rewrite Het. congruence.
    + destruct (Hoth b' Hbb) as [E'|E']; [left; by apply (alookup_bucket _ _ a)|].
      destruct (decide (freeStart s = 0)) as [H0|H0].
      * right. split; [by rewrite (alookup_in _ _ _ _ _ _ _ Hsl E')|].
        intros (s2 & Hs2 & Hf). rewrite Hp in Hs2. cbn in Hs2. congruence.
      * left. apply (alookup_bucket _ _ a); [done|]. rewrite (Hsame (or_introl H0)). by rewrite list_lookup_insert_ne.
  - intros key' Hk Hno Hdk. rewrite (found_abs _ _ _ HA'), hashPosition_setSegs, Hk.
    rewrite (alookup_in _ _ _ _ _ _ _ Hsl Hb'), <- Het, find_put_same. cbn [mbind option_bind e snd fst].
    rewrite !bool_decide_eq_false_2 by congruence. done.
  - intros Hu. unfold unique_tags. apply Forall_insert; [done|]. unfold unique_tags in Hu.
    rewrite Forall_lookup in Hu. specialize (Hu _ _ Ha). rewrite Forall_lookup in Hu |- *. intros b2 l2 Hl2.
    destruct (decide (b2 = b)) as [->|Hbb].
    + rewrite Hb' in Hl2. injection Hl2 as <-. by apply NoDup_tags_putTag, (Hu b).
    + destruct (Hoth b2 Hbb) as [E'|E']; rewrite E' in Hl2; [eauto|]. injection Hl2 as <-. constructor.
Qed.

(** ** Deletion *)

Definition deleted (dm : DirManager) (A : list (list (list Entry))) (key : bytes) (dm' : DirManager) : Prop :=
  exists A', dm_abs dm' A' /\ (forall k, hashPosition dm' k = hashPosition dm k) /\
    (hasFree dm key ->
       (unique_tags A -> found dm' key = None /\ unique_tags A') /\
       (forall key', hashPosition dm key' <> hashPosition dm key -> found dm' key' = found dm key')).

Lemma deleted_same dm A key : dm_abs dm A -> found dm key = None -> deleted dm A key dm.
Proof. intros HA Hf. exists A. split_and!; try done. Qed.

Lemma unique_tags_bucket A seg a b l :
  unique_tags A -> A !! seg = Some a -> a !! b = Some l -> NoDup (tags l).
Proof.
  unfold unique_tags. rewrite Forall_lookup. intros H Ha Hl. specialize (H _ _ Ha).
  rewrite Forall_lookup in H. eauto.
Qed.

Lemma dirDelete_deleted dm A key t seg b s a l :
  dm_abs dm A -> hashPosition dm key = (t, seg, b) -> Segs dm !! seg = Some s -> A !! seg = Some a ->
  seg_abs s a -> a !! b = Some l ->
  exists s' i, dirDelete s t b = Some (s', i) /\
    deleted dm A key (setSegs dm (<[seg := s']> (Segs dm))).
Proof.
  intros HA Hp Hseg Ha Habs Hl.
  destruct (dirDelete_abs s a b l t Habs Hl) as (s' & i & a' & o & E & Habs' & -> & Ho).
  exists s', i. split; [done|]. set (a' := clobber o _) in *. exists (<[seg := a']> A).
  assert (seg < length A)%nat as Hsl by (by eapply lookup_lt_Some).
  assert (dm_abs (setSegs dm (<[seg := s']> (Segs dm))) (<[seg := a']> A)) as HA'.
  { pose proof HA as (nb & Hnb & Eb & _ & _ & F). eapply dm_abs_insert; [done|exact Hnb|done|done|].
    unfold a'. rewrite clobber_length, length_insert.
    destruct (Forall2_lookup_lr _ _ _ _ _ _ F Hseg Ha) as [_ <-]. done. }
  split_and!; [done|done|]. intros (s2 & Hs2 & Hf). rewrite Hp in Hs2. cbn in Hs2.
  assert (s2 = s) as -> by congruence. destruct (Ho Hf) as [-> _]. cbn in a'.
  assert (a' !! b = Some (removeTag t l)) as Hb'.
  { unfold a'. apply list_lookup_insert_eq. by eapply lookup_lt_Some. }
  split.
  - intros Hu. split.
    + rewrite (found_abs _ _ _ HA'), hashPosition_setSegs, Hp, (alookup_in _ _ _ _ _ _ _ Hsl Hb').
      rewrite find_remove_same; [done|]. by eapply unique_tags_bucket.
    + apply Forall_insert; [done|]. apply Forall_insert.
      * unfold unique_tags in Hu. rewrite Forall_lookup in Hu. eauto.
      * apply NoDup_tags_removeTag. by eapply unique_tags_bucket.
  - intros key' Hne. rewrite (found_abs _ _ _ HA'), (found_abs _ _ _ HA), hashPosition_setSegs.
    destruct (hashPosition dm key') as [[t' seg'] b'].
    destruct (decide (seg' = seg)) as [->|]; [|by apply alookup_insert_ne].
    destruct (decide (b' = b)) as [->|Hbb].
    + rewrite (alookup_in _ _ _ _ _ _ _ Hsl Hb'). unfold alookup; cbn [fst snd]. rewrite Ha.
      cbn [mbind option_bind]. rewrite Hl. cbn [mbind option_bind]. rewrite find_remove_other; [done|]. congruence.
    + apply (alookup_bucket _ _ a); [done|]. unfold a'. by rewrite list_lookup_insert_ne.
Qed.

(** The identity check shared by [Get], [Delete] and [deleteAt]. *)
Lemma probe_foreign dm A key t seg b s a l :
  dm_abs dm A -> hashPosition dm key = (t, seg, b) -> Segs dm !! seg = Some s -> A !! seg = Some a ->
  seg_abs s a -> a !! b = Some l ->
  exists hit i p d f, dirProbe t b (dirs s) = (hit, i, p, d) /\
    (if hit : bool then foreign s i key else Some false) = Some f /\
    found dm key = (if hit && negb f then Some (payload d) else None).
Proof.
  intros HA Hp Hseg Ha Habs Hl. rewrite (found_abs _ _ _ HA), Hp. unfold alookup; cbn [fst snd]. rewrite Ha.
  cbn [mbind option_bind]. rewrite Hl. cbn [mbind option_bind].
  destruct (dirProbe_abs s a b l t Habs Hl) as (hit & i & p & d & E & Hf).
  exists hit, i, p, d. rewrite E. destruct (findTag t l) as [e|].
  - destruct Hf as (-> & Hd & Hid & Hpay & _). unfold foreign. rewrite Hid. cbn [mbind option_bind].
    eexists; split_and!; [done|done|]. rewrite <- negb_orb, negb_involutive, Hpay. cbn [andb]. by destruct (_ || _).
  - destruct Hf as [-> ->]. by exists false.
Qed.

Lemma Delete_abs dm A key :
  dm_abs dm A -> exists dm' g, Delete dm key = Some (dm', g) /\ deleted dm A key dm'.
Proof.
  intros HA. unfold Delete. destruct (hashPosition dm key) as [[t seg] b] eqn:Hp.
  destruct (hashPosition_bound _ _ _ _ _ _ HA Hp) as (_ & s & a & l & Hseg & Ha & Habs & Hl & _).
  rewrite Hseg. cbn [mbind option_bind].
  destruct (probe_foreign _ _ _ _ _ _ _ _ _ HA Hp Hseg Ha Habs Hl) as (hit & i & p & d & f & -> & Hfo & Hfound).
  rewrite Hfo. cbn [mbind option_bind]. destruct f.
  - rewrite andb_false_r in Hfound. eexists _, _. split; [done|]. by apply deleted_same.
  - destruct (dirDelete_deleted _ _ _ _ _ _ _ _ _ HA Hp Hseg Ha Habs Hl) as (s' & j & -> & D).
    cbn [mbind option_bind fst snd]. eauto.
Qed.

Lemma deleteAt_abs dm A key expected :
  dm_abs dm A -> exists dm' ok, deleteAt dm key expected = Some (dm', ok) /\
    match found dm key with
    | Some p => if decide (i64 (offset (mkDir p.1.1.1 p.1.1.2 p.1.2 0 p.2)) = expected)
                then ok = true /\ deleted dm A key dm' else ok = false /\ dm' = dm
    | None => dm' = dm
    end.
Proof.
  intros HA. unfold deleteAt. destruct (hashPosition dm key) as [[t seg] b] eqn:Hp.
  destruct (hashPosition_bound _ _ _ _ _ _ HA Hp) as (_ & s & a & l & Hseg & Ha & Habs & Hl & _).
  rewrite Hseg. cbn [mbind option_bind].
  destruct (probe_foreign _ _ _ _ _ _ _ _ _ HA Hp Hseg Ha Habs Hl) as (hit & i & p & d & f & -> & Hfo & ->).
  rewrite Hfo. cbn [mbind option_bind]. destruct f; [rewrite andb_false_r; eauto|].
  destruct hit; cbn [negb andb]; [|eauto]. cbn [payload fst snd].
  change (offset (mkDir (raw0 d) (raw1 d) (raw2 d) 0 (raw4 d))) with (offset d).
  destruct (decide (i64 (offset d) = expected)) as [E|E].
  - rewrite decide_False by (intros C; by apply C).
    destruct (dirDelete_deleted _ _ _ _ _ _ _ _ _ HA Hp Hseg Ha Habs Hl) as (s' & j & -> & D).
    cbn [mbind option_bind fst snd]. eauto.
  - rewrite decide_True by done. eauto.
Qed.

(** ** Phase removal *)

Lemma removePhaseSeg_abs ph s A :
  seg_abs s A -> exists s' A', removePhaseSeg ph s = Some s' /\ seg_abs s' A' /\ length A' = length A /\
    (freeStart s <> 0 -> Forall (fun l => NoDup (tags l)) A -> A' = keepPhase ph <$> A).
Proof.
  intros (chs & fl & W & ->). unfold removePhaseSeg. destruct (W) as (_ & _ & U & _).
  assert (length (dirs s) / depth = length chs)%nat as ->.
  { rewrite (uw_len _ _ U), Nat.mul_comm. apply Nat.div_mul. done. }
  set (P := fun k s' => exists chs' fl', seg_wf s' chs' fl' /\ length chs' = length chs /\
    (freeStart s <> 0 -> freeStart s' <> 0) /\
    (freeStart s <> 0 -> Forall (fun l => NoDup (tags l)) (views s chs) ->
       views s' chs' = imap (fun b l => if decide (b < k)%nat then keepPhase ph l else l) (views s chs))).
  destruct (foldl_seq (fun s b => removeLoop (removeFuel s) s ph b (b * depth)) P (length chs) s)
    as (s' & -> & (chs' & fl' & W' & L' & _ & V')).
  - intros k s1 Hk (chs1 & fl1 & W1 & L1 & St1 & V1). destruct (W1) as (_ & _ & U1 & _).
    destruct (lookup_lt_is_Some_2 chs1 k) as [c Hc]; [lia|].
    pose proof (chain_NoDup _ _ _ _ U1 Hc) as N1. destruct (uw_bucket _ _ U1 _ _ Hc) as [Hh Hu].
    pose proof (chain_length _ _ _ Hu N1) as Hlen.
    destruct (removeLoop_spec (removeFuel s1) ph k s1 chs1 fl1 c [] c W1 Hc) as (s2 & chs2 & c2 & E2 & [(fl2 & W2) _ Len2 _ St2 V2]);
      [done|constructor|done|unfold removeFuel; cbn; nia|].
    exists s2. split.
    { rewrite <- E2. f_equal. destruct c as [|h c]; [done|]. by destruct Hh as [-> _]. }
    exists chs2, fl2. split_and!; [done|congruence|auto|].
    intros Hst Hnd. assert (view s1 c = default [] (views s chs !! k)) as Hv.
    { specialize (V1 Hst Hnd). apply (f_equal (lookup k)) in V1. rewrite views_lookup, Hc, list_lookup_imap in V1. cbn in V1.
      destruct (views s chs !! k) as [l|] eqn:El; [|done]. cbn in V1. rewrite decide_False in V1 by lia. by injection V1. }
    assert (NoDup (tags (view s1 c))) as Nt.
    { rewrite Hv. destruct (views s chs !! k) as [l|] eqn:El; [|constructor]. cbn. rewrite Forall_lookup in Hnd. eauto. }
    rewrite (V2 (St1 Hst) Nt), (V1 Hst Hnd), Hv. apply list_eq. intros b.
    rewrite lookup_insert_cases by (rewrite length_imap; unfold views; rewrite length_fmap; lia).
    rewrite !list_lookup_imap. destruct (decide (k = b)) as [<-|Hkb].
    + destruct (views s chs !! k) as [l|] eqn:El; cbn; [by rewrite decide_True by lia|].
      apply lookup_ge_None in El. unfold views in El. rewrite length_fmap in El. lia.
    + destruct (views s chs !! b) as [l|]; [|done]. cbn. f_equal.
      destruct (decide (b < k)%nat), (decide (b < S k)%nat); lia || done.
  - exists chs, fl. split_and!; try done. intros _ _. apply list_eq. intros b. rewrite list_lookup_imap.
    by destruct (views s chs !! b).
  - exists s', (views s' chs'). split_and!; [done|by exists chs', fl'|unfold views; by rewrite !length_fmap|].
    intros Hst Hnd. rewrite (V' Hst Hnd). apply list_eq. intros b. rewrite list_lookup_imap, list_lookup_fmap.
    destruct (views s chs !! b) as [l|] eqn:El; [|done]. cbn. apply lookup_lt_Some in El.
    unfold views in El. rewrite length_fmap in El. by rewrite decide_True by lia.
Qed.

Lemma removePhase_abs dm A ph :
  dm_abs dm A -> exists dm' A', removePhase dm ph = Some dm' /\ dm_abs dm' A' /\
    (forall k, hashPosition dm' k = hashPosition dm k) /\
    (Forall (fun s => freeStart s <> 0) (Segs dm) -> unique_tags A -> A' = map (map (keepPhase ph)) A).
Proof.
  intros (nb & Hnb & Eb & Hne & Es & F). unfold removePhase.
  assert (exists segs A', mapM (removePhaseSeg ph) (Segs dm) = Some segs /\
    Forall2 (fun s a => seg_abs s a /\ length a = nb) segs A' /\ length segs = length (Segs dm) /\
    (Forall (fun s => freeStart s <> 0) (Segs dm) -> unique_tags A -> A' = map (map (keepPhase ph)) A))
    as (segs & A' & -> & F' & L & Hx).
  { clear Hne Es. generalize dependent (Segs dm). intros l F. induction F as [|s a l A [Hs Hl] F IH].
    - exists [], []. split_and!; auto.
    - destruct IH as (segs & A' & E & F' & L & Hx).
      destruct (removePhaseSeg_abs ph s a Hs) as (s' & a' & E' & Ha' & La & Hx').
      exists (s' :: segs), (a' :: A'). split_and!; [apply mapM_Some; constructor; [done|by apply mapM_Some]|constructor; [split; [done|congruence]|done]|cbn; lia|].
      intros Hst Hu. apply Forall_cons in Hst as [? ?]. apply Forall_cons in Hu as [? ?]. cbn [map]. rewrite (Hx H0 H2), Hx' by done. done. }
  cbn [mbind option_bind]. eexists _, A'. split_and!; [done| |done|done].
  exists nb. cbn. split_and!; try done; [|congruence]. intros ->. by destruct (Segs dm).
Qed.

(** ** Initialisation *)

Lemma Init_abs dirNum :
  4 <= dirNum < 2 ^ 40 -> exists dm, Init dirNum = Some dm /\
    dm_abs dm (repeat (freshViews (Z.to_nat (BucketsNumPerSegment dm))) (length (Segs dm))) /\
    Forall (fun s => freeStart s = 1) (Segs dm) /\
    1 <= BucketsNumPerSegment dm <= MaxBucketsPerSegment /\
    dirNum / DirDepth <= SegmentsNum dm * BucketsNumPerSegment dm /\
    FragmentsNum dm = SegmentsNum dm * BucketsNumPerSegment dm * DirDepth.
Proof.
  intros Hd. unfold Init, DirDepth, MaxBucketsPerSegment. set (q := dirNum / 4).
  assert (1 <= q < 2 ^ 38) as Hq.
  { unfold q. split; [apply Z.div_le_lower_bound; lia|apply Z.div_lt_upper_bound; lia]. }
  rewrite (u64_small (q + 16384 - 1)) by (unfold fits; lia).
  set (n := (q + 16384 - 1) / 16384).
  assert (16384 * n <= q + 16383 < 16384 * n + 16384) as Hn by (unfold n; Z.to_euclidean_division_equations; lia).
  rewrite decide_False by lia. rewrite (u64_small (q + n - 1)) by (unfold fits; lia).
  set (per := (q + n - 1) / n).
  assert (n * per <= q + n - 1 < n * per + n) as Hper by (unfold per; Z.to_euclidean_division_equations; nia).
  assert (1 <= per <= 16384) as Hp by nia.
  rewrite (u64_small (per * 4 * n)) by (unfold fits; nia).
  destruct (initSegment_spec (Z.to_nat per)) as (s & E & Habs & Hst & Hlen); [lia|unfold depth; lia|].
  assert (Z.to_nat (per * 4) = Z.to_nat per * depth)%nat as -> by (unfold depth; lia).
  rewrite E. cbn [mbind option_bind]. eexists; split; [done|]. cbn. rewrite repeat_length.
  split_and!; [|apply Forall_forall; intros x Hx; apply list_elem_of_In, repeat_spec in Hx as ->; done|lia..].
  exists (Z.to_nat per). cbn. rewrite repeat_length. split_and!; [lia|lia| |lia|].
  - destruct (Z.to_nat n) eqn:En; [lia|done].
  - induction (Z.to_nat n) as [|m IH]; cbn; constructor; [|done].
    split; [done|apply repeat_length].
Qed.

Lemma unique_tags_fresh nb n : unique_tags (repeat (freshViews nb) n).
Proof.
  apply Forall_forall. intros a Ha. apply list_elem_of_In, repeat_spec in Ha as ->.
  apply Forall_forall. intros l Hl. apply list_elem_of_In, repeat_spec in Hl as ->. constructor.
Qed.

(** ** The directory image *)

Lemma take_le_put n z l : fits (8 * Z.of_nat n) z -> take_le n (put_le n z ++ l) = (z, l).
Proof.
  intros Hz. unfold take_le. rewrite take_app_length', drop_app_length' by (by rewrite length_put_le).
  by rewrite get_put_le_fits.
Qed.

Lemma decodeDir_encode d l : dir_ok d -> decodeDir (encodeDir d ++ l) = (d, l).
Proof.
  intros (H0 & H1 & H2 & H3 & H4). unfold decodeDir, encodeDir. rewrite <- !app_assoc.
  rewrite !take_le_put by done. by destruct d.
Qed.

Lemma decodeDirs_encode ds l : Forall dir_ok ds -> decodeDirs (length ds) ((ds ≫= encodeDir) ++ l) = (ds, l).
Proof.
  induction 1 as [|d ds Hd _ IH]; [done|]. cbn [length decodeDirs mbind list_bind].
  rewrite <- app_assoc, decodeDir_encode by done. by rewrite IH.
Qed.

Lemma blen_encodeDir d : blen (encodeDir d) = 10.
Proof. unfold encodeDir, blen. by autorewrite with blen. Qed.
Lemma blen_encodeDirs ds : blen (ds ≫= encodeDir) = 10 * Z.of_nat (length ds).
Proof.
  induction ds as [|d ds IH]; [done|]. cbn [mbind list_bind length]. rewrite blen_app, blen_encodeDir.
  fold (@mbind list _ Dir Z encodeDir ds). rewrite IH. lia.
Qed.

Definition forgetIds (s : Segment) : Segment := mkSegment (dirs s) (freeStart s) (repeat noIdentity (length (dirs s))).

Lemma seg_abs_length s a : seg_abs s a -> length (dirs s) = (depth * length a)%nat.
Proof. intros (chs & fl & (_ & _ & U & _) & ->). unfold views. rewrite length_fmap. by apply uw_len in U. Qed.

Lemma freeStart_fits s a : seg_abs s a -> fits 16 (freeStart s).
Proof.
  intros (chs & fl & (_ & _ & U & [Hs _ -> _]) & _). apply uw_bound in U. unfold fits.
  destruct fl as [|i fl]; [cbn; lia|]. destruct Hs as [(d & Hd & _) _]. apply lookup_lt_Some in Hd. cbn. lia.
Qed.

Lemma decodeSegments_encode segs A nb :
  Forall2 (fun s a => seg_abs s a /\ length a = nb) segs A ->
  decodeSegments (length segs) (depth * nb) (segs ≫= encodeSegment) = Ok (forgetIds <$> segs).
Proof.
  induction 1 as [|s a segs A [Hs Hl] F IH]; [done|]. cbn [length decodeSegments]. rewrite bind_cons.
  pose proof (seg_abs_length _ _ Hs) as Hlen. rewrite Hl in Hlen. pose proof (freeStart_fits _ _ Hs) as Hf.
  destruct Hs as (chs & fl & (_ & Hok & U & Fw) & _).
  unfold encodeSegment at 1. rewrite <- !app_assoc, <- Hlen, decodeDirs_encode by done.
  rewrite take_le_put by done. rewrite (validateDirectory_complete _ _ _ _ U Fw). cbn [mbind result_bind].
  rewrite Hlen. rewrite IH. cbn [mbind result_bind fmap list_fmap]. unfold forgetIds at 2. by rewrite Hlen.
Qed.

Lemma blen_dm_image dm A : dm_abs dm A -> blen (MarshalBinary dm) = BinarySize dm.
Proof.
  intros (nb & Hnb & Eb & _ & Es & F). unfold MarshalBinary, BinarySize. rewrite Es, Eb. clear Es.
  unfold DirDepth, DirSize, DirIDSize. induction F as [|s a l A' [Hs Hl] F IH]; [done|].
  cbn [mbind list_bind length]. rewrite blen_app. fold (@mbind list _ Segment Z encodeSegment l). rewrite IH.
  unfold encodeSegment. rewrite blen_app, blen_encodeDirs, (seg_abs_length _ _ Hs), Hl.
  unfold blen. rewrite length_put_le. unfold depth. lia.
Qed.

Lemma MarshalBinary_ok dm : bytes_ok (MarshalBinary dm).
Proof.
  unfold MarshalBinary, bytes_ok. apply Forall_bind, Forall_true. intros s.
  apply Forall_app. split; [|apply put_le_ok]. apply Forall_bind, Forall_true. intros d.
  unfold encodeDir. repeat (apply Forall_app; split); apply put_le_ok.
Qed.

Lemma decodeDirs_ok n data ds l :
  bytes_ok data -> decodeDirs n data = (ds, l) -> Forall dir_ok ds /\ bytes_ok l /\ length ds = n.
Proof.
  assert (forall x, bytes_ok x -> bytes_ok (drop 2 x) /\ fits 16 (get_le (take 2 x))) as Hw.
  { intros x Hx. split; [by apply Forall_drop|]. pose proof (get_le_bound (take 2 x) ltac:(by apply Forall_take)) as Hb.
    unfold blen in Hb. rewrite length_take in Hb. unfold fits.
    assert (256 ^ Z.of_nat (2 `min` length x) <= 2 ^ 16) by (change (2 ^ 16) with (256 ^ 2); apply Z.pow_le_mono_r; lia). lia. }
  revert data ds l. induction n as [|n IH]; intros data ds l Hok; cbn [decodeDirs].
  { intros [= <- <-]. split_and!; [constructor|done|done]. }
  unfold decodeDir, take_le. cbn zeta. destruct (decodeDirs n _) as [ds' l'] eqn:E. intros [= <- <-].
  destruct (Hw _ Hok) as [K0 F0]. destruct (Hw _ K0) as [K1 F1]. destruct (Hw _ K1) as [K2 F2].
  destruct (Hw _ K2) as [K3 F3]. destruct (Hw _ K3) as [K4 F4].
  destruct (IH _ _ _ K4 E) as (? & ? & ?). split_and!; [constructor; [|done]|done|cbn; lia].
  unfold dir_ok. done.
Qed.

Lemma decodeSegments_ok n nb data segs :
  bytes_ok data -> Z.of_nat (depth * nb) <= 65536 -> decodeSegments n (depth * nb) data = Ok segs ->
  length segs = n /\ exists A, Forall2 (fun s a => seg_abs s a /\ length a = nb) segs A.
Proof.
  revert data segs. induction n as [|n IH]; intros data segs Hok Hb; cbn [decodeSegments].
  { intros [= <-]. split; [done|]. by exists []. }
  destruct (decodeDirs _ data) as [ds l] eqn:E. unfold take_le. intros H. go_ok H. injection H as <-.
  destruct (decodeDirs_ok _ _ _ _ Hok E) as (Fd & Hl & Ld).
  destruct (IH (drop 2 l) x0) as (L & A & F); [by apply Forall_drop|done|done|].
  split; [cbn; lia|]. destruct x.
  assert (fits 16 (get_le (take 2 l))) as Hf.
  { pose proof (get_le_bound (take 2 l) ltac:(by apply Forall_take)) as Hx. unfold blen in Hx. rewrite length_take in Hx. unfold fits.
    assert (256 ^ Z.of_nat (2 `min` length l) <= 2 ^ 16) by (change (2 ^ 16) with (256 ^ 2); apply Z.pow_le_mono_r; lia). lia. }
  destruct (validateDirectory_sound ds nb _ Ld ltac:(lia) Fd Hf H0) as (chs & fl & U & Fw).
  exists (views (mkSegment ds (get_le (take 2 l)) (repeat noIdentity (depth * nb))) chs :: A). constructor; [|done].
  split.
  - exists chs, fl. split; [|done]. unfold seg_wf. cbn [ids dirs]. split_and!; [by rewrite repeat_length|done..].
  - unfold views. rewrite length_fmap. pose proof (uw_len _ _ U). unfold depth in *. lia.
Qed.

Lemma dm_abs_bound dm A : dm_abs dm A -> Z.of_nat (depth * Z.to_nat (BucketsNumPerSegment dm)) <= 65536.
Proof.
  intros (nb & Hnb & Eb & Hne & Es & F). destruct F as [|s a l A' [Hs Hl] F]; [done|].
  pose proof (seg_abs_length _ _ Hs) as Hx. destruct Hs as (chs & fl & (_ & _ & U & _) & _).
  apply uw_bound in U. rewrite Hx, Hl in U. rewrite Eb, Nat2Z.id. done.
Qed.

Lemma InitEmptyDirs_abs dm A :
  dm_abs dm A -> exists dm', InitEmptyDirs dm = Some dm' /\
    dm_abs dm' (repeat (freshViews (Z.to_nat (BucketsNumPerSegment dm))) (length (Segs dm))).
Proof.
  intros HA. pose proof (dm_abs_bound _ _ HA) as Hb. destruct HA as (nb & Hnb & Eb & Hne & Es & F).
  rewrite Eb, Nat2Z.id in *.
  assert (exists segs, mapM (fun s : Segment => initSegment (length (dirs s))) (Segs dm) = Some segs /\
    length segs = length (Segs dm) /\
    Forall2 (fun s a => seg_abs s a /\ length a = nb) segs (repeat (freshViews nb) (length (Segs dm)))) as (segs & E & L & F').
  { clear Hne Es. induction F as [|s a l A' [Hs Hl] F IH]; [exists []; auto|]. destruct IH as (segs & E & L & F').
    destruct (initSegment_spec nb Hnb ltac:(lia)) as (s' & E' & Ha' & _).
    exists (s' :: segs). split_and!; [|cbn; lia|].
    - apply mapM_Some. constructor; [|by apply mapM_Some]. rewrite (seg_abs_length _ _ Hs), Hl, Nat.mul_comm. done.
    - constructor; [|done]. split; [done|apply repeat_length]. }
  unfold InitEmptyDirs. rewrite E. cbn [mbind option_bind]. eexists; split; [done|].
  exists nb. cbn. split_and!; try done; [|congruence]. intros ->. by destruct (Segs dm).
Qed.

Lemma Unmarshal_abs dm A data dm' :
  dm_abs dm A -> bytes_ok data -> UnmarshalBinary dm data = Ok dm' -> dm_wf dm'.
Proof.
  intros HA Hok. pose proof (dm_abs_bound _ _ HA) as Hb. destruct HA as (nb & Hnb & Eb & Hne & Es & F).
  rewrite Eb, Nat2Z.id in Hb. unfold UnmarshalBinary. destruct (negb _); [done|]. intros H. go_ok H. injection H as <-.
  assert (Z.to_nat (BucketsNumPerSegment dm * DirDepth) = depth * nb)%nat as Hc by (rewrite Eb; unfold DirDepth, depth; lia).
  rewrite Hc in H0. destruct (decodeSegments_ok _ _ _ _ Hok Hb H0) as (L & A' & F').
  exists A', nb. cbn. split_and!; try done; [|congruence]. intros ->. by destruct (Segs dm).
Qed.

Lemma Unmarshal_Marshal dm dm0 :
  dm_wf dm -> SegmentsNum dm0 = SegmentsNum dm -> BucketsNumPerSegment dm0 = BucketsNumPerSegment dm ->
  length (Segs dm0) = length (Segs dm) ->
  UnmarshalBinary dm0 (MarshalBinary dm) = Ok (setSegs dm0 (map forgetIds (Segs dm))).
Proof.
  intros [A HA] Es Eb El. pose proof (blen_dm_image _ _ HA) as Hl. unfold UnmarshalBinary.
  assert (BinarySize dm0 = BinarySize dm) as -> by (unfold BinarySize; congruence).
  rewrite Hl, Z.eqb_refl. cbn [negb]. destruct HA as (nb & Hnb & Ebb & _ & _ & F).
  rewrite El, Eb, Ebb. assert (Z.to_nat (Z.of_nat nb * DirDepth) = depth * nb)%nat as -> by (unfold DirDepth, depth; lia).
  unfold MarshalBinary. by rewrite (decodeSegments_encode _ _ _ F).
Qed.

(** [Set] panics when the bucket of the key owns every slot it could use and
    the tag is new. *)
Lemma Set_full rnd dm A key off size ph :
  dm_abs dm A -> 0 < off < 2 ^ 40 -> 0 < size <= DirMaxDataSize -> ~ fitsBucket dm A key ->
  Set_ rnd dm key off size ph = None.
Proof.
  intros HA Ho Hs Hfit. unfold Set_. destruct (hashPosition dm key) as [[t seg] b] eqn:Hp.
  destruct (hashPosition_bound _ _ _ _ _ _ HA Hp) as (Ht & s & a & l & Hseg & Ha & Habs & Hl & Hlen).
  destruct (newEntry_spec t off size ph Ht Ho Hs) as (d & -> & _). cbn [mbind option_bind]. rewrite Hseg.
  cbn [mbind option_bind]. unfold fitsBucket in Hfit. rewrite Hp, (bucketOf_eq A t seg b a l Ha Hl) in Hfit. cbn [fst snd] in Hfit.
  apply Decidable.not_or in Hfit as [Hf Hle]. destruct Habs as (chs & fl & W & ->).
  apply views_lookup_inv in Hl as (c & Hc & ->). destruct (W) as (_ & _ & U & _).
  pose proof (chain_bound _ _ _ _ U Hc). unfold views in Hlen. rewrite length_fmap in Hlen. rewrite view_length in Hle.
  rewrite (dirInsert_full rnd s chs fl b c t d W Hc); [done| |destruct HA as (nb & ? & ? & _); lia].
  destruct (findTag t (view s c)) as [e|] eqn:Ef; [destruct Hf; done|]. apply find_None in Ef.
  apply Forall_forall. intros j Hj Htag. apply Ef. unfold tags, view. apply list_elem_of_fmap.
  exists (entryAt s j). split; [|by apply list_elem_of_fmap; eauto].
  symmetry. apply tag_entryAt; [by eapply chain_lookup|done].
Qed.

#[global] Instance fitsBucket_dec dm A key : Decision (fitsBucket dm A key).
Proof. unfold fitsBucket. cbn zeta. apply _. Defined.

(** ** Reachable directories *)

Inductive dm_step (dm : DirManager) : DirManager -> Prop :=
  | step_set rnd key off size ph dm' g :
      0 < off < 2 ^ 40 -> 0 < size <= DirMaxDataSize ->
      Set_ rnd dm key off size ph = Some (dm', g) -> dm_step dm dm'
  | step_delete key dm' g : Delete dm key = Some (dm', g) -> dm_step dm dm'
  | step_deleteAt key expected dm' ok : deleteAt dm key expected = Some (dm', ok) -> dm_step dm dm'
  | step_removePhase ph dm' : removePhase dm ph = Some dm' -> dm_step dm dm'
  | step_reset dm' : InitEmptyDirs dm = Some dm' -> dm_step dm dm'
  | step_load data dm' : bytes_ok data -> UnmarshalBinary dm data = Ok dm' -> dm_step dm dm'
  | step_trie t : dm_step dm (setTrie dm t).

Lemma dm_step_wf dm dm' : dm_wf dm -> dm_step dm dm' -> dm_wf dm'.
Proof.
  intros [A HA] [rnd key off size ph dm1 g Ho Hs E|key dm1 g E|key ex dm1 ok E|ph dm1 E|dm1 E|data dm1 Hok E|t].
  - destruct (decide (fitsBucket dm A key)) as [Hf|Hf]; [|by rewrite (Set_full _ _ A) in E].
    destruct (Set_abs rnd dm A key off size ph HA Ho Hs Hf) as (dm2 & g2 & A2 & d & E2 & H2 & _).
    exists A2. congruence.
  - destruct (Delete_abs dm A key HA) as (dm2 & g2 & E2 & A2 & H2 & _). exists A2. congruence.
  - destruct (deleteAt_abs dm A key ex HA) as (dm2 & ok2 & E2 & H2). assert (dm2 = dm1) as -> by congruence.
    destruct (found dm key); [|subst; by exists A]. destruct (decide _); destruct H2 as [_ H2]; [|subst; by exists A].
    destruct H2 as (A2 & H2 & _). by exists A2.
  - destruct (removePhase_abs dm A ph HA) as (dm2 & A2 & E2 & H2 & _). exists A2. congruence.
  - destruct (InitEmptyDirs_abs dm A HA) as (dm2 & E2 & H2). eexists. assert (dm1 = dm2) as -> by congruence. exact H2.
  - by eapply Unmarshal_abs.
  - exists A. exact HA.
Qed.

(** C31: every directory reachable from [Init] through [Set], [Delete],
    [deleteAt], [removePhase], [InitEmptyDirs] and an accepted
    [UnmarshalBinary], in any order and for any random draws, is well formed:
    bucket chains are acyclic and disjoint, the other slots form one doubly
    linked free chain, and no slot is lost. *)
Theorem directory_reachable_wf dirNum dm0 dm :
  4 <= dirNum < 2 ^ 40 -> Init dirNum = Some dm0 -> rtc dm_step dm0 dm -> dm_wf dm.
Proof.
  intros Hd E Hr. destruct (Init_abs dirNum Hd) as (dm1 & E1 & HA & _). assert (dm1 = dm0) as -> by congruence.
  assert (dm_wf dm0) as W by (by eexists). clear - W Hr. induction Hr; [done|]. eauto using dm_step_wf.
Qed.

(** The entry a successful [Set] leaves. *)
Lemma Set_entry rnd dm A key off size ph :
  dm_abs dm A -> 0 < off < 2 ^ 40 -> 0 < size <= DirMaxDataSize -> fitsBucket dm A key ->
  exists dm' g g' d, Set_ rnd dm key off size ph = Some (dm', g) /\ Get dm' key = Some (true, g', d) /\ offset d = off /\ phase d = ph /\
    size <= approxSize d <= Z.max 512 (8 * size).
Proof.
  intros HA Ho Hs Hf. destruct (Set_abs rnd dm A key off size ph HA Ho Hs Hf) as (dm' & g & A' & d & E & HA' & _ & Hd & Hfound & _).
  destruct (hashPosition dm key) as [[t seg] b] eqn:Hp.
  destruct (hashPosition_bound _ _ _ _ _ _ HA Hp) as (Ht & _).
  destruct (newEntry_spec t off size ph Ht Ho Hs) as (d0 & Hd0 & _ & Hod & _ & Hph & _ & Hsz).
  cbn in Hd. assert (d0 = d) as -> by congruence.
  unfold found in Hfound. destruct (Get dm' key) as [[[[] g'] d']|] eqn:Eg; try done. injection Hfound as Hpay.
  exists dm', g, g', d'. split; [done|]. split; [done|].
  assert (payload d' = payload d) as Hpp by (unfold payload; congruence).
  rewrite (payload_offset _ _ Hpp), (payload_phase _ _ Hpp).
  assert (approxSize d' = approxSize d) as -> by (unfold approxSize, bigInternal, sizeInternal; congruence). done.
Qed.

(** [Set] fails with the panic of [freeChainPop] exactly when the tag is
    new and the bucket of the key already chains its head and all non-head
    slots of the segment; the outcome does not depend on the random draws. *)
Lemma Set_panics_iff rnd dm A key off size ph :
  dm_abs dm A -> 0 < off < 2 ^ 40 -> 0 < size <= DirMaxDataSize ->
  Set_ rnd dm key off size ph = None <->
    findTag (hashPosition dm key).1.1 (bucketOf A (hashPosition dm key)) = None /\
    3 * BucketsNumPerSegment dm < Z.of_nat (length (bucketOf A (hashPosition dm key))).
Proof.
  intros HA Ho Hs.
  assert (~ fitsBucket dm A key <-> findTag (hashPosition dm key).1.1 (bucketOf A (hashPosition dm key)) = None /\
    3 * BucketsNumPerSegment dm < Z.of_nat (length (bucketOf A (hashPosition dm key)))) as <-.
  { unfold fitsBucket. cbn zeta. destruct (findTag _ _); split.
    - intros H. destruct H. by left.
    - by intros [? _].
    - intros H. split; [done|]. apply Z.nle_gt. tauto.
    - intros [_ H] [C|C]; [done|lia]. }
  split.
  - intros E Hf. destruct (Set_abs rnd dm A key off size ph HA Ho Hs Hf) as (dm' & g & _ & _ & E' & _). congruence.
  - by apply Set_full.
Qed.

(** C26: [Set] in every state of the directory.  It panics, in [freeChainPop],
    exactly when the tag is new and the bucket of the key already chains its
    head and all non-head slots of the segment, whatever the random draws.
    Otherwise the entry is found by [Get] with the offset, phase and a size
    class that covers the record; the entries of other hash positions are
    unchanged when the segment has a free slot, and in a full segment, where
    [Set] purges, each is unchanged or gone, never another's; and a key that
    collides with the new entry misses instead of reading another key's
    record. *)
Theorem directory_set_get rnd dm A key off size ph :
  dm_abs dm A -> 0 < off < 2 ^ 40 -> 0 < size <= DirMaxDataSize ->
  match Set_ rnd dm key off size ph with
  | None => findTag (hashPosition dm key).1.1 (bucketOf A (hashPosition dm key)) = None /\
      3 * BucketsNumPerSegment dm < Z.of_nat (length (bucketOf A (hashPosition dm key)))
  | Some (dm', g) => ~ (findTag (hashPosition dm key).1.1 (bucketOf A (hashPosition dm key)) = None /\
      3 * BucketsNumPerSegment dm < Z.of_nat (length (bucketOf A (hashPosition dm key)))) /\ dm_wf dm' /\
    (exists g' d, Get dm' key = Some (true, g', d) /\ offset d = off /\ phase d = ph /\
       size <= approxSize d <= Z.max 512 (8 * size)) /\
    (forall key', hashPosition dm key' <> hashPosition dm key ->
       (hasFree dm key -> found dm' key' = found dm key') /\ (found dm' key' = found dm key' \/ found dm' key' = None)) /\
    (forall key', hashPosition dm key' = hashPosition dm key -> docKey key <> noIdentity ->
       docKey key' <> docKey key -> found dm' key' = None)
  end.
Proof.
  intros HA Ho Hs. pose proof (Set_panics_iff rnd dm A key off size ph HA Ho Hs) as Hiff. destruct (decide (fitsBucket dm A key)) as [Hf|Hf].
  - destruct (Set_abs rnd dm A key off size ph HA Ho Hs Hf) as (dm' & g & A' & d & E & HA' & _ & Hd & Hfound & Hoth & Hcol & _).
    destruct (Set_entry rnd dm A key off size ph HA Ho Hs Hf) as (dm2 & g2 & g' & d' & E2 & Hget).
    rewrite E in E2 |- *. injection E2 as <- <-. split; [intros Hp; apply Hiff in Hp; congruence|]. split; [by exists A'|]. split; [by exists g', d'|]. split; [|done].
    intros key' Hk. destruct (Hoth key' Hk) as [H|[H Hn]]; split; tauto.
  - rewrite (Set_full rnd dm A key off size ph HA Ho Hs Hf) in *. by apply Hiff.
Qed.

(** After [Delete] of a key, [Get] misses it and every key at another
    hash position is found exactly as before, provided the segment had a
    free slot (see the finding on [freeChainSet] for the other case). *)
Theorem directory_delete dm A key :
  dm_abs dm A -> unique_tags A -> hasFree dm key ->
  exists dm' g, Delete dm key = Some (dm', g) /\ dm_wf dm' /\ found dm' key = None /\
    (forall key', hashPosition dm key' <> hashPosition dm key -> found dm' key' = found dm key').
Proof.
  intros HA Hu Hf. destruct (Delete_abs dm A key HA) as (dm' & g & E & A' & HA' & _ & H).
  destruct (H Hf) as [H1 H2]. destruct (H1 Hu) as [H3 _]. exists dm', g. split_and!; [done|by exists A'|done|done].
Qed.

(** [removePhase] terminates and removes exactly the entries of the
    given phase, keeping the order of the others in every bucket. *)
Theorem directory_remove_phase dm A ph :
  dm_abs dm A -> unique_tags A -> Forall (fun s => freeStart s <> 0) (Segs dm) ->
  exists dm', removePhase dm ph = Some dm' /\ dm_abs dm' (map (map (keepPhase ph)) A).
Proof.
  intros HA Hu Hf. destruct (removePhase_abs dm A ph HA) as (dm' & A' & E & HA' & _ & Hx).
  exists dm'. split; [done|]. by rewrite <- (Hx Hf Hu).
Qed.

(** The directory image round-trips into a directory of the same
    geometry: entries and free chain heads come back, identities are
    forgotten. *)
Theorem directory_image_roundtrip dm dm0 :
  dm_wf dm -> SegmentsNum dm0 = SegmentsNum dm -> BucketsNumPerSegment dm0 = BucketsNumPerSegment dm ->
  length (Segs dm0) = length (Segs dm) ->
  UnmarshalBinary dm0 (MarshalBinary dm) = Ok (setSegs dm0 (map forgetIds (Segs dm))).
Proof. apply Unmarshal_Marshal. Qed.

(** C32: any image [UnmarshalBinary] accepts, however it was produced, yields
    a well-formed directory. *)
Theorem directory_load_sound dm data dm' :
  dm_wf dm -> bytes_ok data -> UnmarshalBinary dm data = Ok dm' -> dm_wf dm'.
Proof. intros [A HA]. by apply Unmarshal_abs with (A := A). Qed.

(** ** Concrete directories *)

Definition emptyManager : DirManager := mkDirManager 0 0 0 0 [] (NewDirTrie None).
Definition noDraw (_ : nat) : nat := 0%nat.
Definition setAll (dm : DirManager) (l : list (bytes * Z)) : DirManager :=
  foldl (fun dm p => match Set_ noDraw dm p.1 p.2 100 true with Some (dm', _) => dm' | None => dm end) dm l.

(** Two buckets, empty and with one entry. *)
Definition dm8 : DirManager := default emptyManager (Init 8).
Definition dm8a : DirManager := setAll dm8 [([107], 1024)].

Lemma dm8_init : Init 8 = Some dm8.
Proof. vm_compute. reflexivity. Qed.
Lemma dm8_abs : dm_abs dm8 [[[]; []]].
Proof.
  destruct (Init_abs 8 ltac:(lia)) as (dm & E & HA & _). rewrite dm8_init in E. injection E as <-. exact HA.
Qed.
Lemma dm8_fits key : fitsBucket dm8 [[[]; []]] key.
Proof.
  right. change (BucketsNumPerSegment dm8) with 2. unfold bucketOf.
  destruct (hashPosition dm8 key) as [[t [|[|seg]]] [|[|[|b]]]]; vm_compute; discriminate.
Qed.
Lemma dm8a_set : exists g, Set_ noDraw dm8 [107] 1024 100 true = Some (dm8a, g).
Proof. eexists. vm_compute. reflexivity. Qed.
Lemma dm8a_abs : exists A, dm_abs dm8a A /\ unique_tags A.
Proof.
  destruct (Set_abs noDraw dm8 _ [107] 1024 100 true dm8_abs ltac:(lia) ltac:(unfold DirMaxDataSize; lia) (dm8_fits [107]))
    as (dm' & g & A' & d & E & HA & _ & _ & _ & _ & _ & Hu).
  destruct dm8a_set as [g' E']. assert (dm' = dm8a) as -> by congruence.
  exists A'. split; [done|]. apply Hu. apply (unique_tags_fresh 2 1).
Qed.

Lemma directory_reachable_wf_witness : Init 8 = Some dm8 /\ dm_wf dm8a.
Proof.
  split; [exact dm8_init|]. apply (directory_reachable_wf 8 dm8 dm8a); [lia|exact dm8_init|].
  destruct dm8a_set as [g E]. apply rtc_once.
  apply (step_set dm8 noDraw [107] 1024 100 true dm8a g); [lia|unfold DirMaxDataSize; lia|exact E].
Defined.

Lemma directory_set_get_witness :
  exists dm' g, Set_ noDraw dm8 [107] 1024 100 true = Some (dm', g) /\
    exists g' d, Get dm' [107] = Some (true, g', d) /\ offset d = 1024.
Proof.
  pose proof (directory_set_get noDraw dm8 [[[]; []]] [107] 1024 100 true dm8_abs ltac:(lia) ltac:(unfold DirMaxDataSize; lia)) as H.
  destruct (Set_ noDraw dm8 [107] 1024 100 true) as [[dm' g]|].
  - destruct H as (_ & _ & (g' & d & Hg & Ho & _) & _). exists dm', g. split; [reflexivity|]. exists g', d. split; [exact Hg|exact Ho].
  - destruct H as [_ H]. vm_compute in H. discriminate H.
Defined.

Lemma directory_delete_witness :
  found dm8a [107] <> None /\ exists dm' g, Delete dm8a [107] = Some (dm', g) /\ found dm' [107] = None.
Proof.
  split; [vm_compute; discriminate|]. destruct dm8a_abs as (A & HA & Hu).
  destruct (directory_delete dm8a A [107] HA Hu) as (dm' & g & E & _ & Hf & _).
  - eexists. split; [vm_compute; reflexivity|]. vm_compute. discriminate.
  - exists dm', g. split; [exact E|exact Hf].
Defined.

Lemma directory_remove_phase_witness :
  exists A dm', dm_abs dm8a A /\ removePhase dm8a true = Some dm' /\ found dm' [107] = None.
Proof.
  destruct dm8a_abs as (A & HA & Hu).
  destruct (directory_remove_phase dm8a A true HA Hu) as (dm' & E & _).
  - apply (bool_decide_unpack _). vm_compute. exact I.
  - exists A, dm'. split; [exact HA|]. split; [exact E|].
    assert (found (default emptyManager (removePhase dm8a true)) [107] = None) as Hf by (vm_compute; reflexivity).
    rewrite E in Hf. exact Hf.
Defined.

Lemma directory_image_roundtrip_witness :
  UnmarshalBinary dm8 (MarshalBinary dm8a) = Ok (setSegs dm8 (map forgetIds (Segs dm8a))).
Proof.
  apply (directory_image_roundtrip dm8a dm8); [|reflexivity..].
  destruct dm8a_abs as (A & HA & _). exists A. exact HA.
Defined.

Lemma directory_load_sound_witness :
  exists dm', UnmarshalBinary dm8 (MarshalBinary dm8a) = Ok dm' /\ dm_wf dm'.
Proof.
  eexists. split; [vm_compute; reflexivity|].
  apply (directory_load_sound dm8 (MarshalBinary dm8a)).
  - exists [[[]; []]]. exact dm8_abs.
  - apply MarshalBinary_ok.
  - vm_compute. reflexivity.
Defined.

(** One bucket filled by four keys; the fourth is then deleted. *)
Definition dm4 : DirManager :=
  setAll (default emptyManager (Init 4)) [([1], 1024); ([2], 2048); ([3], 3072); ([4], 4096)].

(** Deleting a key when the segment has no free slot loses another key.
    [freeChainSet] links the old head of an empty free chain, which is slot
    0, and so overwrites the tag and the flags of the entry in slot 0. *)
Theorem directory_delete_clobbers_slot0 :
  exists dm' g, Delete dm4 [4] = Some (dm', g) /\ hashPosition dm4 [1] <> hashPosition dm4 [4] /\
    found dm4 [1] <> None /\ found dm' [1] = None.
Proof.
  eexists _, _. split; [vm_compute; reflexivity|]. split; [vm_compute; discriminate|].
  split; [vm_compute; discriminate|vm_compute; reflexivity].
Qed.
