(* ===== verification/DirReinstall.v ===== *)
(** * Setting the entries of a directory again

    Recovery clears the directory and sets the entries it trusts again
    ([loadCheckpoint] of [cache/checkpoint.go]).  The free chain of a segment
    is determined by the lengths of its buckets, so entries that fitted one
    directory fit another of the same geometry: no [Set] panics and none
    displaces an entry. *)

From S2P Require Import Prelude Hash Dir Doc DirTrie DirManager DirChain DirOps DirRemove DirSpec DirInit DirValidate Directory.

(** ** The slots outside the bucket heads *)

(** How many non-head slots the entries of a segment occupy. *)
Definition overflow (a : list (list Entry)) : nat := sum_list ((fun l => pred (length l)) <$> a).

Definition tails (chs : list (list nat)) : list nat := concat (tail <$> chs).

Lemma overflow_views s chs : overflow (views s chs) = length (tails chs).
Proof.
  unfold overflow, tails, views. induction chs as [|c chs IH]; [done|]. cbn. rewrite length_app, <- IH, view_length. by destruct c.
Qed.

Lemma elem_of_tails ds chs i : used_wf ds chs -> i ∈ tails chs <-> i ∈ concat chs /\ nonhead i.
Proof.
  intros U. unfold tails. split.
  - intros (b & c' & Hc' & Hi)%elem_of_concat_inv. rewrite list_lookup_fmap in Hc'. destruct (chs !! b) as [c|] eqn:Hc; [|done].
    injection Hc' as <-. destruct c as [|h l]; [set_solver|]. destruct (uw_bucket _ _ U _ _ Hc) as [[_ F] _].
    cbn in Hi. rewrite Forall_forall in F. split; [|by apply F]. eapply elem_of_concat; [exact Hc|set_solver].
  - intros [(b & c & Hc & Hi)%elem_of_concat_inv Hn]. eapply elem_of_concat; [by rewrite list_lookup_fmap, Hc|].
    destruct c as [|h l]; [set_solver|]. destruct (uw_bucket _ _ U _ _ Hc) as [[-> F] _]. cbn.
    apply elem_of_cons in Hi as [->|]; [|done]. by eapply nonhead_bucket in Hn.
Qed.

Lemma NoDup_tails chs : NoDup (concat chs) -> NoDup (tails chs).
Proof.
  intros N. apply (sublist_NoDup _ (concat chs)); [done|]. unfold tails. clear N.
  induction chs as [|c chs IH]; [done|]. cbn. apply sublist_app; [|done]. destruct c; cbn; [done|by apply sublist_cons].
Qed.

Lemma tails_slots ds chs : used_wf ds chs -> tails chs ⊆ slots (length chs).
Proof.
  intros U i Hi. apply (elem_of_tails _ _ _ U) in Hi as [Hi Hn]. apply elem_of_slots. split; [done|].
  destruct (used_elem _ _ _ U Hi) as (d & Hd & _). rewrite <- (uw_len _ _ U). by eapply lookup_lt_Some.
Qed.

(** The entries of a segment leave at least no slot over-used ... *)
Lemma overflow_le s a : seg_abs s a -> (overflow a <= 3 * length a)%nat.
Proof.
  intros (chs & fl & (_ & _ & U & _) & ->). rewrite overflow_views. unfold views. rewrite length_fmap, <- length_slots.
  apply submseteq_length, NoDup_submseteq; [by eapply NoDup_tails, uw_nodup|]. by apply (tails_slots (dirs s)).
Qed.

(** ... and an empty free chain means that all of them are used. *)
Lemma overflow_full s a : seg_abs s a -> freeStart s = 0 -> (3 * length a <= overflow a)%nat.
Proof.
  intros (chs & fl & (_ & _ & U & F) & ->) H0. rewrite overflow_views. unfold views. rewrite length_fmap, <- length_slots.
  assert (fl = []) as ->.
  { destruct fl as [|i fl]; [done|]. pose proof (fw_start _ _ _ F) as Hs. pose proof (fw_nonhead _ _ _ F) as Fn.
    apply Forall_cons in Fn as [Hi _]. apply nonhead_nonzero in Hi. cbn in Hs. lia. }
  apply submseteq_length, NoDup_submseteq; [apply slots_NoDup|]. intros i [Hn Hlt]%elem_of_slots.
  apply (elem_of_tails _ _ _ U). split; [|done]. rewrite <- (uw_len _ _ U) in Hlt.
  destruct (lookup_lt_is_Some_2 _ _ Hlt) as [d Hd]. apply (uw_cover _ _ U i d Hn Hd). intros Ho.
  pose proof (fw_cover _ _ _ F i d Hn Hd Ho). set_solver.
Qed.

(** ** An exact [Set] *)

Lemma alter_lookup {A} (f : A -> A) (i : nat) (l : list A) x : l !! i = Some x -> alter f i l = <[i := f x]> l.
Proof.
  intros Hx. assert (i < length l)%nat by (by eapply lookup_lt_Some). apply list_eq. intros j.
  destruct (decide (i = j)) as [<-|]; [by rewrite list_lookup_alter_eq, list_lookup_insert_eq, Hx|].
  by rewrite list_lookup_alter_ne, list_lookup_insert_ne.
Qed.

(** The entries after [e] has been put at a hash position. *)
Definition putAt (A : list (list (list Entry))) (pos : Z * nat * nat) (e : Entry) : list (list (list Entry)) :=
  alter (alter (putTag e) pos.2) pos.1.2 A.

Definition displacesNothing (dm : DirManager) (A : list (list (list Entry))) (key : bytes) : Prop :=
  let pos := hashPosition dm key in
  hasFree dm key \/ bucketOf A pos = [] \/ findTag pos.1.1 (bucketOf A pos) <> None.

Lemma Set_exact rnd dm A key off size ph :
  dm_abs dm A -> 0 < off < 2 ^ 40 -> 0 < size <= DirMaxDataSize -> fitsBucket dm A key -> displacesNothing dm A key ->
  exists dm' g d, Set_ rnd dm key off size ph = Some (dm', g) /\ newEntry (hashPosition dm key).1.1 off size ph = Some d /\
    dm_abs dm' (putAt A (hashPosition dm key) (payload d, docKey key)) /\ dm' = setSegs dm (Segs dm').
Proof.
  intros HA Ho Hs Hfit Hdis. unfold displacesNothing in Hdis. destruct (hashPosition dm key) as [[t seg] b] eqn:Hp.
  destruct (hashPosition_bound _ _ _ _ _ _ HA Hp) as (Ht & s & a & l & Hseg & Ha & Habs & Hl & Hlen).
  destruct (newEntry_spec t off size ph Ht Ho Hs) as (d & Hd & Hok & Hod & Htd & Hph & Hn & _).
  unfold fitsBucket in Hfit. rewrite Hp in Hfit. rewrite (bucketOf_eq A t seg b a l Ha Hl) in Hfit, Hdis. cbn [fst snd] in Hfit, Hdis.
  destruct (dirInsert_abs rnd s a b l d (docKey key) Habs Hl Hok) as (s' & i & a' & E & Habs' & Hla' & Hb' & _ & Hsame);
    [lia|done|rewrite Htd; destruct Hfit; [by left|right; lia]|].
  rewrite Htd in E, Hsame. unfold Set_. rewrite Hp. cbn [mbind option_bind]. rewrite Hd. cbn [mbind option_bind].
  rewrite Hseg. cbn [mbind option_bind]. rewrite E. cbn [mbind option_bind].
  eexists _, _, d. split; [done|]. split; [done|]. split; [|done].
  assert (a' = alter (putTag (payload d, docKey key)) b a) as ->.
  { rewrite Hsame.
    - symmetry. by apply alter_lookup.
    - destruct Hdis as [(s2 & Hs2 & Hf)|[?|?]]; [left|auto..]. rewrite Hp in Hs2. cbn in Hs2. congruence. }
  assert (putAt A (t, seg, b) (payload d, docKey key) = <[seg := alter (putTag (payload d, docKey key)) b a]> A) as ->.
  { unfold putAt. cbn [fst snd]. by apply alter_lookup. }
  pose proof HA as (nb & Hnb & Eb & _). eapply dm_abs_insert; [done|exact Hnb|done|done|]. rewrite Hla', Hlen, Eb. lia.
Qed.

(** ** Room *)

(** The entries of a bucket are a choice of those of a reference bucket. *)
Definition within (A A1 : list (list (list Entry))) : Prop :=
  Forall2 (Forall2 (fun l l1 => NoDup (tags l) /\ tags l ⊆ tags l1)) A A1.

Lemma length_tags l : length (tags l) = length l.
Proof. apply length_fmap. Qed.

Lemma tags_length l l1 : NoDup (tags l) -> tags l ⊆ tags l1 -> (length l <= length l1)%nat.
Proof. intros N S. rewrite <- (length_tags l), <- (length_tags l1). by apply submseteq_length, NoDup_submseteq. Qed.

Lemma tags_length_lt l l1 t : NoDup (tags l) -> tags l ⊆ tags l1 -> t ∈ tags l1 -> t ∉ tags l -> (length l < length l1)%nat.
Proof.
  intros N S Hin Hout. rewrite <- (length_tags l), <- (length_tags l1). change (length (t :: tags l) <= length (tags l1))%nat.
  apply submseteq_length, NoDup_submseteq; [by apply NoDup_cons|]. intros x [->|Hx]%elem_of_cons; auto.
Qed.

Lemma overflow_within a a1 b l l1 t :
  Forall2 (fun l l1 => NoDup (tags l) /\ tags l ⊆ tags l1) a a1 -> a !! b = Some l -> a1 !! b = Some l1 ->
  l <> [] -> t ∈ tags l1 -> t ∉ tags l -> (overflow a < overflow a1)%nat.
Proof.
  intros F. assert (forall x x1, Forall2 (fun l l1 => NoDup (tags l) /\ tags l ⊆ tags l1) x x1 -> (overflow x <= overflow x1)%nat) as Hle.
  { unfold overflow. induction 1 as [|y y1 x x1 [N S] _ IH]; [done|]. cbn. pose proof (tags_length _ _ N S). lia. }
  revert b. induction F as [|y y1 x x1 [N S] F IH]; intros b Hl Hl1 Hne Hin Hout; [done|]. unfold overflow in *. cbn. destruct b as [|b].
  - injection Hl as ->. injection Hl1 as ->. pose proof (tags_length_lt _ _ _ N S Hin Hout). pose proof (Hle _ _ F). unfold overflow in *. destruct l; [done|]. cbn in *. lia.
  - pose proof (tags_length _ _ N S). specialize (IH b Hl Hl1 Hne Hin Hout). lia.
Qed.

(** ** Lookups after an exact [Set] *)

Lemma alookup_bucketOf A pos key :
  alookup A pos key = e ← findTag pos.1.1 (bucketOf A pos); if bool_decide (e.2 = noIdentity) || bool_decide (e.2 = docKey key) then Some e.1 else None.
Proof.
  destruct pos as [[t seg] b]. unfold alookup, bucketOf. cbn [fst snd].
  destruct (A !! seg) as [a|]; [|done]. cbn [mbind option_bind]. by destruct (a !! b).
Qed.

Lemma bucketOf_putAt A pos pos' e :
  bucketOf A pos <> [] \/ is_Some (a ← A !! pos.1.2; a !! pos.2) ->
  bucketOf (putAt A pos e) pos' = if decide (pos'.1.2 = pos.1.2 /\ pos'.2 = pos.2) then putTag e (bucketOf A pos) else bucketOf A pos'.
Proof.
  destruct pos as [[t seg] b], pos' as [[t' seg'] b']. unfold bucketOf, putAt. cbn [fst snd]. intros Hne.
  assert (exists a l, A !! seg = Some a /\ a !! b = Some l) as (a & l & Ha & Hl).
  { destruct (A !! seg) as [a|]; cbn in Hne; [|destruct Hne as [?|[? ?]]; done]. destruct (a !! b) as [l|] eqn:E; cbn in Hne; [eauto|destruct Hne as [?|[? ?]]; done]. }
  case_decide as Hd.
  - destruct Hd as [-> ->]. rewrite list_lookup_alter_eq, Ha. cbn. rewrite list_lookup_alter_eq, Hl. done.
  - destruct (decide (seg' = seg)) as [->|]; [|by rewrite list_lookup_alter_ne by congruence].
    rewrite list_lookup_alter_eq, Ha. cbn. rewrite list_lookup_alter_ne by (intros ->; tauto). done.
Qed.

(** The entry [d'] serves wherever [d] does. *)
Definition entry_like (d' d : Dir) : Prop := offset d' = offset d /\ phase d' = phase d /\ approxSize d <= approxSize d'.

Lemma payload_entry_like d d' : payload d = payload d' -> entry_like d d'.
Proof.
  intros Hp. split_and!; [by apply payload_offset|by apply payload_phase|].
  assert (raw1 d = raw1 d') as E by (unfold payload in Hp; congruence). unfold approxSize, bigInternal, sizeInternal. by rewrite E.
Qed.

Lemma entry_like_trans d1 d2 d3 : entry_like d1 d2 -> entry_like d2 d3 -> entry_like d1 d3.
Proof. intros (? & ? & ?) (? & ? & ?). split_and!; [congruence..|lia]. Qed.

(** The directory holds, for [key], an entry that serves as [d] does. *)
Definition holdsEntry (dm : DirManager) (key : bytes) (d : Dir) : Prop :=
  exists g d', Get dm key = Some (true, g, d') /\ entry_like d' d.

Lemma alookup_holds dm A key d p :
  dm_abs dm A -> alookup A (hashPosition dm key) key = Some (payload p) -> entry_like p d -> holdsEntry dm key d.
Proof.
  intros HA E Hl. destruct (Get_abs dm A key HA) as (hit & g & d' & Eg & Ea). rewrite Ea in E. destruct hit; [|done]. injection E as E.
  exists g, d'. split; [done|]. eapply entry_like_trans; [|done]. apply payload_entry_like. unfold payload. congruence.
Qed.

Lemma approxSize_range d : dir_ok d -> 0 < approxSize d <= DirMaxDataSize.
Proof.
  intros _.
  assert (0 <= bigInternal d < 4) as Hb.
  { unfold bigInternal. change 0x3 with (Z.ones 2). rewrite Z.land_ones by lia. pose proof (Z.mod_pos_bound (Z.shiftr (raw1 d) 8) (2 ^ 2) ltac:(lia)) as Hm. rewrite u8_small; [exact Hm|unfold fits; lia]. }
  assert (0 <= sizeInternal d < 64) as Hs.
  { unfold sizeInternal. change 0x3f with (Z.ones 6). rewrite Z.land_ones by lia. pose proof (Z.mod_pos_bound (Z.shiftr (raw1 d) 10) (2 ^ 6) ltac:(lia)) as Hm. rewrite u8_small; [exact Hm|unfold fits; lia]. }
  rewrite approxSize_eq by done. unfold SectorSize, DirMaxDataSize.
  assert (1 <= 8 ^ bigInternal d <= 8 ^ 3) by (split; [apply (Z.pow_le_mono_r 8 0); lia|apply Z.pow_le_mono_r; lia]). nia.
Qed.

Lemma offset_lt d : dir_ok d -> 0 <= offset d < 2 ^ 40.
Proof.
  intros (H0 & _ & _ & _ & H4). rewrite offset_eq by done. pose proof (Z.mod_pos_bound (raw1 d) (2 ^ 8) ltac:(lia)). unfold fits in *. lia.
Qed.

(** A hit is a slot of its segment, the same one for every key of its hash
    position. *)
Lemma Get_hit dm A key g d :
  dm_abs dm A -> Get dm key = Some (true, g, d) -> dir_ok d /\ findTag (hashPosition dm key).1.1 (bucketOf A (hashPosition dm key)) <> None /\
  forall key' g' d', hashPosition dm key' = hashPosition dm key -> Get dm key' = Some (true, g', d') -> d' = d.
Proof.
  intros HA Hg. destruct (hashPosition dm key) as [[t seg] b] eqn:Hp.
  destruct (hashPosition_bound _ _ _ _ _ _ HA Hp) as (_ & s & a & l & Hs & Ha & Habs & Hl & _).
  rewrite (bucketOf_eq A t seg b a l Ha Hl). cbn [fst snd].
  destruct (dirProbe_abs s a b l t Habs Hl) as (hit & i & p & d0 & E & Hf).
  assert (forall k g1 d1, hashPosition dm k = (t, seg, b) -> Get dm k = Some (true, g1, d1) -> d1 = d0 /\ hit = true) as Hget.
  { intros k g1 d1 Hk. unfold Get. rewrite Hk, Hs. cbn [mbind option_bind]. rewrite E.
    destruct hit; [|by intros [= <- <-]]. destruct (foreign s i k) as [[]|]; cbn [mbind option_bind]; try done. by intros [= <- <-]. }
  destruct (Hget _ _ _ Hp Hg) as [-> ->]. split_and!.
  - destruct (findTag t l) as [e|]; [|destruct Hf; done]. destruct Hf as (_ & Hd & _). destruct Habs as (chs & fl & (_ & Hok & _) & _).
    by apply (proj1 (Forall_lookup _ _) Hok i).
  - by destruct (findTag t l); [|destruct Hf].
  - intros k g' d' Hk Hk2. by apply (Hget _ _ _ Hk Hk2).
Qed.

Section Reinstall.
Context (dm1 : DirManager) (A1 : list (list (list Entry))) (HA1 : dm_abs dm1 A1).

(** A directory of the geometry of [dm1]. *)
Definition alike (dm : DirManager) : Prop :=
  SegmentsNum dm = SegmentsNum dm1 /\ BucketsNumPerSegment dm = BucketsNumPerSegment dm1.

Lemma alike_position dm key : alike dm -> hashPosition dm key = hashPosition dm1 key.
Proof. unfold hashPosition. by intros [-> ->]. Qed.

Lemma within_room dm A key :
  dm_abs dm A -> alike dm -> within A A1 ->
  findTag (hashPosition dm1 key).1.1 (bucketOf A1 (hashPosition dm1 key)) <> None ->
  fitsBucket dm A key /\ displacesNothing dm A key.
Proof.
  intros HA G W Hin. unfold fitsBucket, displacesNothing. rewrite (alike_position _ _ G).
  destruct (hashPosition dm1 key) as [[t seg] b] eqn:Hp. assert (hashPosition dm key = (t, seg, b)) as Hp0 by (by rewrite alike_position).
  destruct (hashPosition_bound _ _ _ _ _ _ HA1 Hp) as (Ht & s1 & a1 & l1 & _ & Ha1 & Habs1 & Hl1 & Hlen1).
  destruct (hashPosition_bound _ _ _ _ _ _ HA Hp0) as (_ & s & a & l & Hs & Ha & Habs & Hl & Hlen).
  cbn zeta. rewrite (bucketOf_eq A1 t seg b a1 l1), (bucketOf_eq A t seg b a l) in * by done. cbn [fst snd] in *.
  destruct (findTag t l) eqn:Ef; [split; [by left|by right; right]|]. apply find_None in Ef.
  assert (t ∈ tags l1) as Ht1. { destruct (decide (t ∈ tags l1)) as [|Hn]; [done|]. by apply find_None in Hn. }
  pose proof (Forall2_lookup_lr _ _ _ _ _ _ W Ha Ha1) as F. destruct (Forall2_lookup_lr _ _ _ _ _ _ F Hl Hl1) as [N S].
  pose proof (tags_length_lt _ _ _ N S Ht1 Ef) as Hlt. split.
  - right. destruct Habs1 as (chs & fl & (_ & _ & U & _) & ->). apply views_lookup_inv in Hl1 as (c & Hc & ->).
    pose proof (chain_bound _ _ _ _ U Hc) as Hcb. rewrite view_length in Hlt. unfold views in Hlen1. rewrite length_fmap in Hlen1.
    destruct G as [_ G]. rewrite G. destruct HA1 as (nb & Hnb & Eb & _). lia.
  - destruct (decide (l = [])) as [->|Hne]; [by right; left|left]. exists s. rewrite Hp0. split; [done|]. intros H0.
    pose proof (overflow_full _ _ Habs H0). pose proof (overflow_le _ _ Habs1).
    pose proof (overflow_within _ _ _ _ _ _ F Hl Hl1 Hne Ht1 Ef). apply Forall2_length in F. lia.
Qed.

Lemma within_putAt A pos e :
  within A A1 -> etag e = pos.1.1 -> findTag pos.1.1 (bucketOf A1 pos) <> None -> within (putAt A pos e) A1.
Proof.
  intros W He Hin. unfold within, putAt. apply Forall2_alter_l; [done|]. intros a a1 Ha Ha1 F.
  apply Forall2_alter_l; [done|]. intros l l1 Hl Hl1 [N S]. split; [by apply NoDup_tags_putTag|].
  destruct pos as [[t seg] b]. cbn [fst snd] in *. rewrite (bucketOf_eq A1 t seg b a1 l1) in Hin by done.
  assert (t ∈ tags l1) as Ht1. { destruct (decide (t ∈ tags l1)) as [|Hn]; [done|]. by apply find_None in Hn. }
  intros x Hx. destruct (decide (x = t)) as [->|Hne]; [done|]. apply S.
  destruct (decide (x ∈ tags l)) as [|Hn]; [done|]. apply find_None in Hn. rewrite <- (find_put_other x e) in Hn by congruence. by apply find_None in Hn.
Qed.

(** One [Set] of an entry of [dm1], among the entries already set. *)
Lemma reinstall_step rnd dm A key g d :
  dm_abs dm A -> alike dm -> within A A1 -> Get dm1 key = Some (true, g, d) -> 0 < offset d ->
  exists dm' g' A', Set_ rnd dm key (offset d) (i64 (approxSize d)) (phase d) = Some (dm', g') /\
    dm_abs dm' A' /\ alike dm' /\ within A' A1 /\ dm' = setSegs dm (Segs dm') /\ holdsEntry dm' key d /\
    (forall key' d', (hashPosition dm1 key' = hashPosition dm1 key -> docKey key' = docKey key /\ d' = d) ->
       holdsEntry dm key' d' -> holdsEntry dm' key' d').
Proof.
  intros HA G W Hget Ho. destruct (Get_hit _ _ _ _ _ HA1 Hget) as (Hok & Hin & _).
  pose proof (approxSize_range d Hok) as Hsz.
  assert (offset d < 2 ^ 40) as Hlt by (by apply offset_lt).
  rewrite i64_small by (unfold fits_i64, DirMaxDataSize in *; lia).
  destruct (within_room dm A key HA G W Hin) as [Hfit Hdis].
  destruct (Set_exact rnd dm A key (offset d) (approxSize d) (phase d) HA ltac:(lia) Hsz Hfit Hdis) as (dm' & g' & e & E & Hn & HA' & Hm).
  destruct (hashPosition_bound dm A key (hashPosition dm key).1.1 (hashPosition dm key).1.2 (hashPosition dm key).2 HA (ltac:(by destruct (hashPosition dm key) as [[? ?] ?]))) as (Ht & _ & a & l & _ & Ha & _ & Hl & _).
  destruct (newEntry_spec _ (offset d) (approxSize d) (phase d) Ht ltac:(lia) Hsz) as (e' & Hn' & _ & E1 & E2 & E3 & _ & E4 & _).
  assert (e' = e) as -> by congruence.
  rewrite (alike_position dm key G) in *. set (pos := hashPosition dm1 key) in *.
  assert (forall k, hashPosition dm' k = hashPosition dm1 k) as Hpos' by (intros k; rewrite Hm, hashPosition_setSegs; by apply alike_position).
  assert (is_Some (a ← A !! pos.1.2; a !! pos.2)) as Hsome by (rewrite Ha; cbn [mbind option_bind]; rewrite Hl; eauto).
  assert (forall k, hashPosition dm1 k = pos -> docKey k = docKey key -> holdsEntry dm' k d) as Hnew.
  { intros k Hk Hid. eapply alookup_holds; [done| |exact (conj E1 (conj E3 E4))]. rewrite Hpos', Hk, alookup_bucketOf, bucketOf_putAt by auto.
    rewrite decide_True by done. rewrite <- E2 at 1. change (tag e) with (etag (payload e, docKey key)). rewrite find_put_same.
    cbn [mbind option_bind fst snd]. by rewrite Hid, (bool_decide_eq_true_2 (docKey key = docKey key)), orb_true_r by done. }
  exists dm', g', (putAt A pos (payload e, docKey key)). split_and!; try done.
  - destruct G. rewrite Hm. by split.
  - by apply within_putAt.
  - by apply Hnew.
  - intros k d' Hk (g2 & d2 & Hg2 & Hlike). destruct (decide (hashPosition dm1 k = pos)) as [Hp|Hp].
    { destruct (Hk Hp) as [Hid ->]. by apply Hnew. }
    destruct (Get_abs dm A k HA) as (hit & g3 & d3 & Eg & Ea). rewrite Hg2 in Eg. injection Eg as <- <- <-.
    eapply alookup_holds; [done| |exact Hlike]. rewrite Hpos'. rewrite (alike_position dm k G) in Ea.
    rewrite alookup_bucketOf in Ea |- *. rewrite bucketOf_putAt by auto. case_decide as Hd; [|done]. destruct Hd as [Hd1 Hd2].
    assert ((hashPosition dm1 k).1.1 <> tag e) as Hne.
    { rewrite E2. intros Heq. apply Hp. rewrite (surjective_pairing (hashPosition dm1 k)), (surjective_pairing (hashPosition dm1 k).1), Hd1, Hd2, Heq. by destruct pos as [[? ?] ?]. }
    rewrite find_put_other by exact Hne. assert (bucketOf A pos = bucketOf A (hashPosition dm1 k)) as -> by (unfold bucketOf; by rewrite Hd1, Hd2). done.
Qed.

End Reinstall.
