(* ===== verification/HttpInfo.v ===== *)
(** * HTTP metadata

    [cache/http_info.go]: the metadata stored beside a cached response and its
    binary form.  Times are the [int64] nanoseconds the format stores; the
    header map is ranged over in the order the runtime picks, which the
    encoder takes as an argument. *)

From S2P Require Import Prelude.

Abbreviation Header := (gmap bytes (list bytes)).

Record CacheHTTPInfo : Type := mkInfo {
  RequestTime : Z;
  ResponseTime : Z;
  RequestMethod : bytes;
  RequestURL : bytes;
  Status : Z;
  ResponseHeaders : Header }.

#[global] Instance CacheHTTPInfo_eq_dec : EqDecision CacheHTTPInfo.
Proof. solve_decision. Defined.

Definition NewCacheHTTPInfo : CacheHTTPInfo := mkInfo 0 0 [] [] 0 ∅.

(** [http.Header.Clone] copies every value slice. *)
Definition clone (h : CacheHTTPInfo) : CacheHTTPInfo :=
  mkInfo (RequestTime h) (ResponseTime h) (RequestMethod h) (RequestURL h) (Status h)
         ((fun vs => map id vs) <$> ResponseHeaders h).

(** ** [http.Header] keys *)

Definition isUpper (c : Z) : bool := (65 <=? c) && (c <=? 90).
Definition isLower (c : Z) : bool := (97 <=? c) && (c <=? 122).

(** The token characters of RFC 9110. *)
Definition validHeaderFieldByte (c : Z) : bool :=
  isUpper c || isLower c || ((48 <=? c) && (c <=? 57)) ||
  existsb (Z.eqb c) [33; 35; 36; 37; 38; 39; 42; 43; 45; 46; 94; 95; 96; 124; 126].

Fixpoint canonicalLoop (upper : bool) (s : bytes) : bytes :=
  match s with
  | [] => []
  | c :: s' =>
      let c' := if upper && isLower c then c - 32 else if negb upper && isUpper c then c + 32 else c in
      c' :: canonicalLoop (c' =? 45) s'
  end.

(** [textproto.CanonicalMIMEHeaderKey] *)
Definition CanonicalHeaderKey (s : bytes) : bytes :=
  if forallb validHeaderFieldByte s then canonicalLoop true s else s.

Definition header_add (h : Header) (k v : bytes) : Header :=
  let k := CanonicalHeaderKey k in
  <[k := default [] (h !! k) ++ [v]]> h.

(** ** Encoding *)

Definition encodePair (k v : bytes) : bytes :=
  put_be 2 (u16 (blen k)) ++ k ++ put_be 2 (u16 (blen v)) ++ v.

(** The two nested ranges; the state is the count and the header buffer. *)
Fixpoint encodeVals (k : bytes) (vals : list bytes) (count : Z) (buf : bytes) : result (Z * bytes) :=
  match vals with
  | [] => Ok (count, buf)
  | v :: vals' =>
      let count := count + 1 in
      if (65535 <? count) || (65535 <? blen k) || (65535 <? blen v)
      then Err (Errorf "HTTP metadata headers exceed format limits")
      else encodeVals k vals' count (buf ++ encodePair k v)
  end.

Fixpoint encodeHeaders (order : list (bytes * list bytes)) (count : Z) (buf : bytes) : result (Z * bytes) :=
  match order with
  | [] => Ok (count, buf)
  | (k, vals) :: order' => r ← encodeVals k vals count buf; encodeHeaders order' r.1 r.2
  end.

Definition MarshalBinary_order (order : list (bytes * list bytes)) (h : CacheHTTPInfo) : result bytes :=
  _ ← guarde (negb (65535 <? blen (RequestMethod h))) (Errorf "method too long");
  _ ← guarde (negb (65535 <? blen (RequestURL h))) (Errorf "url too long");
  r ← encodeHeaders order 0 [];
  Ok (put_be 8 (u64 (RequestTime h)) ++ put_be 8 (u64 (ResponseTime h)) ++
      put_be 2 (u16 (blen (RequestMethod h))) ++ RequestMethod h ++
      put_be 2 (u16 (blen (RequestURL h))) ++ RequestURL h ++
      put_be 2 (u16 (Status h)) ++ put_be 2 (u16 r.1) ++ r.2).

Definition MarshalBinary (h : CacheHTTPInfo) : result bytes :=
  MarshalBinary_order (map_to_list (ResponseHeaders h)) h.

(** ** Decoding *)

(** [binary.Read] of an [n]-byte word and [io.ReadFull] of [n] bytes. *)
Definition read_word (n : nat) (l : bytes) : result (Z * bytes) :=
  _ ← read_guard (Z.of_nat n) l; Ok (take_be n l).
Definition read_full (n : Z) (l : bytes) : result (bytes * bytes) :=
  _ ← read_guard n l; Ok (take_bytes (Z.to_nat n) l).
Definition read_string (l : bytes) : result (bytes * bytes) :=
  '(n, l) ← read_word 2 l; read_full n l.

Fixpoint decodeHeaders (n : nat) (l : bytes) (h : Header) : result (Header * bytes) :=
  match n with
  | O => Ok (h, l)
  | S n' =>
      '(k, l) ← read_string l;
      '(v, l) ← read_string l;
      decodeHeaders n' l (header_add h k v)
  end.

Definition UnmarshalBinary (data : bytes) : result CacheHTTPInfo :=
  '(req, l) ← read_word 8 data;
  '(resp, l) ← read_word 8 l;
  '(method, l) ← read_string l;
  '(url, l) ← read_string l;
  '(status, l) ← read_word 2 l;
  '(count, l) ← read_word 2 l;
  '(hs, l) ← decodeHeaders (Z.to_nat count) l ∅;
  if negb (blen l =? 0) then Err (Errorf "trailing HTTP metadata")
  else Ok (mkInfo (i64 req) (i64 resp) method url status hs).

(** ** Round trip *)

Lemma read_word_put n z l : fits (8 * Z.of_nat n) z -> read_word n (put_be n z ++ l) = Ok (z, l).
Proof.
  intros Hz. unfold read_word, read_guard. rewrite blen_app, blen_put_be. pose proof (blen_nonneg l).
  destruct (_ <? _) eqn:E; b2p; [lia|]. cbn [mbind result_bind]. by rewrite take_be_put.
Qed.

Lemma read_full_app s l : read_full (blen s) (s ++ l) = Ok (s, l).
Proof.
  unfold read_full, read_guard. rewrite blen_app. pose proof (blen_nonneg l).
  destruct (_ <? _) eqn:E; b2p; [lia|]. cbn [mbind result_bind]. by rewrite take_bytes_app by (unfold blen; lia).
Qed.

Lemma read_string_put s l : blen s <= 65535 -> read_string (put_be 2 (u16 (blen s)) ++ s ++ l) = Ok (s, l).
Proof.
  intros Hs. pose proof (blen_nonneg s). unfold read_string. rewrite u16_small by (unfold fits; lia).
  rewrite read_word_put by (unfold fits; cbn; lia). cbn [mbind result_bind]. apply read_full_app.
Qed.

Definition pairs (order : list (bytes * list bytes)) : list (bytes * bytes) :=
  order ≫= fun kv => (fun v => (kv.1, v)) <$> kv.2.

Definition pair_ok (p : bytes * bytes) : Prop := blen p.1 <= 65535 /\ blen p.2 <= 65535.

Lemma encodeVals_ok k vals count buf :
  Forall pair_ok ((fun v => (k, v)) <$> vals) -> 0 <= count -> count + Z.of_nat (length vals) <= 65535 ->
  encodeVals k vals count buf =
    Ok (count + Z.of_nat (length vals), buf ++ (vals ≫= encodePair k)).
Proof.
  revert count buf. induction vals as [|v vals IH]; intros count buf F Hc Hl; cbn [encodeVals].
  - cbn. by rewrite Z.add_0_r, app_nil_r.
  - cbn in F. apply Forall_cons in F as [[Hk Hv] F]. cbn [fst snd length] in *.
    destruct (_ || _) eqn:E.
    { exfalso. apply orb_true_iff in E as [E|E]; [apply orb_true_iff in E as [E|E]|]; b2p; lia. }
    rewrite IH by (done || lia). rewrite bind_cons, <- app_assoc. do 2 f_equal. lia.
Qed.

Lemma bind_pairs k (vals : list bytes) :
  ((fun v => (k, v)) <$> vals) ≫= (fun p => encodePair p.1 p.2) = vals ≫= encodePair k.
Proof. induction vals as [|v vals IH]; [done|]. rewrite fmap_cons, !bind_cons. by rewrite IH. Qed.

Lemma encodeHeaders_ok order count buf :
  Forall pair_ok (pairs order) -> 0 <= count -> count + Z.of_nat (length (pairs order)) <= 65535 ->
  encodeHeaders order count buf =
    Ok (count + Z.of_nat (length (pairs order)), buf ++ (pairs order ≫= fun p => encodePair p.1 p.2)).
Proof.
  revert count buf. induction order as [|[k vals] order IH]; intros count buf F Hc Hl; cbn [encodeHeaders].
  - cbn. by rewrite Z.add_0_r, app_nil_r.
  - unfold pairs in *. rewrite bind_cons in *. cbn [fst snd] in *. apply Forall_app in F as [F1 F2].
    rewrite length_app, length_fmap in Hl.
    rewrite encodeVals_ok by (done || lia). cbn [mbind result_bind fst snd].
    rewrite IH by (done || lia). rewrite length_app, length_fmap, bind_app, <- app_assoc. do 2 f_equal; [lia|].
    by rewrite bind_pairs.
Qed.

Lemma decodeHeaders_encode ps l h :
  Forall pair_ok ps ->
  decodeHeaders (length ps) ((ps ≫= fun p => encodePair p.1 p.2) ++ l) h =
    Ok (foldl (fun h p => header_add h p.1 p.2) h ps, l).
Proof.
  intros F. revert h. induction F as [|[k v] ps [Hk Hv] F IH]; intros h; [done|].
  cbn [length decodeHeaders]. rewrite bind_cons. cbn [fst snd]. unfold encodePair at 1. rewrite <- !app_assoc.
  rewrite read_string_put by done. cbn [mbind result_bind]. rewrite read_string_put by done. cbn [mbind result_bind].
  by rewrite IH.
Qed.

(** Re-adding the pairs of a header map in any order rebuilds it. *)
Lemma add_vals k vals h :
  CanonicalHeaderKey k = k -> vals <> [] ->
  foldl (fun h p => header_add h p.1 p.2) h ((fun v => (k, v)) <$> vals) = <[k := default [] (h !! k) ++ vals]> h.
Proof.
  intros Hk. revert h. induction vals as [|v vals IH]; intros h Hne; [done|]. cbn [fmap list_fmap foldl fst snd].
  assert (header_add h k v = <[k := default [] (h !! k) ++ [v]]> h) as -> by (unfold header_add; by rewrite Hk).
  destruct vals as [|v' vals]; [done|]. rewrite IH by done. rewrite lookup_insert_eq. cbn [default from_option].
  rewrite insert_insert_eq. cbn. by rewrite <- app_assoc.
Qed.

Lemma rebuild_header order :
  NoDup order.*1 -> Forall (fun kv => CanonicalHeaderKey kv.1 = kv.1 /\ kv.2 <> []) order ->
  forall h, (forall k, k ∈ order.*1 -> h !! k = None) ->
  foldl (fun h p => header_add h p.1 p.2) h (pairs order) = list_to_map order ∪ h.
Proof.
  induction order as [|[k vals] order IH]; intros N F h Hh.
  - cbn. by rewrite map_empty_union.
  - apply NoDup_cons in N as [Hk N]. apply Forall_cons in F as [[Hck Hne] F]. unfold pairs. rewrite bind_cons, foldl_app.
    cbn [fst snd] in *. rewrite add_vals by done. rewrite Hh by set_solver. cbn [default from_option app].
    fold (pairs order). rewrite IH.
    + rewrite list_to_map_cons, <- insert_union_l, <- insert_union_r; [done|]. by apply not_elem_of_list_to_map_1.
    + done.
    + done.
    + intros k' Hk'. rewrite lookup_insert_ne by (intros ->; done). apply Hh. set_solver.
Qed.

(** What a writer hands to the format: times and status in range, canonical
    keys with at least one value, and the format's length limits. *)
Definition info_ok (h : CacheHTTPInfo) : Prop :=
  fits_i64 (RequestTime h) /\ fits_i64 (ResponseTime h) /\ blen (RequestMethod h) <= 65535 /\
  blen (RequestURL h) <= 65535 /\ fits 16 (Status h) /\
  map_Forall (fun k vs => CanonicalHeaderKey k = k /\ vs <> []) (ResponseHeaders h) /\
  Forall pair_ok (pairs (map_to_list (ResponseHeaders h))) /\
  Z.of_nat (length (pairs (map_to_list (ResponseHeaders h)))) <= 65535.

Lemma i64_of_u64 z : fits_i64 z -> i64 (u64 z) = z.
Proof.
  unfold fits_i64, i64, u64. intros Hz. rewrite Z.add_mod_idemp_l by lia. rewrite Z.mod_small; lia.
Qed.

Lemma info_decode_encode h order :
  info_ok h -> order ≡ₚ map_to_list (ResponseHeaders h) ->
  exists data, MarshalBinary_order order h = Ok data /\ UnmarshalBinary data = Ok h.
Proof.
  intros (H1 & H2 & H3 & H4 & H5 & H6 & H7 & H8) Hp.
  assert (pairs order ≡ₚ pairs (map_to_list (ResponseHeaders h))) as Hpp by (unfold pairs; by rewrite Hp).
  rewrite <- Hpp in H7, H8. unfold MarshalBinary_order.
  unfold guarde. destruct (65535 <? blen (RequestMethod h)) eqn:E1; b2p; [lia|].
  destruct (65535 <? blen (RequestURL h)) eqn:E2; b2p; [lia|]. cbn [negb mbind result_bind].
  rewrite encodeHeaders_ok by (done || lia). cbn [mbind result_bind fst snd app]. rewrite Z.add_0_l.
  eexists; split; [done|]. unfold UnmarshalBinary.
  rewrite read_word_put by apply u64_fits. cbn [mbind result_bind]. rewrite read_word_put by apply u64_fits.
  cbn [mbind result_bind]. rewrite read_string_put by done. cbn [mbind result_bind].
  rewrite read_string_put by done. cbn [mbind result_bind]. rewrite read_word_put by apply u16_fits.
  cbn [mbind result_bind]. rewrite read_word_put by apply u16_fits. cbn [mbind result_bind].
  rewrite (u16_small (Z.of_nat _)) by (unfold fits; lia). rewrite Nat2Z.id.
  rewrite <- (app_nil_r (pairs order ≫= _)), decodeHeaders_encode by done. cbn [mbind result_bind].
  assert (order.*1 ≡ₚ (map_to_list (ResponseHeaders h)).*1) as Hp1 by (by rewrite Hp).
  rewrite rebuild_header.
  - rewrite map_union_empty, (list_to_map_proper order (map_to_list (ResponseHeaders h))), list_to_map_to_list.
    + cbn. rewrite !i64_of_u64, u16_small by done. by destruct h.
    + rewrite Hp1. apply NoDup_fst_map_to_list.
    + done.
  - rewrite Hp1. apply NoDup_fst_map_to_list.
  - rewrite Hp. apply map_Forall_to_list in H6. eapply Forall_impl; [exact H6|]. by intros [].
  - intros k _. apply lookup_empty.
Qed.

(** ** Sizes of what is decoded *)

Lemma read_word_bound n l z l' :
  bytes_ok l -> read_word n l = Ok (z, l') -> 0 <= z < 256 ^ Z.of_nat n /\ bytes_ok l'.
Proof.
  intros Hl. unfold read_word, read_guard, take_be. destruct (_ <? _) eqn:E; [done|]. b2p. cbn. intros [= <- <-].
  split; [|by apply Forall_drop]. pose proof (get_be_bound (take n l) ltac:(by apply Forall_take)) as Hb.
  unfold blen in *. rewrite length_take in Hb. replace (n `min` length l)%nat with n in Hb by lia. done.
Qed.

Lemma read_string_bound l s l' :
  bytes_ok l -> read_string l = Ok (s, l') -> blen s <= 65535 /\ bytes_ok l'.
Proof.
  intros Hl. unfold read_string. intros X. go_ok X. destruct x as [n l1].
  destruct (read_word_bound _ _ _ _ Hl X0) as [Hn Hl1]. change (256 ^ Z.of_nat 2) with 65536 in Hn.
  unfold read_full, read_guard, take_bytes in X. destruct (_ <? _) eqn:E; [done|]. cbn in X. injection X as <- <-.
  split; [|by apply Forall_drop]. unfold blen. rewrite length_take. lia.
Qed.

Lemma blen_CanonicalHeaderKey s : blen (CanonicalHeaderKey s) = blen s.
Proof.
  unfold CanonicalHeaderKey. destruct (forallb _ _); [|done]. unfold blen. f_equal.
  generalize true. induction s as [|c s IH]; intros b; [done|]. cbn. by rewrite IH.
Qed.

(** HTTP metadata within the format's limits survives encoding and
    decoding unchanged, for every iteration order of the header map. *)
Theorem httpinfo_roundtrip h order :
  info_ok h -> order ≡ₚ map_to_list (ResponseHeaders h) ->
  exists data, MarshalBinary_order order h = Ok data /\ UnmarshalBinary data = Ok h.
Proof. apply info_decode_encode. Qed.

Definition sampleInfo : CacheHTTPInfo :=
  mkInfo 5 (-7) [71; 69; 84] [104; 58] 200 {[ [69; 116; 97; 103] := [[34; 120; 34]; [97]] ]}.

Lemma httpinfo_roundtrip_witness :
  info_ok sampleInfo /\ exists data, MarshalBinary_order (map_to_list (ResponseHeaders sampleInfo)) sampleInfo = Ok data /\
    UnmarshalBinary data = Ok sampleInfo.
Proof.
  assert (info_ok sampleInfo) as H.
  { unfold info_ok. split; [concrete|]. split; [concrete|]. split; [concrete|]. split; [concrete|].
    split; [concrete|]. split; [|split].
    - apply map_Forall_singleton. split; [vm_compute; reflexivity|discriminate].
    - cbn [ResponseHeaders sampleInfo]. rewrite map_to_list_singleton. cbn. unfold pair_ok. concrete.
    - cbn [ResponseHeaders sampleInfo]. rewrite map_to_list_singleton. vm_compute. discriminate. }
  split; [exact H|]. apply (httpinfo_roundtrip sampleInfo); [exact H|reflexivity].
Defined.
