(* ===== verification/RamCache.v ===== *)
(** * The RAM cache

    [cache/ram_cache.go], [cache/ram_metadata.go] and the S3-FIFO policy of
    [cache/ram_s3fifo.go].  A queue element is represented by its key (a key
    has at most one [fifoEntry]); counters and byte totals are [uint64] and
    wrap.  [None] is a nil dereference or a loop that would not end.  The
    other policy, otter, is a third-party package and enters through the
    interface [RamPolicy]. *)

From S2P Require Import Prelude Hash Dir Doc HttpInfo.

(** ** Entries *)

Record ramEntry : Type := mkRamEntry {
  re_data : bytes;
  re_info : option CacheHTTPInfo;
  re_checksum : Z;
  re_weight : Z }.

(** The decoded-metadata charge of one header map entry. *)
Definition headerCharge (kv : bytes * list bytes) : Z :=
  160 + blen kv.1 + Z.of_nat (length kv.2) * 32 + sumZ blen kv.2.

Definition newRAMEntry (data : bytes) : ramEntry :=
  let weight := u32 (Z.max 1 (blen data)) in
  let e := mkRamEntry data None 0 weight in
  if blen data <? DocHeaderSize then e
  else match Doc.UnmarshalBinary (slice data 0 DocHeaderSize) with
  | Err _ => e
  | Ok doc =>
      if negb (Magic doc =? DocMagic) || (HLen doc =? 0) || (blen data - DocHeaderSize <? HLen doc) then e
      else match HttpInfo.UnmarshalBinary (slice data DocHeaderSize (DocHeaderSize + HLen doc)) with
      | Err _ => e
      | Ok info =>
          let charge := u64 (weight + 256 + (blen (RequestMethod info) + blen (RequestURL info)) +
                             sumZ headerCharge (map_to_list (ResponseHeaders info))) in
          if 2 ^ 32 - 1 <? charge then e
          else mkRamEntry data (Some info) (Checksum doc) (u32 charge)
      end
  end.

Lemma headerCharge_nonneg kv : 0 <= headerCharge kv.
Proof.
  unfold headerCharge. pose proof (blen_nonneg kv.1).
  pose proof (sumZ_nonneg blen kv.2 ltac:(intros; apply blen_nonneg)). lia.
Qed.

(** Adding one header field charges at most its key, its value and 192. *)
Lemma header_add_charge h k v :
  0 <= sumZ headerCharge (map_to_list (header_add h k v)) <=
    sumZ headerCharge (map_to_list h) + 192 + blen k + blen v.
Proof.
  split; [apply sumZ_nonneg; intros; apply headerCharge_nonneg|].
  unfold header_add. set (k' := CanonicalHeaderKey k). assert (blen k' = blen k) as Hk by apply blen_CanonicalHeaderKey.
  destruct (h !! k') as [vs|] eqn:E.
  - change (default [] (Some vs)) with vs. rewrite <- insert_delete_eq. rewrite map_to_list_insert by apply lookup_delete_eq.
    rewrite <- (insert_delete_id h k' vs E) at 2. rewrite map_to_list_insert by apply lookup_delete_eq.
    cbn [sumZ].
    assert (headerCharge (k', vs ++ [v]) = headerCharge (k', vs) + 32 + blen v) as ->.
    { unfold headerCharge. cbn [fst snd]. rewrite sumZ_app, length_app. cbn [sumZ length]. lia. }
    pose proof (blen_nonneg k). lia.
  - change (default [] (@None (list bytes))) with (@nil bytes). rewrite map_to_list_insert by done. cbn [sumZ app].
    assert (headerCharge (k', [v]) = 192 + blen k' + blen v) as ->; [|lia].
    unfold headerCharge. cbn [fst snd sumZ length]. lia.
Qed.

Lemma decodeHeaders_charge n l h h' l' :
  bytes_ok l -> decodeHeaders n l h = Ok (h', l') ->
  sumZ headerCharge (map_to_list h') <= sumZ headerCharge (map_to_list h) + Z.of_nat n * 131262.
Proof.
  revert l h. induction n as [|n IH]; intros l h Hl; cbn [decodeHeaders]; [intros [= <- _]; lia|].
  intros X. go_ok X. destruct x as [k l1]. go_ok X. destruct x as [v l2].
  destruct (read_string_bound _ _ _ Hl X0) as [B1 Hl1]. destruct (read_string_bound _ _ _ Hl1 X1) as [B2 Hl2].
  specialize (IH _ _ Hl2 X). pose proof (header_add_charge h k v). lia.
Qed.

Lemma info_charge data info :
  bytes_ok data -> HttpInfo.UnmarshalBinary data = Ok info ->
  0 <= blen (RequestMethod info) <= 65535 /\ 0 <= blen (RequestURL info) <= 65535 /\
  0 <= sumZ headerCharge (map_to_list (ResponseHeaders info)) <= 65535 * 131262.
Proof.
  intros Hd. unfold HttpInfo.UnmarshalBinary. intros X.
  go_ok X. destruct x as [req l1]. go_ok X. destruct x as [resp l2]. go_ok X. destruct x as [m l3].
  go_ok X. destruct x as [u l4]. go_ok X. destruct x as [st l5]. go_ok X. destruct x as [cnt l6].
  go_ok X. destruct x as [hs l7]. destruct (negb _); [done|]. injection X as <-. cbn [RequestMethod RequestURL ResponseHeaders].
  destruct (read_word_bound _ _ _ _ Hd X0) as [_ K1]. destruct (read_word_bound _ _ _ _ K1 X1) as [_ K2].
  destruct (read_string_bound _ _ _ K2 X2) as [B1 K3]. destruct (read_string_bound _ _ _ K3 X3) as [B2 K4].
  destruct (read_word_bound _ _ _ _ K4 X4) as [_ K5]. destruct (read_word_bound _ _ _ _ K5 X5) as [B3 K6].
  pose proof (decodeHeaders_charge _ _ _ _ _ K6 X6) as B4. rewrite map_to_list_empty in B4. cbn [sumZ] in B4.
  change (256 ^ Z.of_nat 2) with 65536 in B3. pose proof (blen_nonneg m). pose proof (blen_nonneg u).
  pose proof (sumZ_nonneg headerCharge (map_to_list hs) ltac:(intros; apply headerCharge_nonneg)). lia.
Qed.

(** ** S3-FIFO *)

Inductive Seg : Type := Small | Main | Ghost.
#[global] Instance Seg_eq_dec : EqDecision Seg.
Proof. solve_decision. Defined.

Record fifoEntry : Type := mkFifoEntry {
  fe_value : option ramEntry;   (** [nil] once the entry is a ghost *)
  fe_charge : Z;
  fe_freq : Z;
  fe_segment : Seg }.

Record counters : Type := mkCounters { Hits : Z; Misses : Z; Evictions : Z; EvictionWeight : Z }.

Record s3FIFO : Type := mkFifo {
  f_capacity : Z; smallBytes : Z; mainBytes : Z; payloadBytes : Z; ghostBytes : Z; ghostMetadata : Z;
  entryLimit : Z;
  f_entries : gmap bytes fifoEntry;
  qSmall : list bytes; qMain : list bytes; qGhost : list bytes;
  f_counters : counters;
  promotions : Z; ghostHits : Z }.

Definition newS3FIFO (capacity : Z) : s3FIFO :=
  mkFifo capacity 0 0 0 0 0 (Z.min capacity 65536) ∅ [] [] [] (mkCounters 0 0 0 0) 0 0.

Definition queue (c : s3FIFO) (s : Seg) : list bytes :=
  match s with Small => qSmall c | Main => qMain c | Ghost => qGhost c end.

Definition setQueue (c : s3FIFO) (s : Seg) (q : list bytes) : s3FIFO :=
  mkFifo (f_capacity c) (smallBytes c) (mainBytes c) (payloadBytes c) (ghostBytes c) (ghostMetadata c)
    (entryLimit c) (f_entries c)
    (match s with Small => q | _ => qSmall c end) (match s with Main => q | _ => qMain c end)
    (match s with Ghost => q | _ => qGhost c end) (f_counters c) (promotions c) (ghostHits c).

Definition setBytes (c : s3FIFO) (sb mb pb gb gm : Z) : s3FIFO :=
  mkFifo (f_capacity c) (u64 sb) (u64 mb) (u64 pb) (u64 gb) (u64 gm) (entryLimit c) (f_entries c)
    (qSmall c) (qMain c) (qGhost c) (f_counters c) (promotions c) (ghostHits c).

Definition setEntries (c : s3FIFO) (m : gmap bytes fifoEntry) : s3FIFO :=
  mkFifo (f_capacity c) (smallBytes c) (mainBytes c) (payloadBytes c) (ghostBytes c) (ghostMetadata c)
    (entryLimit c) m (qSmall c) (qMain c) (qGhost c) (f_counters c) (promotions c) (ghostHits c).

Definition setStats (c : s3FIFO) (st : counters) (p g : Z) : s3FIFO :=
  mkFifo (f_capacity c) (smallBytes c) (mainBytes c) (payloadBytes c) (ghostBytes c) (ghostMetadata c)
    (entryLimit c) (f_entries c) (qSmall c) (qMain c) (qGhost c) st p g.

Definition countEviction (c : s3FIFO) (charge : Z) : s3FIFO :=
  let st := f_counters c in
  setStats c (mkCounters (Hits st) (Misses st) (u64 (Evictions st + 1)) (u64 (EvictionWeight st + charge)))
           (promotions c) (ghostHits c).

Definition setFreq (e : fifoEntry) (f : Z) : fifoEntry :=
  mkFifoEntry (fe_value e) (fe_charge e) f (fe_segment e).

Definition fifo_get (c : s3FIFO) (key : bytes) : option ramEntry * s3FIFO :=
  let st := f_counters c in
  match f_entries c !! key with
  | Some e =>
      if decide (fe_segment e = Ghost) then
        (None, setStats c (mkCounters (Hits st) (u64 (Misses st + 1)) (Evictions st) (EvictionWeight st)) (promotions c) (ghostHits c))
      else
        (fe_value e,
         setStats (setEntries c (<[key := setFreq e (Z.min 3 (u8 (fe_freq e + 1)))]> (f_entries c)))
                  (mkCounters (u64 (Hits st + 1)) (Misses st) (Evictions st) (EvictionWeight st)) (promotions c) (ghostHits c))
  | None =>
      (None, setStats c (mkCounters (Hits st) (u64 (Misses st + 1)) (Evictions st) (EvictionWeight st)) (promotions c) (ghostHits c))
  end.

(** [list.Remove] of the element of [key]. *)
Definition removeKey (key : bytes) (q : list bytes) : list bytes := filter (fun k => k <> key) q.

(** [len(e.value.data)], a nil dereference for a ghost. *)
Definition dataLen (e : fifoEntry) : option Z := v ← fe_value e; Some (blen (re_data v)).

Definition unlink (c : s3FIFO) (key : bytes) (e : fifoEntry) : option s3FIFO :=
  let c := setQueue c (fe_segment e) (removeKey key (queue c (fe_segment e))) in
  c ← match fe_segment e with
      | Small => n ← dataLen e;
          Some (setBytes c (smallBytes c - fe_charge e) (mainBytes c) (payloadBytes c - n) (ghostBytes c) (ghostMetadata c))
      | Main => n ← dataLen e;
          Some (setBytes c (smallBytes c) (mainBytes c - fe_charge e) (payloadBytes c - n) (ghostBytes c) (ghostMetadata c))
      | Ghost =>
          Some (setBytes c (smallBytes c) (mainBytes c) (payloadBytes c) (ghostBytes c - fe_charge e)
                  (ghostMetadata c - (128 + blen key)))
      end;
  Some (setEntries c (delete key (f_entries c))).

Definition append (c : s3FIFO) (key : bytes) (e : fifoEntry) (s : Seg) : option s3FIFO :=
  let e := mkFifoEntry (fe_value e) (fe_charge e) (fe_freq e) s in
  let c := setQueue c s (queue c s ++ [key]) in
  let c := setEntries c (<[key := e]> (f_entries c)) in
  match s with
  | Small => n ← dataLen e;
      Some (setBytes c (smallBytes c + fe_charge e) (mainBytes c) (payloadBytes c + n) (ghostBytes c) (ghostMetadata c))
  | Main => n ← dataLen e;
      Some (setBytes c (smallBytes c) (mainBytes c + fe_charge e) (payloadBytes c + n) (ghostBytes c) (ghostMetadata c))
  | Ghost =>
      Some (setBytes c (smallBytes c) (mainBytes c) (payloadBytes c) (ghostBytes c + fe_charge e)
              (ghostMetadata c + (128 + blen key)))
  end.

Definition ghostOver (c : s3FIFO) : bool :=
  (f_capacity c <? ghostBytes c) || (Z.max 128 (f_capacity c / 10) <? ghostMetadata c) ||
  (entryLimit c <? Z.of_nat (length (qGhost c))).

Fixpoint trimGhost_loop (fuel : nat) (c : s3FIFO) : option s3FIFO :=
  if ghostOver c then
    match fuel, qGhost c with
    | S fuel', key :: _ => e ← f_entries c !! key; c ← unlink c key e; trimGhost_loop fuel' c
    | _, _ => None
    end
  else Some c.
Definition trimGhost (c : s3FIFO) : option s3FIFO := trimGhost_loop (S (length (qGhost c))) c.

(** The loop over the main queue; the flag tells whether it evicted. *)
Fixpoint evictMain (fuel : nat) (c : s3FIFO) : option (s3FIFO * bool) :=
  match qMain c with
  | [] => Some (c, false)
  | key :: q =>
      match fuel with
      | O => None
      | S fuel' =>
          e ← f_entries c !! key;
          if decide (0 < fe_freq e) then
            evictMain fuel' (setQueue (setEntries c (<[key := setFreq e (fe_freq e - 1)]> (f_entries c))) Main (q ++ [key]))
          else
            c ← unlink (countEviction c (fe_charge e)) key e;
            Some (c, true)
      end
  end.

Fixpoint evictSmall (fuel : nat) (c : s3FIFO) : option s3FIFO :=
  match qSmall c with
  | [] => Some c
  | key :: _ =>
      match fuel with
      | O => None
      | S fuel' =>
          e ← f_entries c !! key;
          c ← unlink c key e;
          if decide (2 <= fe_freq e) then
            c ← append c key (setFreq e 0) Main;
            evictSmall fuel' (setStats c (f_counters c) (u64 (promotions c + 1)) (ghostHits c))
          else
            let c := countEviction c (fe_charge e) in
            c ← append c key (mkFifoEntry None (fe_charge e) 0 (fe_segment e)) Ghost;
            trimGhost c
      end
  end.

(** Frequencies are at most 3, so [3 * n + 1] rounds visit an entry of
    frequency 0 in a main queue of [n] entries. *)
Definition evict (c : s3FIFO) : option s3FIFO :=
  r ← (if (u64 (f_capacity c * 9) / 10 <? mainBytes c) || bool_decide (length (qSmall c) = 0%nat)
       then evictMain (3 * length (qMain c) + 1) c else Some (c, false));
  let '(c, evicted) := r in
  if evicted : bool then Some c else evictSmall (S (length (qSmall c))) c.

Fixpoint evictWhile (fuel : nat) (over : s3FIFO -> bool) (c : s3FIFO) : option s3FIFO :=
  if over c then
    match fuel with
    | O => None
    | S fuel' => c ← evict c; evictWhile fuel' over c
    end
  else Some c.

(** Each call of [evict] removes a resident entry, or empties the small queue
    into the main one. *)
Definition evictFuel (c : s3FIFO) : nat := 2 * (length (qSmall c) + length (qMain c)) + 2.

Definition residentOver (c : s3FIFO) : bool := f_capacity c <? u64 (smallBytes c + mainBytes c).
Definition admitOver (charge : Z) (c : s3FIFO) : bool :=
  (f_capacity c <? u64 (u64 (smallBytes c + mainBytes c) + charge)) ||
  (entryLimit c <=? Z.of_nat (length (qSmall c) + length (qMain c))).

Definition fifo_put (c : s3FIFO) (key : bytes) (value : ramEntry) : option s3FIFO :=
  let charge := re_weight value in
  let admitIn (c : s3FIFO) (s : Seg) :=
    c ← evictWhile (evictFuel c) (admitOver charge) c;
    append c key (mkFifoEntry (Some value) charge 0 s) s in
  match f_entries c !! key with
  | Some old =>
      if decide (fe_segment old <> Ghost) then
        n ← dataLen old;
        let pb := payloadBytes c - n + blen (re_data value) in
        let c := match fe_segment old with
                 | Small => setBytes c (smallBytes c - fe_charge old + charge) (mainBytes c) pb (ghostBytes c) (ghostMetadata c)
                 | _ => setBytes c (smallBytes c) (mainBytes c - fe_charge old + charge) pb (ghostBytes c) (ghostMetadata c)
                 end in
        let c := setEntries c (<[key := mkFifoEntry (Some value) charge (Z.min 3 (u8 (fe_freq old + 1))) (fe_segment old)]> (f_entries c)) in
        evictWhile (evictFuel c) residentOver c
      else
        c ← unlink (setStats c (f_counters c) (promotions c) (u64 (ghostHits c + 1))) key old;
        admitIn c Main
  | None => admitIn c Small
  end.

Definition fifo_delete (c : s3FIFO) (key : bytes) : option s3FIFO :=
  match f_entries c !! key with
  | Some e => unlink c key e
  | None => Some c
  end.

Record RAMStats : Type := mkRAMStats {
  st_counters : counters; st_ResidentBytes : Z; st_ChargedBytes : Z; st_ResidentEntries : Z;
  st_SmallEntries : Z; st_MainEntries : Z; st_GhostEntries : Z; st_GhostBytes : Z; st_Promotions : Z;
  st_GhostHits : Z; st_EstimatedMetadataBytes : Z; st_DecodedMetadataBytes : Z }.

(** The decoded share of a resident entry's charge. *)
Definition decodedBytes (kv : bytes * fifoEntry) : Z :=
  match fe_value kv.2 with
  | Some v => u64 (fe_charge kv.2 - Z.max 1 (blen (re_data v)))
  | None => 0
  end.

Definition snapshot (c : s3FIFO) : RAMStats :=
  let resident := filter (fun kv : bytes * fifoEntry => fe_segment kv.2 <> Ghost) (map_to_list (f_entries c)) in
  let decoded := sumZ decodedBytes resident in
  mkRAMStats (f_counters c) (payloadBytes c) (u64 (smallBytes c + mainBytes c))
    (Z.of_nat (length (qSmall c) + length (qMain c))) (Z.of_nat (length (qSmall c)))
    (Z.of_nat (length (qMain c))) (Z.of_nat (length (qGhost c))) (ghostBytes c) (promotions c) (ghostHits c)
    (u64 (ghostMetadata c + sumZ (fun kv => 128 + blen kv.1 + decodedBytes kv) resident)) (u64 decoded).

(** ** The accounting invariant *)

Definition chargeIn (m : gmap bytes fifoEntry) (k : bytes) : Z :=
  match m !! k with Some e => fe_charge e | None => 0 end.
Definition payloadIn (m : gmap bytes fifoEntry) (k : bytes) : Z :=
  match m !! k with Some e => match fe_value e with Some v => blen (re_data v) | None => 0 end | None => 0 end.
Definition ghostCost (k : bytes) : Z := 128 + blen k.

Record entry_ok (e : fifoEntry) : Prop := mk_entry_ok {
  eo_freq : 0 <= fe_freq e <= 3;
  eo_charge : 0 <= fe_charge e < 2 ^ 32;
  eo_value : match fe_value e with
             | Some v => fe_segment e <> Ghost /\ blen (re_data v) <= fe_charge e
             | None => fe_segment e = Ghost
             end }.

Record fifo_ok (c : s3FIFO) : Prop := mk_fifo_ok {
  fo_nodup : NoDup (qSmall c ++ qMain c ++ qGhost c);
  fo_entry : forall k e, f_entries c !! k = Some e -> entry_ok e /\ k ∈ queue c (fe_segment e);
  fo_queue : forall s k, k ∈ queue c s -> exists e, f_entries c !! k = Some e /\ fe_segment e = s;
  fo_small : smallBytes c = sumZ (chargeIn (f_entries c)) (qSmall c);
  fo_main : mainBytes c = sumZ (chargeIn (f_entries c)) (qMain c);
  fo_ghost : ghostBytes c = sumZ (chargeIn (f_entries c)) (qGhost c);
  fo_payload : payloadBytes c = sumZ (payloadIn (f_entries c)) (qSmall c) + sumZ (payloadIn (f_entries c)) (qMain c);
  fo_meta : ghostMetadata c = sumZ ghostCost (qGhost c);
  fo_res_bound : smallBytes c + mainBytes c < 2 ^ 63;
  fo_ghost_bound : ghostBytes c < 2 ^ 63;
  fo_meta_bound : ghostMetadata c < 2 ^ 63 }.

Lemma removeKey_notin k q : k ∉ q -> removeKey k q = q.
Proof.
  unfold removeKey. induction q as [|a q IH]; [done|]. intros H. rewrite filter_cons_True by set_solver.
  f_equal. apply IH. set_solver.
Qed.
Lemma removeKey_head k q : k ∉ q -> removeKey k (k :: q) = q.
Proof. intros H. unfold removeKey. rewrite filter_cons_False by (intros C; by apply C). by apply removeKey_notin. Qed.
Lemma elem_of_removeKey k k' q : k' ∈ removeKey k q <-> k' <> k /\ k' ∈ q.
Proof. unfold removeKey. by rewrite list_elem_of_filter. Qed.
Lemma removeKey_sublist k q : removeKey k q `sublist_of` q.
Proof. apply sublist_filter. Qed.
Lemma sumZ_removeKey f k q : NoDup q -> k ∈ q -> sumZ f q = f k + sumZ f (removeKey k q).
Proof.
  induction q as [|a q IH]; [set_solver|]. intros N Hk. apply NoDup_cons in N as [Ha N].
  destruct (decide (a = k)) as [->|Hne]; [by rewrite removeKey_head|].
  unfold removeKey in *. rewrite filter_cons_True by done. cbn. rewrite IH by set_solver. lia.
Qed.
Lemma length_removeKey k q : NoDup q -> k ∈ q -> length q = S (length (removeKey k q)).
Proof.
  induction q as [|a q IH]; [set_solver|]. intros N Hk. apply NoDup_cons in N as [Ha N].
  destruct (decide (a = k)) as [->|Hne]; [by rewrite removeKey_head|].
  unfold removeKey in *. rewrite filter_cons_True by done. cbn. rewrite IH by set_solver. done.
Qed.

Lemma chargeIn_delete m k k' : k' <> k -> chargeIn (delete k m) k' = chargeIn m k'.
Proof. intros. unfold chargeIn. by rewrite lookup_delete_ne. Qed.
Lemma payloadIn_delete m k k' : k' <> k -> payloadIn (delete k m) k' = payloadIn m k'.
Proof. intros. unfold payloadIn. by rewrite lookup_delete_ne. Qed.
Lemma chargeIn_insert m k k' e : k' <> k -> chargeIn (<[k := e]> m) k' = chargeIn m k'.
Proof. intros. unfold chargeIn. by rewrite lookup_insert_ne. Qed.
Lemma payloadIn_insert m k k' e : k' <> k -> payloadIn (<[k := e]> m) k' = payloadIn m k'.
Proof. intros. unfold payloadIn. by rewrite lookup_insert_ne. Qed.

(** The queues are pairwise disjoint. *)
Lemma queue_NoDup c s : fifo_ok c -> NoDup (queue c s).
Proof.
  intros [N _ _ _ _ _ _ _ _ _ _]. apply NoDup_app in N as (N1 & _ & N). apply NoDup_app in N as (N2 & _ & N3). by destruct s.
Qed.
Lemma queue_unique c s s' k : fifo_ok c -> k ∈ queue c s -> k ∈ queue c s' -> s = s'.
Proof.
  intros H Hk Hk'. destruct (fo_queue _ H _ _ Hk) as (e & He & <-), (fo_queue _ H _ _ Hk') as (e' & He' & <-). congruence.
Qed.
Lemma charge_nonneg c k : fifo_ok c -> 0 <= chargeIn (f_entries c) k.
Proof.
  intros H. unfold chargeIn. destruct (_ !! _) as [e|] eqn:E; [|lia].
  destruct (fo_entry _ H _ _ E) as [[_ ? _] _]. lia.
Qed.
Lemma payload_nonneg c k : fifo_ok c -> 0 <= payloadIn (f_entries c) k <= chargeIn (f_entries c) k \/ payloadIn (f_entries c) k = 0.
Proof.
  intros H. unfold payloadIn, chargeIn. destruct (_ !! _) as [e|] eqn:E; [|by right].
  destruct (fo_entry _ H _ _ E) as [[_ ? Hv] _]. destruct (fe_value e) as [v|]; [|by right].
  left. pose proof (blen_nonneg (re_data v)). lia.
Qed.
Lemma sums_nonneg c q : fifo_ok c ->
  0 <= sumZ (chargeIn (f_entries c)) q /\ 0 <= sumZ (payloadIn (f_entries c)) q <= sumZ (chargeIn (f_entries c)) q.
Proof.
  intros H. induction q as [|k q IH]; cbn; [lia|]. pose proof (charge_nonneg c k H).
  destruct (payload_nonneg c k H); lia.
Qed.
Lemma ghostCost_pos k : 128 <= ghostCost k.
Proof. unfold ghostCost. pose proof (blen_nonneg k). lia. Qed.
Lemma meta_nonneg q : 128 * Z.of_nat (length q) <= sumZ ghostCost q.
Proof. induction q as [|k q IH]; cbn -[Z.mul]; [lia|]. pose proof (ghostCost_pos k). lia. Qed.

(** Totals are in range, so no [uint64] update below wraps. *)
Lemma bytes_range c : fifo_ok c ->
  0 <= smallBytes c /\ 0 <= mainBytes c /\ 0 <= ghostBytes c /\ 0 <= ghostMetadata c /\
  0 <= payloadBytes c <= smallBytes c + mainBytes c.
Proof.
  intros H. rewrite (fo_small _ H), (fo_main _ H), (fo_ghost _ H), (fo_meta _ H), (fo_payload _ H).
  pose proof (sums_nonneg c (qSmall c) H). pose proof (sums_nonneg c (qMain c) H).
  pose proof (sums_nonneg c (qGhost c) H). pose proof (meta_nonneg (qGhost c)). lia.
Qed.

(** [same_conf c c']: capacity and entry limit are fixed. *)
Definition same_conf (c c' : s3FIFO) : Prop :=
  f_capacity c' = f_capacity c /\ entryLimit c' = entryLimit c.

Lemma sum_delete c k q :
  k ∉ q -> sumZ (chargeIn (delete k (f_entries c))) q = sumZ (chargeIn (f_entries c)) q /\
           sumZ (payloadIn (delete k (f_entries c))) q = sumZ (payloadIn (f_entries c)) q.
Proof.
  intros Hk. split; apply sumZ_ext; intros x Hx; [apply chargeIn_delete|apply payloadIn_delete]; intros ->; done.
Qed.
Lemma sum_insert c k e q :
  k ∉ q -> sumZ (chargeIn (<[k := e]> (f_entries c))) q = sumZ (chargeIn (f_entries c)) q /\
           sumZ (payloadIn (<[k := e]> (f_entries c))) q = sumZ (payloadIn (f_entries c)) q.
Proof.
  intros Hk. split; apply sumZ_ext; intros x Hx; [apply chargeIn_insert|apply payloadIn_insert]; intros ->; done.
Qed.

(** Sums over a queue, before and after [k] leaves it. *)
Lemma sum_leave c s k e :
  fifo_ok c -> f_entries c !! k = Some e -> fe_segment e = s ->
  sumZ (chargeIn (f_entries c)) (queue c s) =
    fe_charge e + sumZ (chargeIn (delete k (f_entries c))) (removeKey k (queue c s)) /\
  sumZ (payloadIn (f_entries c)) (queue c s) =
    payloadIn (f_entries c) k + sumZ (payloadIn (delete k (f_entries c))) (removeKey k (queue c s)) /\
  sumZ ghostCost (queue c s) = ghostCost k + sumZ ghostCost (removeKey k (queue c s)).
Proof.
  intros H He Hs. destruct (fo_entry _ H _ _ He) as [_ Hk]. rewrite Hs in Hk. pose proof (queue_NoDup c s H) as N.
  assert (k ∉ removeKey k (queue c s)) as Hn by (rewrite elem_of_removeKey; naive_solver).
  destruct (sum_delete c k _ Hn) as [-> ->]. split_and!; rewrite (sumZ_removeKey _ k) by done; [|done|done].
  unfold chargeIn at 1. by rewrite He.
Qed.

(** Case analysis on the first test of the goal. *)
Ltac goal_decide := match goal with |- context [decide ?P] => destruct (decide P) end.

Lemma fifo_ok_leave c c' k e :
  fifo_ok c -> f_entries c !! k = Some e -> f_entries c' = delete k (f_entries c) ->
  (forall s, queue c' s = if decide (s = fe_segment e) then removeKey k (queue c s) else queue c s) ->
  smallBytes c' = smallBytes c - (if decide (fe_segment e = Small) then fe_charge e else 0) ->
  mainBytes c' = mainBytes c - (if decide (fe_segment e = Main) then fe_charge e else 0) ->
  ghostBytes c' = ghostBytes c - (if decide (fe_segment e = Ghost) then fe_charge e else 0) ->
  payloadBytes c' = payloadBytes c - payloadIn (f_entries c) k ->
  ghostMetadata c' = ghostMetadata c - (if decide (fe_segment e = Ghost) then ghostCost k else 0) ->
  fifo_ok c'.
Proof.
  intros H He Em Hq Hsb Hmb Hgb Hpb Hgm. destruct (fo_entry _ H _ _ He) as [[_ Hc Hv] Hk].
  destruct (sum_leave c _ k e H He eq_refl) as (S1 & S2 & S3).
  assert (forall s, s <> fe_segment e -> k ∉ queue c s) as Hout.
  { intros s Hs Hks. apply Hs. by eapply queue_unique. }
  pose proof (Hq Small) as Q1. pose proof (Hq Main) as Q2. pose proof (Hq Ghost) as Q3. cbn [queue] in Q1, Q2, Q3.
  pose proof (ghostCost_pos k).
  assert (fe_segment e = Ghost -> payloadIn (f_entries c) k = 0) as Hpg.
  { intros E. unfold payloadIn. rewrite He. destruct (fe_value e); [naive_solver|done]. }
  assert (forall s, s <> fe_segment e -> sumZ (chargeIn (f_entries c')) (queue c s) = sumZ (chargeIn (f_entries c)) (queue c s) /\
    sumZ (payloadIn (f_entries c')) (queue c s) = sumZ (payloadIn (f_entries c)) (queue c s)) as Hkeep.
  { intros s Hs. rewrite Em. by apply sum_delete, Hout. }
  destruct H as [N Fe Fq B1 B2 B3 B4 B5 C1 C2 C3]. split.
  - eapply sublist_NoDup; [exact N|]. rewrite Q1, Q2, Q3.
    assert (forall s, (if decide (s = fe_segment e) then removeKey k (queue c s) else queue c s) `sublist_of` queue c s) as Hsub
      by (intros s; goal_decide; [apply removeKey_sublist|done]).
    apply sublist_app; [apply (Hsub Small)|apply sublist_app; [apply (Hsub Main)|apply (Hsub Ghost)]].
  - intros k' e'. rewrite Em. intros H'. apply lookup_delete_Some in H' as [Hne H']. destruct (Fe _ _ H') as [? ?].
    split; [done|]. rewrite Hq. goal_decide; [|done]. apply elem_of_removeKey. done.
  - intros s k' Hk'. rewrite Em. assert (k' <> k /\ k' ∈ queue c s) as [Hne Hin].
    { rewrite Hq in Hk'. destruct (decide (s = fe_segment e)); [by apply elem_of_removeKey in Hk'|]. split; [|done].
      intros ->. by eapply Hout. }
    rewrite lookup_delete_ne by done. by apply Fq.
  - rewrite Hsb, Q1, B1. destruct (decide (Small = fe_segment e)) as [E|E].
    + rewrite decide_True by done. rewrite <- E in S1. cbn [queue] in S1. rewrite Em. lia.
    + rewrite decide_False by congruence. destruct (Hkeep Small E) as [K _]. cbn [queue] in K. lia.
  - rewrite Hmb, Q2, B2. destruct (decide (Main = fe_segment e)) as [E|E].
    + rewrite decide_True by done. rewrite <- E in S1. cbn [queue] in S1. rewrite Em. lia.
    + rewrite decide_False by congruence. destruct (Hkeep Main E) as [K _]. cbn [queue] in K. lia.
  - rewrite Hgb, Q3, B3. destruct (decide (Ghost = fe_segment e)) as [E|E].
    + rewrite decide_True by done. rewrite <- E in S1. cbn [queue] in S1. rewrite Em. lia.
    + rewrite decide_False by congruence. destruct (Hkeep Ghost E) as [K _]. cbn [queue] in K. lia.
  - rewrite Hpb, Q1, Q2, B4. destruct (fe_segment e) eqn:Es; repeat (goal_decide; try done).
    + destruct (Hkeep Main ltac:(done)) as [_ E]. cbn [queue] in E, S2. rewrite E, Em. lia.
    + destruct (Hkeep Small ltac:(done)) as [_ E]. cbn [queue] in E, S2. rewrite E, Em. lia.
    + destruct (Hkeep Small ltac:(done)) as [_ E]. destruct (Hkeep Main ltac:(done)) as [_ E'].
      cbn [queue] in E, E'. rewrite E, E', Hpg by done. lia.
  - rewrite Hgm, Q3, B5. destruct (decide (Ghost = fe_segment e)) as [E|E].
    + rewrite decide_True by done. rewrite <- E in S3. cbn [queue] in S3. lia.
    + rewrite decide_False by congruence. lia.
  - rewrite Hsb, Hmb. repeat goal_decide; lia.
  - rewrite Hgb. goal_decide; lia.
  - rewrite Hgm. goal_decide; lia.
Qed.

Lemma unlink_spec c k e :
  fifo_ok c -> f_entries c !! k = Some e ->
  exists c', unlink c k e = Some c' /\ fifo_ok c' /\ same_conf c c' /\ f_entries c' = delete k (f_entries c) /\
    (forall s, queue c' s = if decide (s = fe_segment e) then removeKey k (queue c s) else queue c s) /\
    smallBytes c' + mainBytes c' = smallBytes c + mainBytes c - (if decide (fe_segment e = Ghost) then 0 else fe_charge e) /\
    ghostBytes c' <= ghostBytes c /\
    ghostMetadata c' <= ghostMetadata c.
Proof.
  intros H He. pose proof (bytes_range c H) as (R1 & R2 & R3 & R4 & R5).
  destruct (fo_entry _ H _ _ He) as [[_ Hc Hv] Hk]. pose proof (ghostCost_pos k) as Hgc.
  destruct (sum_leave c _ k e H He eq_refl) as (S1 & S2 & S3).
  assert (fifo_ok c) as [_ _ _ B1 B2 B3 B4 B5 C1 C2 C3] by done.
  assert (forall m q, 0 <= sumZ ghostCost q /\ (forall x, x ∈ q -> 0 <= m x) -> 0 <= sumZ m q) as Hpos.
  { intros m q [_ Hm]. by apply sumZ_nonneg. }
  assert (0 <= sumZ (chargeIn (delete k (f_entries c))) (removeKey k (queue c (fe_segment e))) /\
    0 <= sumZ (payloadIn (delete k (f_entries c))) (removeKey k (queue c (fe_segment e)))) as [P1 P2].
  { assert (k ∉ removeKey k (queue c (fe_segment e))) as Hn by (rewrite elem_of_removeKey; naive_solver).
    destruct (sum_delete c k _ Hn) as [-> ->]. pose proof (sums_nonneg c (removeKey k (queue c (fe_segment e))) H). lia. }
  pose proof (meta_nonneg (removeKey k (queue c (fe_segment e)))) as P3.
  pose proof (sums_nonneg c (qSmall c) H) as T1. pose proof (sums_nonneg c (qMain c) H) as T2.
  unfold unlink, dataLen. destruct (fe_segment e) eqn:Es; cbn [queue] in *.
  - destruct (fe_value e) as [v|] eqn:Ev; [|done]. cbn [mbind option_bind].
    assert (payloadIn (f_entries c) k = blen (re_data v)) as Hp by (unfold payloadIn; by rewrite He, Ev).
    pose proof (blen_nonneg (re_data v)) as Hbl.
    eexists; split; [done|]. cbn. rewrite !u64_small by (unfold fits; lia).
    split_and!; try done; try lia; try (by intros []); try (repeat (goal_decide; try done); lia).
    eapply (fifo_ok_leave c _ k e H He); rewrite ?Es; cbn; rewrite ?u64_small by (unfold fits; lia);
      first [done | by intros [] | repeat (goal_decide; try done); lia].
  - destruct (fe_value e) as [v|] eqn:Ev; [|done]. cbn [mbind option_bind].
    assert (payloadIn (f_entries c) k = blen (re_data v)) as Hp by (unfold payloadIn; by rewrite He, Ev).
    pose proof (blen_nonneg (re_data v)) as Hbl.
    eexists; split; [done|]. cbn. rewrite !u64_small by (unfold fits; lia).
    split_and!; try done; try lia; try (by intros []); try (repeat (goal_decide; try done); lia).
    eapply (fifo_ok_leave c _ k e H He); rewrite ?Es; cbn; rewrite ?u64_small by (unfold fits; lia);
      first [done | by intros [] | repeat (goal_decide; try done); lia].
  - assert (payloadIn (f_entries c) k = 0) as Hp.
    { unfold payloadIn. rewrite He. destruct (fe_value e); [naive_solver|done]. }
    cbn [mbind option_bind]. eexists; split; [done|]. fold (ghostCost k). cbn. rewrite !u64_small by (unfold fits; lia).
    split_and!; try done; try lia; try (by intros []); try (repeat (goal_decide; try done); lia).
    eapply (fifo_ok_leave c _ k e H He); rewrite ?Es; cbn; rewrite ?u64_small by (unfold fits; lia);
      first [done | by intros [] | repeat (goal_decide; try done); lia].
Qed.

Definition entryLen (e : fifoEntry) : Z := match fe_value e with Some v => blen (re_data v) | None => 0 end.

Lemma fifo_ok_join c c' k e :
  fifo_ok c -> f_entries c !! k = None -> entry_ok e -> f_entries c' = <[k := e]> (f_entries c) ->
  (forall s, queue c' s = if decide (s = fe_segment e) then queue c s ++ [k] else queue c s) ->
  smallBytes c' = smallBytes c + (if decide (fe_segment e = Small) then fe_charge e else 0) ->
  mainBytes c' = mainBytes c + (if decide (fe_segment e = Main) then fe_charge e else 0) ->
  ghostBytes c' = ghostBytes c + (if decide (fe_segment e = Ghost) then fe_charge e else 0) ->
  payloadBytes c' = payloadBytes c + entryLen e ->
  ghostMetadata c' = ghostMetadata c + (if decide (fe_segment e = Ghost) then ghostCost k else 0) ->
  smallBytes c' + mainBytes c' < 2 ^ 63 -> ghostBytes c' < 2 ^ 63 -> ghostMetadata c' < 2 ^ 63 ->
  fifo_ok c'.
Proof.
  intros H He Hok Em Hq Hsb Hmb Hgb Hpb Hgm D1 D2 D3.
  assert (forall s, k ∉ queue c s) as Hout.
  { intros s Hs. destruct (fo_queue _ H _ _ Hs) as (? & ? & _). congruence. }
  pose proof (Hq Small) as Q1. pose proof (Hq Main) as Q2. pose proof (Hq Ghost) as Q3. cbn [queue] in Q1, Q2, Q3.
  pose proof (Hout Small) as O1. pose proof (Hout Main) as O2. pose proof (Hout Ghost) as O3. cbn [queue] in O1, O2, O3.
  assert (forall q, k ∉ q -> sumZ (chargeIn (f_entries c')) q = sumZ (chargeIn (f_entries c)) q /\
    sumZ (payloadIn (f_entries c')) q = sumZ (payloadIn (f_entries c)) q) as Hkeep by (intros q Hk; rewrite Em; by apply sum_insert).
  destruct (Hkeep _ O1) as [K1 L1], (Hkeep _ O2) as [K2 L2], (Hkeep _ O3) as [K3 L3].
  assert (chargeIn (f_entries c') k = fe_charge e /\ payloadIn (f_entries c') k = entryLen e) as [Hck Hpk].
  { rewrite Em. unfold chargeIn, payloadIn, entryLen. by rewrite lookup_insert_eq. }
  assert (fe_segment e = Ghost -> entryLen e = 0) as Hgl.
  { intros E. unfold entryLen. destruct (fe_value e) eqn:Ev; [|done]. destruct Hok as [_ _ Hv]. rewrite Ev in Hv. tauto. }
  destruct H as [N Fe Fq B1 B2 B3 B4 B5 C1 C2 C3]. split; try done.
  - assert (qSmall c' ++ qMain c' ++ qGhost c' ≡ₚ k :: qSmall c ++ qMain c ++ qGhost c) as ->.
    { rewrite Q1, Q2, Q3. destruct (fe_segment e); repeat (goal_decide; try done); solve_Permutation. }
    apply NoDup_cons. split; [set_solver|done].
  - intros k' e'. rewrite Em. intros H'. apply lookup_insert_Some in H' as [[<- <-]|[Hne H']].
    + split; [done|]. rewrite Hq, decide_True by done. set_solver.
    + destruct (Fe _ _ H') as [? ?]. split; [done|]. rewrite Hq. goal_decide; set_solver.
  - intros s k' Hk'. rewrite Hq in Hk'. rewrite Em. destruct (decide (k' = k)) as [->|Hne].
    + rewrite lookup_insert_eq. exists e. split; [done|]. destruct (decide (s = fe_segment e)); [done|]. by apply Hout in Hk'.
    + rewrite lookup_insert_ne by done. apply Fq. destruct (decide (s = fe_segment e)); set_solver.
  - rewrite Hsb, Q1. destruct (fe_segment e); repeat (goal_decide; try done); rewrite ?sumZ_app; cbn; lia.
  - rewrite Hmb, Q2. destruct (fe_segment e); repeat (goal_decide; try done); rewrite ?sumZ_app; cbn; lia.
  - rewrite Hgb, Q3. destruct (fe_segment e); repeat (goal_decide; try done); rewrite ?sumZ_app; cbn; lia.
  - rewrite Hpb, Q1, Q2. destruct (fe_segment e); repeat (goal_decide; try done); rewrite ?sumZ_app; cbn; try lia.
    rewrite Hgl by done. lia.
  - rewrite Hgm, Q3. destruct (fe_segment e); repeat (goal_decide; try done); rewrite ?sumZ_app; cbn; lia.
Qed.

Lemma append_spec c k e s :
  fifo_ok c -> f_entries c !! k = None ->
  entry_ok (mkFifoEntry (fe_value e) (fe_charge e) (fe_freq e) s) ->
  (s <> Ghost -> smallBytes c + mainBytes c + fe_charge e < 2 ^ 63) ->
  (s = Ghost -> ghostBytes c + fe_charge e < 2 ^ 63 /\ ghostMetadata c + ghostCost k < 2 ^ 63) ->
  exists c', append c k e s = Some c' /\ fifo_ok c' /\ same_conf c c' /\
    f_entries c' = <[k := mkFifoEntry (fe_value e) (fe_charge e) (fe_freq e) s]> (f_entries c) /\
    (forall s', queue c' s' = if decide (s' = s) then queue c s' ++ [k] else queue c s') /\
    smallBytes c' + mainBytes c' = smallBytes c + mainBytes c + (if decide (s = Ghost) then 0 else fe_charge e) /\
    (s <> Ghost -> ghostBytes c' = ghostBytes c /\ ghostMetadata c' = ghostMetadata c).
Proof.
  intros H He Hok D1 D2. pose proof (bytes_range c H) as (R1 & R2 & R3 & R4 & R5).
  destruct (H) as [_ _ _ _ _ _ _ _ C1 C2 C3].
  pose proof (ghostCost_pos k). unfold append, dataLen. pose proof Hok as [_ Hc Hv]. cbn in Hc, Hv.
  destruct s; cbn [fe_value fe_charge].
  - destruct (fe_value e) as [v|] eqn:Ev; [|done]. cbn [mbind option_bind]. pose proof (blen_nonneg (re_data v)).
    specialize (D1 ltac:(done)).
    eexists; split; [done|]. cbn. rewrite !u64_small by (unfold fits; lia).
    split_and!; try done; try (by intros []); try (repeat (goal_decide; try done); lia).
    eapply (fifo_ok_join c _ k _ H He Hok); cbn; rewrite ?u64_small by (unfold fits; lia); unfold entryLen; cbn;
      first [done | by intros [] | repeat (goal_decide; try done); lia].
  - destruct (fe_value e) as [v|] eqn:Ev; [|done]. cbn [mbind option_bind]. pose proof (blen_nonneg (re_data v)).
    specialize (D1 ltac:(done)).
    eexists; split; [done|]. cbn. rewrite !u64_small by (unfold fits; lia).
    split_and!; try done; try (by intros []); try (repeat (goal_decide; try done); lia).
    eapply (fifo_ok_join c _ k _ H He Hok); cbn; rewrite ?u64_small by (unfold fits; lia); unfold entryLen; cbn;
      first [done | by intros [] | repeat (goal_decide; try done); lia].
  - destruct (fe_value e) as [v|] eqn:Ev; [tauto|]. specialize (D2 eq_refl). fold (ghostCost k).
    eexists; split; [done|]. cbn. rewrite !u64_small by (unfold fits; lia).
    split_and!; try done; try (by intros []); try (repeat (goal_decide; try done); lia).
    eapply (fifo_ok_join c _ k _ H He Hok); cbn; rewrite ?u64_small by (unfold fits; lia); unfold entryLen; cbn;
      first [done | by intros [] | repeat (goal_decide; try done); lia].
Qed.

(** Changing frequencies and reordering queues keeps the accounting. *)
Lemma fifo_ok_same c c' :
  fifo_ok c -> (forall s, queue c' s ≡ₚ queue c s) ->
  (forall k e', f_entries c' !! k = Some e' -> 0 <= fe_freq e' <= 3 /\ exists e, f_entries c !! k = Some e /\
     fe_value e' = fe_value e /\ fe_charge e' = fe_charge e /\ fe_segment e' = fe_segment e) ->
  (forall k, is_Some (f_entries c !! k) -> is_Some (f_entries c' !! k)) ->
  smallBytes c' = smallBytes c -> mainBytes c' = mainBytes c -> payloadBytes c' = payloadBytes c ->
  ghostBytes c' = ghostBytes c -> ghostMetadata c' = ghostMetadata c -> fifo_ok c'.
Proof.
  intros H Hq He Hd E1 E2 E3 E4 E5.
  assert (forall q, sumZ (chargeIn (f_entries c')) q = sumZ (chargeIn (f_entries c)) q /\
    sumZ (payloadIn (f_entries c')) q = sumZ (payloadIn (f_entries c)) q) as Hs.
  { intros q. split; apply sumZ_ext; intros k _; unfold chargeIn, payloadIn;
      (destruct (f_entries c' !! k) as [e'|] eqn:Ek;
       [destruct (He _ _ Ek) as (_ & e & Ee & Ev & Ec & _); rewrite Ee, ?Ev, ?Ec; done|]);
      (destruct (f_entries c !! k) eqn:Ek'; [|done]; destruct (Hd k) as [? ?]; [eauto|congruence]). }
  pose proof (Hq Small) as Q1. pose proof (Hq Main) as Q2. pose proof (Hq Ghost) as Q3. cbn [queue] in Q1, Q2, Q3.
  destruct H as [N Fe Fq B1 B2 B3 B4 B5 C1 C2 C3].
  split; rewrite ?E1, ?E2, ?E3, ?E4, ?E5, ?Q1, ?Q2, ?Q3; try done.
  - intros k e' Ek. destruct (He _ _ Ek) as (Hf & e & Ee & Hv & Hc & Hsg). destruct (Fe _ _ Ee) as [[_ Hc' Hv'] Hk].
    split; [split; [done|congruence|rewrite Hv, Hsg, Hc; done]|]. rewrite Hq, Hsg. done.
  - intros s k Hk. rewrite Hq in Hk. destruct (Fq _ _ Hk) as (e & Ee & Hsg). destruct (Hd k) as [e' Ee']; [eauto|].
    exists e'. split; [done|]. destruct (He _ _ Ee') as (_ & e2 & ? & _ & _ & ?). congruence.
  - destruct (Hs (qSmall c)) as [-> _]. done.
  - destruct (Hs (qMain c)) as [-> _]. done.
  - destruct (Hs (qGhost c)) as [-> _]. done.
  - destruct (Hs (qSmall c)) as [_ ->], (Hs (qMain c)) as [_ ->]. done.
Qed.

(** ** What the cache holds *)

Definition find (c : s3FIFO) (k : bytes) : option ramEntry :=
  match f_entries c !! k with
  | Some e => if decide (fe_segment e = Ghost) then None else fe_value e
  | None => None
  end.

Definition residents (c : s3FIFO) : nat := (length (qSmall c) + length (qMain c))%nat.

(** [evicts c c']: nothing new is resident, and the totals do not grow. *)
Definition evicts (c c' : s3FIFO) : Prop :=
  same_conf c c' /\ (forall k v, find c' k = Some v -> find c k = Some v) /\
  (forall k e, f_entries c' !! k = Some e -> is_Some (f_entries c !! k)) /\
  smallBytes c' + mainBytes c' <= smallBytes c + mainBytes c /\ (residents c' <= residents c)%nat.

Lemma evicts_refl c : evicts c c.
Proof. split_and!; eauto; done. Qed.
Lemma evicts_trans c1 c2 c3 : evicts c1 c2 -> evicts c2 c3 -> evicts c1 c3.
Proof.
  intros ((A1 & A2) & A3 & A4 & A5 & A6) ((B1 & B2) & B3 & B4 & B5 & B6).
  split_and!; [split; congruence|auto| |lia|lia].
  intros k e He. destruct (B4 _ _ He) as [e2 He2]. eauto.
Qed.

Lemma find_delete c c' k : f_entries c' = delete k (f_entries c) -> forall k' v, find c' k' = Some v -> find c k' = Some v.
Proof.
  intros E k' v. unfold find. rewrite E. destruct (decide (k' = k)) as [->|]; [by rewrite lookup_delete_eq|].
  by rewrite lookup_delete_ne.
Qed.

Lemma unlink_evicts c k e c' :
  fifo_ok c -> f_entries c !! k = Some e -> unlink c k e = Some c' ->
  evicts c c' /\ (fe_segment e <> Ghost -> residents c = S (residents c')).
Proof.
  intros H He E. destruct (unlink_spec c k e H He) as (c2 & E2 & H2 & Hcf & Em & Hq & Hb & _).
  assert (c2 = c') as -> by congruence. destruct (fo_entry _ H _ _ He) as [[_ Hc _] Hk].
  assert (smallBytes c' + mainBytes c' <= smallBytes c + mainBytes c) by (rewrite Hb; goal_decide; lia).
  pose proof (queue_NoDup c (fe_segment e) H) as N. pose proof (length_removeKey k _ N Hk) as Hl.
  pose proof (Hq Small) as Q1. pose proof (Hq Main) as Q2. cbn [queue] in Q1, Q2.
  assert (residents c' <= residents c /\ (fe_segment e <> Ghost -> residents c = S (residents c')))%nat as [R1 R2].
  { unfold residents. rewrite Q1, Q2. destruct (fe_segment e); cbn [queue] in Hl; repeat (goal_decide; try done); split; try done; lia. }
  split; [|done]. split_and!; try done; [by apply (find_delete c c' k)|].
  intros k' e'. rewrite Em. intros X. apply lookup_delete_Some in X as [_ X]. eauto.
Qed.

Lemma trimGhost_loop_spec fuel c :
  fifo_ok c -> 0 <= f_capacity c -> 0 <= entryLimit c -> (length (qGhost c) < fuel)%nat ->
  exists c', trimGhost_loop fuel c = Some c' /\ fifo_ok c' /\ ghostOver c' = false /\ evicts c c' /\
    qSmall c' = qSmall c /\ qMain c' = qMain c.
Proof.
  revert c. induction fuel as [|fuel IH]; intros c H Hcap Hlim Hf; [lia|]. cbn [trimGhost_loop].
  destruct (ghostOver c) eqn:Eo.
  2: { exists c. split_and!; auto using evicts_refl. }
  destruct (qGhost c) as [|k q] eqn:Eq.
  { exfalso. unfold ghostOver in Eo. rewrite (fo_ghost _ H), (fo_meta _ H), Eq in Eo. cbn in Eo.
    apply orb_true_iff in Eo as [Eo|Eo]; [apply orb_true_iff in Eo as [Eo|Eo]|]; b2p; lia. }
  destruct (fo_queue _ H Ghost k) as (e & He & Hs); [cbn; rewrite Eq; set_solver|]. rewrite He. cbn [mbind option_bind].
  destruct (unlink_spec c k e H He) as (c1 & E1 & H1 & [Hc1 Hc2] & _ & Hq & _). rewrite E1. cbn [mbind option_bind].
  destruct (unlink_evicts c k e c1 H He E1) as [V1 _].
  pose proof (Hq Small) as Q1. pose proof (Hq Main) as Q2. pose proof (Hq Ghost) as Q3. rewrite Hs in Q1, Q2, Q3.
  rewrite decide_False in Q1 by done. rewrite decide_False in Q2 by done. rewrite decide_True in Q3 by done. cbn [queue] in Q1, Q2, Q3.
  pose proof (queue_NoDup c Ghost H) as N. cbn in N. rewrite Eq in N. apply NoDup_cons in N as [Hk _].
  rewrite Eq, removeKey_head in Q3 by done.
  destruct (IH c1) as (c' & E' & H' & Ho & V' & S' & M'); [done|lia|lia|rewrite Q3; cbn in Hf; lia|].
  exists c'. split_and!; try done; [by eapply evicts_trans|congruence..].
Qed.

(** ** Eviction *)

Record good (c : s3FIFO) : Prop := mk_good {
  g_ok : fifo_ok c;
  g_keys : forall k e, f_entries c !! k = Some e -> blen k <= 65536;
  g_cap : 0 < f_capacity c <= 2 ^ 40;
  g_limit : entryLimit c = Z.min (f_capacity c) 65536;
  g_ghost : ghostOver c = false }.

Lemma fifo_ok_stats c st p g : fifo_ok c -> fifo_ok (setStats c st p g).
Proof. intros []. split; try done. Qed.

Lemma ghost_bounds c : good c -> ghostBytes c <= 2 ^ 40 /\ ghostMetadata c <= 2 ^ 40.
Proof.
  intros [_ _ Hc _ Ho]. unfold ghostOver in Ho. b2p. pose proof (Z.mul_div_le (f_capacity c) 10 ltac:(lia)).
  assert (f_capacity c / 10 <= 2 ^ 40) by (apply Z.div_le_upper_bound; lia). lia.
Qed.

(** [evicts] keeps what [good] says about keys and configuration. *)
Lemma good_evicts c c' : good c -> fifo_ok c' -> ghostOver c' = false -> evicts c c' -> good c'.
Proof.
  intros [_ Hk Hc Hl _] H' Ho ((E1 & E2) & _ & He & _). split; [done| |by rewrite E1|by rewrite E1, E2|done].
  intros k e Hke. destruct (He _ _ Hke) as [e' He']. eauto.
Qed.

Lemma ghostOver_ext c c' :
  same_conf c c' -> ghostBytes c' = ghostBytes c -> ghostMetadata c' = ghostMetadata c -> length (qGhost c') = length (qGhost c) ->
  ghostOver c' = ghostOver c.
Proof. intros [E1 E2] E3 E4 E5. unfold ghostOver. by rewrite E1, E2, E3, E4, E5. Qed.

Definition freqIn (m : gmap bytes fifoEntry) (k : bytes) : Z :=
  match m !! k with Some e => fe_freq e | None => 0 end.

Definition rotate (c : s3FIFO) (k : bytes) (e : fifoEntry) (q : list bytes) : s3FIFO :=
  setQueue (setEntries c (<[k := setFreq e (fe_freq e - 1)]> (f_entries c))) Main (q ++ [k]).

Lemma rotate_ok c k e q :
  good c -> f_entries c !! k = Some e -> qMain c = k :: q -> 0 < fe_freq e ->
  good (rotate c k e q) /\ evicts c (rotate c k e q) /\ residents (rotate c k e q) = residents c /\
  sumZ (freqIn (f_entries (rotate c k e q))) (q ++ [k]) = sumZ (freqIn (f_entries c)) (qMain c) - 1.
Proof.
  intros G He Eq Hf. pose proof (g_ok _ G) as H. destruct (fo_entry _ H _ _ He) as [[Hfr Hc Hv] _].
  assert (k ∉ q) as Hk. { pose proof (queue_NoDup c Main H) as N. cbn in N. rewrite Eq in N. by apply NoDup_cons in N as [? _]. }
  assert (forall k' e', f_entries (rotate c k e q) !! k' = Some e' -> 0 <= fe_freq e' <= 3 /\
    exists e0, f_entries c !! k' = Some e0 /\ fe_value e' = fe_value e0 /\ fe_charge e' = fe_charge e0 /\ fe_segment e' = fe_segment e0) as Hsame.
  { intros k' e'. cbn. intros X. apply lookup_insert_Some in X as [[<- <-]|[Hne X]].
    - split; [cbn; lia|]. exists e. done.
    - split; [|by exists e']. destruct (fo_entry _ H _ _ X) as [[? _ _] _]. done. }
  assert (fifo_ok (rotate c k e q)) as H'.
  { apply (fifo_ok_same c); try done.
    - intros []; cbn; try done. rewrite Eq. solve_Permutation.
    - intros k' [e' X]. cbn. destruct (decide (k = k')) as [->|]; [by rewrite lookup_insert_eq|].
      rewrite lookup_insert_ne by done. eauto. }
  assert (evicts c (rotate c k e q)) as V.
  { split_and!; [done| | |cbn; lia|].
    - intros k' v. unfold find. destruct (f_entries (rotate c k e q) !! k') as [e'|] eqn:X; [|done].
      destruct (Hsame _ _ X) as (_ & e0 & -> & -> & _ & ->). done.
    - intros k' e' X. destruct (Hsame _ _ X) as (_ & e0 & -> & _). eauto.
    - unfold residents. cbn. rewrite Eq, length_app. cbn. lia. }
  split_and!; [|done| |].
  - eapply good_evicts; [exact G|done| |done]. rewrite (ghostOver_ext c); [by apply g_ghost|done..].
  - unfold residents. cbn. rewrite Eq, length_app. cbn. lia.
  - rewrite Eq, sumZ_app. cbn. unfold freqIn at 2. rewrite lookup_insert_eq. cbn.
    unfold freqIn at 2. rewrite He. rewrite (sumZ_ext _ (freqIn (f_entries c)) q); [lia|].
    intros x Hx. unfold freqIn. rewrite lookup_insert_ne by (intros ->; done). done.
Qed.

Lemma evictMain_spec fuel c :
  good c -> sumZ (freqIn (f_entries c)) (qMain c) < Z.of_nat fuel ->
  exists c' b, evictMain fuel c = Some (c', b) /\ good c' /\ evicts c c' /\ qSmall c' = qSmall c /\
    if b : bool then residents c = S (residents c') else qMain c = [] /\ c' = c.
Proof.
  revert c. induction fuel as [|fuel IH]; intros c G Hf.
  - pose proof (g_ok _ G) as H. assert (0 <= sumZ (freqIn (f_entries c)) (qMain c)); [|lia]. apply sumZ_nonneg.
    intros k _. unfold freqIn. destruct (_ !! _) as [e|] eqn:X; [|lia]. destruct (fo_entry _ H _ _ X) as [[? _ _] _]. lia.
  - cbn [evictMain]. destruct (qMain c) as [|k q] eqn:Eq; [by exists c, false; split_and!; auto using evicts_refl|].
    pose proof (g_ok _ G) as H. destruct (fo_queue _ H Main k) as (e & He & Hs); [cbn; rewrite Eq; set_solver|].
    rewrite He. cbn [mbind option_bind]. destruct (decide (0 < fe_freq e)) as [Hfr|Hfr].
    + fold (rotate c k e q). destruct (rotate_ok c k e q G He Eq Hfr) as (G' & V & R & Hsum).
      destruct (IH (rotate c k e q) G') as (c' & b & E & G2 & V2 & S2 & Hb).
      { cbn [qMain rotate setQueue]. rewrite Hsum, Eq. lia. }
      exists c', b. split_and!; [done|done|by eapply evicts_trans|done|].
      destruct b; [congruence|]. destruct Hb as [Hb _]. cbn in Hb. by destruct q.
    + destruct (unlink_spec (countEviction c (fe_charge e)) k e) as (c' & E & H' & Hcf & _ & Hq & _).
      { by apply fifo_ok_stats. } { done. }
      destruct (unlink_evicts (countEviction c (fe_charge e)) k e c') as [V Hr]; [by apply fifo_ok_stats|done|done|].
      rewrite E. cbn [mbind option_bind]. exists c', true.
      assert (evicts c c') as V' by exact V. rewrite Hs in *.
      assert (residents c = S (residents c')) as Hr' by (apply Hr; done).
      pose proof (Hq Small) as Q1. rewrite decide_False in Q1 by done. cbn in Q1.
      split_and!; try done. eapply good_evicts; [exact G|done| |done].
      unfold unlink in E. rewrite Hs in E. destruct (dataLen e); [|done]. cbn in E. injection E as <-.
      rewrite (ghostOver_ext c); [by apply g_ghost|done|cbn..|done].
      * apply u64_small. pose proof (bytes_range c H). destruct H. unfold fits. lia.
      * apply u64_small. pose proof (bytes_range c H). destruct H. unfold fits. lia.
Qed.

Definition evictMeasure (c : s3FIFO) : nat :=
  (2 * residents c + match qSmall c with [] => 0 | _ => 1 end)%nat.

(** Moving the oldest small entry to the main queue. *)
Lemma promote_spec c k q e :
  good c -> qSmall c = k :: q -> f_entries c !! k = Some e -> fe_segment e = Small ->
  exists c1 c2, unlink c k e = Some c1 /\ append c1 k (setFreq e 0) Main = Some c2 /\
    good c2 /\ evicts c c2 /\ qSmall c2 = q /\ residents c2 = residents c.
Proof.
  intros G Eq He Hs. pose proof (g_ok _ G) as H. destruct (fo_entry _ H _ _ He) as [[Hfr Hc Hv] _].
  destruct (unlink_spec c k e H He) as (c1 & E1 & H1 & [Hc1 Hl1] & Em1 & Hq1 & Hb1 & Hg1 & Hm1).
  destruct (fe_value e) as [v|] eqn:Ev; [|congruence].
  assert (k ∉ q) as Hk. { pose proof (queue_NoDup c Small H) as N. cbn in N. rewrite Eq in N. by apply NoDup_cons in N as [? _]. }
  rewrite decide_False in Hb1 by congruence.
  destruct (append_spec c1 k (setFreq e 0) Main H1) as (c2 & E2 & H2 & [Hc2 Hl2] & Em2 & Hq2 & Hb2 & Hg2).
  { rewrite Em1. apply lookup_delete_eq. }
  { split; cbn; [lia|done|]. rewrite Ev. split; [done|tauto]. }
  { intros _. cbn. pose proof (fo_res_bound _ H). lia. }
  { done. }
  pose proof (Hq1 Small) as A1. pose proof (Hq1 Main) as A2. pose proof (Hq1 Ghost) as A3. rewrite Hs in A1, A2, A3.
  rewrite decide_True in A1 by done. rewrite decide_False in A2 by done. rewrite decide_False in A3 by done.
  pose proof (Hq2 Small) as B1. pose proof (Hq2 Main) as B2. pose proof (Hq2 Ghost) as B3.
  rewrite decide_False in B1 by done. rewrite decide_True in B2 by done. rewrite decide_False in B3 by done.
  cbn [queue] in *. rewrite Eq, removeKey_head in A1 by done.
  assert (residents c2 = residents c) as HR.
  { unfold residents. rewrite B1, B2, A1, A2, Eq, length_app. cbn. lia. }
  assert (evicts c c2) as V.
  { split_and!; [split; congruence| | |rewrite Hb2, decide_False by done; cbn; lia|].
    - intros k' v'. unfold find. rewrite Em2, Em1. destruct (decide (k' = k)) as [->|].
      + rewrite lookup_insert_eq, He. cbn. rewrite Hs. done.
      + by rewrite lookup_insert_ne, lookup_delete_ne by done.
    - intros k' e'. rewrite Em2, Em1. intros X. apply lookup_insert_Some in X as [[<- _]|[_ X]]; [eauto|].
      apply lookup_delete_Some in X as [_ X]. eauto.
    - lia. }
  exists c1, c2. split_and!; try done; [|congruence].
  eapply good_evicts; [exact G|done| |done]. destruct (Hg2 ltac:(done)) as [Hgb Hgm].
  rewrite (ghostOver_ext c); [by apply g_ghost|split; congruence| | |congruence].
  - rewrite Hgb, (fo_ghost _ H1), (fo_ghost _ H), A3, Em1. destruct (sum_delete c k (qGhost c)) as [-> _]; [|done].
    intros X. assert (Small = Ghost); [|done]. eapply (queue_unique c _ _ k H); cbn; [rewrite Eq; set_solver|done].
  - rewrite Hgm, (fo_meta _ H1), (fo_meta _ H), A3. done.
Qed.

(** Moving the oldest small entry to the ghost queue. *)
Lemma retire_spec c k q e :
  good c -> qSmall c = k :: q -> f_entries c !! k = Some e -> fe_segment e = Small ->
  exists c1 c2 c3, unlink c k e = Some c1 /\
    append (countEviction c1 (fe_charge e)) k (mkFifoEntry None (fe_charge e) 0 (fe_segment e)) Ghost = Some c2 /\
    trimGhost c2 = Some c3 /\ good c3 /\ evicts c c3 /\ residents c = S (residents c3).
Proof.
  intros G Eq He Hs. pose proof (g_ok _ G) as H. destruct (fo_entry _ H _ _ He) as [[Hfr Hc Hv] _].
  destruct (unlink_spec c k e H He) as (c1 & E1 & H1 & [Hc1 Hl1] & Em1 & Hq1 & Hb1 & Hg1 & Hm1).
  destruct (unlink_evicts c k e c1 H He E1) as [V1 R1]. rewrite Hs in R1. specialize (R1 ltac:(done)).
  pose proof (ghost_bounds c G) as [Gb Gm]. pose proof (g_keys _ G _ _ He) as Hkl.
  set (c1' := countEviction c1 (fe_charge e)).
  destruct (append_spec c1' k (mkFifoEntry None (fe_charge e) 0 (fe_segment e)) Ghost)
    as (c2 & E2 & H2 & [Hc2 Hl2] & Em2 & Hq2 & Hb2 & _).
  { by apply fifo_ok_stats. } { cbn. rewrite Em1. apply lookup_delete_eq. } { split; cbn; [lia|done|done]. } { done. }
  { intros _. cbn. unfold ghostCost. lia. }
  pose proof (g_cap _ G) as Hcap. pose proof (g_limit _ G) as Hlim. cbn in Hc2, Hl2.
  destruct (trimGhost_loop_spec (S (length (qGhost c2))) c2 H2) as (c3 & E3 & H3 & Ho3 & V3 & S3 & M3); [lia|lia|lia|].
  pose proof (Hq2 Small) as B1; pose proof (Hq2 Main) as B2.
  rewrite decide_False in B1 by done. rewrite decide_False in B2 by done. cbn in B1, B2.
  assert (residents c2 = residents c1) as R2 by (unfold residents; congruence).
  assert (residents c3 = residents c2) as R3 by (unfold residents; congruence).
  assert (evicts c c2) as V2.
  { rewrite decide_False in Hb1 by congruence. rewrite decide_True in Hb2 by done. cbn in Hb2.
    split_and!; [split; congruence| | |lia|lia].
    - intros k' v'. unfold find. rewrite Em2. destruct (decide (k' = k)) as [->|]; [by rewrite lookup_insert_eq|].
      rewrite lookup_insert_ne by done. cbn. rewrite Em1. by rewrite lookup_delete_ne.
    - intros k' e'. rewrite Em2. cbn. rewrite Em1. intros X. apply lookup_insert_Some in X as [[<- _]|[_ X]]; [eauto|].
      apply lookup_delete_Some in X as [_ X]. eauto. }
  exists c1, c2, c3. unfold trimGhost. assert (evicts c c3) as V by (by eapply evicts_trans).
  split_and!; try done; [by eapply good_evicts|lia].
Qed.

Lemma evictSmall_spec fuel c :
  good c -> (length (qSmall c) < fuel)%nat ->
  exists c', evictSmall fuel c = Some c' /\ good c' /\ evicts c c' /\
    (qSmall c <> [] -> (evictMeasure c' < evictMeasure c)%nat).
Proof.
  revert c. induction fuel as [|fuel IH]; intros c G Hf; [lia|]. cbn [evictSmall].
  destruct (qSmall c) as [|k q] eqn:Eq; [exists c; split_and!; auto using evicts_refl; done|].
  pose proof (g_ok _ G) as H. destruct (fo_queue _ H Small k) as (e & He & Hs); [cbn; rewrite Eq; set_solver|].
  rewrite He. cbn [mbind option_bind]. destruct (decide (2 <= fe_freq e)) as [Hfr|Hfr].
  - destruct (promote_spec c k q e G Eq He Hs) as (c1 & c2 & -> & E2 & G2 & V2 & S2 & R2). cbn [mbind option_bind].
    rewrite E2. cbn [mbind option_bind]. set (c3 := setStats _ _ _ _).
    assert (good c3) as G3 by (destruct G2; split; try done; by apply fifo_ok_stats).
    destruct (IH c3 G3) as (c' & E' & G' & V' & M'); [cbn; rewrite S2; cbn in Hf; lia|].
    exists c'. split_and!; [done|done|by eapply evicts_trans; [exact V2|exact V']|]. intros _.
    assert (residents c3 = residents c) as R3 by exact R2.
    assert (evictMeasure c = 2 * residents c + 1)%nat as -> by (unfold evictMeasure; by rewrite Eq).
    destruct (qSmall c3) as [|k' q'] eqn:E3.
    + assert (c' = c3) as ->; [destruct fuel; cbn [evictSmall] in E'; rewrite E3 in E'; by injection E' as <-|].
      unfold evictMeasure. rewrite E3. lia.
    + specialize (M' ltac:(done)). unfold evictMeasure in M' at 2. rewrite E3 in M'. lia.
  - destruct (retire_spec c k q e G Eq He Hs) as (c1 & c2 & c3 & -> & E2 & E3 & G3 & V3 & R3). cbn [mbind option_bind].
    rewrite E2. cbn [mbind option_bind]. exists c3. split_and!; try done.
    intros _. unfold evictMeasure. rewrite Eq. destruct (qSmall c3); lia.
Qed.

(** [evict] terminates, and makes progress while anything is resident. *)
Lemma evict_spec c :
  good c -> exists c', evict c = Some c' /\ good c' /\ evicts c c' /\
    ((0 < residents c)%nat -> (evictMeasure c' < evictMeasure c)%nat).
Proof.
  intros G. unfold evict. set (useMain := _ || _).
  assert (exists c1 b, (if useMain then evictMain (3 * length (qMain c) + 1) c else Some (c, false)) = Some (c1, b) /\
    good c1 /\ evicts c c1 /\ qSmall c1 = qSmall c /\
    (b = true -> residents c = S (residents c1)) /\
    (b = false -> c1 = c /\ (useMain = true -> qMain c = []))) as (c1 & b & -> & G1 & V1 & S1 & Ht & Hf).
  { destruct useMain.
    - destruct (evictMain_spec (3 * length (qMain c) + 1) c G) as (c' & b & E & G' & V' & S' & Hb).
      { assert (sumZ (freqIn (f_entries c)) (qMain c) <= 3 * Z.of_nat (length (qMain c))); [|lia].
        pose proof (g_ok _ G) as H. induction (qMain c) as [|k q IH]; cbn -[Z.mul]; [lia|].
        assert (freqIn (f_entries c) k <= 3); [|lia]. unfold freqIn. destruct (_ !! _) as [e|] eqn:X; [|lia].
        destruct (fo_entry _ H _ _ X) as [[? _ _] _]. lia. }
      exists c', b. split_and!; try done; destruct b; naive_solver.
    - exists c, false. split_and!; auto using evicts_refl; done. }
  cbn [mbind option_bind]. destruct b.
  - exists c1. split_and!; try done. intros _. specialize (Ht eq_refl). unfold evictMeasure. rewrite S1.
    destruct (qSmall c); lia.
  - destruct (Hf eq_refl) as [-> Hm]. destruct (evictSmall_spec (S (length (qSmall c))) c G) as (c' & E & G' & V' & M'); [lia|].
    exists c'. split_and!; try done. intros Hr. apply M'. intros E0.
    assert (useMain = true) as Hu by (unfold useMain; rewrite E0; apply orb_true_r).
    specialize (Hm Hu). unfold residents in Hr. rewrite E0, Hm in Hr. cbn in Hr. lia.
Qed.

Lemma evictWhile_spec fuel over c :
  good c -> (forall c', good c' -> same_conf c c' -> residents c' = 0%nat -> over c' = false) ->
  (evictMeasure c < fuel)%nat ->
  exists c', evictWhile fuel over c = Some c' /\ good c' /\ evicts c c' /\ over c' = false /\ (over c = false -> c' = c).
Proof.
  revert c. induction fuel as [|fuel IH]; intros c G Hz Hf; [lia|]. cbn [evictWhile].
  destruct (over c) eqn:Eo; [|exists c; split_and!; auto using evicts_refl].
  assert (0 < residents c)%nat as Hr.
  { destruct (residents c) eqn:E; [|lia]. by rewrite (Hz c G ltac:(done) E) in Eo. }
  destruct (evict_spec c G) as (c1 & -> & G1 & V1 & M1). cbn [mbind option_bind]. specialize (M1 Hr).
  destruct (IH c1) as (c' & E & G' & V' & Ho & _); [done| |lia|].
  - intros c' G' [E1 E2] Hr'. apply Hz; [done| |done]. destruct V1 as ((F1 & F2) & _). split; congruence.
  - exists c'. split_and!; try done. by eapply evicts_trans.
Qed.

(** ** Operations *)

Definition within (c : s3FIFO) : Prop :=
  smallBytes c + mainBytes c <= f_capacity c /\ Z.of_nat (residents c) <= entryLimit c.

Definition value_ok (c : s3FIFO) (v : ramEntry) : Prop :=
  blen (re_data v) <= re_weight v /\ re_weight v < 2 ^ 32 /\ re_weight v <= f_capacity c.

Lemma within_evicts c c' : evicts c c' -> within c -> within c'.
Proof. intros ((E1 & E2) & _ & _ & ? & ?) [? ?]. unfold within. rewrite E1, E2. lia. Qed.

Lemma no_residents c : fifo_ok c -> residents c = 0%nat -> smallBytes c = 0 /\ mainBytes c = 0.
Proof.
  intros H Hr. unfold residents in Hr. destruct (qSmall c) eqn:E1, (qMain c) eqn:E2; cbn in Hr; try lia.
  by rewrite (fo_small _ H), (fo_main _ H), E1, E2.
Qed.

Lemma measure_fuel c : (evictMeasure c < evictFuel c)%nat.
Proof. unfold evictMeasure, evictFuel, residents. destruct (qSmall c); lia. Qed.

Lemma admit_spec c key v s :
  good c -> value_ok c v -> f_entries c !! key = None -> blen key <= 65536 -> s <> Ghost ->
  exists c', (c ← evictWhile (evictFuel c) (admitOver (re_weight v)) c;
              append c key (mkFifoEntry (Some v) (re_weight v) 0 s) s) = Some c' /\
    good c' /\ within c' /\ find c' key = Some v /\
    (forall k w, k <> key -> find c' k = Some w -> find c k = Some w) /\ same_conf c c'.
Proof.
  intros G (Hd & Hw & Hcap) Hnone Hkey Hs. pose proof (blen_nonneg (re_data v)) as Hbl.
  destruct (evictWhile_spec (evictFuel c) (admitOver (re_weight v)) c G) as (c1 & -> & G1 & V1 & Ho & _);
    [|apply measure_fuel|].
  { intros c' G' [E1 E2] Hr. destruct (no_residents c' (g_ok _ G') Hr) as [Z1 Z2]. pose proof (g_cap _ G') as Hc.
    pose proof (g_limit _ G') as Hl. unfold admitOver. unfold residents in Hr. rewrite Hr, Z1, Z2.
    change (u64 (0 + 0)) with 0. rewrite Z.add_0_l, u64_small by (unfold fits; lia).
    apply orb_false_iff. split; [apply Z.ltb_ge; lia|apply Z.leb_gt; lia]. }
  cbn [mbind option_bind]. pose proof (g_ok _ G1) as H1. pose proof (g_cap _ G1) as Hc1.
  pose proof (bytes_range c1 H1) as Hr1. pose proof (fo_res_bound _ H1) as Hrb.
  destruct (V1) as ((E1 & E2) & Vf & Ve & Vb & Vr).
  unfold admitOver in Ho. rewrite (u64_small (smallBytes c1 + mainBytes c1)) in Ho by (unfold fits; lia).
  rewrite u64_small in Ho by (unfold fits; lia). b2p.
  destruct (append_spec c1 key (mkFifoEntry (Some v) (re_weight v) 0 s) s H1) as (c2 & -> & H2 & [F1 F2] & Em & Hq & Hb & Hg).
  { destruct (f_entries c1 !! key) as [e|] eqn:X; [|done]. destruct (Ve _ _ X) as [? ?]. congruence. }
  { split; cbn; [lia|lia|done]. } { intros _. cbn. lia. } { done. }
  exists c2. split; [done|]. rewrite decide_False in Hb by done. cbn in Hb. destruct (Hg Hs) as [Hgb Hgm].
  assert (residents c2 = S (residents c1)) as HR.
  { pose proof (Hq Small) as A1. pose proof (Hq Main) as A2. cbn in A1, A2. unfold residents. rewrite A1, A2.
    destruct s; try done; repeat (goal_decide; try done); rewrite length_app; cbn; lia. }
  split_and!.
  - split; [done| |congruence|rewrite F1, F2; by apply g_limit|].
    + intros k e. rewrite Em. intros X. apply lookup_insert_Some in X as [[<- _]|[_ X]]; [done|]. by eapply g_keys.
    + rewrite (ghostOver_ext c1); [by apply g_ghost|done|done|done|]. pose proof (Hq Ghost) as A3. cbn in A3.
      rewrite decide_False in A3 by done. by rewrite A3.
  - unfold within. rewrite F1, F2. rewrite Hb. unfold residents in *. lia.
  - unfold find. rewrite Em, lookup_insert_eq. cbn. by rewrite decide_False.
  - intros k w Hk. unfold find. rewrite Em, lookup_insert_ne by done. apply Vf.
  - split; congruence.
Qed.

Lemma sumZ_insert m k e q :
  NoDup q -> k ∈ q ->
  sumZ (chargeIn (<[k := e]> m)) q = sumZ (chargeIn m) q - chargeIn m k + fe_charge e /\
  sumZ (payloadIn (<[k := e]> m)) q = sumZ (payloadIn m) q - payloadIn m k + entryLen e.
Proof.
  intros N Hk. rewrite !(sumZ_removeKey _ k q) by done.
  rewrite (sumZ_ext (chargeIn (<[k:=e]> m)) (chargeIn m)), (sumZ_ext (payloadIn (<[k:=e]> m)) (payloadIn m)).
  - unfold chargeIn, payloadIn, entryLen. rewrite !lookup_insert_eq. lia.
  - intros x Hx. apply elem_of_removeKey in Hx as [? _]. by apply payloadIn_insert.
  - intros x Hx. apply elem_of_removeKey in Hx as [? _]. by apply chargeIn_insert.
Qed.

(** Replacing the value of a resident entry in place. *)
Lemma replace_spec c key old v n :
  good c -> within c -> value_ok c v -> f_entries c !! key = Some old -> fe_segment old <> Ghost -> dataLen old = Some n ->
  let pb := payloadBytes c - n + blen (re_data v) in
  let c1 := match fe_segment old with
            | Small => setBytes c (smallBytes c - fe_charge old + re_weight v) (mainBytes c) pb (ghostBytes c) (ghostMetadata c)
            | _ => setBytes c (smallBytes c) (mainBytes c - fe_charge old + re_weight v) pb (ghostBytes c) (ghostMetadata c)
            end in
  good (setEntries c1 (<[key := mkFifoEntry (Some v) (re_weight v) (Z.min 3 (u8 (fe_freq old + 1))) (fe_segment old)]> (f_entries c1))) /\
  residents c1 = residents c.
Proof.
  intros G Hw (Hd & Hwt & Hcap) He Hs Hn pb c1. pose proof (g_ok _ G) as H. pose proof (blen_nonneg (re_data v)) as Hbl.
  destruct (fo_entry _ H _ _ He) as [[Hfr Hc Hv] Hk]. pose proof (queue_NoDup c (fe_segment old) H) as N.
  set (e' := mkFifoEntry (Some v) (re_weight v) (Z.min 3 (u8 (fe_freq old + 1))) (fe_segment old)).
  destruct (sumZ_insert (f_entries c) key e' (queue c (fe_segment old)) N Hk) as [S1 S2].
  assert (chargeIn (f_entries c) key = fe_charge old /\ payloadIn (f_entries c) key = n) as [K1 K2].
  { unfold dataLen in Hn. unfold chargeIn, payloadIn. rewrite He. destruct (fe_value old); [|done]. cbn in Hn. by injection Hn as <-. }
  assert (0 <= n) as Hn0.
  { unfold dataLen in Hn. destruct (fe_value old) as [w|]; [|done]. cbn in Hn. injection Hn as <-. apply blen_nonneg. }
  rewrite K1, K2 in *. unfold entryLen in S2. cbn [e' fe_charge fe_value] in S1, S2.
  assert (forall s, s <> fe_segment old -> sumZ (chargeIn (<[key := e']> (f_entries c))) (queue c s) = sumZ (chargeIn (f_entries c)) (queue c s) /\
    sumZ (payloadIn (<[key := e']> (f_entries c))) (queue c s) = sumZ (payloadIn (f_entries c)) (queue c s)) as Hkeep.
  { intros s Hne. apply sum_insert. intros X. apply Hne. by eapply queue_unique. }
  pose proof (bytes_range c H) as R. pose proof (ghost_bounds c G) as [Gb Gm]. pose proof (g_cap _ G) as Hcp. destruct Hw as [Hwb _].
  assert (0 <= smallBytes c - (if decide (fe_segment old = Small) then fe_charge old else 0) /\
    0 <= mainBytes c - (if decide (fe_segment old = Main) then fe_charge old else 0) /\ 0 <= payloadBytes c - n) as (P1 & P2 & P3).
  { pose proof (sums_nonneg c (removeKey key (queue c (fe_segment old))) H) as T.
    pose proof (sums_nonneg c (qSmall c) H). pose proof (sums_nonneg c (qMain c) H).
    pose proof (sumZ_removeKey (chargeIn (f_entries c)) key _ N Hk) as U1. pose proof (sumZ_removeKey (payloadIn (f_entries c)) key _ N Hk) as U2.
    rewrite K1 in U1. rewrite K2 in U2. rewrite (fo_small _ H), (fo_main _ H), (fo_payload _ H).
    destruct (fe_segment old); try done; cbn [queue] in *; repeat (goal_decide; try done); lia. }
  destruct (Hkeep Ghost ltac:(congruence)) as [G1 _]. cbn [queue] in G1.
  assert (fifo_ok (setEntries c1 (<[key := e']> (f_entries c1))) /\ ghostOver c1 = false /\ residents c1 = residents c /\
    f_entries c1 = f_entries c /\ same_conf c c1) as (H1 & Ho & Hr & Hm & Hcf).
  { unfold c1, pb. destruct H as [N0 Fe Fq B1 B2 B3 B4 B5 C1 C2 C3].
    destruct (fe_segment old) eqn:Es; [destruct (Hkeep Main ltac:(done)) as [M1 M2]|destruct (Hkeep Small ltac:(done)) as [M1 M2]|done];
      cbn [queue] in *; repeat (match type of P1 with context [decide ?P] => destruct (decide P); try done end);
      repeat (match type of P2 with context [decide ?P] => destruct (decide P); try done end);
      (split_and!; [|rewrite (ghostOver_ext c); [by apply g_ghost|done|cbn; apply u64_small; unfold fits; lia..|done]|done|done|done]);
      (split; cbn; rewrite ?u64_small by (unfold fits; lia); try done; try lia;
       [intros k e1 X; apply lookup_insert_Some in X as [[<- <-]|[_ X]];
          [split; [split; cbn; [rewrite u8_small by (unfold fits; lia); lia|lia|done]|cbn; done]|exact (Fe _ _ X)]
       |intros s k X; destruct (decide (k = key)) as [->|]; [rewrite lookup_insert_eq|rewrite lookup_insert_ne by done; exact (Fq s k X)];
        destruct (Fq s key X) as (e2 & ? & ?); exists e'; split; [done|cbn; congruence]]). }
  split; [|done]. destruct Hcf as [F1 F2]. split; [done| |cbn; by rewrite F1|cbn; by rewrite F1, F2; apply g_limit|done].
  intros k e. cbn. rewrite Hm. intros X. apply lookup_insert_Some in X as [[<- _]|[_ X]]; by eapply g_keys.
Qed.

(** Every operation is total on a good cache, keeps it good and within its
    capacity, and never invents content. *)
Lemma fifo_put_spec c key v :
  good c -> within c -> value_ok c v -> blen key <= 65536 ->
  exists c', fifo_put c key v = Some c' /\ good c' /\ within c' /\ same_conf c c' /\
    (find c key = None -> find c' key = Some v) /\
    (forall k w, find c' k = Some w -> k = key /\ w = v \/ k <> key /\ find c k = Some w).
Proof.
  intros G W Hv Hkey. pose proof (g_ok _ G) as H. unfold fifo_put.
  destruct (f_entries c !! key) as [old|] eqn:He.
  2: { destruct (admit_spec c key v Small G Hv He Hkey) as (c' & E & G' & W' & Hf & Ho & Hcf); [done|].
       exists c'. split_and!; try done. intros k w X. destruct (decide (k = key)) as [->|]; [left; split; congruence|right; auto]. }
  destruct (fo_entry _ H _ _ He) as [[Hfr Hc Hval] Hk]. destruct (decide (fe_segment old <> Ghost)) as [Hs|Hs].
  - destruct (fe_value old) as [w0|] eqn:Ev; [|congruence].
    assert (dataLen old = Some (blen (re_data w0))) as Hdl by (unfold dataLen; by rewrite Ev).
    rewrite Hdl. cbn [mbind option_bind].
    destruct (replace_spec c key old v _ G W Hv He Hs Hdl) as [G1 R1]. cbn zeta in G1, R1.
    set (c1 := setEntries _ _) in *.
    destruct (evictWhile_spec (evictFuel c1) residentOver c1 G1) as (c' & E & G' & V' & Ho & _); [|apply measure_fuel|].
    { intros c2 G2 _ Hr. destruct (no_residents c2 (g_ok _ G2) Hr) as [Z1 Z2]. unfold residentOver. rewrite Z1, Z2.
      pose proof (g_cap _ G2). apply Z.ltb_ge. change (u64 (0 + 0)) with 0. lia. }
    exists c'. split; [done|]. destruct (V') as ((F1 & F2) & Vf & _ & _ & Vr).
    assert (same_conf c c1 /\ residents c1 = residents c /\ f_entries c1 = <[key := mkFifoEntry (Some v) (re_weight v) (Z.min 3 (u8 (fe_freq old + 1))) (fe_segment old)]> (f_entries c))
      as ((D1 & D2) & D3 & D4) by (unfold c1; destruct (fe_segment old); done).
    split_and!; [done| |split; congruence| |].
    + split; [|rewrite F2, D2; destruct W as [_ W]; lia]. unfold residentOver in Ho.
      pose proof (bytes_range c' (g_ok _ G')). pose proof (fo_res_bound _ (g_ok _ G')).
      rewrite u64_small in Ho by (unfold fits; lia). by b2p.
    + intros Hn. unfold find in Hn. rewrite He, decide_False, Ev in Hn by done. done.
    + intros k w X. apply Vf in X. unfold find in X. rewrite D4 in X. destruct (decide (k = key)) as [->|Hne].
      * rewrite lookup_insert_eq in X. cbn in X. rewrite decide_False in X by done. left. split; congruence.
      * rewrite lookup_insert_ne in X by done. right. done.
  - apply dec_stable in Hs. set (c0 := setStats c _ _ _).
    assert (good c0) as G0 by (destruct G; split; try done; by apply fifo_ok_stats).
    destruct (unlink_spec c0 key old (g_ok _ G0) He) as (c1 & E1 & H1 & [D1 D2] & Em & Hq & Hb & Hg & Hm).
    destruct (unlink_evicts c0 key old c1 (g_ok _ G0) He E1) as [V1 _].
    rewrite E1. cbn [mbind option_bind].
    assert (good c1) as G1.
    { eapply good_evicts; [exact G0|done| |done]. pose proof (g_ghost _ G0) as Ho. unfold ghostOver in *. b2p.
      pose proof (Hq Ghost) as Q. rewrite decide_True in Q by done. cbn [queue] in Q.
      pose proof (sublist_length _ _ (removeKey_sublist key (qGhost c0))) as Hlen. rewrite <- Q in Hlen.
      rewrite D1, D2. apply orb_false_iff; split; [apply orb_false_iff; split|]; apply Z.ltb_ge; lia. }
    destruct (admit_spec c1 key v Main G1) as (c' & E & G' & W' & Hf & Ho & [D3 D4]); [|by rewrite Em, lookup_delete_eq|done|done|].
    { destruct Hv as (? & ? & ?). unfold value_ok. rewrite D1. done. }
    exists c'. split_and!; try done; [split; [by rewrite D3, D1|by rewrite D4, D2]|].
    intros k w X. destruct (decide (k = key)) as [->|Hne]; [left; split; congruence|right].
    split; [done|]. apply Ho in X; [|done]. by apply (find_delete c0 c1 key Em).
Qed.

Lemma fifo_get_spec c key :
  good c -> within c -> exists c', fifo_get c key = (find c key, c') /\ good c' /\ within c' /\ same_conf c c' /\
    (forall k, find c' k = find c k).
Proof.
  intros G W. pose proof (g_ok _ G) as H. unfold fifo_get, find.
  destruct (f_entries c !! key) as [e|] eqn:He.
  2: { eexists; split; [done|]. split_and!; try done. destruct G; split; try done. by apply fifo_ok_stats. }
  destruct (decide (fe_segment e = Ghost)) as [Hs|Hs].
  { eexists; split; [done|]. split_and!; try done. destruct G; split; try done. by apply fifo_ok_stats. }
  eexists; split; [done|]. destruct (fo_entry _ H _ _ He) as [[Hfr Hc Hv] Hk].
  set (e' := setFreq e _). set (c' := setStats _ _ _ _).
  assert (fifo_ok c') as H'.
  { apply fifo_ok_stats, (fifo_ok_same c); try done.
    - intros k e0. cbn. intros X. apply lookup_insert_Some in X as [[<- <-]|[_ X]].
      + split; [cbn; rewrite u8_small by (unfold fits; lia); lia|]. exists e. done.
      + split; [|by exists e0]. destruct (fo_entry _ H _ _ X) as [[? _ _] _]. done.
    - intros k [e0 X]. cbn. destruct (decide (k = key)) as [->|]; [by rewrite lookup_insert_eq|].
      rewrite lookup_insert_ne by done. eauto. }
  split_and!; try done.
  - destruct G as [_ Gk Gc Gl Gg]. split; try done. intros k e0. cbn. intros X.
    apply lookup_insert_Some in X as [[<- _]|[_ X]]; eauto.
  - intros k. cbn. destruct (decide (k = key)) as [->|]; [|by rewrite lookup_insert_ne].
    rewrite lookup_insert_eq, He. done.
Qed.

Lemma fifo_delete_spec c key :
  good c -> within c -> exists c', fifo_delete c key = Some c' /\ good c' /\ within c' /\ same_conf c c' /\
    find c' key = None /\ (forall k, k <> key -> find c' k = find c k).
Proof.
  intros G W. pose proof (g_ok _ G) as H. unfold fifo_delete.
  destruct (f_entries c !! key) as [e|] eqn:He.
  2: { exists c. split_and!; try done. unfold find. by rewrite He. }
  destruct (unlink_spec c key e H He) as (c' & E & H' & [D1 D2] & Em & Hq & Hb & Hg & Hm).
  destruct (unlink_evicts c key e c' H He E) as [V _]. exists c'. split_and!; try done.
  - eapply good_evicts; [exact G|done| |done]. pose proof (g_ghost _ G) as Ho. unfold ghostOver in *. b2p.
    pose proof (Hq Ghost) as Q. cbn [queue] in Q.
    assert (length (qGhost c') <= length (qGhost c))%nat as Hlen.
    { rewrite Q. goal_decide; [apply sublist_length, removeKey_sublist|lia]. }
    rewrite D1, D2. apply orb_false_iff; split; [apply orb_false_iff; split|]; apply Z.ltb_ge; lia.
  - by eapply within_evicts.
  - unfold find. by rewrite Em, lookup_delete_eq.
  - intros k Hk. unfold find. by rewrite Em, lookup_delete_ne.
Qed.

Lemma newS3FIFO_good capacity : 0 < capacity <= 2 ^ 40 -> good (newS3FIFO capacity) /\ within (newS3FIFO capacity).
Proof.
  intros Hc. split; [|unfold within; cbn; lia]. split; cbn; try done; try lia.
  - split; cbn; try done; try lia; [apply NoDup_nil_2|]. intros [] k; cbn; set_solver.
  - unfold ghostOver. cbn. apply orb_false_iff; split; [apply orb_false_iff; split|]; apply Z.ltb_ge; lia.
Qed.

(** ** Policies

    What [RamCache] expects of the policy it selects.  [p_holds] is the
    content a lookup would return, [p_items] and [p_size] the counters it
    reports, on which nothing relies. *)
Class RamPolicy (P : Type) : Type := {
  p_cap : P -> Z;
  p_inv : P -> Prop;
  p_holds : P -> bytes -> option ramEntry;
  p_get : P -> bytes -> option ramEntry * P;
  p_put : P -> bytes -> ramEntry -> option P;
  p_delete : P -> bytes -> option P;
  p_items : P -> Z;
  p_size : P -> Z;
  p_get_law p k : p_inv p -> (p_get p k).1 = p_holds p k /\ p_inv (p_get p k).2 /\
    p_cap (p_get p k).2 = p_cap p /\ forall k' w, p_holds (p_get p k).2 k' = Some w -> p_holds p k' = Some w;
  p_put_law p k v : p_inv p -> blen k <= 65536 -> blen (re_data v) <= re_weight v -> re_weight v < 2 ^ 32 ->
    re_weight v <= p_cap p ->
    exists p', p_put p k v = Some p' /\ p_inv p' /\ p_cap p' = p_cap p /\
      forall k' w, p_holds p' k' = Some w -> k' = k /\ w = v \/ k' <> k /\ p_holds p k' = Some w;
  p_delete_law p k : p_inv p ->
    exists p', p_delete p k = Some p' /\ p_inv p' /\ p_cap p' = p_cap p /\ p_holds p' k = None /\
      forall k' w, p_holds p' k' = Some w -> p_holds p k' = Some w }.

#[export, refine] Instance fifo_policy : RamPolicy s3FIFO := {|
  p_cap := f_capacity;
  p_inv c := good c /\ within c;
  p_holds := find;
  p_get := fifo_get;
  p_put := fifo_put;
  p_delete := fifo_delete;
  p_items c := Z.of_nat (length (qSmall c) + length (qMain c));
  p_size c := u64 (smallBytes c + mainBytes c) |}.
Proof.
  - intros c k [G W]. destruct (fifo_get_spec c k G W) as (c' & -> & G' & W' & [E _] & Hf). cbn.
    split_and!; try done. intros k' w. by rewrite Hf.
  - intros c k v [G W] Hk Hd Hw Hc. destruct (fifo_put_spec c k v G W) as (c' & E & G' & W' & [F _] & _ & Hf); [done|done|].
    exists c'. split_and!; auto.
  - intros c k [G W]. destruct (fifo_delete_spec c k G W) as (c' & E & G' & W' & [F _] & Hn & Hf).
    exists c'. split_and!; auto. intros k' w X. destruct (decide (k' = k)) as [->|]; [congruence|]. by rewrite Hf in X.
Defined.

Section RamCache.
(** The otter cache: a third-party package behind the policy interface. *)
Context {Otter : Type} `{RamPolicy Otter} (otter_new : Z -> Otter).

Inductive backend : Type :=
  | NoCache
  | Fifo (c : s3FIFO)
  | OtterCache (o : Otter).

Record RamCache : Type := mkRamCache { rc_backend : backend; rc_capacity : Z; rc_algorithm : string }.

Definition maxRAMKeyBytes : Z := Z.shiftl 64 10.

Definition NewRamCacheWithAlgorithm (capacity : Z) (algorithm : string) : result RamCache :=
  if negb (bool_decide (algorithm = "otter"%string)) && negb (bool_decide (algorithm = "s3-fifo"%string))
  then Err (Errorf "unknown RAM cache algorithm")
  else if Z.shiftl 1 40 <? capacity then Err (Errorf "RAM cache capacity exceeds 1 TiB")
  else if capacity =? 0 then Ok (mkRamCache NoCache capacity algorithm)
  else if bool_decide (algorithm = "s3-fifo"%string)
  then Ok (mkRamCache (Fifo (newS3FIFO capacity)) capacity algorithm)
  else Ok (mkRamCache (OtterCache (otter_new capacity)) capacity algorithm).

Definition setBackend (r : RamCache) (b : backend) : RamCache := mkRamCache b (rc_capacity r) (rc_algorithm r).

Definition getEntry (r : RamCache) (key : bytes) : option ramEntry * RamCache :=
  match rc_backend r with
  | Fifo c => let '(e, c) := fifo_get c key in (e, setBackend r (Fifo c))
  | NoCache => (None, r)
  | OtterCache o => let '(e, o) := p_get o key in (e, setBackend r (OtterCache o))
  end.

Definition Get (r : RamCache) (key : bytes) : option bytes * RamCache :=
  let '(e, r) := getEntry r key in (re_data <$> e, r).

Definition Delete (r : RamCache) (key : bytes) : option RamCache :=
  match rc_backend r with
  | Fifo c => c ← fifo_delete c key; Some (setBackend r (Fifo c))
  | OtterCache o => o ← p_delete o key; Some (setBackend r (OtterCache o))
  | NoCache => Some r
  end.

(** Whether [Put] stores the value, given the entry it builds. *)
Definition admits (r : RamCache) (key value : bytes) : bool :=
  negb ((rc_capacity r =? 0) || (rc_capacity r <? blen value) || (2 ^ 32 - 1 <? blen value) ||
        (maxRAMKeyBytes <? blen key)) &&
  negb (rc_capacity r <? re_weight (newRAMEntry value)).

Definition Put (r : RamCache) (key value : bytes) : option RamCache :=
  if negb (admits r key value) then Delete r key
  else match rc_backend r with
  | Fifo c => c ← fifo_put c key (newRAMEntry value); Some (setBackend r (Fifo c))
  | OtterCache o => o ← p_put o key (newRAMEntry value); Some (setBackend r (OtterCache o))
  | NoCache => None (* nil policy: unreachable, the capacity is 0 *)
  end.

Definition Items (r : RamCache) : Z :=
  match rc_backend r with
  | Fifo c => Z.of_nat (length (qSmall c) + length (qMain c))
  | NoCache => 0
  | OtterCache o => p_items o
  end.
Definition Size (r : RamCache) : Z :=
  match rc_backend r with
  | Fifo c => u64 (smallBytes c + mainBytes c)
  | NoCache => 0
  | OtterCache o => p_size o
  end.

(** ** Coherence: the RAM cache never returns a stale or foreign value *)

Definition holds (r : RamCache) (k : bytes) : option ramEntry :=
  match rc_backend r with
  | NoCache => None
  | Fifo c => find c k
  | OtterCache o => p_holds o k
  end.

Definition rc_inv (r : RamCache) : Prop :=
  match rc_backend r with
  | NoCache => rc_capacity r = 0
  | Fifo c => good c /\ within c /\ f_capacity c = rc_capacity r
  | OtterCache o => p_inv o /\ p_cap o = rc_capacity r
  end.

(** The value last put for each key. *)
Definition lastPut (r : RamCache) (m : gmap bytes bytes) (key value : bytes) : gmap bytes bytes :=
  if admits r key value then <[key := value]> m else delete key m.

Inductive ram_step : RamCache * gmap bytes bytes -> RamCache * gmap bytes bytes -> Prop :=
  | ram_get r m key v r' : Get r key = (v, r') -> ram_step (r, m) (r', m)
  | ram_put r m key value r' : bytes_ok value -> Put r key value = Some r' -> ram_step (r, m) (r', lastPut r m key value)
  | ram_delete r m key r' : Delete r key = Some r' -> ram_step (r, m) (r', delete key m).

(** Every resident entry is the one built from the last value put. *)
Definition coherent (st : RamCache * gmap bytes bytes) : Prop :=
  rc_inv st.1 /\ forall k e, holds st.1 k = Some e -> exists v, st.2 !! k = Some v /\ e = newRAMEntry v.

Lemma newRAMEntry_data v : re_data (newRAMEntry v) = v.
Proof. unfold newRAMEntry. repeat (case_match; try done). Qed.

Lemma newRAMEntry_weight v :
  bytes_ok v -> blen v <= 2 ^ 32 - 1 -> blen v <= re_weight (newRAMEntry v) /\ 0 < re_weight (newRAMEntry v) < 2 ^ 32.
Proof.
  intros Hok Hv. pose proof (blen_nonneg v) as Hn. unfold newRAMEntry.
  assert (u32 (Z.max 1 (blen v)) = Z.max 1 (blen v)) as Hw by (apply u32_small; unfold fits; lia). rewrite Hw.
  assert (blen v <= Z.max 1 (blen v) /\ 0 < Z.max 1 (blen v) < 2 ^ 32) as Hmin by lia.
  destruct (blen v <? DocHeaderSize); [done|]. destruct (Doc.UnmarshalBinary _) as [doc|]; [|done].
  destruct (_ || _); [done|]. destruct (HttpInfo.UnmarshalBinary _) as [info|] eqn:Ei; [|done].
  destruct (info_charge _ _ ltac:(by apply Forall_take, Forall_drop) Ei) as (B1 & B2 & B3).
  set (charge := u64 _). destruct (2 ^ 32 - 1 <? charge) eqn:Ec; [done|]. b2p. cbn [re_weight].
  assert (charge = Z.max 1 (blen v) + 256 + (blen (RequestMethod info) + blen (RequestURL info)) +
    sumZ headerCharge (map_to_list (ResponseHeaders info))) as Hc by (apply u64_small; unfold fits; lia).
  rewrite u32_small by (unfold fits; lia). lia.
Qed.

Lemma admits_ok r key value :
  bytes_ok value -> admits r key value = true ->
  rc_capacity r <> 0 /\ blen key <= 65536 /\ blen value <= re_weight (newRAMEntry value) /\
  re_weight (newRAMEntry value) < 2 ^ 32 /\ re_weight (newRAMEntry value) <= rc_capacity r.
Proof.
  intros Hok Ha. unfold admits in Ha. b2p. destruct (newRAMEntry_weight value Hok); [lia|].
  change maxRAMKeyBytes with 65536 in *. lia.
Qed.

Lemma Delete_inv r key :
  rc_inv r -> exists r', Delete r key = Some r' /\ rc_inv r' /\ rc_capacity r' = rc_capacity r /\
    holds r' key = None /\ forall k e, holds r' k = Some e -> holds r k = Some e.
Proof.
  unfold rc_inv, Delete, holds. destruct (rc_backend r) as [|c|o] eqn:Eb; intros I.
  - exists r. rewrite Eb. split_and!; done.
  - destruct I as (G & W & E). destruct (fifo_delete_spec c key G W) as (c' & -> & G' & W' & [F _] & Hn & Hf).
    eexists; split; [done|]. cbn. split_and!; try done; [congruence|].
    intros k e X. destruct (decide (k = key)) as [->|]; [congruence|]. by rewrite Hf in X.
  - destruct I as (I & E). destruct (p_delete_law o key I) as (o' & -> & I' & F & Hn & Hf).
    eexists; split; [done|]. cbn. split_and!; try done. congruence.
Qed.

Lemma Put_inv r key value :
  rc_inv r -> bytes_ok value -> exists r', Put r key value = Some r' /\ rc_inv r' /\ rc_capacity r' = rc_capacity r /\
    forall k e, holds r' k = Some e ->
      k = key /\ admits r key value = true /\ e = newRAMEntry value \/ k <> key /\ holds r k = Some e.
Proof.
  intros I Hok. unfold Put. destruct (admits r key value) eqn:Ha; cbn [negb].
  2: { destruct (Delete_inv r key I) as (r' & E & I' & Ec & Hn & Hf). exists r'. split_and!; try done.
       intros k e X. destruct (decide (k = key)) as [->|]; [congruence|]. right. auto. }
  destruct (admits_ok r key value Hok Ha) as (Hc & Hk & Hd & Hw & Hcap).
  unfold rc_inv, holds in *. destruct (rc_backend r) as [|c|o] eqn:Eb; [congruence| |].
  - destruct I as (G & W & E).
    destruct (fifo_put_spec c key (newRAMEntry value) G W) as (c' & -> & G' & W' & [F _] & _ & Hf); [|done|].
    { unfold value_ok. rewrite newRAMEntry_data, E. done. }
    eexists; split; [done|]. cbn. split_and!; try done; [congruence|].
    intros k e X. destruct (Hf k e X) as [[? ?]|?]; auto.
  - destruct I as (I & E).
    destruct (p_put_law o key (newRAMEntry value) I) as (o' & -> & I' & F & Hf); [done|by rewrite newRAMEntry_data|done|congruence|].
    eexists; split; [done|]. cbn. split_and!; try done; [congruence|].
    intros k e X. destruct (Hf k e X) as [[? ?]|?]; auto.
Qed.

Lemma Get_inv r key :
  rc_inv r -> rc_inv (Get r key).2 /\ (Get r key).1 = re_data <$> holds r key /\
    rc_capacity (Get r key).2 = rc_capacity r /\ forall k e, holds (Get r key).2 k = Some e -> holds r k = Some e.
Proof.
  intros I. unfold Get, getEntry, rc_inv, holds in *. destruct (rc_backend r) as [|c|o] eqn:Eb.
  - cbn. rewrite Eb. done.
  - destruct I as (G & W & E). destruct (fifo_get_spec c key G W) as (c' & -> & G' & W' & [F _] & Hf). cbn.
    split_and!; try done; [congruence|]. intros k e. by rewrite Hf.
  - destruct I as (I & E). pose proof (p_get_law o key I) as (E1 & I' & F & Hf). destruct (p_get o key) as [v o']. cbn in *.
    split_and!; try done; congruence.
Qed.

Lemma coherent_step st st' : coherent st -> ram_step st st' -> coherent st'.
Proof.
  intros C0 Hs. revert C0. destruct Hs as [r m key v r' E|r m key value r' Hok E|r m key r' E]; intros [I C]; cbn [fst snd] in *.
  - destruct (Get_inv r key I) as (I' & _ & _ & Hf). rewrite E in I', Hf. split; [done|]. cbn. eauto.
  - destruct (Put_inv r key value I Hok) as (r2 & E2 & I2 & _ & Hf). assert (r2 = r') as -> by congruence.
    split; [done|]. cbn. intros k e X. unfold lastPut. destruct (Hf k e X) as [(-> & -> & ->)|[Hne X']].
    + exists value. by rewrite lookup_insert_eq.
    + destruct (C k e X') as (v & Hv & ->). exists v. split; [|done].
      destruct (admits r key value); [by rewrite lookup_insert_ne|by rewrite lookup_delete_ne].
  - destruct (Delete_inv r key I) as (r2 & E2 & I2 & _ & Hn & Hf). assert (r2 = r') as -> by congruence.
    split; [done|]. cbn. intros k e X. destruct (decide (k = key)) as [->|Hne]; [congruence|].
    destruct (C k e (Hf _ _ X)) as (v & Hv & ->). exists v. by rewrite lookup_delete_ne.
Qed.

(** A fresh otter cache satisfies its interface and is empty. *)
Definition otter_fresh : Prop :=
  forall cap, 0 < cap <= 2 ^ 40 -> p_inv (otter_new cap) /\ p_cap (otter_new cap) = cap /\ forall k, p_holds (otter_new cap) k = None.

Lemma New_coherent capacity algorithm r :
  otter_fresh -> 0 <= capacity -> NewRamCacheWithAlgorithm capacity algorithm = Ok r ->
  coherent (r, ∅) /\ rc_capacity r = capacity /\
  (algorithm = "s3-fifo"%string -> 0 < capacity -> exists c, rc_backend r = Fifo c).
Proof.
  intros Hot Hc. unfold NewRamCacheWithAlgorithm. destruct (_ && _); [done|].
  destruct (_ <? capacity) eqn:E1; [done|]. b2p. change (Z.shiftl 1 40) with (2 ^ 40) in E1.
  destruct (capacity =? 0) eqn:E2; b2p.
  { intros [= <-]. split_and!; [split; cbn; [done|done]|done|lia]. }
  case_bool_decide as Ea; intros [= <-].
  - destruct (newS3FIFO_good capacity) as [G W]; [lia|]. split_and!; [|done|cbn; eauto].
    split; [done|]. cbn. intros k e X. unfold find in X. cbn in X. by rewrite lookup_empty in X.
  - destruct (Hot capacity) as (I & F & Hn); [lia|]. split_and!; [|done|done].
    split; [done|]. cbn. intros k e X. congruence.
Qed.

Lemma ram_reachable capacity algorithm r0 r m :
  otter_fresh -> 0 <= capacity -> NewRamCacheWithAlgorithm capacity algorithm = Ok r0 ->
  rtc ram_step (r0, ∅) (r, m) -> coherent (r, m).
Proof.
  intros Hot Hc E Hr. destruct (New_coherent _ _ _ Hot Hc E) as [C _].
  remember (r0, ∅) as st. remember (r, m) as st'. clear Heqst Heqst'.
  induction Hr; [done|]. eauto using coherent_step.
Qed.

(** C33: whichever policy is configured, a RAM hit returns exactly the value
    of the last admitted [Put] of that key, with no [Delete] and no rejected
    [Put] in between; it is never stale and never another key's value. *)
Theorem ramcache_coherent capacity algorithm r0 r m key data r' :
  otter_fresh -> 0 <= capacity -> NewRamCacheWithAlgorithm capacity algorithm = Ok r0 ->
  rtc ram_step (r0, ∅) (r, m) -> Get r key = (Some data, r') -> m !! key = Some data.
Proof.
  intros Hot Hc E Hr Hg. destruct (ram_reachable _ _ _ _ _ Hot Hc E Hr) as [I C]. cbn in *.
  destruct (Get_inv r key I) as (_ & Hv & _). rewrite Hg in Hv. cbn in Hv.
  destruct (holds r key) as [e|] eqn:Eh; [|done]. destruct (C _ _ Eh) as (v & Hm & ->).
  cbn in Hv. rewrite newRAMEntry_data in Hv. congruence.
Qed.

(** What the s3-fifo cache guarantees about its size. *)
Definition fifo_bounded (capacity : Z) (c : s3FIFO) : Prop :=
  smallBytes c + mainBytes c = sumZ (chargeIn (f_entries c)) (qSmall c ++ qMain c) /\
  smallBytes c + mainBytes c <= capacity /\ payloadBytes c <= smallBytes c + mainBytes c /\
  Z.of_nat (length (qSmall c) + length (qMain c)) <= Z.min capacity 65536 /\
  ghostBytes c <= capacity /\ ghostMetadata c <= Z.max 128 (capacity / 10) /\
  Z.of_nat (length (qGhost c)) <= Z.min capacity 65536 /\
  Permutation (qSmall c ++ qMain c ++ qGhost c) (map_to_list (f_entries c)).*1.

Lemma good_bounded c : good c -> within c -> fifo_bounded (f_capacity c) c.
Proof.
  intros [Hc _ _ Hl Ho] [W1 W2]. unfold ghostOver in Ho. b2p. rewrite Hl in *. unfold fifo_bounded.
  pose proof (bytes_range c Hc). split_and!; try lia.
  - rewrite sumZ_app, (fo_small _ Hc), (fo_main _ Hc). done.
  - unfold residents in W2. lia.
  - apply NoDup_Permutation; [by apply fo_nodup|apply NoDup_fst_map_to_list|]. intros k.
    rewrite list_elem_of_fmap. split.
    + intros Hk. assert (exists s, k ∈ queue c s) as [s Hs].
      { apply elem_of_app in Hk as [Hk|Hk]; [by exists Small|]. apply elem_of_app in Hk as [Hk|Hk]; [by exists Main|by exists Ghost]. }
      destruct (fo_queue _ Hc _ _ Hs) as (e & He & _). exists (k, e). split; [done|]. by apply elem_of_map_to_list.
    + intros ([k' e] & -> & He). apply elem_of_map_to_list in He. destruct (fo_entry _ Hc _ _ He) as [_ Hk].
      cbn. destruct (fe_segment e); cbn in Hk; set_solver.
Qed.

(** C34: the s3-fifo policy terminates on every request and stays within its
    limits: resident bytes never exceed the capacity and are accounted
    exactly, at most [min(capacity, 65536)] entries are resident, the ghost
    queue is bounded in bytes, metadata and length, and the queues partition
    the index. *)
Theorem s3fifo_bounded capacity r0 r m key value :
  otter_fresh -> 0 < capacity -> NewRamCacheWithAlgorithm capacity "s3-fifo" = Ok r0 ->
  rtc ram_step (r0, ∅) (r, m) -> bytes_ok value ->
  exists c, rc_backend r = Fifo c /\ fifo_bounded capacity c /\
    is_Some (Put r key value) /\ is_Some (Delete r key).
Proof.
  intros Hot Hc E Hr Hok. destruct (ram_reachable capacity _ _ _ _ Hot ltac:(lia) E Hr) as [I _]. cbn in I.
  destruct (New_coherent capacity _ _ Hot ltac:(lia) E) as (C0 & Ec & Hb). destruct (Hb eq_refl Hc) as [c0 Hb0].
  assert (forall st st', rtc ram_step st st' -> coherent st -> rc_capacity st.1 = capacity -> (exists c, rc_backend st.1 = Fifo c) ->
    rc_capacity st'.1 = capacity /\ exists c, rc_backend st'.1 = Fifo c) as Hinv.
  { clear. intros st st' Hr. induction Hr as [|x y z Hs Hr IH]; [done|]. intros C Hc [c Hb].
    apply IH; [by eapply coherent_step| |]; destruct C as [I _];
      destruct Hs as [r m key v r' E|r m key value r' Hok E|r m key r' E]; cbn in *.
    - destruct (Get_inv r key I) as (_ & _ & F & _). rewrite E in F. cbn in F. congruence.
    - destruct (Put_inv r key value I Hok) as (r2 & E2 & _ & F & _). congruence.
    - destruct (Delete_inv r key I) as (r2 & E2 & _ & F & _). congruence.
    - unfold Get, getEntry in E. rewrite Hb in E. destruct (fifo_get c key). injection E as <- <-. cbn. eauto.
    - unfold Put, Delete in E. rewrite Hb in E. destruct (negb _).
      + destruct (fifo_delete c key); [|done]. injection E as <-. cbn. eauto.
      + destruct (fifo_put c key _); [|done]. injection E as <-. cbn. eauto.
    - unfold Delete in E. rewrite Hb in E. destruct (fifo_delete c key); [|done]. injection E as <-. cbn. eauto. }
  destruct (Hinv _ _ Hr C0 Ec ltac:(eauto)) as [Hcap [c Hbc]]. cbn in Hcap, Hbc.
  exists c. split; [done|]. pose proof I as I'. unfold rc_inv in I'. rewrite Hbc in I'. destruct I' as (G & W & F).
  split_and!.
  - rewrite <- Hcap, <- F. by apply good_bounded.
  - destruct (Put_inv r key value I Hok) as (? & -> & _). eauto.
  - destruct (Delete_inv r key I) as (? & -> & _). eauto.
Qed.

(** With s3-fifo, a value that [Put] admits for a key that was not
    resident is returned by the next [Get]. *)
Theorem s3fifo_put_get r c key value :
  rc_inv r -> rc_backend r = Fifo c -> bytes_ok value -> admits r key value = true -> find c key = None ->
  exists r', Put r key value = Some r' /\ (Get r' key).1 = Some value.
Proof.
  intros I Hb Hok Ha Hn. destruct (admits_ok r key value Hok Ha) as (_ & Hk & Hd & Hw & Hcap).
  unfold rc_inv in I. rewrite Hb in I. destruct I as (G & W & E).
  destruct (fifo_put_spec c key (newRAMEntry value) G W) as (c' & Ep & G' & W' & [F _] & Hf & _); [|done|].
  { unfold value_ok. rewrite newRAMEntry_data, E. done. }
  unfold Put. rewrite Ha, Hb, Ep. cbn [negb mbind option_bind]. eexists; split; [done|].
  unfold Get, getEntry. cbn. destruct (fifo_get_spec c' key G' W') as (c2 & -> & _). cbn.
  rewrite (Hf Hn). cbn. by rewrite newRAMEntry_data.
Qed.
End RamCache.

(** ** Concrete caches: otter's place is taken by a second S3-FIFO *)

Definition ram16 : RamCache (Otter := s3FIFO) := mkRamCache (Fifo (newS3FIFO 16)) 16 "s3-fifo".
Definition ram16a : RamCache (Otter := s3FIFO) := default ram16 (Put ram16 [1] [7; 8]).

Lemma fifo_fresh : otter_fresh (Otter := s3FIFO) newS3FIFO.
Proof.
  intros cap Hc. destruct (newS3FIFO_good cap Hc) as [G W]. split_and!; [done|done|].
  intros k. cbn. unfold find. cbn. by rewrite lookup_empty.
Qed.
Lemma ram16_new : NewRamCacheWithAlgorithm newS3FIFO 16 "s3-fifo" = Ok ram16.
Proof. vm_compute. reflexivity. Qed.
Lemma ram16a_put : Put ram16 [1] [7; 8] = Some ram16a.
Proof. vm_compute. reflexivity. Qed.
Lemma ram16a_reach : rtc ram_step (ram16, ∅) (ram16a, {[ [1] := [7; 8] ]}).
Proof.
  apply rtc_once. assert (lastPut ram16 ∅ [1] [7; 8] = {[ [1] := [7; 8] ]}) as <- by (vm_compute; reflexivity).
  constructor; [concrete|exact ram16a_put].
Qed.

Lemma ramcache_coherent_witness :
  exists r', Get ram16a [1] = (Some [7; 8], r') /\ ({[ [1] := [7; 8] ]} : gmap bytes bytes) !! [1] = Some [7; 8].
Proof.
  assert (exists r', Get ram16a [1] = (Some [7; 8], r')) as [r' E] by (eexists; vm_compute; reflexivity).
  exists r'. split; [exact E|].
  apply (ramcache_coherent newS3FIFO 16 "s3-fifo" ram16 ram16a {[ [1] := [7; 8] ]} [1] [7; 8] r' fifo_fresh);
    [lia|exact ram16_new|exact ram16a_reach|exact E].
Defined.

Lemma s3fifo_bounded_witness :
  exists c, rc_backend ram16a = Fifo c /\ fifo_bounded 16 c /\
    is_Some (Put ram16a [2] [9]) /\ is_Some (Delete ram16a [2]).
Proof.
  apply (s3fifo_bounded newS3FIFO 16 ram16 ram16a {[ [1] := [7; 8] ]} [2] [9] fifo_fresh);
    [lia|exact ram16_new|exact ram16a_reach|concrete].
Defined.

Lemma s3fifo_put_get_witness : exists r', Put ram16 [1] [7; 8] = Some r' /\ (Get r' [1]).1 = Some [7; 8].
Proof.
  destruct (newS3FIFO_good 16 ltac:(lia)) as [G W].
  apply (s3fifo_put_get ram16 (newS3FIFO 16) [1] [7; 8]);
    [split; [exact G|split; [exact W|reflexivity]]|reflexivity|concrete|vm_compute; reflexivity|vm_compute; reflexivity].
Defined.
