(* ===== verification/File.v ===== *)
(** * The stripe file

    The interface [stripeFile] of [cache/stripe.go] over an [*os.File]: a
    regular file as the list of its bytes, [WriteAt] and [ReadAt] with the
    outcome the operating system gives each call, and [writeFullAt].
    A write past the end extends the file with zeros. *)

From S2P Require Import Prelude.

Abbreviation file := (list Z).

(** The bytes of [f] after [p] has been written at [off]. *)
Definition write_at (f : file) (off : Z) (p : bytes) : file :=
  resize (Z.to_nat off) 0 f ++ p ++ drop (Z.to_nat off + length p) f.

(** Outcome of one system call: it transfers [n] bytes and reports [e]; a
    negative [n] stands for the whole buffer. *)
Record io : Type := mkIo { io_n : Z; io_err : option error }.
Definition io_ok : io := mkIo (-1) None.

Definition io_count (o : io) (len : Z) : Z :=
  if io_n o <? 0 then len else Z.min (io_n o) len.

Definition negativeOffset : error := Errorf "negative offset".

(** [os.File.WriteAt]: the file and the returned count and error. *)
Definition WriteAt (o : io) (f : file) (p : bytes) (off : Z) : file * Z * option error :=
  if off <? 0 then (f, 0, Some negativeOffset)
  else let n := io_count o (blen p) in
       ((if n =? 0 then f else write_at f off (take (Z.to_nat n) p)), n, io_err o).

(** [os.File.ReadAt]: fewer bytes than asked for come with [io.EOF]. *)
Definition ReadAt (f : file) (n off : Z) : bytes * option error :=
  if off <? 0 then ([], Some negativeOffset)
  else let p := slice f off (off + n) in
       (p, if blen p <? n then Some ErrEOF else None).

Definition writeFullAt (o : io) (f : file) (p : bytes) (off : Z) : file * option error :=
  let '(f', n, err) := WriteAt o f p off in
  (f', match err with
       | None => if negb (n =? blen p) then Some ErrShortWrite else None
       | Some e => Some e
       end).

(** ** Reading back what was written *)

Lemma length_write_at f off p :
  length (write_at f off p) = Nat.max (length f) (Z.to_nat off + length p).
Proof. unfold write_at. rewrite !length_app, length_resize, length_drop. lia. Qed.

(** The byte at an index, zero past the end of the file. *)
Definition byteIx (f : file) (i : nat) : Z := default 0 (f !! i).
Definition byteAt (f : file) (i : Z) : Z := byteIx f (Z.to_nat i).

Lemma lookup_write_at f off p (i : nat) :
  write_at f off p !! i =
    if decide (i < Z.to_nat off)%nat then Some (byteIx f i)
    else if decide (i < Z.to_nat off + length p)%nat then p !! (i - Z.to_nat off)%nat
    else f !! i.
Proof.
  unfold write_at. destruct (decide (i < Z.to_nat off)%nat) as [H|H].
  - rewrite lookup_app_l by (by rewrite length_resize). unfold byteIx.
    destruct (f !! i) eqn:E; cbn [default].
    + rewrite lookup_resize; [done|done|]. by eapply lookup_lt_Some.
    + apply lookup_ge_None in E. by apply lookup_resize_new.
  - rewrite lookup_app_r by (rewrite length_resize; lia). rewrite length_resize.
    case_decide.
    + by rewrite lookup_app_l by lia.
    + rewrite lookup_app_r by lia. rewrite lookup_drop. f_equal. lia.
Qed.

(** Two adjacent writes are one write of the concatenation. *)
Lemma write_at_app f off p q :
  0 <= off -> write_at f off (p ++ q) = write_at (write_at f off p) (off + blen p) q.
Proof.
  intros Ho. unfold blen. apply list_eq. intros i. rewrite !lookup_write_at, length_app. unfold byteIx.
  replace (Z.to_nat (off + Z.of_nat (length p))) with (Z.to_nat off + length p)%nat by lia.
  destruct (decide (i < Z.to_nat off)%nat) as [H|H].
  - rewrite decide_True by lia. by rewrite lookup_write_at, decide_True.
  - destruct (decide (i < Z.to_nat off + length p)%nat) as [H1|H1].
    + rewrite decide_True by lia. rewrite lookup_write_at, decide_False, decide_True by lia.
      rewrite lookup_app_l by lia. destruct (p !! _) eqn:E; [done|]. apply lookup_ge_None in E. lia.
    + replace (Z.to_nat off + (length p + length q))%nat with (Z.to_nat off + length p + length q)%nat by lia.
      destruct (decide (i < Z.to_nat off + length p + length q)%nat).
      * rewrite lookup_app_r by lia. f_equal. lia.
      * done.
Qed.

Lemma write_at_nil f off : 0 <= off <= blen f -> write_at f off [] = f.
Proof.
  unfold blen. intros Ho. unfold write_at. rewrite Nat.add_0_r, app_nil_l.
  rewrite resize_le by lia. apply take_drop.
Qed.

Lemma byteAt_write f off p i :
  0 <= off -> 0 <= i ->
  byteAt (write_at f off p) i =
    if (off <=? i) && (i <? off + blen p) then byteIx p (Z.to_nat (i - off)) else byteAt f i.
Proof.
  intros Ho Hi. unfold byteAt, byteIx, blen. rewrite lookup_write_at.
  destruct (off <=? i) eqn:E1; destruct (i <? off + Z.of_nat (length p)) eqn:E2; b2p; cbn [andb].
  - rewrite decide_False, decide_True by lia. f_equal. f_equal. lia.
  - by rewrite decide_False, decide_False by lia.
  - by rewrite decide_True by lia.
  - by rewrite decide_True by lia.
Qed.

Lemma ReadAt_write_same f off p :
  0 <= off -> ReadAt (write_at f off p) (blen p) off = (p, None).
Proof.
  intros Ho. unfold ReadAt. replace (off <? 0) with false by lia.
  assert (slice (write_at f off p) off (off + blen p) = p) as ->.
  { unfold slice, blen. replace (Z.to_nat (off + Z.of_nat (length p) - off)) with (length p) by lia.
    unfold write_at. rewrite drop_app_length' by (by rewrite length_resize). by apply take_app_length'. }
  by rewrite Z.ltb_irrefl.
Qed.

Lemma writeFullAt_ok o f p off f' :
  writeFullAt o f p off = (f', None) -> 0 <= off /\ (p <> [] -> f' = write_at f off p).
Proof.
  unfold writeFullAt, WriteAt. destruct (off <? 0) eqn:E; [done|]. b2p.
  destruct (io_err o); [done|]. destruct (io_count o (blen p) =? blen p) eqn:En; [|done]. b2p.
  rewrite En. cbn. intros [= <-]. split; [done|]. intros Hp.
  assert (0 < blen p) by (unfold blen; destruct p; cbn; [done|lia]).
  replace (blen p =? 0) with false by lia. unfold blen. by rewrite Nat2Z.id, take_ge.
Qed.

Lemma slice_lookup {A} (l : list A) a b (i : nat) :
  0 <= a <= b -> slice l a b !! i = if decide (i < Z.to_nat (b - a))%nat then l !! (Z.to_nat a + i)%nat else None.
Proof.
  intros. unfold slice. case_decide.
  - by rewrite lookup_take_lt, lookup_drop by done.
  - apply lookup_ge_None. rewrite length_take. lia.
Qed.
