(* ===== verification/AggBuffer.v ===== *)
(** * The aggregate write buffer

    [cache/aggregate_write_buffer.go]: two append buffers, one being filled
    and one owned by the disk worker, behind a mutex.  Every function of this
    file is one critical section of that mutex; a call that waits
    ([waitLocked]) ends its critical section with a [Wait] outcome and
    resumes in another one.  [None] stands for a send on [flushChan] that
    would block with the mutex held.

    The bytes of [buffers[i]] beyond [bufferPos[i]] are never read, so a
    buffer is modelled by [buffers[i][:bufferPos[i]]]; a [PendingWriter] is
    an identifier; [changed] counts the channels [signalLocked] has closed,
    so a waiter parked at count [c] is awake once [changed] differs. *)

From S2P Require Import Prelude Hash Dir Doc File.

Record FlushTask : Type := mkTask {
  t_buffer : bytes; t_writers : list nat; t_offset : Z; t_generation : Z }.

Record allocation : Type := mkAlloc { a_offset : Z; a_generation : Z; a_sequence : Z }.

Record Buf : Type := mkBuf {
  b_data : bytes; b_start : Z; b_generation : Z; b_sequence : Z; b_writers : list nat }.

Record AggregateWriteBuffer : Type := mkAgg {
  buf0 : Buf; buf1 : Buf; activeIdx : bool;
  writeCursor : Z; generation : Z; sequence : Z; completed : Z;
  changed : Z; flushChan : list FlushTask; isFlushing : bool;
  minOffset : Z; maxOffset : Z; err : option error; closed : bool }.

Definition bufferPos (u : Buf) : Z := blen (b_data u).

Definition set_buf0 (v : Buf) (b : AggregateWriteBuffer) : AggregateWriteBuffer :=
  mkAgg v (buf1 b) (activeIdx b) (writeCursor b) (generation b) (sequence b) (completed b) (changed b) (flushChan b) (isFlushing b) (minOffset b) (maxOffset b) (err b) (closed b).
Definition set_buf1 (v : Buf) (b : AggregateWriteBuffer) : AggregateWriteBuffer :=
  mkAgg (buf0 b) v (activeIdx b) (writeCursor b) (generation b) (sequence b) (completed b) (changed b) (flushChan b) (isFlushing b) (minOffset b) (maxOffset b) (err b) (closed b).
Definition set_activeIdx (v : bool) (b : AggregateWriteBuffer) : AggregateWriteBuffer :=
  mkAgg (buf0 b) (buf1 b) v (writeCursor b) (generation b) (sequence b) (completed b) (changed b) (flushChan b) (isFlushing b) (minOffset b) (maxOffset b) (err b) (closed b).
Definition set_writeCursor (v : Z) (b : AggregateWriteBuffer) : AggregateWriteBuffer :=
  mkAgg (buf0 b) (buf1 b) (activeIdx b) v (generation b) (sequence b) (completed b) (changed b) (flushChan b) (isFlushing b) (minOffset b) (maxOffset b) (err b) (closed b).
Definition set_generation (v : Z) (b : AggregateWriteBuffer) : AggregateWriteBuffer :=
  mkAgg (buf0 b) (buf1 b) (activeIdx b) (writeCursor b) v (sequence b) (completed b) (changed b) (flushChan b) (isFlushing b) (minOffset b) (maxOffset b) (err b) (closed b).
Definition set_sequence (v : Z) (b : AggregateWriteBuffer) : AggregateWriteBuffer :=
  mkAgg (buf0 b) (buf1 b) (activeIdx b) (writeCursor b) (generation b) v (completed b) (changed b) (flushChan b) (isFlushing b) (minOffset b) (maxOffset b) (err b) (closed b).
Definition set_completed (v : Z) (b : AggregateWriteBuffer) : AggregateWriteBuffer :=
  mkAgg (buf0 b) (buf1 b) (activeIdx b) (writeCursor b) (generation b) (sequence b) v (changed b) (flushChan b) (isFlushing b) (minOffset b) (maxOffset b) (err b) (closed b).
Definition set_changed (v : Z) (b : AggregateWriteBuffer) : AggregateWriteBuffer :=
  mkAgg (buf0 b) (buf1 b) (activeIdx b) (writeCursor b) (generation b) (sequence b) (completed b) v (flushChan b) (isFlushing b) (minOffset b) (maxOffset b) (err b) (closed b).
Definition set_flushChan (v : list FlushTask) (b : AggregateWriteBuffer) : AggregateWriteBuffer :=
  mkAgg (buf0 b) (buf1 b) (activeIdx b) (writeCursor b) (generation b) (sequence b) (completed b) (changed b) v (isFlushing b) (minOffset b) (maxOffset b) (err b) (closed b).
Definition set_isFlushing (v : bool) (b : AggregateWriteBuffer) : AggregateWriteBuffer :=
  mkAgg (buf0 b) (buf1 b) (activeIdx b) (writeCursor b) (generation b) (sequence b) (completed b) (changed b) (flushChan b) v (minOffset b) (maxOffset b) (err b) (closed b).
Definition set_minOffset (v : Z) (b : AggregateWriteBuffer) : AggregateWriteBuffer :=
  mkAgg (buf0 b) (buf1 b) (activeIdx b) (writeCursor b) (generation b) (sequence b) (completed b) (changed b) (flushChan b) (isFlushing b) v (maxOffset b) (err b) (closed b).
Definition set_maxOffset (v : Z) (b : AggregateWriteBuffer) : AggregateWriteBuffer :=
  mkAgg (buf0 b) (buf1 b) (activeIdx b) (writeCursor b) (generation b) (sequence b) (completed b) (changed b) (flushChan b) (isFlushing b) (minOffset b) v (err b) (closed b).
Definition set_err (v : option error) (b : AggregateWriteBuffer) : AggregateWriteBuffer :=
  mkAgg (buf0 b) (buf1 b) (activeIdx b) (writeCursor b) (generation b) (sequence b) (completed b) (changed b) (flushChan b) (isFlushing b) (minOffset b) (maxOffset b) v (closed b).
Definition set_closed (v : bool) (b : AggregateWriteBuffer) : AggregateWriteBuffer :=
  mkAgg (buf0 b) (buf1 b) (activeIdx b) (writeCursor b) (generation b) (sequence b) (completed b) (changed b) (flushChan b) (isFlushing b) (minOffset b) (maxOffset b) (err b) v.

(** The buffer with index [i] ([true] is index 1). *)
Definition buf (b : AggregateWriteBuffer) (i : bool) : Buf := if i then buf1 b else buf0 b.
Definition setBuf (i : bool) (u : Buf) (b : AggregateWriteBuffer) : AggregateWriteBuffer :=
  if i then set_buf1 u b else set_buf0 u b.
Definition active (b : AggregateWriteBuffer) : Buf := buf b (activeIdx b).
Definition inactive (b : AggregateWriteBuffer) : Buf := buf b (negb (activeIdx b)).

Definition emptyBuf : Buf := mkBuf [] 0 0 0 [].

Definition NewAggregateWriteBuffer : AggregateWriteBuffer :=
  mkAgg emptyBuf emptyBuf false 0 0 0 0 0 [] false 0 0 None false.

Definition initPosition (offset generation : Z) (b : AggregateWriteBuffer) : AggregateWriteBuffer :=
  let b := set_writeCursor offset b in
  let b := if maxOffset b =? 0 then set_minOffset offset b else b in
  set_generation generation b.

Definition Init (offset : Z) (b : AggregateWriteBuffer) : AggregateWriteBuffer := initPosition offset 0 b.

Definition SetBounds (min max : Z) (b : AggregateWriteBuffer) : AggregateWriteBuffer :=
  let b := set_maxOffset max (set_minOffset min b) in
  if writeCursor b <? min then set_writeCursor min b else b.

Definition IsEmpty (b : AggregateWriteBuffer) : bool :=
  (bufferPos (active b) =? 0) && negb (isFlushing b).

Definition Stats (b : AggregateWriteBuffer) : Z * Z :=
  let bufferedBytes := bufferPos (active b) in
  let queued := if 0 <? bufferedBytes then 1 else 0 in
  if isFlushing b then (queued + 1, bufferedBytes + bufferPos (inactive b)) else (queued, bufferedBytes).

Definition signalLocked (b : AggregateWriteBuffer) : AggregateWriteBuffer := set_changed (changed b + 1) b.

(** The channel has capacity one. *)
Definition send (t : FlushTask) (b : AggregateWriteBuffer) : option AggregateWriteBuffer :=
  match flushChan b with [] => Some (set_flushChan [t] b) | _ => None end.

Definition resetBuf (u : Buf) : Buf := mkBuf [] (b_start u) (b_generation u) (b_sequence u) [].

Definition swapAndFlushLocked (b : AggregateWriteBuffer) : option AggregateWriteBuffer :=
  let idx := activeIdx b in
  let u := buf b idx in
  if isFlushing b || (bufferPos u =? 0) || bool_decide (err b <> None) then Some b
  else
    let task := mkTask (b_data u) (b_writers u) (b_start u) (b_generation u) in
    let b := set_activeIdx (negb idx) (set_isFlushing true b) in
    send task (setBuf (negb idx) (resetBuf (buf b (negb idx))) b).

Definition TriggerFlush (b : AggregateWriteBuffer) : option AggregateWriteBuffer := swapAndFlushLocked b.

Inductive outcome (A : Type) : Type :=
  | Return (r : result A)
  | Wait.
Arguments Return {A} r.
Arguments Wait {A}.

Definition noFit : error := Errorf "record does not fit aggregate or stripe".

(** The tail of [addContext] after its loop: the record is appended. *)
Definition append (data : bytes) (writer : option nat) (b : AggregateWriteBuffer)
    : option (AggregateWriteBuffer * allocation) :=
  let idx := activeIdx b in
  let u := buf b idx in
  let u := if bufferPos u =? 0 then mkBuf (b_data u) (writeCursor b) (generation b) (b_sequence u) (b_writers u) else u in
  let seq := u64 (sequence b + 1) in
  let u := mkBuf (b_data u ++ data) (b_start u) (b_generation u) seq
             (match writer with Some w => b_writers u ++ [w] | None => b_writers u end) in
  let a := mkAlloc (writeCursor b) (generation b) seq in
  let b := set_sequence seq (setBuf idx u b) in
  let b := set_writeCursor (i64 (writeCursor b + blen data)) b in
  b ← (if (AggHighWaterMark <=? bufferPos u) && negb (isFlushing b) then swapAndFlushLocked b else Some b);
  Some (b, a).

(** The loop of [addContext]; [ctxErr] is what [ctx.Err()] returns during
    this critical section.  [None] also covers an exhausted [fuel], which
    [addLoop_total] excludes for [addFuel]. *)
Fixpoint addLoop (fuel : nat) (ctxErr : option error) (data : bytes) (writer : option nat)
    (b : AggregateWriteBuffer) : option (AggregateWriteBuffer * outcome allocation) :=
  match fuel with
  | O => None
  | S fuel =>
      match err b with
      | Some e => Some (b, Return (Err e))
      | None =>
          if closed b then Some (b, Return (Err ErrCacheClosed))
          else match ctxErr with
          | Some e => Some (b, Return (Err e))
          | None =>
              if (0 <? maxOffset b) && (maxOffset b <? i64 (writeCursor b + blen data)) then
                if isFlushing b then Some (b, Wait)
                else
                  b ← swapAndFlushLocked b;
                  addLoop fuel ctxErr data writer
                    (set_generation (u64 (generation b + 1)) (set_writeCursor (minOffset b) b))
              else if bufferPos (active b) + blen data <=? AggBufferSize then
                '(b, a) ← append data writer b; Some (b, Return (Ok a))
              else if negb (isFlushing b) then
                b ← swapAndFlushLocked b; addLoop fuel ctxErr data writer b
              else Some (b, Wait)
          end
      end
  end.

Definition addFuel : nat := 3.

Definition tooLarge (b : AggregateWriteBuffer) (data : bytes) : bool :=
  (blen data =? 0) || (AggBufferSize <? blen data) ||
  (negb (maxOffset b =? 0) && ((maxOffset b <=? minOffset b) || (i64 (maxOffset b - minOffset b) <? blen data))).

(** [addContext] up to its first wait or its return. *)
Definition addContext (ctxErr : option error) (data : bytes) (writer : option nat) (b : AggregateWriteBuffer)
    : option (AggregateWriteBuffer * outcome allocation) :=
  if tooLarge b data then Some (b, Return (Err noFit)) else addLoop addFuel ctxErr data writer b.

(** [addContext] from a wake-up inside [waitLocked] to the next wait. *)
Definition addResume (ctxErr : option error) (data : bytes) (writer : option nat) (b : AggregateWriteBuffer)
    : option (AggregateWriteBuffer * outcome allocation) :=
  match ctxErr with
  | Some e => Some (b, Return (Err e))
  | None => addLoop addFuel ctxErr data writer b
  end.

(** [flushThrough] up to its first wait or its return, and from a wake-up. *)
Definition flushThrough (ctxErr : option error) (target : Z) (b : AggregateWriteBuffer)
    : option (AggregateWriteBuffer * outcome unit) :=
  match err b with
  | Some e => Some (b, Return (Err e))
  | None =>
      match ctxErr with
      | Some e => Some (b, Return (Err e))
      | None =>
          if target <=? completed b then Some (b, Return (Ok tt))
          else b ← swapAndFlushLocked b; Some (b, Wait)
      end
  end.

Definition flushResume (ctxErr : option error) (target : Z) (b : AggregateWriteBuffer)
    : option (AggregateWriteBuffer * outcome unit) :=
  match ctxErr with
  | Some e => Some (b, Return (Err e))
  | None => flushThrough ctxErr target b
  end.

(** [FlushContext]: the barrier for the additions that precede the call. *)
Definition FlushContext (ctxErr : option error) (b : AggregateWriteBuffer)
    : option (AggregateWriteBuffer * outcome unit) := flushThrough ctxErr (sequence b) b.

(** [NotifyFlushDone]: the new state and the writers whose [OnLogFlush] is
    called with the failure. *)
Definition NotifyFlushDone (e : option error) (b : AggregateWriteBuffer) : AggregateWriteBuffer * list nat :=
  let b := match err b with None => set_err e b | Some _ => b end in
  let b := if isFlushing b then set_isFlushing false (set_completed (b_sequence (inactive b)) b) else b in
  let '(b, failed) :=
    match err b with
    | Some _ => (setBuf (activeIdx b) (resetBuf (active b)) b, b_writers (active b))
    | None => (b, [])
    end in
  (signalLocked b, failed).

Definition Fail (e : option error) (b : AggregateWriteBuffer) : AggregateWriteBuffer :=
  match e with
  | None => b
  | Some _ => signalLocked (match err b with None => set_err e b | Some _ => b end)
  end.

Definition stopAdds (b : AggregateWriteBuffer) : AggregateWriteBuffer := signalLocked (set_closed true b).

Definition zeroPos (u : Buf) : Buf := mkBuf [] (b_start u) (b_generation u) (b_sequence u) (b_writers u).

Definition Reset (b : AggregateWriteBuffer) : AggregateWriteBuffer :=
  signalLocked (mkAgg (zeroPos (buf0 b)) (zeroPos (buf1 b)) false 0 0 0 0 (changed b) (flushChan b) false
    (minOffset b) (maxOffset b) None false).

(** The buffers [DirAggBufValid] and [CopyFrom] look at, in their order. *)
Definition resident (b : AggregateWriteBuffer) : list Buf :=
  active b :: (if isFlushing b then [inactive b] else []).

Definition DirAggBufValid (offset : Z) (b : AggregateWriteBuffer) : bool :=
  existsb (fun u => (b_start u <=? offset) && (offset <? i64 (b_start u + bufferPos u))) (resident b).

(** [CopyFrom offset p]: the bytes copied into a [p] of [n] bytes. *)
Fixpoint copyFrom (offset n : Z) (l : list Buf) : bytes :=
  match l with
  | [] => []
  | u :: l =>
      let off := i64 (offset - b_start u) in
      if (0 <=? off) && (off <? bufferPos u) then take (Z.to_nat n) (slice (b_data u) off (bufferPos u))
      else copyFrom offset n l
  end.
Definition CopyFrom (offset n : Z) (b : AggregateWriteBuffer) : bytes := copyFrom offset n (resident b).
