(* ===== verification/AggLog.v ===== *)
(** * The aggregate write buffer as an append log

    The buffer, the disk worker of [handleFlushTask] and the file run
    concurrently; [step] interleaves their critical sections.  The ghost
    component [log] lists the records [addContext] has acknowledged.  The
    invariant [agg_inv] says that the file is the result of writing a prefix
    of that log, record by record, and that the two buffers hold the rest. *)

From S2P Require Import Prelude Hash Dir Doc File AggBuffer.

(** An acknowledged record: where [addContext] placed it and its bytes. *)
Record lrec : Type := mkRec { l_off : Z; l_gen : Z; l_data : bytes }.
Definition l_end (r : lrec) : Z := l_off r + blen (l_data r).

Definition payload (l : list lrec) : bytes := l ≫= l_data.

(** The file after writing the records of [l] one after the other. *)
Definition image (f : file) (l : list lrec) : file :=
  foldl (fun f r => write_at f (l_off r) (l_data r)) f l.

(** [laid s g l]: the records of [l] are non-empty, of generation [g], and
    lie back to back from offset [s]. *)
Fixpoint laid (start gen : Z) (l : list lrec) : Prop :=
  match l with
  | [] => True
  | r :: l' => l_off r = start /\ l_gen r = gen /\ 0 < blen (l_data r) /\ laid (start + blen (l_data r)) gen l'
  end.

Lemma payload_app l1 l2 : payload (l1 ++ l2) = payload l1 ++ payload l2.
Proof. apply bind_app. Qed.
Lemma image_app f l1 l2 : image f (l1 ++ l2) = image (image f l1) l2.
Proof. apply foldl_app. Qed.

Lemma laid_app s g l1 l2 :
  laid s g (l1 ++ l2) <-> laid s g l1 /\ laid (s + blen (payload l1)) g l2.
Proof.
  revert s. induction l1 as [|r l1 IH]; intros s; cbn [laid app payload mbind list_bind].
  - rewrite Z.add_0_r. tauto.
  - rewrite IH. fold (payload l1). rewrite blen_app, Z.add_assoc. tauto.
Qed.

Lemma laid_pos s g l : laid s g l -> l <> [] -> 0 < blen (payload l).
Proof.
  destruct l as [|r l]; [done|]. intros (_ & _ & H & _) _. cbn. rewrite blen_app.
  pose proof (blen_nonneg (list_bind _ _ l_data l)). unfold mbind. lia.
Qed.

Lemma image_laid_from f start p gen l :
  0 <= start -> laid (start + blen p) gen l ->
  image (write_at f start p) l = write_at f start (p ++ payload l).
Proof.
  revert p. induction l as [|r l IH]; intros p Hs; cbn [image foldl payload mbind list_bind].
  - by rewrite app_nil_r.
  - intros (Ho & _ & _ & Hl). rewrite Ho, <- write_at_app by done.
    change (image (write_at f start (p ++ l_data r)) l = write_at f start (p ++ l_data r ++ payload l)).
    rewrite IH by (rewrite ?blen_app, ?Z.add_assoc; done). by rewrite app_assoc.
Qed.

(** Back-to-back records are written by one [WriteAt] of their payload. *)
Lemma image_laid f start gen l :
  0 <= start -> l <> [] -> laid start gen l -> image f l = write_at f start (payload l).
Proof.
  destruct l as [|r l]; [done|]. intros Hs _ (Ho & _ & _ & Hl).
  cbn [image foldl payload mbind list_bind]. rewrite Ho. by apply (image_laid_from f start (l_data r) gen).
Qed.

Lemma laid_cover s g l x :
  laid s g l -> s <= x < s + blen (payload l) -> exists r, r ∈ l /\ l_off r <= x < l_end r.
Proof.
  revert s. induction l as [|r l IH]; intros s; cbn [laid payload mbind list_bind].
  - unfold blen. cbn. lia.
  - fold (payload l). rewrite blen_app. intros (Ho & _ & _ & Hl) Hx.
    destruct (decide (x < s + blen (l_data r))).
    + exists r. split; [set_solver|]. unfold l_end. lia.
    + destruct (IH _ Hl ltac:(lia)) as (r' & ? & ?). exists r'. split; [set_solver|done].
Qed.

Lemma laid_within s g l r : laid s g l -> r ∈ l -> s <= l_off r /\ l_end r <= s + blen (payload l) /\ l_gen r = g.
Proof.
  revert s. induction l as [|r' l IH]; intros s; cbn [laid payload mbind list_bind]; [set_solver|].
  fold (payload l). rewrite blen_app. pose proof (blen_nonneg (payload l)).
  intros (Ho & Hg & Hp & Hl) [->|Hr]%elem_of_cons.
  - unfold l_end. lia.
  - destruct (IH _ Hl Hr). lia.
Qed.

(** ** The running system *)

Inductive worker : Type :=
  | Idle
  | Taken (t : FlushTask)
  | Written (t : FlushTask) (e : option error).

Record sys : Type := mkSys { agg : AggregateWriteBuffer; wk : worker; disk : file; log : list lrec }.

Definition logged (a : outcome allocation) (data : bytes) (l : list lrec) : list lrec :=
  match a with
  | Return (Ok a) => l ++ [mkRec (a_offset a) (a_generation a) data]
  | _ => l
  end.

(** [call] is one critical section run by a writer, a reader or a timer;
    [step] adds the steps of the disk worker and the failure of the stripe.  The
    counters of the code are 64 bits wide; runs of fewer than [2^62] records
    are considered. *)
Inductive call (s : sys) : sys -> Prop :=
  | call_add ctxErr data writer b' o :
      Z.of_nat (length (log s)) < 2 ^ 62 ->
      addContext ctxErr data writer (agg s) = Some (b', o) ->
      call s (mkSys b' (wk s) (disk s) (logged o data (log s)))
  | call_addResume ctxErr data writer b' o :
      Z.of_nat (length (log s)) < 2 ^ 62 -> tooLarge (agg s) data = false ->
      addResume ctxErr data writer (agg s) = Some (b', o) ->
      call s (mkSys b' (wk s) (disk s) (logged o data (log s)))
  | call_trigger b' :
      TriggerFlush (agg s) = Some b' -> call s (mkSys b' (wk s) (disk s) (log s))
  | call_flush ctxErr target b' o :
      flushThrough ctxErr target (agg s) = Some (b', o) -> call s (mkSys b' (wk s) (disk s) (log s))
  | call_flushResume ctxErr target b' o :
      flushResume ctxErr target (agg s) = Some (b', o) -> call s (mkSys b' (wk s) (disk s) (log s))
  | call_stop : call s (mkSys (stopAdds (agg s)) (wk s) (disk s) (log s)).

Inductive step (s : sys) : sys -> Prop :=
  | step_call s' : call s s' -> step s s'
  | step_take t rest :
      wk s = Idle -> flushChan (agg s) = t :: rest ->
      step s (mkSys (set_flushChan rest (agg s)) (Taken t) (disk s) (log s))
  | step_write t o f' e :
      wk s = Taken t -> writeFullAt o (disk s) (t_buffer t) (t_offset t) = (f', e) ->
      step s (mkSys (agg s) (Written t e) f' (log s))
  | step_skip t e :
      wk s = Taken t -> step s (mkSys (agg s) (Written t (Some e)) (disk s) (log s))
  | step_notify t e :
      wk s = Written t e -> step s (mkSys (NotifyFlushDone e (agg s)).1 Idle (disk s) (log s))
  | step_fail e : step s (mkSys (Fail e (agg s)) (wk s) (disk s) (log s)).

(** The buffer as [Stripe.Init] and [Stripe.Open] leave it. *)
Definition opened (start stop pos gen : Z) : AggregateWriteBuffer :=
  initPosition pos gen (SetBounds start stop (Init start NewAggregateWriteBuffer)).

Inductive reachable (start stop pos gen : Z) (f : file) : sys -> Prop :=
  | reachable_init : reachable start stop pos gen f (mkSys (opened start stop pos gen) Idle f [])
  | reachable_step s s' : reachable start stop pos gen f s -> step s s' -> reachable start stop pos gen f s'.

(** ** The invariant *)

(** Tasks handed over by [swapAndFlushLocked] and not yet notified. *)
Definition inflight (b : AggregateWriteBuffer) (w : worker) : list FlushTask :=
  match w with Idle => flushChan b | Taken t | Written t _ => t :: flushChan b end.

(** Allocation order: later records have a later generation, or the same
    generation and a higher offset. *)
Definition before (r r' : lrec) : Prop := l_gen r < l_gen r' \/ l_gen r = l_gen r' /\ l_end r <= l_off r'.

Record log_ok (lo hi cursor gen : Z) (l : list lrec) : Prop := {
  lo_range : forall r, r ∈ l -> lo <= l_off r /\ l_end r <= hi /\ 0 < blen (l_data r);
  lo_cursor : forall r, r ∈ l -> l_gen r < gen \/ l_gen r = gen /\ l_end r <= cursor;
  lo_order : forall i j r r', (i < j)%nat -> l !! i = Some r -> l !! j = Some r' -> before r r';
  lo_gen : forall r, r ∈ l -> 0 <= l_gen r }.

(** The active buffer [u] holds the records [ac], the last of the log. *)
Definition holds_active (b : AggregateWriteBuffer) (ac : list lrec) (n : Z) : Prop :=
  b_data (active b) = payload ac /\ laid (b_start (active b)) (b_generation (active b)) ac /\
  (ac <> [] -> writeCursor b = b_start (active b) + blen (payload ac) /\
               generation b = b_generation (active b) /\ b_sequence (active b) = n).

(** Where the next or current active buffer begins. *)
Definition activeStart (b : AggregateWriteBuffer) : Z :=
  if bufferPos (active b) =? 0 then writeCursor b else b_start (active b).

(** The inactive buffer and the task [t] both hold the records [fl]. *)
Definition holds_flushing (b : AggregateWriteBuffer) (t : FlushTask) (fl : list lrec) (n : Z) : Prop :=
  fl <> [] /\ laid (t_offset t) (t_generation t) fl /\ t_buffer t = payload fl /\
  b_data (inactive b) = payload fl /\ b_start (inactive b) = t_offset t /\ b_sequence (inactive b) = n /\
  (activeStart b = t_offset t + blen (payload fl) \/ activeStart b = minOffset b).

(** The file: the records [done], and what the worker has written of its task. *)
Definition disk_ok (f0 f : file) (w : worker) (dn fl : list lrec) : Prop :=
  match w with
  | Written t e =>
      f = image f0 dn \/
      exists k, f = write_at (image f0 dn) (t_offset t) (take k (payload fl)) /\ (e = None -> take k (payload fl) = payload fl)
  | _ => f = image f0 dn
  end /\ (forall t, w = Written t None -> f = image f0 (dn ++ fl)).

Definition data_inv (f0 : file) (s : sys) : Prop :=
  exists dn fl ac, log s = dn ++ fl ++ ac /\ completed (agg s) = Z.of_nat (length dn) /\
    holds_active (agg s) ac (Z.of_nat (length (log s))) /\
    match inflight (agg s) (wk s) with
    | [] => fl = []
    | t :: _ => holds_flushing (agg s) t fl (Z.of_nat (length dn + length fl))
    end /\
    disk_ok f0 (disk s) (wk s) dn fl.

(** [k] bounds how far the generation can be ahead of the number of records. *)
Record agg_inv (f0 : file) (k : Z) (s : sys) : Prop := {
  ai_conf : 0 <= minOffset (agg s) < maxOffset (agg s) /\ maxOffset (agg s) <= 2 ^ 62;
  ai_cursor : minOffset (agg s) <= writeCursor (agg s) <= maxOffset (agg s);
  ai_gen : 0 <= generation (agg s) <= k + Z.of_nat (length (log s));
  ai_seq : sequence (agg s) = Z.of_nat (length (log s));
  ai_room : Z.of_nat (length (log s)) <= 2 ^ 62;
  ai_size : bufferPos (active (agg s)) <= AggBufferSize;
  ai_chan : length (inflight (agg s) (wk s)) = if isFlushing (agg s) then 1%nat else 0%nat;
  ai_log : log_ok (minOffset (agg s)) (maxOffset (agg s)) (writeCursor (agg s)) (generation (agg s)) (log s);
  ai_data : err (agg s) = None -> data_inv f0 s }.

Lemma blen_pos_nil (l : bytes) : (blen l =? 0) = false -> l <> [].
Proof. by destruct l. Qed.
Lemma blen_zero (l : bytes) : blen l = 0 -> l = [].
Proof. unfold blen. destruct l; cbn; [done|lia]. Qed.

Lemma payload_nil s g l : laid s g l -> payload l = [] -> l = [].
Proof.
  intros Hl Hp. destruct (decide (l = [])) as [->|Hn]; [done|].
  pose proof (laid_pos _ _ _ Hl Hn) as H. rewrite Hp in H. by vm_compute in H.
Qed.

(** Case analysis on a buffer whose fields are visible. *)
Ltac agg_cbn := cbn [agg wk disk log buf0 buf1 activeIdx writeCursor generation sequence completed changed
  flushChan isFlushing minOffset maxOffset err closed set_buf0 set_buf1 set_activeIdx set_writeCursor set_generation
  set_sequence set_completed set_changed set_flushChan set_isFlushing set_minOffset set_maxOffset set_err set_closed
  buf setBuf active inactive bufferPos resetBuf b_data b_start b_generation b_sequence b_writers negb inflight] in *.

Lemma idle_quiet f0 k s : agg_inv f0 k s -> isFlushing (agg s) = false -> wk s = Idle /\ flushChan (agg s) = [].
Proof.
  intros I Hf. pose proof (ai_chan _ _ _ I) as Hc. rewrite Hf in Hc.
  unfold inflight in Hc. destruct (wk s); cbn in Hc; try lia. split; [done|]. by destruct (flushChan _).
Qed.

(** What [swapAndFlushLocked] leaves alone, and what it guarantees. *)
Record swapped (b b' : AggregateWriteBuffer) : Prop := {
  sw_min : minOffset b' = minOffset b; sw_max : maxOffset b' = maxOffset b;
  sw_cursor : writeCursor b' = writeCursor b; sw_gen : generation b' = generation b;
  sw_seq : sequence b' = sequence b; sw_comp : completed b' = completed b;
  sw_err : err b' = err b; sw_closed : closed b' = closed b; sw_changed : changed b' = changed b;
  sw_busy : isFlushing b = true -> b' = b;
  sw_empty : isFlushing b = false -> err b = None -> bufferPos (active b') = 0;
  sw_flush : err b = None -> isFlushing b' = false -> b' = b /\ bufferPos (active b) = 0;
  sw_start : isFlushing b = false -> isFlushing b' = true -> inactive b' = active b /\ bufferPos (active b) <> 0 /\ err b = None }.

Lemma swap_spec f0 k s :
  agg_inv f0 k s ->
  exists b', swapAndFlushLocked (agg s) = Some b' /\ swapped (agg s) b' /\ agg_inv f0 k (mkSys b' (wk s) (disk s) (log s)).
Proof.
  intros I. unfold swapAndFlushLocked.
  destruct (isFlushing (agg s) || (bufferPos (buf (agg s) (activeIdx (agg s))) =? 0) || bool_decide (err (agg s) <> None)) eqn:E.
  - exists (agg s). split; [done|]. split; [|by destruct s].
    split; try done; [| |congruence].
    + intros Hf He. rewrite Hf, He in E. rewrite bool_decide_eq_false_2 in E by auto. rewrite orb_false_r in E. cbn [orb] in E. b2p. done.
    + intros He Hf. rewrite Hf, He in E. rewrite bool_decide_eq_false_2 in E by auto. rewrite orb_false_r in E. cbn [orb] in E. b2p. done.
  - b2p. assert (err (agg s) = None) as He by (destruct (err (agg s)); [exfalso; eauto|done]).
    destruct (idle_quiet _ _ _ I) as [Hw Hc]; [done|].
    pose proof I as [[C1 C2] Hcur Hg Hs Hr Hz Hch Hlog Hd]. destruct (Hd He) as (dn & fl & ac & Hl & Hcomp & Ha & Hfl & Hk).
    rewrite Hw in *. cbn [inflight] in Hfl. rewrite Hc in Hfl. subst fl.
    destruct s as [[b0 b1 i cu g sq co ch fc fl mi ma er cl] w f l]. agg_cbn. subst.
    unfold holds_active, disk_ok in *. destruct Ha as (Ha1 & Ha2 & Ha3).
    assert (ac <> []) as Hac.
    { intros ->. unfold bufferPos in *. destruct i; agg_cbn; by rewrite Ha1 in *. }
    destruct (Ha3 Hac) as (? & ? & ?).
    destruct i; agg_cbn; (eexists; split; [reflexivity|]; split; [split; done|]);
    (split; agg_cbn; try done; intros _; exists dn, ac, [];
     unfold holds_active, holds_flushing, disk_ok, activeStart; rewrite !app_nil_r; agg_cbn;
     split_and!; try done; [rewrite ?length_app in *; cbn in *; lia|left; done|by destruct Hk]).
Qed.

(** The state after the record has been copied, before the final swap. *)
Definition appended (data : bytes) (writer : option nat) (b : AggregateWriteBuffer) : AggregateWriteBuffer :=
  let u := active b in
  let u := if bufferPos u =? 0 then mkBuf (b_data u) (writeCursor b) (generation b) (b_sequence u) (b_writers u) else u in
  let u := mkBuf (b_data u ++ data) (b_start u) (b_generation u) (u64 (sequence b + 1))
             (match writer with Some w => b_writers u ++ [w] | None => b_writers u end) in
  set_writeCursor (i64 (writeCursor b + blen data)) (set_sequence (u64 (sequence b + 1)) (setBuf (activeIdx b) u b)).

Lemma active_appended data writer b :
  exists ws, active (appended data writer b) =
    mkBuf (b_data (active b) ++ data) (activeStart b)
      (if bufferPos (active b) =? 0 then generation b else b_generation (active b)) (u64 (sequence b + 1)) ws.
Proof.
  unfold appended, activeStart. destruct b as [? ? [] ? ? ? ? ? ? ? ? ? ? ?]; agg_cbn; destruct (bufferPos _ =? 0); eexists; reflexivity.
Qed.
Lemma inactive_appended data writer b : inactive (appended data writer b) = inactive b.
Proof. by destruct b as [? ? [] ? ? ? ? ? ? ? ? ? ? ?]. Qed.

Lemma appended_fields data writer b :
  let b' := appended data writer b in
  minOffset b' = minOffset b /\ maxOffset b' = maxOffset b /\ writeCursor b' = i64 (writeCursor b + blen data) /\
  generation b' = generation b /\ sequence b' = u64 (sequence b + 1) /\ completed b' = completed b /\
  err b' = err b /\ closed b' = closed b /\ flushChan b' = flushChan b /\ isFlushing b' = isFlushing b /\ changed b' = changed b.
Proof. by destruct b as [? ? [] ? ? ? ? ? ? ? ? ? ? ?]. Qed.

Lemma log_ok_snoc lo hi cu g data l :
  lo <= cu -> cu + blen data <= hi -> 0 < blen data -> 0 <= g ->
  log_ok lo hi cu g l -> log_ok lo hi (cu + blen data) g (l ++ [mkRec cu g data]).
Proof.
  intros Hlo Hhi Hd Hg [H1 H2 H3 H4]. split.
  - intros r [Hr| ->%list_elem_of_singleton]%elem_of_app; [by apply H1|]. unfold l_end; cbn. lia.
  - intros r [Hr| ->%list_elem_of_singleton]%elem_of_app; [destruct (H2 _ Hr); [by left|right; lia]|].
    right. unfold l_end; cbn. lia.
  - intros i j r r' Hij Hi Hj. pose proof (lookup_lt_Some _ _ _ Hj) as Hl. rewrite length_app in Hl. cbn in Hl.
    rewrite lookup_app_l in Hi by lia.
    destruct (decide (j < length l)%nat).
    + rewrite lookup_app_l in Hj by done. by eapply (H3 i j).
    + rewrite lookup_app_r in Hj by lia. replace (j - length l)%nat with 0%nat in Hj by lia. injection Hj as <-.
      apply list_elem_of_lookup_2 in Hi. destruct (H2 _ Hi); [by left|by right].
  - intros r [Hr| ->%list_elem_of_singleton]%elem_of_app; [by apply H4|done].
Qed.

Lemma laid_snoc_start b ac data n :
  holds_active b ac n -> 0 < blen data -> 
  laid (activeStart b) (if bufferPos (active b) =? 0 then generation b else b_generation (active b))
    (ac ++ [mkRec (writeCursor b) (generation b) data]).
Proof.
  intros (H1 & H2 & H3) Hd. unfold activeStart. destruct (bufferPos (active b) =? 0) eqn:E; b2p.
  - unfold bufferPos in E. rewrite H1 in E. apply blen_zero, (payload_nil _ _ _ H2) in E. subst. cbn. done.
  - assert (ac <> []) as Hn. { intros ->. unfold bufferPos in E. by rewrite H1 in E. }
    destruct (H3 Hn) as (? & ? & _). apply laid_app. split; [done|]. cbn. done.
Qed.

Lemma appended_inv f0 k s data writer :
  agg_inv f0 k s -> err (agg s) = None -> Z.of_nat (length (log s)) < 2 ^ 62 -> 0 < blen data ->
  bufferPos (active (agg s)) + blen data <= AggBufferSize -> writeCursor (agg s) + blen data <= maxOffset (agg s) ->
  agg_inv f0 (k - 1) (mkSys (appended data writer (agg s)) (wk s) (disk s)
    (log s ++ [mkRec (writeCursor (agg s)) (generation (agg s)) data])).
Proof.
  intros I He Hroom Hd Hfit Hcur. pose proof I as [[C1 C2] Hc Hg Hs Hr Hz Hch Hlog Hdata].
  destruct (Hdata He) as (dn & fl & ac & Hl & Hcomp & Ha & Hfl & Hk).
  pose proof (laid_snoc_start _ _ data _ Ha Hd) as Hlaid.
  assert (i64 (writeCursor (agg s) + blen data) = writeCursor (agg s) + blen data) as Hi by (apply i64_small; unfold fits_i64; lia).
  assert (u64 (sequence (agg s) + 1) = sequence (agg s) + 1) as Hu by (apply u64_small; unfold fits; lia).
  set (ac' := ac ++ [mkRec (writeCursor (agg s)) (generation (agg s)) data]) in *.
  assert (payload ac' = payload ac ++ data) as Hp by (unfold ac'; by rewrite payload_app; cbn; rewrite app_nil_r).
  destruct (active_appended data writer (agg s)) as [ws Hact]. pose proof (inactive_appended data writer (agg s)) as Hin.
  destruct (appended_fields data writer (agg s)) as (F1 & F2 & F3 & F4 & F5 & F6 & F7 & F8 & F9 & F10 & _).
  rewrite Hi in F3. rewrite Hu in F5, Hact. set (b' := appended data writer (agg s)) in *.
  destruct Ha as (Ha1 & Ha2 & Ha3).
  assert (activeStart b' = activeStart (agg s)) as Hst.
  { unfold activeStart at 1, bufferPos. rewrite Hact. cbn. rewrite blen_app. pose proof (blen_nonneg (b_data (active (agg s)))).
    by replace (_ + blen data =? 0) with false by lia. }
  assert (Z.of_nat (length (log s ++ [mkRec (writeCursor (agg s)) (generation (agg s)) data])) = Z.of_nat (length (log s)) + 1) as Hlen
    by (rewrite length_app; cbn; lia).
  split; cbn [agg wk disk log]; rewrite ?F1, ?F2, ?F3, ?F4, ?F5, ?Hlen.
  1-5: lia.
  - unfold bufferPos in *. rewrite Hact. cbn. rewrite blen_app. lia.
  - unfold inflight. by rewrite F9, F10.
  - apply log_ok_snoc; [lia|lia|done|lia|done].
  - intros _. exists dn, fl, ac'. split; [cbn; by rewrite Hl, <- !app_assoc|]. cbn [agg wk disk log]. split; [by rewrite F6|].
    split; [|split].
    + unfold holds_active. rewrite Hact, F3, F4, Hlen. cbn. rewrite Ha1, Hp, Hs. split; [done|]. split; [done|]. intros _.
      rewrite blen_app. unfold activeStart. destruct (bufferPos (active (agg s)) =? 0) eqn:E; b2p.
      * unfold bufferPos in E. rewrite Ha1 in E. rewrite E. split_and!; lia.
      * assert (ac <> []) as Hn by (intros ->; unfold bufferPos in E; by rewrite Ha1 in E).
        destruct (Ha3 Hn) as (? & ? & _). split_and!; lia.
    + assert (inflight b' (wk s) = inflight (agg s) (wk s)) as -> by (unfold inflight; by rewrite F9).
      destruct (inflight (agg s) (wk s)); [done|]. unfold holds_flushing in *. by rewrite Hin, Hst, F1.
    + done.
Qed.

Lemma agg_inv_mono f0 k k' s : k <= k' -> agg_inv f0 k s -> agg_inv f0 k' s.
Proof. intros Hk [? ? ? ? ? ? ? ? ?]. split; try done. lia. Qed.

Lemma append_eq data writer b :
  append data writer b =
    (b' ← (if (AggHighWaterMark <=? bufferPos (active (appended data writer b))) && negb (isFlushing b)
           then swapAndFlushLocked (appended data writer b) else Some (appended data writer b));
     Some (b', mkAlloc (writeCursor b) (generation b) (u64 (sequence b + 1)))).
Proof. destruct b as [? ? [] ? ? ? ? ? ? ? ? ? ? ?]; reflexivity. Qed.

(** Moving the cursor back to the start of the ring with an empty buffer. *)
Lemma wrap_inv f0 k s :
  agg_inv f0 k s -> k <= 3 -> bufferPos (active (agg s)) = 0 ->
  agg_inv f0 (k + 1) (mkSys (set_generation (u64 (generation (agg s) + 1)) (set_writeCursor (minOffset (agg s)) (agg s)))
    (wk s) (disk s) (log s)).
Proof.
  intros [[C1 C2] Hc Hg Hs Hr Hz Hch Hlog Hdata] Hk Hp.
  assert (u64 (generation (agg s) + 1) = generation (agg s) + 1) as -> by (apply u64_small; unfold fits; lia).
  destruct s as [b w f l]; cbn [agg wk disk log] in *.
  split; cbn [agg wk disk log set_generation set_writeCursor minOffset maxOffset writeCursor generation sequence err isFlushing]; try done; try lia.
  - destruct Hlog as [L1 L2 L3 L4]. split; [done| |done|done]. intros r Hr'. left. destruct (L2 _ Hr'); lia.
  - intros He. destruct (Hdata He) as (dn & fl & ac & Hl & Hcomp & (A1 & A2 & A3) & Hfl & Hd).
    assert (ac = []) as ->.
    { unfold bufferPos in Hp. cbn [agg] in A1; rewrite A1 in Hp. apply blen_zero in Hp. by eapply payload_nil. }
    exists dn, fl, []. cbn [agg wk disk log] in *. split_and!; try done.
    assert (forall g c, inflight (set_generation g (set_writeCursor c b)) w = inflight b w) as -> by done.
    destruct (inflight b w); [done|]. destruct Hfl as (? & ? & ? & ? & ? & ? & ?). split_and!; try done.
    right. unfold activeStart.
    assert (bufferPos (active (set_generation (generation b + 1) (set_writeCursor (minOffset b) b))) = 0) as -> by done. done.
Qed.

(** What a critical section of the buffer keeps: the configuration and the
    failure state, the buffer owned by the disk worker, and that a flush it
    starts covers every record acknowledged before. *)
Definition posle (g c g' c' : Z) : Prop := g < g' \/ g = g' /\ c <= c'.

Record kept (b b' : AggregateWriteBuffer) : Prop := {
  k_pos : posle (generation b) (writeCursor b) (generation b') (writeCursor b');
  k_min : minOffset b' = minOffset b; k_max : maxOffset b' = maxOffset b;
  k_err : err b' = err b; k_closed : closed b' = closed b; k_changed : changed b' = changed b;
  k_comp : completed b' = completed b; k_seq : sequence b <= sequence b';
  k_busy : isFlushing b = true -> isFlushing b' = true /\ inactive b' = inactive b;
  k_idle : isFlushing b = false -> isFlushing b' = true -> sequence b <= b_sequence (inactive b') }.

Lemma kept_refl b : kept b b.
Proof. split; try done; [|congruence]. right. lia. Qed.
Lemma kept_trans b b' b'' : kept b b' -> kept b' b'' -> kept b b''.
Proof.
  intros K K'. pose proof (k_seq _ _ K). pose proof (k_seq _ _ K').
  split; try (destruct K, K'; congruence || lia).
  - pose proof (k_pos _ _ K) as P. pose proof (k_pos _ _ K') as P'. unfold posle in *. lia.
  - intros Hf. destruct (k_busy _ _ K Hf) as [H1 H2]. destruct (k_busy _ _ K' H1) as [? ->]. done.
  - intros Hf Hf''. destruct (isFlushing b') eqn:E.
    + destruct (k_busy _ _ K' E) as [_ ->]. by apply (k_idle _ _ K).
    + pose proof (k_idle _ _ K' E Hf''). lia.
Qed.
#[global] Instance kept_preorder : PreOrder kept.
Proof. split; [exact kept_refl|exact kept_trans]. Qed.

Lemma active_sequence f0 k s :
  agg_inv f0 k s -> err (agg s) = None -> bufferPos (active (agg s)) <> 0 -> b_sequence (active (agg s)) = sequence (agg s).
Proof.
  intros I He Hp. destruct (ai_data _ _ _ I He) as (dn & fl & ac & Hl & _ & (A1 & _ & A3) & _).
  assert (ac <> []) as Hn by (intros ->; unfold bufferPos in Hp; by rewrite A1 in Hp).
  destruct (A3 Hn) as (_ & _ & ->). symmetry. apply (ai_seq _ _ _ I).
Qed.

Lemma swapped_kept f0 k s b' : agg_inv f0 k s -> swapped (agg s) b' -> kept (agg s) b'.
Proof.
  intros I S. split; try (destruct S; congruence || lia).
  - rewrite (sw_gen _ _ S), (sw_cursor _ _ S). right. lia.
  - intros Hf. by rewrite (sw_busy _ _ S Hf).
  - intros Hf Hf'. destruct (sw_start _ _ S Hf Hf') as (-> & Hp & He). by rewrite (active_sequence _ _ _ I).
Qed.

Lemma appended_kept data writer b :
  0 <= sequence b < 2 ^ 63 -> 0 <= writeCursor b -> writeCursor b + blen data <= 2 ^ 62 -> kept b (appended data writer b).
Proof.
  intros Hs Hc1 Hc2. pose proof (blen_nonneg data). pose proof (inactive_appended data writer b).
  destruct (appended_fields data writer b) as (F1 & F2 & F3 & F4 & F5 & F6 & F7 & F8 & F9 & F10 & F11).
  rewrite u64_small in F5 by (unfold fits; lia). rewrite i64_small in F3 by (unfold fits_i64; lia).
  split; try congruence; try lia; [right; lia|].
  intros; split; congruence.
Qed.

Lemma appendLog_spec f0 k s data writer :
  agg_inv f0 k s -> k <= 4 -> err (agg s) = None -> Z.of_nat (length (log s)) < 2 ^ 62 -> 0 < blen data ->
  bufferPos (active (agg s)) + blen data <= AggBufferSize -> writeCursor (agg s) + blen data <= maxOffset (agg s) ->
  exists b' a, append data writer (agg s) = Some (b', a) /\ a_sequence a = Z.of_nat (length (log s)) + 1 /\
    a_generation a = generation (agg s) /\ a_offset a = writeCursor (agg s) /\
    kept (agg s) b' /\ agg_inv f0 (k - 1) (mkSys b' (wk s) (disk s) (logged (Return (Ok a)) data (log s))).
Proof.
  intros I Hk He Hr Hd Hfit Hcur. pose proof (appended_inv _ _ _ data writer I He Hr Hd Hfit Hcur) as I'.
  pose proof (ai_seq _ _ _ I) as Hseq. pose proof (ai_cursor _ _ _ I). pose proof (ai_conf _ _ _ I).
  pose proof (appended_kept data writer (agg s) ltac:(lia) ltac:(lia) ltac:(lia)) as K. rewrite append_eq.
  assert (u64 (sequence (agg s) + 1) = Z.of_nat (length (log s)) + 1) as Hu by (rewrite u64_small; [lia|unfold fits; lia]).
  destruct (_ && _).
  - destruct (swap_spec _ _ _ I') as (b' & E & S & I''). cbn [agg] in E. rewrite E. do 2 eexists. split; [reflexivity|].
    split_and!; [done|done|done| |done]. rewrite K. by apply (swapped_kept _ _ _ _ I').
  - do 2 eexists. split; [reflexivity|]. done.
Qed.

Lemma tooLarge_false b data :
  0 <= minOffset b < maxOffset b -> maxOffset b <= 2 ^ 62 -> tooLarge b data = false ->
  0 < blen data /\ blen data <= AggBufferSize /\ blen data <= maxOffset b - minOffset b.
Proof.
  unfold tooLarge. intros H1 H2 H. rewrite i64_small in H by (unfold fits_i64; lia).
  pose proof (blen_nonneg data). replace (maxOffset b =? 0) with false in H by lia. cbn [negb andb] in H. b2p. lia.
Qed.

(** What every critical section of [addContext] guarantees. *)
Definition add_post (f0 : file) (s : sys) (data : bytes) (r : option (AggregateWriteBuffer * outcome allocation)) : Prop :=
  exists b' o, r = Some (b', o) /\ kept (agg s) b' /\ (o = Wait -> isFlushing b' = true) /\
    (forall a, o = Return (Ok a) -> a_sequence a = Z.of_nat (length (log s)) + 1 /\
       posle (generation (agg s)) (writeCursor (agg s)) (a_generation a) (a_offset a)) /\
    agg_inv f0 3 (mkSys b' (wk s) (disk s) (logged o data (log s))).

Lemma add_post_err f0 s data e : agg_inv f0 3 s -> add_post f0 s data (Some (agg s, Return (Err e))).
Proof. intros I. do 2 eexists. split_and!; try done. by destruct s. Qed.

Lemma add_post_append f0 s s' k data writer :
  agg_inv f0 k s' -> k <= 4 -> kept (agg s) (agg s') -> wk s' = wk s -> disk s' = disk s -> log s' = log s ->
  err (agg s) = None -> Z.of_nat (length (log s)) < 2 ^ 62 -> 0 < blen data ->
  bufferPos (active (agg s')) + blen data <= AggBufferSize -> writeCursor (agg s') + blen data <= maxOffset (agg s') ->
  add_post f0 s data ('(b, a) ← append data writer (agg s'); Some (b, Return (Ok a))).
Proof.
  intros I' Hk K E1 E2 E3 He Hr Hd Hf Hcu. pose proof (k_err _ _ K) as He'.
  destruct (appendLog_spec f0 k s' data writer I' Hk) as (b' & a & E & Ha & Eg & Eo & K' & I''); [congruence|by rewrite E3|done|done|done|].
  rewrite E. exists b', (Return (Ok a)). rewrite E1, E2, E3 in *. split_and!; [done|by rewrite K|done| |].
  { intros a' [= <-]. split; [done|]. rewrite Eg, Eo. apply K. }
  eapply agg_inv_mono; [|exact I'']. lia.
Qed.

Lemma addLoop_spec f0 s ctxErr data writer :
  agg_inv f0 3 s -> tooLarge (agg s) data = false -> Z.of_nat (length (log s)) < 2 ^ 62 ->
  add_post f0 s data (addLoop addFuel ctxErr data writer (agg s)).
Proof.
  intros I Ht Hr. pose proof (ai_conf _ _ _ I) as [C1 C2]. pose proof (ai_cursor _ _ _ I) as Hc.
  destruct (tooLarge_false _ _ C1 C2 Ht) as (Hd & Hd1 & Hd2).
  unfold addFuel. cbn [addLoop]. destruct (err (agg s)) eqn:He; [by apply add_post_err|].
  destruct (closed (agg s)) eqn:Hcl; [by apply add_post_err|]. destruct ctxErr; [by apply add_post_err|].
  rewrite (i64_small (_ + blen data)) by (unfold fits_i64; unfold AggBufferSize in *; lia).
  replace (0 <? maxOffset (agg s)) with true by lia. cbn [andb].
  assert (forall b, isFlushing b = true -> b = agg s -> add_post f0 s data (Some (b, Wait))) as Hwait.
  { intros b Hf ->. do 2 eexists. split_and!; try done. by destruct s. }
  destruct (maxOffset (agg s) <? writeCursor (agg s) + blen data) eqn:Ew; b2p.
  - destruct (isFlushing (agg s)) eqn:Ef; [by apply Hwait|].
    destruct (swap_spec _ _ _ I) as (b1 & -> & S & I1). cbn [mbind option_bind].
    pose proof (swapped_kept _ _ _ _ I S) as K. pose proof (sw_empty _ _ S Ef He) as Hp.
    pose proof (wrap_inv _ _ _ I1 ltac:(lia) Hp) as I2. cbn [agg wk disk log] in I2. set (b2 := set_generation _ _) in *.
    assert (kept (agg s) b2) as K3.
    { rewrite K. split; try done; [|intros G1 G2; change (isFlushing b1 = true) in G2; congruence].
      pose proof (ai_gen _ _ _ I1) as Hg. cbn [agg log] in Hg. left. cbn. rewrite u64_small by (unfold fits; lia). lia. }
    assert (writeCursor b2 = minOffset (agg s)) as Ec by (cbn; by destruct K).
    pose proof (k_max _ _ K3) as Em. rewrite (k_err _ _ K3), He, (k_closed _ _ K3), Hcl, Ec, Em.
    rewrite (i64_small (_ + blen data)) by (unfold fits_i64; unfold AggBufferSize in *; lia).
    replace (maxOffset (agg s) <? _) with false by lia. rewrite andb_false_r.
    assert (bufferPos (active b2) = 0) as Hp2 by done. rewrite Hp2. replace (0 + blen data <=? AggBufferSize) with true by lia.
    by apply (add_post_append f0 s (mkSys b2 (wk s) (disk s) (log s)) (3 + 1)); cbn [agg wk disk log]; try lia.
  - destruct (bufferPos (active (agg s)) + blen data <=? AggBufferSize) eqn:Eb; b2p.
    { by apply (add_post_append f0 s s 3); try lia. }
    destruct (isFlushing (agg s)) eqn:Ef; cbn [negb]; [by apply Hwait|].
    destruct (swap_spec _ _ _ I) as (b1 & -> & S & I1). cbn [mbind option_bind].
    pose proof (swapped_kept _ _ _ _ I S) as K. pose proof (sw_empty _ _ S Ef He) as Hp.
    pose proof (k_max _ _ K) as Em. pose proof (sw_cursor _ _ S) as Ec.
    rewrite (k_err _ _ K), He, (k_closed _ _ K), Hcl, Ec, Em.
    rewrite (i64_small (_ + blen data)) by (unfold fits_i64; unfold AggBufferSize in *; lia).
    replace (maxOffset (agg s) <? _) with false by lia. rewrite andb_false_r, Hp.
    replace (0 + blen data <=? AggBufferSize) with true by lia.
    by apply (add_post_append f0 s (mkSys b1 (wk s) (disk s) (log s)) 3); cbn [agg wk disk log]; try lia.
Qed.

Lemma addContext_spec f0 s ctxErr data writer :
  agg_inv f0 3 s -> Z.of_nat (length (log s)) < 2 ^ 62 ->
  add_post f0 s data (addContext ctxErr data writer (agg s)).
Proof.
  intros I Hr. unfold addContext. destruct (tooLarge _ _) eqn:E; [by apply add_post_err|by apply addLoop_spec].
Qed.

Lemma addResume_spec f0 s ctxErr data writer :
  agg_inv f0 3 s -> tooLarge (agg s) data = false -> Z.of_nat (length (log s)) < 2 ^ 62 ->
  add_post f0 s data (addResume ctxErr data writer (agg s)).
Proof. intros I Ht Hr. unfold addResume. destruct ctxErr; [by apply add_post_err|by apply addLoop_spec]. Qed.

(** [flushThrough] returns [nil] only past the barrier and waits only while a
    flush is in progress. *)
Definition flush_post (f0 : file) (s : sys) (target : Z) (r : option (AggregateWriteBuffer * outcome unit)) : Prop :=
  exists b' o, r = Some (b', o) /\ kept (agg s) b' /\
    (o = Wait -> target <= sequence (agg s) -> isFlushing b' = true) /\
    (o = Return (Ok tt) -> err (agg s) = None /\ target <= completed (agg s)) /\
    agg_inv f0 3 (mkSys b' (wk s) (disk s) (log s)).

Lemma quiescent_completed f0 k s :
  agg_inv f0 k s -> err (agg s) = None -> isFlushing (agg s) = false -> bufferPos (active (agg s)) = 0 ->
  completed (agg s) = sequence (agg s).
Proof.
  intros I He Hf Hp. destruct (idle_quiet _ _ _ I Hf) as [Hw Hc].
  destruct (ai_data _ _ _ I He) as (dn & fl & ac & Hl & Hcomp & (A1 & A2 & _) & Hfl & _).
  rewrite Hw in Hfl. cbn in Hfl. rewrite Hc in Hfl. subst fl.
  unfold bufferPos in Hp. rewrite A1 in Hp. apply blen_zero, (payload_nil _ _ _ A2) in Hp. subst ac.
  rewrite (ai_seq _ _ _ I), Hl, Hcomp, !app_nil_r. done.
Qed.

Lemma flushThrough_spec f0 s ctxErr target :
  agg_inv f0 3 s -> flush_post f0 s target (flushThrough ctxErr target (agg s)).
Proof.
  intros I. unfold flushThrough, flush_post. destruct (err (agg s)) eqn:He.
  { do 2 eexists. split_and!; try done. by destruct s. }
  destruct ctxErr. { do 2 eexists. split_and!; try done. by destruct s. }
  destruct (target <=? completed (agg s)) eqn:Et; b2p. { do 2 eexists. split_and!; try done. by destruct s. }
  destruct (swap_spec _ _ _ I) as (b' & -> & S & I'). do 2 eexists. split; [done|].
  split; [by apply (swapped_kept f0 3)|]. split; [|by split].
  intros _ Hs. destruct (isFlushing b') eqn:Ef; [done|]. destruct (sw_flush _ _ S He Ef) as [-> Hp].
  pose proof (quiescent_completed _ _ _ I He Ef Hp). lia.
Qed.

Lemma flushResume_spec f0 s ctxErr target :
  agg_inv f0 3 s -> flush_post f0 s target (flushResume ctxErr target (agg s)).
Proof.
  intros I. unfold flushResume. destruct ctxErr; [|by apply flushThrough_spec].
  do 2 eexists. split_and!; try done. by destruct s.
Qed.

(** ** The disk worker *)

Lemma take_inv f0 s t rest :
  agg_inv f0 3 s -> wk s = Idle -> flushChan (agg s) = t :: rest ->
  agg_inv f0 3 (mkSys (set_flushChan rest (agg s)) (Taken t) (disk s) (log s)).
Proof.
  intros [? ? ? ? ? ? Hch Hlog Hdata] Hw Hc. split; try done.
  - rewrite Hw in Hch. cbn in Hch |- *. by rewrite Hc in Hch.
  - intros He. destruct (Hdata He) as (dn & fl & ac & Hl & Hcomp & Ha & Hfl & Hd).
    exists dn, fl, ac. rewrite Hw in *. cbn [inflight] in Hfl. rewrite Hc in Hfl. split_and!; try done. by destruct Hd.
Qed.

Lemma disk_of_taken f0 f t dn fl : disk_ok f0 f (Taken t) dn fl -> f = image f0 dn.
Proof. by intros [? _]. Qed.

Lemma skip_inv f0 s t e :
  agg_inv f0 3 s -> wk s = Taken t -> agg_inv f0 3 (mkSys (agg s) (Written t (Some e)) (disk s) (log s)).
Proof.
  intros [? ? ? ? ? ? Hch Hlog Hdata] Hw. split; try done.
  - by rewrite Hw in Hch.
  - intros He. destruct (Hdata He) as (dn & fl & ac & Hl & Hcomp & Ha & Hfl & Hd).
    exists dn, fl, ac. rewrite Hw in *. split_and!; try done. split; [left; by eapply disk_of_taken|done].
Qed.

Lemma laid_start_nonneg lo hi cu g l s0 g0 fl : log_ok lo hi cu g l -> 0 <= lo -> fl <> [] -> (forall r, r ∈ fl -> r ∈ l) -> laid s0 g0 fl -> 0 <= s0.
Proof.
  intros L Hlo Hn Hsub Hl. destruct fl as [|r fl]; [done|]. destruct Hl as (<- & _).
  destruct (lo_range _ _ _ _ _ L r); [apply Hsub; set_solver|]. lia.
Qed.

Lemma write_inv f0 s t o f' e :
  agg_inv f0 3 s -> wk s = Taken t -> writeFullAt o (disk s) (t_buffer t) (t_offset t) = (f', e) ->
  agg_inv f0 3 (mkSys (agg s) (Written t e) f' (log s)).
Proof.
  intros [Hcf ? ? ? ? ? Hch Hlog Hdata] Hw Ew. split; try done.
  - by rewrite Hw in Hch.
  - intros He. destruct (Hdata He) as (dn & fl & ac & Hl & Hcomp & Ha & Hfl & Hd).
    exists dn, fl, ac. rewrite Hw in *. split_and!; try done. cbn [agg wk disk log].
    cbn [inflight] in Hfl. pose proof Hfl as (Hn & Hlaid & Hb & _). apply disk_of_taken in Hd.
    assert (0 <= t_offset t) as Hoff.
    { eapply (laid_start_nonneg _ _ _ _ _ _ _ fl Hlog); [lia|done| |done]. intros r Hr. rewrite Hl. set_solver. }
    assert (payload fl <> []) as Hp by (intros E; apply Hn; by eapply payload_nil).
    assert (e = None -> f' = write_at (disk s) (t_offset t) (payload fl)) as Hfull.
    { intros ->. destruct (writeFullAt_ok _ _ _ _ _ Ew) as [_ Hf]. rewrite <- Hb. apply Hf. by rewrite Hb. }
    split.
    + unfold writeFullAt, WriteAt in Ew. replace (t_offset t <? 0) with false in Ew by lia.
      set (n := io_count o (blen (t_buffer t))) in *. destruct (n =? 0) eqn:En.
      * left. injection Ew as <- _. done.
      * right. destruct (decide (e = None)) as [He0|He0].
        -- exists (length (payload fl)). rewrite take_ge by done. split; [by rewrite <- Hd, Hfull|done].
        -- exists (Z.to_nat n). injection Ew as <- _. rewrite Hb, Hd. done.
    + intros t' [= <- He0]. rewrite Hfull by done. rewrite image_app, <- Hd. symmetry. by eapply image_laid.
Qed.

Lemma notify_inv f0 s t e :
  agg_inv f0 3 s -> wk s = Written t e -> agg_inv f0 3 (mkSys (NotifyFlushDone e (agg s)).1 Idle (disk s) (log s)).
Proof.
  intros [Hcf Hcu Hg Hs Hr Hz Hch Hlog Hdata] Hw. rewrite Hw in *.
  destruct s as [[b0 b1 i cu g sq co ch fc fl mi ma er cl] w f l]. agg_cbn.
  assert (fl = true) as -> by (destruct fl; [done|cbn in Hch; lia]).
  assert (fc = []) as -> by (destruct fc; [done|cbn in Hch; lia]). subst w.
  destruct er as [er|]; [|destruct e as [e|]].
  1-2: unfold NotifyFlushDone, signalLocked; destruct i; agg_cbn; split; agg_cbn; try done.
  destruct (Hdata eq_refl) as (dn & fl & ac & Hl & Hcomp & Ha & Hfl & Hd). cbn in Hfl.
  destruct Hd as [_ Hd]. specialize (Hd t eq_refl). destruct Hfl as (Hn & H1 & H2 & H3 & H4 & H5 & H6).
  unfold NotifyFlushDone, signalLocked. destruct i; agg_cbn; split; agg_cbn; try done;
  intros _; exists (dn ++ fl), [], ac; (split; [by rewrite <- app_assoc|]); agg_cbn;
  (split; [rewrite length_app; cbn in H5 |- *; rewrite H5; lia|]); (split; [done|]); split; try done.
Qed.

Lemma signal_inv f0 s b' :
  agg_inv f0 3 s -> (exists e c ch, b' = set_changed ch (set_closed c (set_err e (agg s))) /\ (err (agg s) <> None -> e <> None)) ->
  agg_inv f0 3 (mkSys b' (wk s) (disk s) (log s)).
Proof.
  intros [Hcf Hcu Hg Hs Hr Hz Hch Hlog Hdata] (e & c & ch & -> & He). split; try done.
  intros E. cbn in E. subst e. apply Hdata. destruct (err (agg s)); [exfalso; by apply He|done].
Qed.

(** What a call keeps, beside the invariant. *)
Record called (s s' : sys) : Prop := {
  c_wk : wk s' = wk s; c_disk : disk s' = disk s;
  c_min : minOffset (agg s') = minOffset (agg s); c_max : maxOffset (agg s') = maxOffset (agg s);
  c_err : err (agg s') = err (agg s); c_comp : completed (agg s') = completed (agg s);
  c_seq : sequence (agg s) <= sequence (agg s');
  c_pos : posle (generation (agg s)) (writeCursor (agg s)) (generation (agg s')) (writeCursor (agg s'));
  c_busy : isFlushing (agg s) = true -> isFlushing (agg s') = true /\ inactive (agg s') = inactive (agg s);
  c_idle : isFlushing (agg s) = false -> isFlushing (agg s') = true -> sequence (agg s) <= b_sequence (inactive (agg s'));
  c_log : exists ext, log s' = log s ++ ext /\
    forall r, r ∈ ext -> posle (generation (agg s)) (writeCursor (agg s)) (l_gen r) (l_off r) }.

Lemma kept_called s b' l ext :
  kept (agg s) b' -> l = log s ++ ext ->
  (forall r, r ∈ ext -> posle (generation (agg s)) (writeCursor (agg s)) (l_gen r) (l_off r)) ->
  called s (mkSys b' (wk s) (disk s) l).
Proof. intros K -> He. split; try apply K; try done. by exists ext. Qed.

Lemma add_post_called f0 s data r b' o :
  add_post f0 s data r -> r = Some (b', o) ->
  agg_inv f0 3 (mkSys b' (wk s) (disk s) (logged o data (log s))) /\ called s (mkSys b' (wk s) (disk s) (logged o data (log s))).
Proof.
  intros (b2 & o2 & E & K & _ & Ha & I) E'. rewrite E in E'. injection E' as -> ->. split; [done|].
  destruct o as [[a|e]|]; cbn [logged]; try (apply (kept_called _ _ _ []); [done|by rewrite app_nil_r|set_solver]).
  eapply kept_called; [done|done|]. intros r' ->%list_elem_of_singleton. by apply Ha.
Qed.

Lemma call_spec f0 s s' : agg_inv f0 3 s -> call s s' -> agg_inv f0 3 s' /\ called s s'.
Proof.
  intros I [ctxErr data writer b' o Hr E|ctxErr data writer b' o Hr Ht E|b' E|ctxErr target b' o E|ctxErr target b' o E|].
  - eapply add_post_called; [|exact E]. by apply addContext_spec.
  - eapply add_post_called; [|exact E]. by apply addResume_spec.
  - destruct (swap_spec _ _ _ I) as (b2 & E' & S & I'). unfold TriggerFlush in E. rewrite E in E'. injection E' as <-. split; [done|].
    apply (kept_called _ _ _ []); [by eapply swapped_kept|by rewrite app_nil_r|set_solver].
  - destruct (flushThrough_spec f0 s ctxErr target I) as (b2 & o2 & E' & K & _ & _ & I'). rewrite E in E'. injection E' as <- <-.
    split; [done|]. apply (kept_called _ _ _ []); [done|by rewrite app_nil_r|set_solver].
  - destruct (flushResume_spec f0 s ctxErr target I) as (b2 & o2 & E' & K & _ & _ & I'). rewrite E in E'. injection E' as <- <-.
    split; [done|]. apply (kept_called _ _ _ []); [done|by rewrite app_nil_r|set_solver].
  - split.
    + apply signal_inv; [done|]. exists (err (agg s)), true, (changed (agg s) + 1). by destruct s as [[] ? ? ?].
    + split; try done; [right; cbn; lia|intros; cbn in *; congruence|]. exists []. split; [by rewrite app_nil_r|set_solver].
Qed.

Lemma fail_inv f0 s e : agg_inv f0 3 s -> agg_inv f0 3 (mkSys (Fail e (agg s)) (wk s) (disk s) (log s)).
Proof.
  intros I. apply signal_inv; [done|]. unfold Fail. destruct e as [e|].
  - exists (match err (agg s) with None => Some e | e' => e' end), (closed (agg s)), (changed (agg s) + 1).
    by destruct s as [[? ? ? ? ? ? ? ? ? ? ? ? [er|] ?] ? ? ?].
  - exists (err (agg s)), (closed (agg s)), (changed (agg s)). by destruct s as [[] ? ? ?].
Qed.

Lemma step_inv f0 s s' : agg_inv f0 3 s -> step s s' -> agg_inv f0 3 s'.
Proof.
  intros I [s1 Hc|t rest Hw Hc|t o f' e Hw E|t e Hw|t e Hw|e].
  - by apply (call_spec f0 s).
  - by apply take_inv.
  - by eapply write_inv.
  - by apply skip_inv.
  - by eapply notify_inv.
  - by apply fail_inv.
Qed.

Lemma opened_inv f0 start stop pos gen :
  0 <= start < stop -> stop <= 2 ^ 62 -> start <= pos <= stop -> 0 <= gen <= 3 ->
  agg_inv f0 3 (mkSys (opened start stop pos gen) Idle f0 []).
Proof.
  intros H1 H2 H3 H4. unfold opened, SetBounds, Init, initPosition. cbn.
  replace (start <? start) with false by lia. cbn. replace (stop =? 0) with false by lia. cbn.
  split; cbn; try lia; try done.
  - split; [set_solver|set_solver| |set_solver]. intros ? ? ? ? ? Hi. by rewrite lookup_nil in Hi.
  - intros _. exists [], [], []. split_and!; try done.
Qed.

Lemma reachable_inv start stop pos gen f0 s :
  0 <= start < stop -> stop <= 2 ^ 62 -> start <= pos <= stop -> 0 <= gen <= 3 ->
  reachable start stop pos gen f0 s -> agg_inv f0 3 s.
Proof. intros H1 H2 H3 H4 R. induction R; [by apply opened_inv|by eapply step_inv]. Qed.

(** ** Byte-level reading of an image *)

Definition disjoint (r r' : lrec) : Prop := l_end r <= l_off r' \/ l_end r' <= l_off r.

(** [f] holds the bytes of [r] at its place. *)
Definition stored (f : file) (r : lrec) : Prop :=
  0 <= l_off r /\ (forall i, 0 <= i < blen (l_data r) -> f !! Z.to_nat (l_off r + i) = l_data r !! Z.to_nat i).

Lemma stored_read f r : stored f r -> ReadAt f (blen (l_data r)) (l_off r) = (l_data r, None).
Proof.
  intros [Ho H]. unfold ReadAt. replace (l_off r <? 0) with false by lia.
  assert (slice f (l_off r) (l_off r + blen (l_data r)) = l_data r) as ->; [|by rewrite Z.ltb_irrefl].
  pose proof (blen_nonneg (l_data r)). apply list_eq. intros i. rewrite slice_lookup by lia. unfold blen in *. case_decide.
  - specialize (H (Z.of_nat i) ltac:(lia)). rewrite Nat2Z.id in H. rewrite <- H. f_equal. lia.
  - symmetry. apply lookup_ge_None. lia.
Qed.

Lemma stored_write f r : 0 <= l_off r -> stored (write_at f (l_off r) (l_data r)) r.
Proof.
  intros Ho. split; [done|]. intros i Hi. unfold blen in Hi. rewrite lookup_write_at, decide_False, decide_True by lia.
  f_equal. lia.
Qed.

Lemma stored_write_other f r off p :
  stored f r -> 0 <= off -> (l_end r <= off \/ off + blen p <= l_off r) -> stored (write_at f off p) r.
Proof.
  unfold l_end, blen. intros [Ho H] Hoff Hd. split; [done|]. intros i Hi. specialize (H i Hi).
  rewrite lookup_write_at. case_decide.
  - unfold byteIx. rewrite H. destruct (l_data r !! Z.to_nat i) eqn:E; [done|]. apply lookup_ge_None in E. unfold blen in *. lia.
  - rewrite decide_False by (unfold blen in *; lia). done.
Qed.

Lemma stored_image f l1 r l2 :
  0 <= l_off r -> (forall r', r' ∈ l2 -> 0 <= l_off r' /\ disjoint r r') -> stored (image f (l1 ++ r :: l2)) r.
Proof.
  intros Ho Hl. rewrite image_app. cbn [image foldl]. change (stored (image (write_at (image f l1) (l_off r) (l_data r)) l2) r).
  pose proof (stored_write (image f l1) r Ho) as Hs. revert Hs. generalize (write_at (image f l1) (l_off r) (l_data r)).
  induction l2 as [|r2 l2 IH]; intros g Hg; [done|]. cbn [image foldl]. apply IH; [set_solver|].
  destruct (Hl r2 ltac:(set_solver)) as [? Hd]. apply stored_write_other; [done|done|]. unfold disjoint, l_end in *. lia.
Qed.

(** An interval that meets none of the laid records misses their whole span. *)
Lemma laid_disjoint s g l r :
  laid s g l -> 0 < blen (l_data r) -> (forall r', r' ∈ l -> disjoint r r') ->
  l_end r <= s \/ s + blen (payload l) <= l_off r \/ l = [].
Proof.
  intros Hl Hp Hd. destruct (decide (l = [])) as [|Hn]; [by right; right|].
  destruct (decide (l_end r <= s)); [by left|]. destruct (decide (s + blen (payload l) <= l_off r)); [by right; left|]. exfalso.
  pose proof (laid_pos _ _ _ Hl Hn). unfold l_end in *.
  destruct (laid_cover s g l (Z.max s (l_off r)) Hl ltac:(lia)) as (r' & Hr' & Hx). specialize (Hd _ Hr').
  unfold disjoint, l_end in *. lia.
Qed.

(** ** What the buffer promises *)

(** C9: the barrier of [flushThrough] is durable.  In every interleaving of
    additions, flushes, disk writes (short, failed or complete) and failures,
    when [flushThrough target] returns [nil], each of the first [target]
    acknowledged records is read back from the file at the offset
    [addContext] returned for it, unless a later record was given an
    overlapping place in the ring. *)
Theorem agg_flush_barrier_durable start stop pos gen f0 s ctxErr target b' (i : nat) r :
  0 <= start < stop -> stop <= 2 ^ 62 -> start <= pos <= stop -> 0 <= gen <= 3 ->
  reachable start stop pos gen f0 s ->
  flushThrough ctxErr target (agg s) = Some (b', Return (Ok tt)) ->
  Z.of_nat i < target -> log s !! i = Some r ->
  (forall j r', (i < j)%nat -> log s !! j = Some r' -> disjoint r r') ->
  ReadAt (disk s) (blen (l_data r)) (l_off r) = (l_data r, None).
Proof.
  intros H1 H2 H3 H4 R E Hi Hr Hd. pose proof (reachable_inv _ _ _ _ _ _ H1 H2 H3 H4 R) as I.
  destruct (flushThrough_spec f0 s ctxErr target I) as (? & ? & E' & _ & _ & Hok & _). rewrite E in E'. injection E' as <- <-.
  destruct (Hok eq_refl) as [He Ht]. pose proof (ai_conf _ _ _ I) as [C _]. pose proof (lo_range _ _ _ _ _ (ai_log _ _ _ I)) as Hrange.
  destruct (ai_data _ _ _ I He) as (dn & fl & ac & Hl & Hcomp & _ & Hfl & Hdisk).
  assert (i < length dn)%nat as Hid by lia. pose proof Hr as Hr'. rewrite Hl, lookup_app_l in Hr' by done.
  destruct (Hrange r) as (? & ? & Hpos); [by eapply list_elem_of_lookup_2|].
  pose proof (take_drop_middle _ _ _ Hr') as Hmid.
  assert (forall r', r' ∈ drop (S i) dn ++ fl -> 0 <= l_off r' /\ disjoint r r') as Hlater.
  { intros r' Hin. assert (r' ∈ drop (S i) (log s)) as Hin'.
    { rewrite Hl, drop_app_le by lia. set_solver. }
    split; [destruct (Hrange r'); [rewrite <- (take_drop (S i) (log s)); set_solver|lia]|].
    apply list_elem_of_lookup in Hin' as [j Hj]. rewrite lookup_drop in Hj. apply (Hd (S i + j)%nat); [lia|done]. }
  assert (stored (image f0 dn) r) as Hst.
  { rewrite <- Hmid. apply stored_image; [lia|]. intros r' ?. apply Hlater. set_solver. }
  apply stored_read. destruct Hdisk as [Hdisk _]. destruct (wk s) as [|t|t e]; cbn [inflight] in Hfl; [by rewrite Hdisk..|].
  destruct Hdisk as [Hk|(k & Hk & _)]; rewrite Hk; [done|]. destruct Hfl as (Hn & Hlaid & _).
  assert (0 <= t_offset t) as Hoff.
  { destruct fl as [|r0 fl]; [done|]. destruct Hlaid as (<- & _). by apply Hlater; set_solver. }
  apply stored_write_other; [done|done|]. assert (blen (take k (payload fl)) <= blen (payload fl)) by (unfold blen; rewrite length_take; lia).
  destruct (laid_disjoint _ _ _ r Hlaid Hpos) as [?|[?| ->]]; [|lia|lia|done].
  intros r' ?. apply Hlater. set_solver.
Qed.

(** Records are placed inside the data area of the stripe, in allocation
    order, and two records of the same generation never share a byte. *)
Theorem agg_allocations_ordered start stop pos gen f0 s :
  0 <= start < stop -> stop <= 2 ^ 62 -> start <= pos <= stop -> 0 <= gen <= 3 ->
  reachable start stop pos gen f0 s ->
  (forall r, r ∈ log s -> minOffset (agg s) <= l_off r /\ l_end r <= maxOffset (agg s)) /\
  (forall i j r r', (i < j)%nat -> log s !! i = Some r -> log s !! j = Some r' ->
     l_gen r <= l_gen r' /\ (l_gen r = l_gen r' -> l_end r <= l_off r')) /\
  (forall ctxErr data writer b' a, Z.of_nat (length (log s)) < 2 ^ 62 ->
     addContext ctxErr data writer (agg s) = Some (b', Return (Ok a)) ->
     a_sequence a = Z.of_nat (length (log s)) + 1 /\
     minOffset (agg s) <= a_offset a /\ a_offset a + blen data <= maxOffset (agg s) /\
     (forall r, r ∈ log s -> l_gen r = a_generation a -> l_end r <= a_offset a)).
Proof.
  intros H1 H2 H3 H4 R. pose proof (reachable_inv _ _ _ _ _ _ H1 H2 H3 H4 R) as I. pose proof (ai_log _ _ _ I) as [L1 L2 L3 L4].
  split_and!.
  - intros r Hr. destruct (L1 _ Hr). lia.
  - intros i j r r' Hij Hi Hj. destruct (L3 i j r r' Hij Hi Hj); lia.
  - intros ctxErr data writer b' a Hr E.
    destruct (addContext_spec f0 s ctxErr data writer I Hr) as (? & ? & E' & K & _ & Ha & I'). rewrite E in E'. injection E' as <- <-.
    pose proof (ai_log _ _ _ I') as [L1' _ L3' _]. cbn [agg log logged] in *.
    assert (mkRec (a_offset a) (a_generation a) data ∈ log s ++ [mkRec (a_offset a) (a_generation a) data]) as Hin by set_solver.
    destruct (L1' _ Hin) as (B1 & B2 & _). unfold l_end in B1, B2. cbn in B1, B2. rewrite (k_min _ _ K) in B1. rewrite (k_max _ _ K) in B2.
    split_and!; [by apply (Ha a eq_refl)|done|done|]. intros r Hin' Hg. apply list_elem_of_lookup in Hin' as [i Hi].
    pose proof (lookup_lt_Some _ _ _ Hi).
    destruct (L3' i (length (log s)) r (mkRec (a_offset a) (a_generation a) data)) as [Hb|Hb]; [lia| | |cbn in Hb; lia|cbn in Hb; lia].
    + by rewrite lookup_app_l.
    + by rewrite lookup_app_r, Nat.sub_diag by lia.
Qed.

(** C35: no critical section of the buffer blocks with the mutex held or loops
    for ever: the send on [flushChan] always finds room, the retry loop of
    [addContext] ends within three iterations, and a call waits only while a
    flush is in progress, whose completion signals every waiter. *)
Theorem agg_never_blocks start stop pos gen f0 s ctxErr data writer target :
  0 <= start < stop -> stop <= 2 ^ 62 -> start <= pos <= stop -> 0 <= gen <= 3 ->
  reachable start stop pos gen f0 s -> Z.of_nat (length (log s)) < 2 ^ 62 ->
  (exists b' o, addContext ctxErr data writer (agg s) = Some (b', o) /\ (o = Wait -> inflight b' (wk s) <> [])) /\
  (exists b' o, flushThrough ctxErr target (agg s) = Some (b', o) /\
     (o = Wait -> target <= sequence (agg s) -> inflight b' (wk s) <> [])) /\
  (exists b', TriggerFlush (agg s) = Some b') /\
  (forall e, changed (NotifyFlushDone e (agg s)).1 = changed (agg s) + 1).
Proof.
  intros H1 H2 H3 H4 R Hr. pose proof (reachable_inv _ _ _ _ _ _ H1 H2 H3 H4 R) as I.
  assert (forall b' l, agg_inv f0 3 (mkSys b' (wk s) (disk s) l) -> isFlushing b' = true -> inflight b' (wk s) <> []) as Hin.
  { intros b' l I' Hf. pose proof (ai_chan _ _ _ I') as Hc. cbn [agg wk] in Hc. rewrite Hf in Hc. by destruct (inflight b' (wk s)). }
  split_and!.
  - destruct (addContext_spec f0 s ctxErr data writer I Hr) as (b' & o & E & _ & Hw & _ & I'). eauto 10.
  - destruct (flushThrough_spec f0 s ctxErr target I) as (b' & o & E & _ & Hw & _ & I'). eauto 10.
  - destruct (swap_spec _ _ _ I) as (b' & E & _). by exists b'.
  - intros e. unfold NotifyFlushDone. destruct (agg s) as [? ? [] ? ? ? ? ? ? [] ? ? [|] ?]; destruct e; done.
Qed.

(** How many disk flushes have to complete before the barrier [target]. *)
Definition rounds (target : Z) (b : AggregateWriteBuffer) : nat :=
  if target <=? completed b then 0
  else if isFlushing b then (if target <=? b_sequence (inactive b) then 1 else 2) else 1.

Lemma called_rounds target s s' : called s s' -> target <= sequence (agg s) -> (rounds target (agg s') <= rounds target (agg s))%nat.
Proof.
  intros K Ht. unfold rounds. rewrite (c_comp _ _ K). destruct (target <=? completed (agg s)); [done|].
  destruct (isFlushing (agg s)) eqn:E.
  - destruct (c_busy _ _ K E) as [-> ->]. done.
  - destruct (isFlushing (agg s')) eqn:E'; [|done]. pose proof (c_idle _ _ K E E'). by replace (target <=? _) with true by lia.
Qed.

Lemma notify_rounds f0 s t e target :
  agg_inv f0 3 s -> wk s = Written t e -> err (NotifyFlushDone e (agg s)).1 = None ->
  (rounds target (NotifyFlushDone e (agg s)).1 <= pred (rounds target (agg s)))%nat.
Proof.
  intros I Hw He. pose proof (ai_chan _ _ _ I) as Hc. rewrite Hw in Hc. cbn in Hc.
  assert (isFlushing (agg s) = true) as Hf by (destruct (isFlushing (agg s)); [done|lia]).
  assert (err (agg s) = None) as He' by (unfold NotifyFlushDone in He; destruct (agg s) as [? ? [] ? ? ? ? ? ? [] ? ? [|] ?]; destruct e; done).
  destruct (ai_data _ _ _ I He') as (dn & fl & ac & Hl & Hcomp & _ & Hfl & _). rewrite Hw in Hfl. cbn in Hfl.
  destruct Hfl as (_ & _ & _ & _ & _ & Hseq & _).
  assert (completed (NotifyFlushDone e (agg s)).1 = b_sequence (inactive (agg s))) as Ec
    by (unfold NotifyFlushDone; destruct (agg s) as [? ? [] ? ? ? ? ? ? [] ? ? [|] ?]; destruct e; done).
  assert (isFlushing (NotifyFlushDone e (agg s)).1 = false) as Ef
    by (unfold NotifyFlushDone; destruct (agg s) as [? ? [] ? ? ? ? ? ? [] ? ? [|] ?]; destruct e; done).
  unfold rounds. rewrite Ec, Ef, Hf. destruct (target <=? completed (agg s)) eqn:E1; b2p.
  - by replace (target <=? _) with true by lia.
  - by destruct (target <=? _).
Qed.

(** C36: a barrier is reached after at most two completed flushes, whatever
    else runs in between: no step that leaves the buffer healthy moves the
    barrier away, every completed flush brings it closer, a waiting call always
    has a flush in progress to wake it, and once no flush is owed
    [flushThrough] returns [nil]. *)
Theorem agg_flush_progress start stop pos gen f0 s target :
  0 <= start < stop -> stop <= 2 ^ 62 -> start <= pos <= stop -> 0 <= gen <= 3 ->
  reachable start stop pos gen f0 s -> target <= sequence (agg s) ->
  (rounds target (agg s) <= 2)%nat /\
  (forall s', step s s' -> err (agg s') = None -> (rounds target (agg s') <= rounds target (agg s))%nat) /\
  (forall t e, wk s = Written t e -> err (NotifyFlushDone e (agg s)).1 = None ->
     (rounds target (NotifyFlushDone e (agg s)).1 <= pred (rounds target (agg s)))%nat) /\
  (forall b', flushThrough None target (agg s) = Some (b', Wait) -> inflight b' (wk s) <> []) /\
  (err (agg s) = None -> rounds target (agg s) = 0%nat -> flushThrough None target (agg s) = Some (agg s, Return (Ok tt))).
Proof.
  intros H1 H2 H3 H4 R Ht. pose proof (reachable_inv _ _ _ _ _ _ H1 H2 H3 H4 R) as I. split_and!.
  - unfold rounds. repeat case_match; lia.
  - intros s' S He. destruct S as [s1 Hc|t rest Hw Hc|t o f' e Hw E|t e Hw|t e Hw|e]; cbn [agg] in *; try done.
    + apply called_rounds; [|done]. by apply (call_spec f0).
    + pose proof (notify_rounds _ _ _ _ target I Hw He). lia.
    + unfold Fail. destruct e; [|done]. unfold signalLocked. destruct (agg s) as [? ? [] ? ? ? ? ? ? [] ? ? [|] ?]; done.
  - intros t e Hw He. by eapply notify_rounds.
  - intros b' E. destruct (flushThrough_spec f0 s None target I) as (? & ? & E' & _ & Hw & _ & I'). rewrite E in E'. injection E' as <- <-.
    specialize (Hw eq_refl Ht). pose proof (ai_chan _ _ _ I') as Hc. cbn [agg wk] in Hc. rewrite Hw in Hc. by destruct (inflight b' (wk s)).
  - intros He Hz. unfold flushThrough. rewrite He. unfold rounds in Hz. destruct (target <=? completed (agg s)); [done|].
    repeat case_match; done.
Qed.

(** ** Reading through the buffers *)

Lemma byteAt_laid f s g l x :
  (l <> [] -> 0 <= s) -> 0 <= x -> laid s g l ->
  byteAt (image f l) x =
    if (s <=? x) && (x <? s + blen (payload l)) then byteIx (payload l) (Z.to_nat (x - s)) else byteAt f x.
Proof.
  intros Hs Hx Hl. destruct (decide (l = [])) as [->|Hn].
  - cbn. destruct ((s <=? x) && _) eqn:E; [|done]. unfold blen in E. cbn in E. b2p. lia.
  - rewrite (image_laid _ s g) by auto. apply byteAt_write; auto.
Qed.

(** [copyFrom] on one buffer that covers the offset. *)
Lemma copy_lookup (p : bytes) off n (i : nat) y :
  0 <= off < blen p -> take (Z.to_nat n) (slice p off (blen p)) !! i = Some y ->
  off + Z.of_nat i < blen p /\ y = byteIx p (Z.to_nat (off + Z.of_nat i)).
Proof.
  intros Ho H. apply lookup_take_Some in H as [H _]. rewrite slice_lookup in H by lia. case_decide; [|done].
  split; [lia|]. unfold byteIx. replace (Z.to_nat (off + Z.of_nat i)) with (Z.to_nat off + i)%nat by lia. by rewrite H.
Qed.

Lemma copy_nonempty (p : bytes) off n : 0 <= off < blen p -> 0 < n -> take (Z.to_nat n) (slice p off (blen p)) <> [].
Proof.
  unfold blen. intros Ho Hn E. apply (f_equal length) in E. rewrite length_take, length_slice in E by lia. cbn in E. lia.
Qed.

(** The three layers of a healthy state: the active buffer over the flushing
    one over the file. *)
Lemma layers f0 s x :
  agg_inv f0 3 s -> err (agg s) = None -> 0 <= x ->
  let u := active (agg s) in let v := inactive (agg s) in
  let inA := (b_start u <=? x) && (x <? b_start u + bufferPos u) in
  let inF := isFlushing (agg s) && (b_start v <=? x) && (x <? b_start v + bufferPos v) in
  byteAt (image f0 (log s)) x =
    (if inA then byteIx (b_data u) (Z.to_nat (x - b_start u))
     else if inF then byteIx (b_data v) (Z.to_nat (x - b_start v)) else byteAt (disk s) x) /\
  (bufferPos u <> 0 -> 0 <= b_start u /\ b_start u + bufferPos u <= 2 ^ 62) /\
  (isFlushing (agg s) = true -> minOffset (agg s) <= b_start v /\ b_start v + bufferPos v <= 2 ^ 62 /\
     (bufferPos u <> 0 -> b_start u = b_start v + bufferPos v \/ b_start u = minOffset (agg s))).
Proof.
  intros I He Hx u v inA inF. pose proof (ai_log _ _ _ I) as [L1 _ _ _]. pose proof (ai_conf _ _ _ I) as [C1 C2].
  destruct (ai_data _ _ _ I He) as (dn & fl & ac & Hl & _ & (A1 & A2 & A3) & Hfl & Hdisk).
  pose proof (ai_chan _ _ _ I) as Hch. pose proof (ai_cursor _ _ _ I) as Hcu.
  assert (forall s0 g0 l, l <> [] -> (forall r, r ∈ l -> r ∈ log s) -> laid s0 g0 l -> minOffset (agg s) <= s0) as Hstart.
  { intros s0 g0 [|r l] Hn Hsub; [done|]. intros (<- & _). destruct (L1 r); [apply Hsub; set_solver|]. done. }
  assert (bufferPos u <> 0 -> ac <> []) as Hne.
  { unfold bufferPos. fold u in A1. rewrite A1. intros ? ->. done. }
  assert (ac <> [] -> 0 <= b_start u) as Hau.
  { intros Hn. pose proof (Hstart _ _ ac Hn ltac:(rewrite Hl; set_solver) A2). fold u in H. lia. }
  assert (byteAt (image f0 (log s)) x = if inA then byteIx (b_data u) (Z.to_nat (x - b_start u)) else byteAt (image f0 (dn ++ fl)) x) as E1.
  { rewrite Hl, app_assoc, image_app, (byteAt_laid _ (b_start u) (b_generation u) ac) by done.
    unfold inA, bufferPos. fold u in A1. by rewrite A1. }
  assert (bufferPos u <> 0 -> 0 <= b_start u /\ b_start u + bufferPos u <= 2 ^ 62) as Hab.
  { intros Hp. destruct (A3 (Hne Hp)) as (Ec & _). fold u in Ec, A1. unfold bufferPos. rewrite A1. split; [auto|lia]. }
  destruct (inflight (agg s) (wk s)) as [|t ts] eqn:Ein.
  - subst fl. assert (isFlushing (agg s) = false) as Hf by (destruct (isFlushing (agg s)); [done|done]).
    unfold inF. rewrite Hf. cbn [andb]. split; [|split; [done|done]]. rewrite E1, app_nil_r.
    destruct (idle_quiet _ _ _ I Hf) as [Hw _]. destruct Hdisk as [Hd _]. rewrite Hw in Hd. by rewrite Hd.
  - assert (isFlushing (agg s) = true) as Hf by (destruct (isFlushing (agg s)); [done|done]).
    destruct Hfl as (Hn & Hlaid & Hb & Hv1 & Hv2 & _ & Hadj). fold v in Hv1, Hv2.
    pose proof (Hstart _ _ fl Hn ltac:(rewrite Hl; set_solver) Hlaid) as Hoff.
    unfold inF. rewrite Hf. cbn [andb]. unfold bufferPos. rewrite Hv1, Hv2.
    assert (t_offset t + blen (payload fl) <= maxOffset (agg s)) as Hend.
    { pose proof (laid_pos _ _ _ Hlaid Hn). destruct (laid_cover _ _ _ (t_offset t + blen (payload fl) - 1) Hlaid ltac:(lia)) as (r & Hr & Hx').
      destruct (L1 r) as (_ & ? & _); [rewrite Hl; set_solver|]. lia. }
    split; [|split; [done|]].
    + rewrite E1. destruct inA; [done|]. rewrite image_app, (byteAt_laid _ (t_offset t) (t_generation t) fl) by (done || (intros; lia)).
      destruct ((t_offset t <=? x) && _) eqn:Ein'; [done|]. destruct Hdisk as [Hd _].
      destruct (wk s) as [|t'|t' e]; [by rewrite Hd..|]. cbn in Ein. injection Ein as -> _.
      destruct Hd as [->|(k & -> & _)]; [done|]. rewrite byteAt_write by lia.
      destruct ((t_offset t <=? x) && (x <? t_offset t + blen (take k (payload fl)))) eqn:Ek; [|done].
      exfalso. assert (blen (take k (payload fl)) <= blen (payload fl)) by (unfold blen; rewrite length_take; lia). lia.
    + intros _. split; [done|]. split; [lia|]. intros Hp. unfold activeStart in Hadj. fold u in Hadj.
      unfold bufferPos in Hadj. destruct (blen (b_data u) =? 0) eqn:E0; b2p; [done|exact Hadj].
Qed.

(** C30: reads through the buffers see the whole log.  In a healthy state,
    whatever [CopyFrom] returns at an offset is what the file would hold there
    after every acknowledged record had been written in order; where it returns
    nothing, the file itself already holds that byte. *)
Theorem agg_copyfrom_coherent start stop pos gen f0 s offset n :
  0 <= start < stop -> stop <= 2 ^ 62 -> start <= pos <= stop -> 0 <= gen <= 3 ->
  reachable start stop pos gen f0 s -> err (agg s) = None -> 0 <= offset <= 2 ^ 62 -> 0 < n ->
  (forall i y, CopyFrom offset n (agg s) !! i = Some y -> y = byteAt (image f0 (log s)) (offset + Z.of_nat i)) /\
  (CopyFrom offset n (agg s) = [] -> byteAt (disk s) offset = byteAt (image f0 (log s)) offset).
Proof.
  intros H1 H2 H3 H4 R He Ho Hn. pose proof (reachable_inv _ _ _ _ _ _ H1 H2 H3 H4 R) as I.
  pose proof (layers f0 s offset I He ltac:(lia)) as (E0 & Hu & Hv).
  pose proof (fun x => layers f0 s x I He) as Hlay.
  unfold CopyFrom, resident. cbn [copyFrom]. set (u := active (agg s)) in *. set (v := inactive (agg s)) in *.
  pose proof (blen_nonneg (b_data u)) as Pu. fold (bufferPos u) in Pu.
  assert ((0 <=? i64 (offset - b_start u)) && (i64 (offset - b_start u) <? bufferPos u) =
          (b_start u <=? offset) && (offset <? b_start u + bufferPos u)) as Eu.
  { destruct (decide (bufferPos u = 0)) as [Hz|Hz]; [rewrite Hz; lia|].
    destruct (Hu Hz). rewrite i64_small by (unfold fits_i64; lia). lia. }
  rewrite Eu in *. destruct ((b_start u <=? offset) && (offset <? b_start u + bufferPos u)) eqn:Ea.
  - b2p. destruct (Hu ltac:(lia)). rewrite i64_small by (unfold fits_i64; lia). split.
    + intros i y Hi. apply copy_lookup in Hi as [Hi ->]; [|unfold bufferPos in *; lia]. fold (bufferPos u) in Hi.
      destruct (Hlay (offset + Z.of_nat i) ltac:(lia)) as [-> _].
      replace ((b_start u <=? offset + Z.of_nat i) && (offset + Z.of_nat i <? b_start u + bufferPos u)) with true by lia.
      f_equal. lia.
    + intros E. by apply copy_nonempty in E; [|unfold bufferPos in *; lia|].
  - destruct (isFlushing (agg s)) eqn:Hf; cbn [copyFrom andb] in *; [|by split; [intros ? ?; rewrite lookup_nil|]].
    destruct (Hv eq_refl) as (V1 & V2 & V3). pose proof (ai_conf _ _ _ I) as [C1 _].
    pose proof (blen_nonneg (b_data v)) as Pv. fold (bufferPos v) in Pv.
    rewrite i64_small by (unfold fits_i64; lia).
    replace ((0 <=? offset - b_start v) && (offset - b_start v <? bufferPos v))
      with ((b_start v <=? offset) && (offset <? b_start v + bufferPos v)) by lia.
    destruct ((b_start v <=? offset) && (offset <? b_start v + bufferPos v)) eqn:Eb; [|by split; [intros ? ?; rewrite lookup_nil|]].
    b2p. split.
    + intros i y Hi. apply copy_lookup in Hi as [Hi ->]; [|unfold bufferPos in *; lia]. fold (bufferPos v) in Hi.
      destruct (Hlay (offset + Z.of_nat i) ltac:(lia)) as [-> _].
      replace ((b_start u <=? offset + Z.of_nat i) && (offset + Z.of_nat i <? b_start u + bufferPos u)) with false.
      2: { destruct (decide (bufferPos u = 0)) as [Hz|Hz]; [lia|]. destruct (V3 Hz); lia. }
      replace ((b_start v <=? offset + Z.of_nat i) && (offset + Z.of_nat i <? b_start v + bufferPos v)) with true by lia.
      f_equal. lia.
    + intros E. by apply copy_nonempty in E; [|unfold bufferPos in *; lia|].
Qed.

(** ** A concrete run: two records, the first flushed *)

Definition after {A} (r : option (AggregateWriteBuffer * A)) (b : AggregateWriteBuffer) : AggregateWriteBuffer :=
  match r with Some (b', _) => b' | None => b end.
Definition run0 : sys := Eval vm_compute in mkSys (opened 100 200 100 2) Idle [] [].
Definition run1 : sys := Eval vm_compute in
  mkSys (after (addContext None [1; 2; 3] None (agg run0)) (agg run0)) Idle [] [mkRec 100 2 [1; 2; 3]].
Definition run2 : sys := Eval vm_compute in mkSys (default (agg run1) (TriggerFlush (agg run1))) Idle [] (log run1).
Definition runTask : FlushTask := mkTask [1; 2; 3] [] 100 2.
Definition run3 : sys := Eval vm_compute in mkSys (set_flushChan [] (agg run2)) (Taken runTask) [] (log run1).
Definition run4 : sys := Eval vm_compute in mkSys (agg run3) (Written runTask None) (write_at [] 100 [1; 2; 3]) (log run1).
Definition run5 : sys := Eval vm_compute in mkSys (NotifyFlushDone None (agg run4)).1 Idle (disk run4) (log run1).

Lemma run_step1 : step run0 run1.
Proof.
  assert (addContext None [1; 2; 3] None (agg run0) = Some (agg run1, Return (Ok (mkAlloc 100 2 1)))) as E by (vm_compute; reflexivity).
  apply step_call.
  exact (call_add run0 None [1; 2; 3] None (agg run1) (Return (Ok (mkAlloc 100 2 1))) ltac:(vm_compute; reflexivity) E).
Qed.
Lemma run_step2 : step run1 run2.
Proof.
  assert (TriggerFlush (agg run1) = Some (agg run2)) as E by (vm_compute; reflexivity). apply step_call. exact (call_trigger run1 (agg run2) E).
Qed.
Lemma run_step3 : step run2 run3.
Proof.
  assert (flushChan (agg run2) = [runTask]) as E by (vm_compute; reflexivity). exact (step_take run2 runTask [] eq_refl E).
Qed.
Lemma run_step4 : step run3 run4.
Proof.
  assert (writeFullAt io_ok (disk run3) (t_buffer runTask) (t_offset runTask) = (disk run4, None)) as E by (vm_compute; reflexivity).
  exact (step_write run3 runTask io_ok (disk run4) None eq_refl E).
Qed.

Lemma run_reachable :
  reachable 100 200 100 2 [] run1 /\ reachable 100 200 100 2 [] run4 /\ reachable 100 200 100 2 [] run5.
Proof.
  assert (reachable 100 200 100 2 [] run0) as R0 by exact (reachable_init 100 200 100 2 []).
  pose proof (reachable_step _ _ _ _ _ _ _ R0 run_step1) as R1. pose proof (reachable_step _ _ _ _ _ _ _ R1 run_step2) as R2.
  pose proof (reachable_step _ _ _ _ _ _ _ R2 run_step3) as R3. pose proof (reachable_step _ _ _ _ _ _ _ R3 run_step4) as R4.
  split; [exact R1|]. split; [exact R4|].
  exact (reachable_step _ _ _ _ _ _ _ R4 (step_notify run4 runTask None eq_refl)).
Qed.

Lemma agg_flush_barrier_durable_witness :
  flushThrough None 1 (agg run5) = Some (agg run5, Return (Ok tt)) /\
  ReadAt (disk run5) 3 100 = ([1; 2; 3], None).
Proof.
  assert (flushThrough None 1 (agg run5) = Some (agg run5, Return (Ok tt))) as E by (vm_compute; reflexivity).
  split; [exact E|].
  apply (agg_flush_barrier_durable 100 200 100 2 [] run5 None 1 (agg run5) 0 (mkRec 100 2 [1; 2; 3]));
    [lia|lia|lia|lia|apply run_reachable|exact E|lia|reflexivity|].
  intros [|j] r' Hj Hr; [lia|discriminate Hr].
Defined.

Lemma agg_allocations_ordered_witness : minOffset (agg run1) <= 100 /\ l_end (mkRec 100 2 [1; 2; 3]) <= maxOffset (agg run1).
Proof.
  apply (agg_allocations_ordered 100 200 100 2 [] run1) with (r := mkRec 100 2 [1; 2; 3]);
    [lia|lia|lia|lia|apply run_reachable|apply list_elem_of_here].
Defined.

Lemma agg_never_blocks_witness : exists b', TriggerFlush (agg run4) = Some b'.
Proof.
  apply (agg_never_blocks 100 200 100 2 [] run4 None [7] None 1); [lia|lia|lia|lia|apply run_reachable|vm_compute; reflexivity].
Defined.

Lemma agg_flush_progress_witness :
  (rounds 1 (NotifyFlushDone None (agg run4)).1 <= pred (rounds 1 (agg run4)))%nat /\ rounds 1 (agg run4) = 1%nat.
Proof.
  split; [|reflexivity].
  apply (agg_flush_progress 100 200 100 2 [] run4 1) with (t := runTask);
    [lia|lia|lia|lia|apply run_reachable|vm_compute; discriminate|reflexivity|reflexivity].
Defined.

Lemma agg_copyfrom_coherent_witness :
  CopyFrom 101 8 (agg run1) = [2; 3] /\ 2 = byteAt (image [] (log run1)) 101.
Proof.
  split; [vm_compute; reflexivity|].
  apply (agg_copyfrom_coherent 100 200 100 2 [] run1 101 8) with (i := 0%nat);
    [lia|lia|lia|lia|apply run_reachable|reflexivity|lia|lia|vm_compute; reflexivity].
Defined.
