(* ===== verification/OpenDir.v ===== *)
(** * Documents being written

    [cache/open_dir.go]: the table of documents that have an active writer.
    [*OpenDirEntry] values are shared by the table, by writers and by readers,
    so they are addresses into a heap; writers are identifiers.  Every
    operation is one critical section of [OpenDir.mutex].  [CreatedAt], which
    no code reads, is left out. *)

From S2P Require Import Prelude Hash Dir Doc.

Record OpenDirEntry : Type := mkOpenDirEntry {
  e_writer : nat; e_ready : bool; e_error : option error; e_refCount : Z }.

Definition setRef (e : OpenDirEntry) (n : Z) : OpenDirEntry := mkOpenDirEntry (e_writer e) (e_ready e) (e_error e) n.

Definition NewOpenDirEntry (w : nat) : OpenDirEntry := mkOpenDirEntry w false None 1.

Record OpenDir : Type := mkOpenDir {
  od_entries : gmap bytes nat; od_heap : gmap nat OpenDirEntry;
  od_generation : Z; od_policyEpochs : list Z }.

Definition NewOpenDir : OpenDir := mkOpenDir ∅ ∅ 0 (repeat 0 1024).

Definition setEntries (m : gmap bytes nat) (od : OpenDir) : OpenDir :=
  mkOpenDir m (od_heap od) (od_generation od) (od_policyEpochs od).
Definition setHeap (h : gmap nat OpenDirEntry) (od : OpenDir) : OpenDir :=
  mkOpenDir (od_entries od) h (od_generation od) (od_policyEpochs od).
Definition setGeneration (g : Z) (od : OpenDir) : OpenDir :=
  mkOpenDir (od_entries od) (od_heap od) g (od_policyEpochs od).

Definition Get (od : OpenDir) (key : bytes) : option nat := od_entries od !! key.

(** [Add]: the entry of the key and whether it is a new one. *)
Definition Add (od : OpenDir) (key : bytes) (w : nat) : OpenDir * nat * bool :=
  match od_entries od !! key with
  | Some a => (od, a, false)
  | None =>
      let a := fresh (dom (od_heap od)) in
      (setEntries (<[key := a]> (od_entries od)) (setHeap (<[a := NewOpenDirEntry w]> (od_heap od)) od), a, true)
  end.

(** Adding [n] to the reference count of the entry at [a]. *)
Definition addRef (od : OpenDir) (a : nat) (n : Z) : OpenDir :=
  setHeap (alter (fun e => setRef e (e_refCount e + n)) a (od_heap od)) od.

Definition refCount (od : OpenDir) (a : nat) : Z :=
  match od_heap od !! a with Some e => e_refCount e | None => 0 end.

Definition Remove (od : OpenDir) (key : bytes) : OpenDir :=
  match od_entries od !! key with
  | None => od
  | Some a =>
      let od := addRef od a (-1) in
      if refCount od a <=? 0 then setEntries (delete key (od_entries od)) od else od
  end.

Definition ForceRemove (od : OpenDir) (key : bytes) : OpenDir := setEntries (delete key (od_entries od)) od.

Definition Acquire (od : OpenDir) (key : bytes) : OpenDir * option nat :=
  match od_entries od !! key with
  | None => (od, None)
  | Some a => (addRef od a 1, Some a)
  end.

Definition Release (od : OpenDir) (key : bytes) (expected : option nat) : OpenDir :=
  match expected with
  | None => od
  | Some a =>
      let od := addRef od a (-1) in
      if (refCount od a <=? 0) && bool_decide (od_entries od !! key = Some a)
      then setEntries (delete key (od_entries od)) od else od
  end.

Definition signalReady (od : OpenDir) (a : nat) : OpenDir :=
  setHeap (alter (fun e => mkOpenDirEntry (e_writer e) true (e_error e) (e_refCount e)) a (od_heap od)) od.

Definition Generation (od : OpenDir) : Z := od_generation od.

Definition setError (od : OpenDir) (a : nat) (er : error) : OpenDir :=
  setHeap (alter (fun e => mkOpenDirEntry (e_writer e) (e_ready e) (Some er) (e_refCount e)) a (od_heap od)) od.

(** [detach]: the new table and the entry taken out, whose writer is
    cancelled by the caller. *)
Definition detach (od : OpenDir) (key : bytes) : OpenDir * option nat :=
  let entry := od_entries od !! key in
  let od := setEntries (delete key (od_entries od)) od in
  match entry with
  | None => (od, None)
  | Some a => (signalReady (setError od a ErrInvalidated) a, Some a)
  end.

(** [policyEpoch]: the slot of a selector, then its counter. *)
Definition policySlot (selector : bytes) : nat :=
  let digest := sha256 selector in
  Z.to_nat (Z.lor (Z.shiftl (nthZ digest 0) 2) (Z.land (nthZ digest 1) 3)).
Definition policyEpoch (od : OpenDir) (selector : bytes) : Z := nth (policySlot selector) (od_policyEpochs od) 0.
Definition addPolicyEpoch (od : OpenDir) (selector : bytes) : OpenDir :=
  mkOpenDir (od_entries od) (od_heap od) (od_generation od)
    (alter (fun e => u64 (e + 1)) (policySlot selector) (od_policyEpochs od)).

(** ** Reference counting

    [handles a] is the number of references to the entry [a] that some writer
    or reader still has to give back: one for the writer at [Add], one per
    [Acquire]. *)

Abbreviation handles := (gmap nat nat).
Definition held (h : handles) (a : nat) : nat := default 0%nat (h !! a).

Inductive od_step : OpenDir * handles -> OpenDir * handles -> Prop :=
  | od_add od h key w od' a : Add od key w = (od', a, true) -> od_step (od, h) (od', <[a := 1%nat]> h)
  | od_conflict od h key w od' a : Add od key w = (od', a, false) -> od_step (od, h) (od', h)
  | od_acquire od h key od' a : Acquire od key = (od', Some a) -> od_step (od, h) (od', <[a := S (held h a)]> h)
  | od_release od h key a n : held h a = S n -> od_step (od, h) (Release od key (Some a), <[a := n]> h)
  | od_detach od h key : od_step (od, h) ((detach od key).1, h)
  | od_ready od h a : od_step (od, h) (signalReady od a, h)
  | od_bump od h : od_step (od, h) (setGeneration (u64 (od_generation od + 1)) od, h)
  | od_policy od h selector : od_step (od, h) (addPolicyEpoch od selector, h).

Inductive od_reachable : OpenDir * handles -> Prop :=
  | odr_init : od_reachable (NewOpenDir, ∅)
  | odr_step s s' : od_reachable s -> od_step s s' -> od_reachable s'.

(** Counts are exact, addresses are bound, and the table holds each live
    entry under one key only. *)
Record od_inv (s : OpenDir * handles) : Prop := {
  oi_count : forall a e, od_heap s.1 !! a = Some e -> e_refCount e = Z.of_nat (held s.2 a);
  oi_held : forall a, (0 < held s.2 a)%nat -> is_Some (od_heap s.1 !! a);
  oi_bound : forall k a, od_entries s.1 !! k = Some a -> is_Some (od_heap s.1 !! a);
  oi_inj : forall k k' a, od_entries s.1 !! k = Some a -> od_entries s.1 !! k' = Some a -> k = k' }.

Lemma held_insert h a b n : held (<[a := n]> h) b = if decide (a = b) then n else held h b.
Proof. unfold held. case_decide; subst; [by rewrite lookup_insert_eq|by rewrite lookup_insert_ne]. Qed.

(** Changing an entry without its count keeps the invariant. *)
Lemma od_inv_alter od h a f :
  (forall e, e_refCount (f e) = e_refCount e) -> od_inv (od, h) -> od_inv (setHeap (alter f a (od_heap od)) od, h).
Proof.
  intros Hf [H1 H2 H3 H4]. split; cbn in *; [| | |done].
  - intros b e He. destruct (decide (a = b)) as [->|Hn].
    + rewrite lookup_alter_eq in He. destruct (od_heap od !! b) eqn:E; [|done]. injection He as <-. rewrite Hf. eauto.
    + rewrite lookup_alter_ne in He by done. eauto.
  - intros b Hb. rewrite lookup_alter. case_decide; [|eauto]. subst. rewrite fmap_is_Some. eauto.
  - intros k b Hk. rewrite lookup_alter. case_decide; [|eauto]. subst. rewrite fmap_is_Some. eauto.
Qed.

Lemma od_inv_delete od h key : od_inv (od, h) -> od_inv (setEntries (delete key (od_entries od)) od, h).
Proof.
  intros [H1 H2 H3 H4]. split; cbn in *; [done|done| |].
  - intros k a Hk. apply lookup_delete_Some in Hk as [_ Hk]. eauto.
  - intros k k' a Hk Hk'. apply lookup_delete_Some in Hk as [_ Hk], Hk' as [_ Hk']. eauto.
Qed.

Lemma addRef_inv od h a n m :
  od_inv (od, h) -> is_Some (od_heap od !! a) -> Z.of_nat m = Z.of_nat (held h a) + n -> od_inv (addRef od a n, <[a := m]> h).
Proof.
  intros [H1 H2 H3 H4] [e0 He0] Hm. unfold addRef. split; cbn in *; [| | |done].
  - intros b e He. rewrite held_insert, lookup_alter in *. case_decide; [|eauto]. subst.
    rewrite He0 in He. injection He as <-. cbn. rewrite (H1 _ _ He0). lia.
  - intros b Hb. rewrite lookup_alter. rewrite held_insert in Hb. repeat case_decide; subst; eauto. rewrite He0. eauto.
  - intros k b Hk. rewrite lookup_alter. case_decide; [|eauto]. subst. rewrite He0. eauto.
Qed.

Lemma od_step_inv s s' : od_inv s -> od_step s s' -> od_inv s'.
Proof.
  intros I S. revert I.
  destruct S as [od h key w od' a E|od h key w od' a E|od h key od' a E|od h key a n Hn|od h key|od h a|od h|od h sel]; intros I.
  - unfold Add in E. destruct (od_entries od !! key) eqn:Ek; [done|]. injection E as <- <-.
    set (a := fresh (dom (od_heap od))). assert (od_heap od !! a = None) as Hfresh by (apply not_elem_of_dom, is_fresh).
    destruct I as [H1 H2 H3 H4]. split; cbn in *.
    + intros b e He. rewrite held_insert. case_decide; subst.
      * rewrite lookup_insert_eq in He. injection He as <-. done.
      * rewrite lookup_insert_ne in He by done. eauto.
    + intros b Hb. rewrite held_insert in Hb. case_decide; subst; [rewrite lookup_insert_eq; eauto|].
      rewrite lookup_insert_ne by done. eauto.
    + intros k b Hk. apply lookup_insert_Some in Hk as [[_ <-]|[_ Hk]]; [rewrite lookup_insert_eq; eauto|].
      destruct (H3 _ _ Hk). rewrite lookup_insert_ne by congruence. eauto.
    + intros k k' b Hk Hk'. apply lookup_insert_Some in Hk as [[<- <-]|[Hne Hk]], Hk' as [[<- E']|[Hne' Hk']]; try done.
      * destruct (H3 _ _ Hk'). congruence.
      * subst b. destruct (H3 _ _ Hk). congruence.
      * eauto.
  - unfold Add in E. destruct (od_entries od !! key) eqn:Ek; [|done]. by injection E as <- _.
  - unfold Acquire in E. destruct (od_entries od !! key) as [a'|] eqn:Ek; [|done]. injection E as <- <-.
    apply addRef_inv; [done| |lia]. by eapply (oi_bound _ I).
  - unfold Release. assert (od_inv (addRef od a (-1), <[a := n]> h)) as I'.
    { apply addRef_inv; [done| |lia]. apply (oi_held _ I). cbn. lia. }
    destruct (_ && _); [|done]. by apply od_inv_delete.
  - unfold detach. pose proof (od_inv_delete _ _ key I) as I'. destruct (od_entries od !! key); [|done].
    cbn [fst]. unfold signalReady. apply od_inv_alter; [done|]. by apply od_inv_alter.
  - by apply od_inv_alter.
  - destruct I as [H1 H2 H3 H4]. by split.
  - destruct I as [H1 H2 H3 H4]. by split.
Qed.

Lemma od_reachable_inv s : od_reachable s -> od_inv s.
Proof.
  induction 1; [|by eapply od_step_inv]. split; cbn; intros *; unfold held; rewrite ?lookup_empty; cbn; try done. lia.
Qed.

Lemma refCount_addRef od h a n :
  od_inv (od, h) -> (0 < held h a)%nat -> refCount (addRef od a n) a = Z.of_nat (held h a) + n.
Proof.
  intros I Ha. destruct (oi_held _ I a Ha) as [e He]. cbn in He. unfold refCount, addRef. cbn.
  rewrite lookup_alter_eq, He. cbn. by rewrite (oi_count _ I a e He).
Qed.

(** C27: the reference counts of [OpenDir] are exact in every history of
    additions, acquisitions, releases and invalidations, and [Release] drops
    the caller's own entry when and only when it gives back the last
    reference: an entry that replaced it after an invalidation survives, and
    no other key of the table changes. *)
Theorem opendir_release_exact od h key a :
  od_reachable (od, h) -> (0 < held h a)%nat ->
  refCount od a = Z.of_nat (held h a) /\
  (forall k, Get (Release od key (Some a)) k =
     if decide (k = key /\ Get od key = Some a /\ held h a = 1%nat) then None else Get od k) /\
  refCount (Release od key (Some a)) a = Z.of_nat (held h a) - 1.
Proof.
  intros R Ha. pose proof (od_reachable_inv _ R) as I. pose proof (refCount_addRef _ _ _ (-1) I Ha) as Hr.
  destruct (oi_held _ I a Ha) as [e He]. cbn in He. split_and!.
  - unfold refCount. rewrite He. apply (oi_count _ I a e He).
  - intros k. unfold Release, Get. rewrite Hr. cbn [addRef setHeap od_entries].
    destruct (decide (held h a = 1%nat)) as [H1|H1].
    + rewrite H1. change (Z.of_nat 1 + -1 <=? 0) with true. cbn [andb]. case_bool_decide as Hk; cbn [setEntries od_entries].
      * destruct (decide (k = key)) as [->|Hne]; [by rewrite lookup_delete_eq, decide_True|].
        rewrite lookup_delete_ne, decide_False by naive_solver. done.
      * rewrite decide_False by naive_solver. done.
    + replace (Z.of_nat (held h a) + -1 <=? 0) with false by lia. rewrite decide_False by naive_solver. done.
  - unfold Release. assert (refCount (if (refCount (addRef od a (-1)) a <=? 0) && bool_decide (od_entries (addRef od a (-1)) !! key = Some a)
      then setEntries (delete key (od_entries (addRef od a (-1)))) (addRef od a (-1)) else addRef od a (-1)) a = refCount (addRef od a (-1)) a) as ->
      by (destruct (_ && _); done). lia.
Qed.

(** One writer per key.  [Add] succeeds exactly when no writer is active
    for the key; an invalidation ([detach]) removes the entry, marks it failed
    and ready so that its readers stop waiting, and lets a new writer in. *)
Theorem opendir_single_writer od h key w od' a ok :
  od_reachable (od, h) -> Add od key w = (od', a, ok) ->
  (ok = true <-> Get od key = None) /\ Get od' key = Some a /\
  (ok = true -> refCount od' a = 1 /\ forall k, k <> key -> Get od' k = Get od k /\ Get od' k <> Some a) /\
  (forall w', exists a', snd (Add (fst (detach od' key)) key w') = true /\
     snd (detach od' key) = Some a /\ Get (fst (detach od' key)) key = None /\
     a' = snd (fst (Add (fst (detach od' key)) key w')) /\ a' <> a) /\
  (exists e, od_heap (fst (detach od' key)) !! a = Some e /\ e_error e = Some ErrInvalidated /\ e_ready e = true).
Proof.
  intros R E. pose proof (od_reachable_inv _ R) as I.
  assert (od_inv (od', if ok then <[a := 1%nat]> h else h)) as I'.
  { eapply od_step_inv; [exact I|]. destruct ok; [by eapply od_add|by eapply od_conflict]. }
  assert (Get od' key = Some a) as Hk.
  { unfold Add, Get in *. destruct (od_entries od !! key) eqn:Ek; injection E as <- <- _; [done|]. cbn. by rewrite lookup_insert_eq. }
  assert (exists e, od_heap (fst (detach od' key)) !! a = Some e /\ e_error e = Some ErrInvalidated /\ e_ready e = true) as Hd.
  { unfold detach. unfold Get in Hk. rewrite Hk. cbn. rewrite !lookup_alter_eq. destruct (oi_bound _ I' _ _ Hk) as [e He]. cbn in He.
    rewrite He. cbn. eauto. }
  assert (od_entries (fst (detach od' key)) !! key = None) as Hnone.
  { unfold detach. unfold Get in Hk. rewrite Hk. cbn. by rewrite lookup_delete_eq. }
  split_and!; [| done | | | done].
  - unfold Add, Get in *. destruct (od_entries od !! key) eqn:Ek; injection E as _ _ <-; naive_solver.
  - intros ->. split.
    + unfold Add in E. destruct (od_entries od !! key); [done|]. injection E as <- <-. unfold refCount. cbn. by rewrite lookup_insert_eq.
    + intros k Hne. split.
      * unfold Add, Get in *. destruct (od_entries od !! key); [done|]. injection E as <- <-. cbn. by rewrite lookup_insert_ne.
      * intros Hka. apply Hne. by apply (oi_inj _ I' k key a).
  - intros w'. unfold Add, Get. rewrite Hnone. cbn [fst snd]. eexists. split_and!; [done| |done|done|].
    + unfold detach. unfold Get in Hk. by rewrite Hk.
    + destruct Hd as (e & He & _). intros Heq. assert (a ∈ dom (od_heap (fst (detach od' key)))) as Hin by (apply elem_of_dom; eauto).
      rewrite <- Heq in Hin. by apply is_fresh in Hin.
Qed.

(** ** A writer and a reader of one key *)

Definition od1 : OpenDir := (Add NewOpenDir [7] 1).1.1.
Lemma od1_reachable : od_reachable (od1, <[0%nat := 1%nat]> ∅).
Proof. eapply odr_step; [apply odr_init|]. eapply (od_add _ _ [7] 1). vm_compute. reflexivity. Qed.

Lemma opendir_release_exact_witness : Get (Release od1 [7] (Some 0%nat)) [7] = None.
Proof.
  destruct (opendir_release_exact od1 (<[0%nat := 1%nat]> ∅) [7] 0) as (_ & H & _); [apply od1_reachable|vm_compute; lia|].
  rewrite H. apply decide_True. split; [done|]. split; vm_compute; reflexivity.
Defined.

Lemma opendir_single_writer_witness : (false = true <-> Get od1 [7] = None) /\ Get od1 [7] = Some 0%nat.
Proof.
  destruct (opendir_single_writer od1 (<[0%nat := 1%nat]> ∅) [7] 2 od1 0%nat false) as (H1 & H2 & _);
    [apply od1_reachable|vm_compute; reflexivity|split; [exact H1|exact H2]].
Defined.
