(* ===== verification/Evacuation.v ===== *)
(** * The evacuation table

    [cache/evacuation.go]: blocks to be rewritten before the ring log reaches
    them, bucketed by disk offset.  Go ranges over a map in an unspecified
    order, so the operation that does takes the order [ord] as an argument. *)

From S2P Require Import Prelude Hash Dir Doc.

Definition EvacuationBucketSize : Z := 4 * 1024 * 1024.

Record EvacuationBlock : Type := mkBlock {
  ev_key : bytes; ev_logicalKey : bytes; ev_offset : Z; ev_size : Z }.

Abbreviation EvacuationTable := (gmap Z (gmap Z EvacuationBlock)).
Definition NewEvacuationTable : EvacuationTable := ∅.

Definition dirOffsetEvacBucket (offset : Z) : Z := Z.quot offset EvacuationBucketSize.

Definition entriesOf (et : EvacuationTable) (id : Z) : gmap Z EvacuationBlock := default ∅ (et !! id).

Definition Register (et : EvacuationTable) (key : bytes) (offset size : Z) : EvacuationTable :=
  let id := dirOffsetEvacBucket offset in
  let entries := entriesOf et id in
  let et := match et !! id with Some _ => et | None => <[id := ∅]> et end in
  let digest := docKey key in
  if match entries !! offset with Some old => bool_decide (ev_key old = digest) | None => false end then et
  else <[id := <[offset := mkBlock digest key offset size]> entries]> et.

(** One bucket of [GetCandidatesInRange]: what is left and what is returned. *)
Definition sweep (ord : list (Z * EvacuationBlock) -> list (Z * EvacuationBlock)) (start stop : Z)
    (et : EvacuationTable) (id : Z) : EvacuationTable * list EvacuationBlock :=
  let entries := entriesOf et id in
  let visited := ord (map_to_list entries) in
  let result := omap (fun '(offset, e) => if (offset <? stop) && (start <=? offset) then Some e else None) visited in
  let entries := filter (fun '(offset, _) => stop <= offset) entries in
  match et !! id with
  | None => (et, result)
  | Some _ => ((if decide (entries = ∅) then delete id et else <[id := entries]> et), result)
  end.

Fixpoint sweepAll (ord : list (Z * EvacuationBlock) -> list (Z * EvacuationBlock)) (start stop : Z)
    (ids : list Z) (et : EvacuationTable) : EvacuationTable * list EvacuationBlock :=
  match ids with
  | [] => (et, [])
  | id :: ids =>
      let '(et, r) := sweep ord start stop et id in
      let '(et, r') := sweepAll ord start stop ids et in
      (et, r ++ r')
  end.

Definition GetCandidatesInRange (ord : list (Z * EvacuationBlock) -> list (Z * EvacuationBlock))
    (et : EvacuationTable) (start stop : Z) : EvacuationTable * list EvacuationBlock :=
  let lo := dirOffsetEvacBucket start in
  sweepAll ord start stop (seqZ lo (dirOffsetEvacBucket (stop - 1) + 1 - lo)) et.

(** ** The table as a set of blocks *)

(** The block registered at an offset. *)
Definition at_ (et : EvacuationTable) (offset : Z) : option EvacuationBlock :=
  entriesOf et (dirOffsetEvacBucket offset) !! offset.

(** Blocks are stored under their own offset, in that offset's bucket. *)
Definition et_ok (et : EvacuationTable) : Prop :=
  forall id m o e, et !! id = Some m -> m !! o = Some e -> ev_offset e = o /\ dirOffsetEvacBucket o = id.

Lemma entriesOf_lookup et id o : entriesOf et id !! o = (et !! id ≫= fun m => m !! o).
Proof. unfold entriesOf. destruct (et !! id); cbn; [done|apply lookup_empty]. Qed.

Lemma Register_at et key offset size o :
  at_ (Register et key offset size) o =
    if decide (o = offset) then
      match at_ et offset with
      | Some old => if decide (ev_key old = docKey key) then Some old else Some (mkBlock (docKey key) key offset size)
      | None => Some (mkBlock (docKey key) key offset size)
      end
    else at_ et o.
Proof.
  unfold at_, Register. set (id := dirOffsetEvacBucket offset). rewrite !entriesOf_lookup.
  assert (forall id', (match et !! id with Some _ => et | None => <[id := ∅]> et end !! id' ≫= fun m => m !! o) = (et !! id' ≫= fun m => m !! o)) as Hpad.
  { intros id'. destruct (et !! id) eqn:E; [done|]. destruct (decide (id = id')) as [<-|Hn].
    - rewrite lookup_insert_eq, E. cbn. apply lookup_empty.
    - by rewrite lookup_insert_ne. }
  destruct (decide (o = offset)) as [->|Hne].
  - fold id. destruct (et !! id ≫= fun m => m !! offset) as [old|] eqn:Eo.
    + destruct (decide (ev_key old = docKey key)) as [Hk|Hk].
      * rewrite bool_decide_eq_true_2 by done. by rewrite Hpad.
      * rewrite bool_decide_eq_false_2 by done. rewrite lookup_insert_eq. cbn. by rewrite lookup_insert_eq.
    + rewrite lookup_insert_eq. cbn. by rewrite lookup_insert_eq.
  - match goal with |- context [if ?c then _ else _] => destruct c end; [apply Hpad|].
    destruct (decide (id = dirOffsetEvacBucket o)) as [Hi|Hi].
    + rewrite <- Hi, lookup_insert_eq. cbn. rewrite lookup_insert_ne by done. apply entriesOf_lookup.
    + rewrite lookup_insert_ne by done. apply Hpad.
Qed.

Lemma Register_ok et key offset size : et_ok et -> et_ok (Register et key offset size).
Proof.
  intros H. unfold Register. set (id := dirOffsetEvacBucket offset).
  assert (et_ok (match et !! id with Some _ => et | None => <[id := ∅]> et end)) as H'.
  { destruct (et !! id) eqn:E; [done|]. intros id' m o e Hm Ho. apply lookup_insert_Some in Hm as [[_ <-]|[_ Hm]]; [by rewrite lookup_empty in Ho|eauto]. }
  match goal with |- context [if ?c then _ else _] => destruct c end; [done|].
  intros id' m o e Hm Ho. apply lookup_insert_Some in Hm as [[<- <-]|[_ Hm]]; [|by eapply H'].
  apply lookup_insert_Some in Ho as [[<- <-]|[_ Ho]]; [done|]. rewrite entriesOf_lookup in Ho.
  destruct (et !! id) eqn:E; [|done]. by eapply H.
Qed.

Lemma sweep_spec ord start stop et id :
  (forall l, ord l ≡ₚ l) -> et_ok et ->
  let '(et', r) := sweep ord start stop et id in
  et_ok et' /\
  (forall o, at_ et' o = if decide (dirOffsetEvacBucket o = id /\ o < stop) then None else at_ et o) /\
  NoDup (ev_offset <$> r) /\
  (forall e, e ∈ r <-> at_ et (ev_offset e) = Some e /\ dirOffsetEvacBucket (ev_offset e) = id /\ start <= ev_offset e < stop).
Proof.
  intros Hord Hok. unfold sweep. set (r := omap _ _).
  assert (NoDup (ev_offset <$> r) /\ (forall e, e ∈ r <-> at_ et (ev_offset e) = Some e /\ dirOffsetEvacBucket (ev_offset e) = id /\ start <= ev_offset e < stop)) as Hr.
  { assert (forall o e, entriesOf et id !! o = Some e -> ev_offset e = o /\ dirOffsetEvacBucket o = id) as Hin.
    { intros o e He. rewrite entriesOf_lookup in He. destruct (et !! id) eqn:E; [|done]. by eapply Hok. }
    split.
    - assert (r ≡ₚ omap (fun '(offset, e) => if (offset <? stop) && (start <=? offset) then Some e else None) (map_to_list (entriesOf et id))) as ->
        by (unfold r; by rewrite Hord).
      assert (forall o e, (o, e) ∈ map_to_list (entriesOf et id) -> ev_offset e = o) as Hl
        by (intros o e He; apply elem_of_map_to_list in He; by apply Hin).
      pose proof (NoDup_fst_map_to_list (entriesOf et id)) as Hnd. clear -Hl Hnd.
      induction (map_to_list (entriesOf et id)) as [|[o e] l IH]; cbn in *; [constructor|]. apply NoDup_cons in Hnd as [Hn Hnd].
      assert (NoDup (ev_offset <$> omap (fun '(offset, e) => if (offset <? stop) && (start <=? offset) then Some e else None) l)) as IH'
        by (apply IH; [intros; apply Hl; by right|done]).
      destruct (_ && _); [|done]. cbn. constructor; [|done]. rewrite (Hl o e) by (by left).
      intros (e' & Ho & Hin)%list_elem_of_fmap. apply list_elem_of_omap in Hin as ([o' e''] & Hin & He').
      destruct (_ && _); [|done]. injection He' as ->. apply Hn. apply list_elem_of_fmap. exists (o', e'). split; [|done].
      rewrite Ho. apply Hl. by right.
    - intros e. unfold r. rewrite list_elem_of_omap. unfold at_. split.
      + intros ([o e'] & Hi & He). rewrite Hord in Hi. apply elem_of_map_to_list in Hi. destruct (Hin _ _ Hi) as [<- Hb].
        destruct (_ && _) eqn:Eb; [|done]. injection He as <-. b2p. rewrite Hb. done.
      + intros (He & Hb & Hs). exists (ev_offset e, e). split; [rewrite Hord; apply elem_of_map_to_list; by rewrite <- Hb|].
        by replace ((ev_offset e <? stop) && (start <=? ev_offset e)) with true by lia. }
  assert (forall m o, et !! id = Some m ->
    (if decide (filter (fun '(offset, _) => stop <= offset) m = ∅) then delete id et else <[id := filter (fun '(offset, _) => stop <= offset) m]> et)
      !! dirOffsetEvacBucket o ≫= (fun m => m !! o) =
    if decide (dirOffsetEvacBucket o = id /\ o < stop) then None else at_ et o) as Hat.
  { intros m o Em. unfold at_. rewrite entriesOf_lookup. destruct (decide (dirOffsetEvacBucket o = id)) as [Hb|Hb].
    - rewrite Hb, Em. cbn.
      assert (filter (fun '(offset, _) => stop <= offset) m !! o = if decide (o < stop) then None else m !! o) as Hf.
      { rewrite map_lookup_filter. destruct (m !! o) eqn:Eo; cbn; repeat case_decide; try done; try lia; by (rewrite option_guard_False by lia) || by (rewrite option_guard_True by lia). }
      assert ((if decide (o < stop) then None else m !! o) = if decide (id = id /\ o < stop) then None else m !! o) as <-
        by (destruct (decide (o < stop)); repeat case_decide; naive_solver).
      rewrite <- Hf. destruct (decide (filter (fun '(offset, _) => stop <= offset) m = ∅)) as [He|He]; [rewrite lookup_delete_eq, He; by rewrite lookup_empty|by rewrite lookup_insert_eq].
    - rewrite (decide_False (P := dirOffsetEvacBucket o = id /\ _)) by naive_solver.
      destruct (decide (filter (fun '(offset, _) => stop <= offset) m = ∅)); [by rewrite lookup_delete_ne|by rewrite lookup_insert_ne]. }
  unfold entriesOf. destruct (et !! id) as [m|] eqn:Em; cbn [from_option Datatypes.id].
  - split; [|split; [|done]].
    + intros id' m' o e Hm Ho. destruct (decide (filter (fun '(offset, _) => stop <= offset) m = ∅)).
      * apply lookup_delete_Some in Hm as [_ Hm]. by eapply Hok.
      * apply lookup_insert_Some in Hm as [[<- <-]|[_ Hm]]; [|by eapply Hok]. apply map_lookup_filter_Some in Ho as [Ho _]. by eapply Hok.
    + intros o. rewrite <- (Hat m o eq_refl). unfold at_. apply entriesOf_lookup.
  - split; [done|]. split; [|done]. intros o. case_decide as Hc; [|done]. destruct Hc as [Hb _]. unfold at_. rewrite entriesOf_lookup, Hb, Em. done.
Qed.

Lemma sweepAll_spec ord start stop ids et :
  (forall l, ord l ≡ₚ l) -> et_ok et -> NoDup ids ->
  let '(et', r) := sweepAll ord start stop ids et in
  et_ok et' /\
  (forall o, at_ et' o = if decide (dirOffsetEvacBucket o ∈ ids /\ o < stop) then None else at_ et o) /\
  NoDup (ev_offset <$> r) /\
  (forall e, e ∈ r <-> at_ et (ev_offset e) = Some e /\ dirOffsetEvacBucket (ev_offset e) ∈ ids /\ start <= ev_offset e < stop).
Proof.
  intros Hord. revert et. induction ids as [|id ids IH]; intros et Hok Hnd; cbn [sweepAll].
  - split; [done|]. split; [|split; [constructor|set_solver]]. intros o. rewrite decide_False by set_solver. done.
  - apply NoDup_cons in Hnd as [Hid Hnd]. pose proof (sweep_spec ord start stop et id Hord Hok) as Hs.
    destruct (sweep ord start stop et id) as [et1 r1]. destruct Hs as (Hok1 & Hat1 & Hnd1 & Hin1).
    specialize (IH et1 Hok1 Hnd). destruct (sweepAll ord start stop ids et1) as [et2 r2]. destruct IH as (Hok2 & Hat2 & Hnd2 & Hin2).
    assert (forall e, e ∈ r2 <-> at_ et (ev_offset e) = Some e /\ dirOffsetEvacBucket (ev_offset e) ∈ ids /\ start <= ev_offset e < stop) as Hin2'.
    { intros e. rewrite Hin2, Hat1. split; intros (He & Hb & Hs); (split; [|done]).
      - case_decide; [done|done].
      - rewrite decide_False; [done|]. intros [E _]. apply Hid. by rewrite <- E. }
    split; [done|]. split_and!.
    + intros o. rewrite Hat2, Hat1. repeat case_decide; try done; set_solver.
    + rewrite fmap_app. apply NoDup_app. split; [done|]. split; [|done].
      intros o Ho1 Ho2. apply list_elem_of_fmap in Ho1 as (e1 & -> & He1), Ho2 as (e2 & E & He2).
      apply Hin1 in He1 as (_ & Hb1 & _). apply Hin2' in He2 as (_ & Hb2 & _). apply Hid. by rewrite <- Hb1, E.
    + intros e. rewrite elem_of_app, Hin1, Hin2'. set_solver.
Qed.

(** Tables the code builds: registrations and range queries, in any order. *)
Inductive et_reachable : EvacuationTable -> Prop :=
  | et_new : et_reachable NewEvacuationTable
  | et_register et key offset size : et_reachable et -> et_reachable (Register et key offset size)
  | et_candidates ord et start stop :
      et_reachable et -> (forall l, ord l ≡ₚ l) -> et_reachable (GetCandidatesInRange ord et start stop).1.

Lemma et_reachable_ok et : et_reachable et -> et_ok et.
Proof.
  induction 1 as [| |ord et start stop _ IH Hord]; [by intros ? ? ? ? H|by apply Register_ok|].
  unfold GetCandidatesInRange. pose proof (sweepAll_spec ord start stop _ et Hord IH (NoDup_seqZ (dirOffsetEvacBucket start) (dirOffsetEvacBucket (stop - 1) + 1 - dirOffsetEvacBucket start))) as H.
  destruct (sweepAll _ _ _ _ _). by destruct H.
Qed.

Lemma quot_mono a b : 0 <= a <= b -> Z.quot a EvacuationBucketSize <= Z.quot b EvacuationBucketSize.
Proof. intros. apply Z.quot_le_mono; [done|lia]. Qed.

(** At most one block is registered per disk offset, so repeated hits
    cannot grow the table, and [GetCandidatesInRange start stop] returns each
    block registered in [[start, stop)] exactly once, for every map order,
    removes those blocks, and leaves every block at or beyond [stop] in
    place. *)
Theorem evacuation_candidates_exact ord et start stop :
  et_reachable et -> (forall l, ord l ≡ₚ l) -> 0 <= start < stop ->
  let '(et', r) := GetCandidatesInRange ord et start stop in
  NoDup (ev_offset <$> r) /\
  (forall e, e ∈ r <-> at_ et (ev_offset e) = Some e /\ start <= ev_offset e < stop) /\
  (forall o, start <= o < stop -> at_ et' o = None) /\
  (forall o, stop <= o -> at_ et' o = at_ et o) /\
  (forall o e, at_ et' o = Some e -> at_ et o = Some e /\ ev_offset e = o).
Proof.
  intros R Hord Hs. pose proof (et_reachable_ok _ R) as Hok. unfold GetCandidatesInRange.
  pose proof (sweepAll_spec ord start stop _ et Hord Hok (NoDup_seqZ (dirOffsetEvacBucket start) (dirOffsetEvacBucket (stop - 1) + 1 - dirOffsetEvacBucket start))) as H.
  destruct (sweepAll _ _ _ _ _) as [et' r]. destruct H as (Hok' & Hat & Hnd & Hin).
  assert (forall o, start <= o < stop -> dirOffsetEvacBucket o ∈ seqZ (dirOffsetEvacBucket start) (dirOffsetEvacBucket (stop - 1) + 1 - dirOffsetEvacBucket start)) as Hb.
  { intros o Ho. apply elem_of_seqZ. unfold dirOffsetEvacBucket.
    pose proof (quot_mono start o ltac:(lia)). pose proof (quot_mono o (stop - 1) ltac:(lia)). lia. }
  split; [done|]. split_and!.
  - intros e. rewrite Hin. naive_solver.
  - intros o Ho. rewrite Hat, decide_True; [done|]. split; [by apply Hb|lia].
  - intros o Ho. rewrite Hat, decide_False; [done|]. lia.
  - intros o e He. assert (at_ et o = Some e) as He' by (rewrite Hat in He; by case_decide). split; [done|].
    unfold at_ in He'. rewrite entriesOf_lookup in He'. destruct (et !! dirOffsetEvacBucket o) eqn:E; [|done]. by eapply Hok.
Qed.

Definition et2 : EvacuationTable := Register (Register NewEvacuationTable [1] 600 512) [2] 5000000 512.

Lemma evacuation_candidates_exact_witness :
  at_ (GetCandidatesInRange (fun l => l) et2 512 5000).1 5000000 = at_ et2 5000000.
Proof.
  pose proof (evacuation_candidates_exact (fun l => l) et2 512 5000 ltac:(repeat constructor) ltac:(done) ltac:(lia)) as H.
  destruct (GetCandidatesInRange _ _ _ _) as [et' r]. destruct H as (_ & _ & _ & H & _). apply H. lia.
Defined.
