(* ===== verification/Stripe.v ===== *)
(** * Stripes

    [cache/stripe.go]: one contiguous span of a file used as a ring log, with
    its directory, write buffer, open writers, RAM cache and evacuation table.
    The RAM cache is used through the interface [RamStore], which
    [cache/ram_cache.go] implements.  A function of this file is one critical
    section of [Stripe.mu] (and of [ioMu] where the code holds both), or a
    composition of such sections in the order the code runs them.  [None]
    stands for a Go panic. *)

From S2P Require Import Prelude Hash Dir Doc DirTrie DirManager HttpInfo RamCache File AggBuffer OpenDir Evacuation.

(** What the stripe, its writers and its readers expect of the RAM cache. *)
Class RamStore (R : Type) : Type := {
  rs_new : Z -> string -> result R;
  rs_get : R -> bytes -> option ramEntry * R;
  rs_put : R -> bytes -> bytes -> option R;
  rs_delete : R -> bytes -> option R;
  rs_ok : R -> Prop;
  rs_holds : R -> bytes -> option ramEntry;
  rs_get_law r k : rs_ok r -> (rs_get r k).1 = rs_holds r k /\ rs_ok (rs_get r k).2 /\
    forall k' e, rs_holds (rs_get r k).2 k' = Some e -> rs_holds r k' = Some e;
  rs_put_law r k v : rs_ok r -> bytes_ok v -> exists r', rs_put r k v = Some r' /\ rs_ok r' /\
    forall k' e, rs_holds r' k' = Some e -> k' = k /\ e = newRAMEntry v \/ k' <> k /\ rs_holds r k' = Some e;
  rs_delete_law r k : rs_ok r -> exists r', rs_delete r k = Some r' /\ rs_ok r' /\ rs_holds r' k = None /\
    forall k' e, rs_holds r' k' = Some e -> rs_holds r k' = Some e }.

Record evacuationRecord : Type := mkEvac {
  v_key : bytes; v_data : bytes; v_old : Dir; v_generation : Z; v_invalidation : Z }.

Section Stripe.
Context {R : Type} `{RamStore R}.

Record Stripe : Type := mkStripe {
  s_dir : DirManager;
  s_agg : AggregateWriteBuffer;
  s_open : OpenDir;
  s_ram : option R;
  s_disk : option file;
  s_start : Z;
  s_len : Z;
  s_skip : Z;
  s_writePos : Z;
  s_phase : bool;
  s_writingStart : Z;
  s_writingEnd : Z;
  s_writingGeneration : Z;
  s_generation : Z;
  s_storageErr : option error;
  s_closing : bool;
  s_session : bytes;
  s_evac : EvacuationTable;
  s_hitWindow : Z;
  s_evacQueue : list (list evacuationRecord) }.

Definition set_s_dir (v : DirManager) (s : Stripe) : Stripe :=
  mkStripe v (s_agg s) (s_open s) (s_ram s) (s_disk s) (s_start s) (s_len s) (s_skip s) (s_writePos s) (s_phase s) (s_writingStart s) (s_writingEnd s) (s_writingGeneration s) (s_generation s) (s_storageErr s) (s_closing s) (s_session s) (s_evac s) (s_hitWindow s) (s_evacQueue s).
Definition set_s_agg (v : AggregateWriteBuffer) (s : Stripe) : Stripe :=
  mkStripe (s_dir s) v (s_open s) (s_ram s) (s_disk s) (s_start s) (s_len s) (s_skip s) (s_writePos s) (s_phase s) (s_writingStart s) (s_writingEnd s) (s_writingGeneration s) (s_generation s) (s_storageErr s) (s_closing s) (s_session s) (s_evac s) (s_hitWindow s) (s_evacQueue s).
Definition set_s_open (v : OpenDir) (s : Stripe) : Stripe :=
  mkStripe (s_dir s) (s_agg s) v (s_ram s) (s_disk s) (s_start s) (s_len s) (s_skip s) (s_writePos s) (s_phase s) (s_writingStart s) (s_writingEnd s) (s_writingGeneration s) (s_generation s) (s_storageErr s) (s_closing s) (s_session s) (s_evac s) (s_hitWindow s) (s_evacQueue s).
Definition set_s_ram (v : option R) (s : Stripe) : Stripe :=
  mkStripe (s_dir s) (s_agg s) (s_open s) v (s_disk s) (s_start s) (s_len s) (s_skip s) (s_writePos s) (s_phase s) (s_writingStart s) (s_writingEnd s) (s_writingGeneration s) (s_generation s) (s_storageErr s) (s_closing s) (s_session s) (s_evac s) (s_hitWindow s) (s_evacQueue s).
Definition set_s_disk (v : option file) (s : Stripe) : Stripe :=
  mkStripe (s_dir s) (s_agg s) (s_open s) (s_ram s) v (s_start s) (s_len s) (s_skip s) (s_writePos s) (s_phase s) (s_writingStart s) (s_writingEnd s) (s_writingGeneration s) (s_generation s) (s_storageErr s) (s_closing s) (s_session s) (s_evac s) (s_hitWindow s) (s_evacQueue s).
Definition set_s_start (v : Z) (s : Stripe) : Stripe :=
  mkStripe (s_dir s) (s_agg s) (s_open s) (s_ram s) (s_disk s) v (s_len s) (s_skip s) (s_writePos s) (s_phase s) (s_writingStart s) (s_writingEnd s) (s_writingGeneration s) (s_generation s) (s_storageErr s) (s_closing s) (s_session s) (s_evac s) (s_hitWindow s) (s_evacQueue s).
Definition set_s_len (v : Z) (s : Stripe) : Stripe :=
  mkStripe (s_dir s) (s_agg s) (s_open s) (s_ram s) (s_disk s) (s_start s) v (s_skip s) (s_writePos s) (s_phase s) (s_writingStart s) (s_writingEnd s) (s_writingGeneration s) (s_generation s) (s_storageErr s) (s_closing s) (s_session s) (s_evac s) (s_hitWindow s) (s_evacQueue s).
Definition set_s_skip (v : Z) (s : Stripe) : Stripe :=
  mkStripe (s_dir s) (s_agg s) (s_open s) (s_ram s) (s_disk s) (s_start s) (s_len s) v (s_writePos s) (s_phase s) (s_writingStart s) (s_writingEnd s) (s_writingGeneration s) (s_generation s) (s_storageErr s) (s_closing s) (s_session s) (s_evac s) (s_hitWindow s) (s_evacQueue s).
Definition set_s_writePos (v : Z) (s : Stripe) : Stripe :=
  mkStripe (s_dir s) (s_agg s) (s_open s) (s_ram s) (s_disk s) (s_start s) (s_len s) (s_skip s) v (s_phase s) (s_writingStart s) (s_writingEnd s) (s_writingGeneration s) (s_generation s) (s_storageErr s) (s_closing s) (s_session s) (s_evac s) (s_hitWindow s) (s_evacQueue s).
Definition set_s_phase (v : bool) (s : Stripe) : Stripe :=
  mkStripe (s_dir s) (s_agg s) (s_open s) (s_ram s) (s_disk s) (s_start s) (s_len s) (s_skip s) (s_writePos s) v (s_writingStart s) (s_writingEnd s) (s_writingGeneration s) (s_generation s) (s_storageErr s) (s_closing s) (s_session s) (s_evac s) (s_hitWindow s) (s_evacQueue s).
Definition set_s_writingStart (v : Z) (s : Stripe) : Stripe :=
  mkStripe (s_dir s) (s_agg s) (s_open s) (s_ram s) (s_disk s) (s_start s) (s_len s) (s_skip s) (s_writePos s) (s_phase s) v (s_writingEnd s) (s_writingGeneration s) (s_generation s) (s_storageErr s) (s_closing s) (s_session s) (s_evac s) (s_hitWindow s) (s_evacQueue s).
Definition set_s_writingEnd (v : Z) (s : Stripe) : Stripe :=
  mkStripe (s_dir s) (s_agg s) (s_open s) (s_ram s) (s_disk s) (s_start s) (s_len s) (s_skip s) (s_writePos s) (s_phase s) (s_writingStart s) v (s_writingGeneration s) (s_generation s) (s_storageErr s) (s_closing s) (s_session s) (s_evac s) (s_hitWindow s) (s_evacQueue s).
Definition set_s_writingGeneration (v : Z) (s : Stripe) : Stripe :=
  mkStripe (s_dir s) (s_agg s) (s_open s) (s_ram s) (s_disk s) (s_start s) (s_len s) (s_skip s) (s_writePos s) (s_phase s) (s_writingStart s) (s_writingEnd s) v (s_generation s) (s_storageErr s) (s_closing s) (s_session s) (s_evac s) (s_hitWindow s) (s_evacQueue s).
Definition set_s_generation (v : Z) (s : Stripe) : Stripe :=
  mkStripe (s_dir s) (s_agg s) (s_open s) (s_ram s) (s_disk s) (s_start s) (s_len s) (s_skip s) (s_writePos s) (s_phase s) (s_writingStart s) (s_writingEnd s) (s_writingGeneration s) v (s_storageErr s) (s_closing s) (s_session s) (s_evac s) (s_hitWindow s) (s_evacQueue s).
Definition set_s_storageErr (v : option error) (s : Stripe) : Stripe :=
  mkStripe (s_dir s) (s_agg s) (s_open s) (s_ram s) (s_disk s) (s_start s) (s_len s) (s_skip s) (s_writePos s) (s_phase s) (s_writingStart s) (s_writingEnd s) (s_writingGeneration s) (s_generation s) v (s_closing s) (s_session s) (s_evac s) (s_hitWindow s) (s_evacQueue s).
Definition set_s_closing (v : bool) (s : Stripe) : Stripe :=
  mkStripe (s_dir s) (s_agg s) (s_open s) (s_ram s) (s_disk s) (s_start s) (s_len s) (s_skip s) (s_writePos s) (s_phase s) (s_writingStart s) (s_writingEnd s) (s_writingGeneration s) (s_generation s) (s_storageErr s) v (s_session s) (s_evac s) (s_hitWindow s) (s_evacQueue s).
Definition set_s_session (v : bytes) (s : Stripe) : Stripe :=
  mkStripe (s_dir s) (s_agg s) (s_open s) (s_ram s) (s_disk s) (s_start s) (s_len s) (s_skip s) (s_writePos s) (s_phase s) (s_writingStart s) (s_writingEnd s) (s_writingGeneration s) (s_generation s) (s_storageErr s) (s_closing s) v (s_evac s) (s_hitWindow s) (s_evacQueue s).
Definition set_s_evac (v : EvacuationTable) (s : Stripe) : Stripe :=
  mkStripe (s_dir s) (s_agg s) (s_open s) (s_ram s) (s_disk s) (s_start s) (s_len s) (s_skip s) (s_writePos s) (s_phase s) (s_writingStart s) (s_writingEnd s) (s_writingGeneration s) (s_generation s) (s_storageErr s) (s_closing s) (s_session s) v (s_hitWindow s) (s_evacQueue s).
Definition set_s_hitWindow (v : Z) (s : Stripe) : Stripe :=
  mkStripe (s_dir s) (s_agg s) (s_open s) (s_ram s) (s_disk s) (s_start s) (s_len s) (s_skip s) (s_writePos s) (s_phase s) (s_writingStart s) (s_writingEnd s) (s_writingGeneration s) (s_generation s) (s_storageErr s) (s_closing s) (s_session s) (s_evac s) v (s_evacQueue s).
Definition set_s_evacQueue (v : list (list evacuationRecord)) (s : Stripe) : Stripe :=
  mkStripe (s_dir s) (s_agg s) (s_open s) (s_ram s) (s_disk s) (s_start s) (s_len s) (s_skip s) (s_writePos s) (s_phase s) (s_writingStart s) (s_writingEnd s) (s_writingGeneration s) (s_generation s) (s_storageErr s) (s_closing s) (s_session s) (s_evac s) (s_hitWindow s) v.

Definition stripeEnd (s : Stripe) : Z := i64 (s_skip s + s_len s).

Definition emptyManager : DirManager := mkDirManager 0 0 0 0 [] (NewDirTrie None).

(** [NewStripe] with the RAM cache its options leave. *)
Definition NewStripe (ram : option R) (length skip : Z) : Stripe :=
  mkStripe emptyManager NewAggregateWriteBuffer NewOpenDir ram None 0 length skip 0 false 0 0 0 0 None false
    (repeat 0 16) NewEvacuationTable 0 [].

(** [WithRAMPolicy]: the RAM cache the option installs. *)
Definition WithRAMPolicy (algorithm : string) (capacity : Z) : result (option R) :=
  if negb (bool_decide (algorithm = "otter"%string)) && negb (bool_decide (algorithm = "s3-fifo"%string))
  then Err (Errorf "unknown RAM policy")
  else if Z.shiftl 1 40 <? capacity then Err (Errorf "RAM capacity exceeds 1 TiB")
  else if 0 <? capacity then
    match rs_new capacity algorithm with Ok r => Ok (Some r) | Err _ => Ok None end
  else Ok None.

Definition recomputeHitEvacuateWindow (s : Stripe) : Stripe :=
  let w := Z.quot (i64 (stripeEnd s - s_start s)) 10 in
  set_s_hitWindow (if w <? Z.shiftl 10 20 then Z.shiftl 10 20 else w) s.

Definition Init (s : Stripe) : option (result Stripe) :=
  if (s_skip s <? 0) || (s_len s <? 32768) || (stripeEnd s <? s_skip s)
  then Some (Err (Errorf "invalid stripe bounds"))
  else
    dm ← DirManager.Init (u64 (Z.quot (s_len s) 8192));
    let s := set_s_dir dm s in
    let meta := StripeHeaderSize + BinarySize dm in
    let meta := Z.quot (meta + SectorSize - 1) SectorSize * SectorSize in
    let s := set_s_start (i64 (s_skip s + meta)) s in
    if stripeEnd s <=? s_start s then Some (Err (Errorf "stripe has no data area"))
    else
      let s := set_s_writePos (s_start s) s in
      let s := set_s_agg (SetBounds (s_start s) (stripeEnd s) (AggBuffer.Init (s_start s) (s_agg s))) s in
      Some (Ok (recomputeHitEvacuateWindow s)).

(** The tail of [Open]: the generation of the recovered phase. *)
Definition openPosition (s : Stripe) : Stripe :=
  let s := set_s_generation (if s_phase s then 3 else 2) s in
  set_s_agg (initPosition (s_writePos s) (s_generation s) (s_agg s)) s.

Definition failLocked (e : option error) (s : Stripe) : Stripe :=
  match e, s_storageErr s with
  | Some _, None => set_s_agg (Fail e (s_agg s)) (set_s_storageErr e s)
  | _, _ => s
  end.

Definition FlushAggBuffer (s : Stripe) : option (Stripe * option error) :=
  b ← TriggerFlush (s_agg s); Some (set_s_agg b s, err b).

Definition writeError (s : Stripe) : option error :=
  match s_storageErr s with
  | Some e => Some e
  | None => if s_closing s || bool_decide (s_disk s = None) then Some ErrCacheClosed else None
  end.

(** [g % 2 != 0] *)
Definition odd (g : Z) : bool := negb (Z.rem g 2 =? 0).

Definition allocationValid (s : Stripe) (a : allocation) (size : Z) : bool :=
  let stop := i64 (a_offset a + size) in
  if (0 <? s_writingEnd s) && negb (a_generation a =? s_writingGeneration s) &&
     (a_offset a <? s_writingEnd s) && (s_writingStart s <? stop) then false
  else if (a_offset a <? s_start s) || (stripeEnd s <? stop) then false
  else ((a_generation a =? s_generation s) && (stop <=? s_writePos s)) ||
       ((u64 (a_generation a + 1) =? s_generation s) && (s_writePos s <=? a_offset a)).

Definition dirValid (s : Stripe) (d : Dir) : bool :=
  let off := i64 (offset d) in
  if (0 <? s_writingEnd s) && negb (Bool.eqb (phase d) (odd (s_writingGeneration s))) &&
     (off <? s_writingEnd s) && (s_writingStart s <? i64 (off + i64 (approxSize d))) then false
  else if bool_decide (s_storageErr s <> None) || bool_decide (s_disk s = None) ||
          (off <? s_start s) || (stripeEnd s <=? off) then false
  else if Bool.eqb (phase d) (s_phase s) then off <? s_writePos s
  else s_writePos s <=? off.

Definition withinHitEvacuateWindow (s : Stripe) (off : Z) : bool :=
  let distance := i64 (off - s_writePos s) in
  let distance := if distance <? 0 then i64 (distance + (stripeEnd s - s_start s)) else distance in
  distance <? s_hitWindow s.

Definition DirAggBufValid (s : Stripe) (d : Dir) : bool :=
  dirValid s d && AggBuffer.DirAggBufValid (i64 (offset d)) (s_agg s).

(** One candidate of [collectEvacuationData]: [None] for a Go panic,
    [Some None] for a [continue]. *)
Definition evacuable (s : Stripe) (start stop total : Z) (e : EvacuationBlock) : option (option evacuationRecord) :=
  f ← s_disk s;
  g ← DirManager.Get (s_dir s) (ev_logicalKey e);
  let '(hit, _, d) := g in
  if negb hit || negb (i64 (offset d) =? ev_offset e) || negb (dirValid s d) then Some None
  else match ReadAt f DocHeaderSize (ev_offset e) with
  | (_, Some _) => Some None
  | (header, None) =>
      match Doc.UnmarshalBinary header with
      | Err _ => Some None
      | Ok doc =>
          if negb (Magic doc =? DocMagic) || negb (VMajor doc =? docIdentityVersion) || negb (bool_decide (Key doc = ev_key e))
          then Some None
          else
            let size := Doc.Len doc in
            if (size <? DocHeaderSize) || (AggBufferSize <? size) || (size - DocHeaderSize <? HLen doc) ||
               (stripeEnd s <? ev_offset e + size) || (AggBufferSize <? total + size) ||
               (stripeEnd s - s_start s <? size + stop - start)
            then Some None
            else match ReadAt f size (ev_offset e) with
            | (_, Some _) => Some None
            | (data, None) =>
                if negb (is_ok (Doc.validate doc data)) || (u64 (stripeEnd s - s_start s) <? TotalLen doc) then Some None
                else
                  let rec_ gen := Some (mkEvac (ev_logicalKey e) data d gen (Generation (s_open s))) in
                  if Bool.eqb (phase d) (s_phase s) then Some (rec_ (s_generation s))
                  else if s_generation s =? 0 then Some None
                  else Some (rec_ (s_generation s - 1))
            end
      end
  end.

Fixpoint collectLoop (s : Stripe) (start stop total : Z) (l : list EvacuationBlock) : option (list evacuationRecord) :=
  match l with
  | [] => Some []
  | e :: l =>
      r ← evacuable s start stop total e;
      match r with
      | None => collectLoop s start stop total l
      | Some v => vs ← collectLoop s start stop (total + blen (v_data v)) l; Some (v :: vs)
      end
  end.

Definition collectEvacuationData (ord : list (Z * EvacuationBlock) -> list (Z * EvacuationBlock))
    (s : Stripe) (start stop : Z) : option (Stripe * list evacuationRecord) :=
  let '(et, l) := GetCandidatesInRange ord (s_evac s) start stop in
  vs ← collectLoop s start stop 0 l;
  Some (set_s_evac et s, vs).

(** ** The disk worker *)

Definition outside : error := Errorf "flush outside stripe data area".

(** [handleFlushTask] up to the disk write. *)
Definition flushBegin (ord : list (Z * EvacuationBlock) -> list (Z * EvacuationBlock)) (s : Stripe) (t : FlushTask)
    : option (Stripe * list evacuationRecord * option error) :=
  let stop := i64 (t_offset t + blen (t_buffer t)) in
  let e := match s_storageErr s with
           | Some e => Some e
           | None => if (t_offset t <? s_start s) || (stripeEnd s <? stop) then Some outside else None
           end in
  match e with
  | Some e => Some (s, [], Some e)
  | None =>
      '(s, victims) ← collectEvacuationData ord s (t_offset t) stop;
      dm ← (if negb (t_generation t =? s_generation s) then removePhase (s_dir s) (odd (t_generation t)) else Some (s_dir s));
      let s := set_s_writingEnd stop (set_s_writingStart (t_offset t) (set_s_dir dm s)) in
      Some (set_s_writingGeneration (t_generation t) s, victims, None)
  end.

(** The critical section after the write; [begun] says whether the write was
    attempted. *)
Definition flushEnd (begun : bool) (e : option error) (t : FlushTask) (s : Stripe) : Stripe :=
  let s := if begun then set_s_writingEnd 0 (set_s_writingStart 0 s) else s in
  match e with
  | None =>
      let s := set_s_writePos (i64 (t_offset t + blen (t_buffer t))) s in
      set_s_phase (odd (t_generation t)) (set_s_generation (t_generation t) s)
  | Some _ => failLocked e s
  end.

(** The send to the evacuation worker, whose queue holds one batch. *)
Definition queueVictims (victims : list evacuationRecord) (s : Stripe) : Stripe :=
  match victims, s_evacQueue s with
  | _ :: _, [] => set_s_evacQueue [victims] s
  | _, _ => s
  end.

(** The whole [handleFlushTask]; [o] is the outcome of the disk write. *)
Definition handleFlushTask (ord : list (Z * EvacuationBlock) -> list (Z * EvacuationBlock)) (o : io)
    (s : Stripe) (t : FlushTask) : option Stripe :=
  '(s, victims, e) ← flushBegin ord s t;
  '(s, e) ← (match e with
             | Some e => Some (flushEnd false (Some e) t s, Some e)
             | None =>
                 f ← s_disk s;
                 let '(f, e) := writeFullAt o f (t_buffer t) (t_offset t) in
                 Some (flushEnd true e t (set_s_disk (Some f) s), e)
             end);
  let s := set_s_agg (NotifyFlushDone e (s_agg s)).1 s in
  Some (match e with None => queueVictims victims s | Some _ => s end).

(** ** The evacuation worker *)

(** The publication of one evacuated record, allocated at [a]. *)
Definition evacuatePublish (rnd : nat -> nat) (s : Stripe) (v : evacuationRecord) (a : allocation) : option Stripe :=
  g ← DirManager.Get (s_dir s) (v_key v);
  let '(hit, _, current) := g in
  if negb (s_closing s) && bool_decide (s_storageErr s = None) && (v_invalidation v =? Generation (s_open s)) && hit &&
     (offset current =? offset (v_old v)) && Bool.eqb (phase current) (phase (v_old v)) &&
     (s_generation s <=? u64 (v_generation v + 1)) && allocationValid s a (blen (v_data v))
  then
    r ← DirManager.Set_ rnd (s_dir s) (v_key v) (a_offset a) (blen (v_data v)) (odd (a_generation a));
    let s := set_s_dir r.1 s in
    match s_ram s with
    | None => Some s
    | Some ram => ram ← rs_put ram (v_key v) (v_data v); Some (set_s_ram (Some ram) s)
    end
  else Some s.

End Stripe.
Arguments Stripe R : clear implicits.

(** The RAM cache of [cache/ram_cache.go] meets the interface, whatever the
    otter package does within its own. *)
Section RamCacheStore.
Context {Otter : Type} {P : RamPolicy Otter} (otter_new : Z -> Otter).

Lemma getEntry_inv (r : RamCache (Otter := Otter)) key :
  rc_inv r -> (getEntry r key).1 = holds r key /\ rc_inv (getEntry r key).2 /\
    forall k e, holds (getEntry r key).2 k = Some e -> holds r k = Some e.
Proof.
  intros I. destruct (Get_inv r key I) as (I' & _ & _ & Hf). unfold RamCache.Get in I', Hf.
  destruct (getEntry r key) as [e r'] eqn:E. cbn in *. split_and!; [|done|done].
  unfold getEntry, rc_inv, holds in *. destruct (rc_backend r) as [|c|o].
  - by injection E as <- <-.
  - destruct I as (G & W & _). destruct (fifo_get_spec c key G W) as (c' & Ec & _). rewrite Ec in E. by injection E as <- _.
  - destruct I as (I & _). pose proof (p_get_law o key I) as (E1 & _). destruct (p_get o key). injection E as <- _. done.
Qed.

#[refine] Definition ramcache_store : RamStore (RamCache (Otter := Otter)) := {|
  rs_new := NewRamCacheWithAlgorithm otter_new;
  rs_get := getEntry;
  rs_put := RamCache.Put;
  rs_delete := RamCache.Delete;
  rs_ok := rc_inv;
  rs_holds := holds |}.
Proof.
  - intros r k I. by apply getEntry_inv.
  - intros r k v I Hv. destruct (Put_inv r k v I Hv) as (r' & E & I' & _ & Hf). exists r'. split_and!; try done.
    intros k' e X. destruct (Hf k' e X) as [(-> & _ & ->)|?]; auto.
  - intros r k I. destruct (Delete_inv r k I) as (r' & E & I' & _ & Hn & Hf). by exists r'.
Defined.
End RamCacheStore.

(** The configuration with the s3-fifo policy only. *)
#[export] Instance s3fifo_store : RamStore (RamCache (Otter := s3FIFO)) := ramcache_store newS3FIFO.
