(* ===== verification/Ring.v ===== *)
(** * The stripe as a ring log

    The disk worker overwrites the data area of a stripe from its start to its
    end, generation after generation, while writers publish records and
    readers look them up.  [wstep] interleaves the critical sections of
    [cache/stripe.go]; the theorems say when a record found through
    [allocationValid] or [dirValid] is still intact on the disk. *)

From S2P Require Import Prelude Hash Dir Doc DirTrie DirManager HttpInfo RamCache File AggBuffer AggLog OpenDir Evacuation Stripe.

Section Ring.
Context {R : Type} `{RamStore R}.
Implicit Types s : Stripe R.

Record world : Type := mkWorld { w_s : Stripe R; w_wk : worker; w_begun : bool; w_log : list lrec }.

Definition diskOf s : file := default [] (s_disk s).

(** The write buffer, disk worker and file of the world. *)
Definition proj (w : world) : sys := mkSys (s_agg (w_s w)) (w_wk w) (diskOf (w_s w)) (w_log w).

(** What writers, readers and invalidations leave alone in the stripe. *)
Definition sameRing s s' : Prop :=
  s_agg s' = s_agg s /\ s_disk s' = s_disk s /\ s_start s' = s_start s /\ s_len s' = s_len s /\ s_skip s' = s_skip s /\
  s_writePos s' = s_writePos s /\ s_phase s' = s_phase s /\ s_writingStart s' = s_writingStart s /\
  s_writingEnd s' = s_writingEnd s /\ s_writingGeneration s' = s_writingGeneration s /\
  s_generation s' = s_generation s /\ s_storageErr s' = s_storageErr s.

Inductive wstep (w : world) : world -> Prop :=
  | ws_call x : call (proj w) x -> wstep w (mkWorld (set_s_agg (agg x) (w_s w)) (w_wk w) (w_begun w) (log x))
  | ws_other s' : sameRing (w_s w) s' -> wstep w (mkWorld s' (w_wk w) (w_begun w) (w_log w))
  | ws_take t rest :
      w_wk w = Idle -> flushChan (s_agg (w_s w)) = t :: rest ->
      wstep w (mkWorld (set_s_agg (set_flushChan rest (s_agg (w_s w))) (w_s w)) (Taken t) false (w_log w))
  | ws_begin ord t s' vs :
      w_wk w = Taken t -> w_begun w = false -> flushBegin ord (w_s w) t = Some (s', vs, None) ->
      wstep w (mkWorld s' (Taken t) true (w_log w))
  | ws_refuse ord t s' vs e :
      w_wk w = Taken t -> w_begun w = false -> flushBegin ord (w_s w) t = Some (s', vs, Some e) ->
      wstep w (mkWorld (flushEnd false (Some e) t s') (Written t (Some e)) false (w_log w))
  | ws_write o t f f' e :
      w_wk w = Taken t -> w_begun w = true -> s_disk (w_s w) = Some f ->
      writeFullAt o f (t_buffer t) (t_offset t) = (f', e) ->
      wstep w (mkWorld (set_s_disk (Some f') (w_s w)) (Written t e) true (w_log w))
  | ws_end t e :
      w_wk w = Written t e -> w_begun w = true ->
      wstep w (mkWorld (flushEnd true e t (w_s w)) (Written t e) false (w_log w))
  | ws_notify t e :
      w_wk w = Written t e -> w_begun w = false ->
      wstep w (mkWorld (set_s_agg (NotifyFlushDone e (s_agg (w_s w))).1 (w_s w)) Idle false (w_log w))
  | ws_fail e : wstep w (mkWorld (failLocked e (w_s w)) (w_wk w) (w_begun w) (w_log w)).

(** A stripe as [Open] leaves it, over the file [f0]. *)
Record ready (s : Stripe R) (f0 : file) : Prop := {
  rd_disk : s_disk s = Some f0;
  rd_bounds : 0 < s_start s /\ s_start s < s_skip s + s_len s <= 2 ^ 62;
  rd_pos : s_start s <= s_writePos s <= s_skip s + s_len s;
  rd_gen : s_generation s = 2 \/ s_generation s = 3;
  rd_phase : s_phase s = odd (s_generation s);
  rd_agg : s_agg s = opened (s_start s) (s_skip s + s_len s) (s_writePos s) (s_generation s);
  rd_quiet : s_writingStart s = 0 /\ s_writingEnd s = 0 /\ s_storageErr s = None }.

Inductive wreach (f0 : file) : world -> Prop :=
  | wr_init s : ready s f0 -> wreach f0 (mkWorld s Idle false [])
  | wr_step w w' : wreach f0 w -> wstep w w' -> wreach f0 w'.

(** ** The invariant *)

(** How many records the worker has written and accounted for. *)
Definition accounted (w : world) : nat :=
  Z.to_nat (match w_wk w, w_begun w with
            | Written _ None, false => b_sequence (inactive (s_agg (w_s w)))
            | _, _ => completed (s_agg (w_s w))
            end).

Record ring_inv (f0 : file) (w : world) : Prop := {
  ri_agg : agg_inv f0 3 (proj w);
  ri_disk : is_Some (s_disk (w_s w));
  ri_bounds : 0 < s_start (w_s w) /\ s_start (w_s w) < s_skip (w_s w) + s_len (w_s w) <= 2 ^ 62;
  ri_conf : minOffset (s_agg (w_s w)) = s_start (w_s w) /\ maxOffset (s_agg (w_s w)) = s_skip (w_s w) + s_len (w_s w);
  ri_phase : s_phase (w_s w) = odd (s_generation (w_s w));
  ri_gen : s_storageErr (w_s w) = None -> 2 <= s_generation (w_s w) < 2 ^ 63;
  ri_writing : if w_begun w
    then exists t, (w_wk w = Taken t \/ exists e, w_wk w = Written t e) /\ s_writingStart (w_s w) = t_offset t /\
         s_writingEnd (w_s w) = i64 (t_offset t + blen (t_buffer t)) /\ s_writingGeneration (w_s w) = t_generation t
    else s_writingEnd (w_s w) = 0;
  ri_failed : (err (s_agg (w_s w)) <> None -> s_storageErr (w_s w) <> None) /\
    (forall t e, w_wk w = Written t (Some e) -> w_begun w = false -> s_storageErr (w_s w) <> None);
  ri_past : s_storageErr (w_s w) = None -> forall r, r ∈ take (accounted w) (w_log w) ->
    posle (l_gen r) (l_end r) (s_generation (w_s w)) (s_writePos (w_s w));
  ri_future : s_storageErr (w_s w) = None -> forall r, r ∈ drop (accounted w) (w_log w) ->
    posle (s_generation (w_s w)) (s_writePos (w_s w)) (l_gen r) (l_off r);
  ri_cursor : s_storageErr (w_s w) = None ->
    posle (s_generation (w_s w)) (s_writePos (w_s w)) (generation (s_agg (w_s w))) (writeCursor (s_agg (w_s w))) }.

Lemma flushBegin_None ord s t s' vs :
  flushBegin ord s t = Some (s', vs, None) ->
  s_storageErr s = None /\ s_start s <= t_offset t /\ i64 (t_offset t + blen (t_buffer t)) <= stripeEnd s /\
  s_agg s' = s_agg s /\ s_disk s' = s_disk s /\ s_start s' = s_start s /\ s_len s' = s_len s /\ s_skip s' = s_skip s /\
  s_writePos s' = s_writePos s /\ s_phase s' = s_phase s /\ s_generation s' = s_generation s /\ s_storageErr s' = None /\
  s_writingStart s' = t_offset t /\ s_writingEnd s' = i64 (t_offset t + blen (t_buffer t)) /\
  s_writingGeneration s' = t_generation t.
Proof.
  unfold flushBegin. destruct (s_storageErr s) eqn:Es; [done|]. destruct (_ || _) eqn:Eb; [done|]. b2p.
  unfold collectEvacuationData. destruct (GetCandidatesInRange _ _ _ _) as [et l]. destruct (collectLoop _ _ _ _ _) as [vs'|]; [|done].
  cbn [mbind option_bind]. destruct (if negb _ then _ else _) as [dm|]; [|done]. cbn. intros [= <- <-]. cbn. split_and!; done.
Qed.

Lemma flushBegin_Some ord s t s' vs e : flushBegin ord s t = Some (s', vs, Some e) -> s' = s.
Proof.
  unfold flushBegin. destruct (s_storageErr s) eqn:Es; [by intros [= <- _ _]|]. destruct (_ || _) eqn:Eb; [by intros [= <- _ _]|].
  destruct (collectEvacuationData _ _ _ _) as [[? ?]|]; [|done]. cbn. by destruct (if negb _ then _ else _).
Qed.

(** A failed stripe stays failed; only its failure state matters then. *)
Lemma failLocked_failed e s : e <> None \/ s_storageErr s <> None -> s_storageErr (failLocked e s) <> None.
Proof. unfold failLocked. destruct e, (s_storageErr s) eqn:E; cbn; try congruence; intros [?|?]; congruence. Qed.

Lemma failLocked_fields e s :
  let s' := failLocked e s in
  s_disk s' = s_disk s /\ s_start s' = s_start s /\ s_len s' = s_len s /\ s_skip s' = s_skip s /\ s_phase s' = s_phase s /\
  s_generation s' = s_generation s /\ s_writingStart s' = s_writingStart s /\ s_writingEnd s' = s_writingEnd s /\
  s_writingGeneration s' = s_writingGeneration s /\ minOffset (s_agg s') = minOffset (s_agg s) /\ maxOffset (s_agg s') = maxOffset (s_agg s) /\
  (exists e', s_agg s' = Fail e' (s_agg s)).
Proof.
  unfold failLocked. destruct e as [e|], (s_storageErr s); cbn; split_and!; try done; try (by exists None).
  all: try (by exists (Some e)); unfold Fail; by destruct (err (s_agg s)).
Qed.

Lemma failLocked_inv f0 w e :
  ring_inv f0 w -> e <> None -> ring_inv f0 (mkWorld (failLocked e (w_s w)) (w_wk w) (w_begun w) (w_log w)).
Proof.
  intros [Ia Id Ib Ic Ip Ig Iw If Hp Hf Hc] He. pose proof (failLocked_failed e (w_s w) (or_introl He)) as Hs.
  destruct (failLocked_fields e (w_s w)) as (E1 & E2 & E3 & E4 & E5 & E6 & E7 & E8 & E9 & E10 & E11 & e' & Ef).
  split; cbn [w_s w_wk w_begun w_log]; rewrite ?E1, ?E2, ?E3, ?E4, ?E5, ?E6, ?E7, ?E8, ?E9, ?E10, ?E11; try done.
  unfold proj, diskOf. cbn. rewrite E1, Ef. by apply (fail_inv f0 (proj w) e').
Qed.

Lemma data_bounds f0 w :
  ring_inv f0 w -> s_storageErr (w_s w) = None ->
  err (s_agg (w_s w)) = None /\ data_inv f0 (proj w) /\ (accounted w <= length (w_log w))%nat /\
  Z.of_nat (accounted w) = match w_wk w, w_begun w with
                           | Written _ None, false => b_sequence (inactive (s_agg (w_s w)))
                           | _, _ => completed (s_agg (w_s w))
                           end.
Proof.
  intros I Hs. assert (err (s_agg (w_s w)) = None) as He.
  { destruct (err (s_agg (w_s w))) eqn:E; [|done]. exfalso. apply (proj1 (ri_failed _ _ I)); congruence. }
  pose proof (ai_data _ _ _ (ri_agg _ _ I) He) as D. split; [done|]. split; [done|].
  destruct D as (dn & fl & ac & Hl & Hcomp & _ & Hfl & _). cbn [proj agg wk log] in *. unfold accounted. rewrite Hl, !length_app.
  destruct (w_wk w) as [|t|t [e|]]; [lia..|]. destruct (w_begun w); [lia|]. cbn in Hfl. destruct Hfl as (_ & _ & _ & _ & _ & -> & _). lia.
Qed.

(** Steps that change neither the ring position nor the number of accounted
    records. *)
Lemma frame_inv f0 w s' wk' begun' l ext :
  ring_inv f0 w ->
  agg_inv f0 3 (mkSys (s_agg s') wk' (diskOf s') l) -> is_Some (s_disk s') ->
  s_start s' = s_start (w_s w) -> s_len s' = s_len (w_s w) -> s_skip s' = s_skip (w_s w) ->
  s_writePos s' = s_writePos (w_s w) -> s_phase s' = s_phase (w_s w) -> s_generation s' = s_generation (w_s w) ->
  s_storageErr s' = s_storageErr (w_s w) ->
  minOffset (s_agg s') = minOffset (s_agg (w_s w)) -> maxOffset (s_agg s') = maxOffset (s_agg (w_s w)) ->
  (if begun' : bool
   then exists t, (wk' = Taken t \/ exists e, wk' = Written t e) /\ s_writingStart s' = t_offset t /\
        s_writingEnd s' = i64 (t_offset t + blen (t_buffer t)) /\ s_writingGeneration s' = t_generation t
   else s_writingEnd s' = 0) ->
  ((err (s_agg s') <> None -> s_storageErr s' <> None) /\ (forall t e, wk' = Written t (Some e) -> begun' = false -> s_storageErr s' <> None)) ->
  (s_storageErr (w_s w) = None -> accounted (mkWorld s' wk' begun' l) = accounted w) ->
  l = w_log w ++ ext ->
  posle (generation (s_agg (w_s w))) (writeCursor (s_agg (w_s w))) (generation (s_agg s')) (writeCursor (s_agg s')) ->
  (forall r, r ∈ ext -> posle (generation (s_agg (w_s w))) (writeCursor (s_agg (w_s w))) (l_gen r) (l_off r)) ->
  ring_inv f0 (mkWorld s' wk' begun' l).
Proof.
  intros I Ia Id E1 E2 E3 E4 E5 E6 E7 E8 E9 Hw Hf Hacc -> Hpos Hext. pose proof I as [_ _ Ib Ic Ip Ig _ _ Hp Hfu Hc].
  split; cbn [w_s w_wk w_begun w_log]; rewrite ?E1, ?E2, ?E3, ?E4, ?E5, ?E6, ?E8, ?E9; try done.
  - rewrite E7. done.
  - intros Hs. rewrite E7 in Hs. destruct (data_bounds _ _ I Hs) as (_ & _ & Hle & _). rewrite Hacc by done.
    intros r Hr. rewrite take_app_le in Hr by done. auto.
  - intros Hs. rewrite E7 in Hs. destruct (data_bounds _ _ I Hs) as (_ & _ & Hle & _). rewrite Hacc by done.
    intros r Hr. rewrite drop_app_le in Hr by done. apply elem_of_app in Hr as [Hr|Hr]; [auto|].
    specialize (Hext _ Hr). specialize (Hc Hs). unfold posle in *. lia.
  - intros Hs. rewrite E7 in Hs. specialize (Hc Hs). unfold posle in *. lia.
Qed.

Lemma posle_refl g c : posle g c g c.
Proof. right. lia. Qed.
#[local] Hint Resolve posle_refl : core.

Lemma call_ring f0 w x : 
  ring_inv f0 w -> call (proj w) x -> ring_inv f0 (mkWorld (set_s_agg (agg x) (w_s w)) (w_wk w) (w_begun w) (log x)).
Proof.
  intros I C. destruct (call_spec f0 (proj w) x (ri_agg _ _ I) C) as [Ix K].
  destruct (c_log _ _ K) as (ext & El & Hext). cbn [proj log agg] in El, Hext.
  pose proof I as [_ Id _ _ _ _ Iw [If1 If2] _ _ _].
  eapply (frame_inv f0 w _ _ _ _ ext I); try done; try apply K.
  - cbn. unfold diskOf. cbn. replace (mkSys (agg x) (w_wk w) (default [] (s_disk (w_s w))) (log x)) with x; [done|].
    destruct K as [K1 K2 _ _ _ _ _ _ _ _ _]. destruct x; cbn in *. by subst.
  - split; [|done]. cbn. rewrite (c_err _ _ K). exact If1.
  - intros Hs. unfold accounted. cbn [w_s w_wk w_begun s_agg set_s_agg]. rewrite (c_comp _ _ K).
    destruct (w_wk w) as [|t|t [e|]] eqn:Ew; try done. destruct (w_begun w); [done|].
    destruct (isFlushing (s_agg (w_s w))) eqn:Ef.
    + by destruct (c_busy _ _ K Ef) as [_ ->].
    + pose proof (ai_chan _ _ _ (ri_agg _ _ I)) as Hch. cbn [proj agg wk] in Hch. rewrite Ew, Ef in Hch. cbn in Hch. lia.
Qed.

Lemma end_ring f0 w t e :
  ring_inv f0 w -> w_wk w = Written t e -> w_begun w = true ->
  ring_inv f0 (mkWorld (flushEnd true e t (w_s w)) (Written t e) false (w_log w)).
Proof.
  intros I Ew Eb. pose proof I as [Ia Id Ib Ic Ip Ig Iw If Hp Hf Hc].
  set (s1 := set_s_writingEnd 0 (set_s_writingStart 0 (w_s w))).
  destruct e as [e|].
  - destruct (failLocked_fields (Some e) s1) as (E1 & E2 & E3 & E4 & E5 & E6 & E7 & E8 & E9 & E10 & E11 & e' & Ef).
    pose proof (failLocked_failed (Some e) s1 ltac:(by left)) as Hs.
    unfold flushEnd. fold s1. split; cbn [w_s w_wk w_begun w_log]; rewrite ?E1, ?E2, ?E3, ?E4, ?E5, ?E6, ?E7, ?E8, ?E9, ?E10, ?E11; try done.
    unfold proj, diskOf. cbn [w_s w_wk w_log]. rewrite E1, Ef. rewrite <- Ew. by apply (fail_inv f0 (proj w) e').
  - assert (agg_inv f0 3 (proj (mkWorld (flushEnd true None t (w_s w)) (Written t None) false (w_log w)))) as Ia'
      by (unfold proj in *; cbn; by rewrite <- Ew).
    destruct (decide (s_storageErr (w_s w) = None)) as [Hs|Hs]; [|by split; cbn; try done].
    destruct (data_bounds _ _ I Hs) as (He & D & _ & Hacc). rewrite Ew, Eb in Hacc.
    destruct D as (dn & fl & ac & Hl & Hcomp & _ & Hfl & _). cbn [proj agg wk log disk] in Hl, Hcomp, Hfl. rewrite Ew in Hfl. cbn in Hfl.
    destruct Hfl as (Hn & Hlaid & Hbuf & _ & _ & Hseq & _). pose proof (ai_log _ _ _ Ia) as [L1 L2 L3 L4]. cbn [proj agg log] in L1, L2, L3.
    assert (accounted w = length dn) as Ha by lia. rewrite Ha in *. rewrite Hl in Hp, Hf.
    rewrite take_app_length in Hp. rewrite drop_app_length in Hf.
    destruct (exists_last Hn) as (fl' & last & ->).
    assert (l_gen last = t_generation t /\ l_end last = t_offset t + blen (t_buffer t)) as [Eg Ee].
    { rewrite Hbuf. apply laid_app in Hlaid as [_ (Ho & Hg & _)]. rewrite payload_app, blen_app. cbn. rewrite app_nil_r. unfold l_end. split; [done|lia]. }
    assert (w_log w = (dn ++ fl' ++ [last]) ++ ac) as Hl' by (by rewrite Hl, <- !app_assoc).
    assert (last ∈ w_log w) as Hin by (rewrite Hl; set_solver).
    assert (i64 (t_offset t + blen (t_buffer t)) = l_end last) as Ei.
    { rewrite <- Ee. apply i64_small. destruct (L1 _ Hin) as (B1 & B2 & B3). unfold l_end in *. unfold fits_i64. lia. }
    assert (accounted (mkWorld (flushEnd true None t (w_s w)) (Written t None) false (w_log w)) = length (dn ++ fl' ++ [last])) as Ha'.
    { unfold accounted. cbn [w_wk w_begun w_s]. change (s_agg (flushEnd true None t (w_s w))) with (s_agg (w_s w)). rewrite Hseq, !length_app. lia. }
    assert (w_log w !! (length dn + length fl')%nat = Some last) as Hlast.
    { rewrite Hl. rewrite lookup_app_r by lia. rewrite lookup_app_l by (rewrite length_app; cbn; lia).
      rewrite lookup_app_r by lia. by replace (length dn + length fl' - length dn - length fl')%nat with 0%nat by lia. }
    split; cbn [w_s w_wk w_begun w_log flushEnd set_s_writePos set_s_phase set_s_generation set_s_writingEnd set_s_writingStart s_generation s_phase s_writePos s_storageErr s_writingEnd s_agg s_disk s_start s_len s_skip]; try done.
    + intros _. specialize (Hf Hs last ltac:(set_solver)). specialize (Ig Hs). pose proof (ai_gen _ _ _ Ia). pose proof (ai_room _ _ _ Ia).
      cbn [proj agg log] in *. rewrite <- Eg. unfold posle in Hf. destruct (L2 _ Hin); lia.
    + intros _ r Hr. change (r ∈ take (accounted (mkWorld (flushEnd true None t (w_s w)) (Written t None) false (w_log w))) (w_log w)) in Hr.
      rewrite Ha', Hl', take_app_length in Hr. rewrite Ei, <- Eg.
      apply list_elem_of_lookup in Hr as [i Hi]. pose proof (lookup_lt_Some _ _ _ Hi) as Hlt. rewrite !length_app in Hlt. cbn in Hlt.
      destruct (decide (i = length dn + length fl')%nat) as [->|Hne].
      * rewrite Hl' in Hlast. rewrite lookup_app_l, Hi in Hlast by (rewrite !length_app; cbn; lia). injection Hlast as ->. apply posle_refl.
      * assert (w_log w !! i = Some r) as Hi' by (rewrite Hl', lookup_app_l; [done|rewrite !length_app; cbn; lia]).
        pose proof (L3 i (length dn + length fl')%nat r last ltac:(lia) Hi' Hlast) as Hb. destruct (L1 _ Hin) as (_ & _ & B3). unfold before, posle, l_end in *. lia.
    + intros _ r Hr. change (r ∈ drop (accounted (mkWorld (flushEnd true None t (w_s w)) (Written t None) false (w_log w))) (w_log w)) in Hr.
      rewrite Ha', Hl', drop_app_length in Hr. rewrite Ei, <- Eg.
      apply list_elem_of_lookup in Hr as [i Hi].
      assert (w_log w !! (length dn + (length fl' + 1) + i)%nat = Some r) as Hi'.
      { rewrite Hl', lookup_app_r by (rewrite !length_app; cbn; lia). rewrite <- Hi. f_equal. rewrite !length_app. cbn. lia. }
      pose proof (L3 (length dn + length fl')%nat (length dn + (length fl' + 1) + i)%nat last r ltac:(lia) Hlast Hi') as Hb. unfold before, posle in *. lia.
    + intros _. rewrite Ei, <- Eg. destruct (L2 _ Hin); unfold posle; lia.
Qed.

Lemma ready_inv f0 s : ready s f0 -> ring_inv f0 (mkWorld s Idle false []).
Proof.
  intros [Hd Hb Hp Hg Hph Ha (Hq1 & Hq2 & Hq3)].
  assert (minOffset (s_agg s) = s_start s /\ maxOffset (s_agg s) = s_skip s + s_len s /\
    writeCursor (s_agg s) = s_writePos s /\ generation (s_agg s) = s_generation s /\ err (s_agg s) = None) as (E1 & E2 & E3 & E4 & E5).
  { rewrite Ha. unfold opened, SetBounds, AggBuffer.Init, initPosition. cbn. replace (s_start s <? s_start s) with false by lia. cbn.
    by replace (s_skip s + s_len s =? 0) with false by lia. }
  split; cbn [w_s w_wk w_begun w_log proj]; try done; try lia.
  - unfold proj, diskOf. cbn. rewrite Hd, Ha. apply opened_inv; lia.
  - intros _ r Hr. rewrite take_nil in Hr. set_solver.
  - intros _ r Hr. rewrite drop_nil in Hr. set_solver.
  - rewrite E3, E4. auto.
Qed.

Lemma wstep_inv f0 w w' : ring_inv f0 w -> wstep w w' -> ring_inv f0 w'.
Proof.
  intros I S. pose proof I as [Ia Id Ib Ic Ip Ig Iw [If1 If2] Hp Hf Hc].
  destruct S as [x C|s' Hsame|t rest Ew Ec|ord t s' vs Ew Eb E|ord t s' vs e Ew Eb E|o t f f' e Ew Eb Ed E|t e Ew Eb|t e Ew Eb|e].
  - by apply call_ring.
  - destruct Hsame as (E1 & E2 & E3 & E4 & E5 & E6 & E7 & E8 & E9 & E10 & E11 & E12).
    eapply (frame_inv f0 w _ _ _ _ [] I); rewrite ?E1, ?E8, ?E9, ?E10, ?E12; try done; [|by rewrite E2| |by rewrite app_nil_r|set_solver].
    + unfold diskOf. by rewrite E2.
    + intros _. unfold accounted. cbn. by rewrite E1.
  - assert (w_begun w = false) as Eb.
    { destruct (w_begun w); [|done]. destruct Iw as (t' & [Hx|[? Hx]] & _); congruence. }
    eapply (frame_inv f0 w _ _ _ _ [] I); try done; [|by rewrite Eb in Iw| |by rewrite app_nil_r|set_solver].
    + by apply (take_inv f0 (proj w)).
    + intros _. unfold accounted. cbn. by rewrite Ew.
  - destruct (flushBegin_None _ _ _ _ _ E) as (Hs & H1 & H2 & E1 & E2 & E3 & E4 & E5 & E6 & E7 & E8 & E9 & E10 & E11 & E12).
    eapply (frame_inv f0 w _ _ _ _ [] I); rewrite ?E1; try done; [|by rewrite E2|congruence| | | |by rewrite app_nil_r|set_solver].
    + unfold diskOf. rewrite E2, <- Ew. done.
    + exists t. split; [by left|]. done.
    + split; [|done]. intros He. exfalso. by apply (If1 He).
    + intros _. unfold accounted. cbn. rewrite Ew, E1. done.
  - rewrite (flushBegin_Some _ _ _ _ _ _ E). pose proof (skip_inv f0 (proj w) t e Ia Ew) as Ia'. cbn [flushEnd].
    destruct (failLocked_fields (Some e) (w_s w)) as (E1 & E2 & E3 & E4 & E5 & E6 & E7 & E8 & E9 & E10 & E11 & e' & Ef).
    pose proof (failLocked_failed (Some e) (w_s w) ltac:(by left)) as Hs. rewrite Eb in Iw.
    split; cbn [w_s w_wk w_begun w_log]; rewrite ?E1, ?E2, ?E3, ?E4, ?E5, ?E6, ?E7, ?E8, ?E9, ?E10, ?E11; try done.
    unfold proj, diskOf. cbn [w_s w_wk w_log]. rewrite E1, Ef. by apply (fail_inv f0 _ e' Ia').
  - assert (agg_inv f0 3 (mkSys (s_agg (w_s w)) (Written t e) f' (w_log w))) as Ia'.
    { apply (write_inv f0 (proj w) t o f' e Ia Ew). cbn. unfold diskOf. by rewrite Ed. }
    eapply (frame_inv f0 w _ _ _ _ [] I); try done; [| |by rewrite app_nil_r|set_solver].
    + rewrite Eb in Iw. destruct Iw as (t' & [Hx|[? Hx]] & Hrest); [|congruence]. assert (t' = t) as -> by congruence.
      exists t. split; [right; by exists e|done].
    + intros _. unfold accounted. cbn. rewrite Ew. by destruct e.
  - by apply end_ring.
  - pose proof (notify_inv f0 (proj w) t e Ia Ew) as Ia'. rewrite Eb in Iw.
    assert (forall e b, minOffset (NotifyFlushDone e b).1 = minOffset b /\ maxOffset (NotifyFlushDone e b).1 = maxOffset b /\
      generation (NotifyFlushDone e b).1 = generation b /\ writeCursor (NotifyFlushDone e b).1 = writeCursor b /\
      (err (NotifyFlushDone e b).1 <> None -> err b <> None \/ e <> None) /\
      (isFlushing b = true -> completed (NotifyFlushDone e b).1 = b_sequence (inactive b))) as Hnf.
    { intros e0 [? ? [] ? ? ? ? ? ? [] ? ? [|] ?]; destruct e0; cbn; split_and!; try done; auto. }
    destruct (Hnf e (s_agg (w_s w))) as (N1 & N2 & N3 & N4 & N5 & N6).
    eapply (frame_inv f0 w _ _ _ _ [] I); cbn [set_s_agg s_agg]; try done; [| |by rewrite app_nil_r| |set_solver].
    + split; [|done]. intros He. destruct (N5 He) as [He'|He']; [by apply If1|]. destruct e as [e|]; [|done]. by eapply If2.
    + intros Hs. unfold accounted. cbn. rewrite Ew, Eb. destruct e as [e|]; [exfalso; by eapply If2|].
      rewrite N6; [done|]. pose proof (ai_chan _ _ _ Ia) as Hch. cbn [proj agg wk] in Hch. rewrite Ew in Hch. cbn in Hch. by destruct (isFlushing _).
    + rewrite N3, N4. auto.
  - destruct e as [e|]; [by apply failLocked_inv|]. cbn [failLocked]. by destruct w.
Qed.

Lemma wreach_inv f0 w : wreach f0 w -> ring_inv f0 w.
Proof. induction 1; [by apply ready_inv|by eapply wstep_inv]. Qed.

(** ** Intact records *)

(** A record that no later written record touches is intact. *)
Lemma stored_in_world f0 w (i : nat) r :
  ring_inv f0 w -> s_storageErr (w_s w) = None -> w_log w !! i = Some r -> Z.of_nat i < completed (s_agg (w_s w)) ->
  (forall j r', (i < j < accounted w)%nat -> w_log w !! j = Some r' -> disjoint r r') ->
  (w_begun w = true -> s_writingGeneration (w_s w) = l_gen r \/
     s_writingEnd (w_s w) <= l_off r \/ l_end r <= s_writingStart (w_s w)) ->
  stored (diskOf (w_s w)) r.
Proof.
  intros I Hs Hr Hi Hd Hw. destruct (data_bounds _ _ I Hs) as (He & D & Hle & Hacc). pose proof (ri_agg _ _ I) as Ia.
  pose proof (ai_log _ _ _ Ia) as [L1 L2 L3 L4]. cbn [proj agg log] in L1, L2, L3. pose proof (ai_conf _ _ _ Ia) as [C1 C2]. cbn [proj agg] in C1, C2.
  destruct D as (dn & fl & ac & Hl & Hcomp & _ & Hfl & Hdk & HdkN). cbn [proj agg wk log disk] in *.
  assert (i < length dn)%nat as Hid by lia. pose proof Hr as Hr'. rewrite Hl, lookup_app_l in Hr' by done.
  pose proof (take_drop_middle _ _ _ Hr') as Hmid. destruct (L1 r) as (B1 & B2 & B3); [by eapply list_elem_of_lookup_2|].
  assert (forall l2 k, (k = length l2)%nat -> (length dn <= length dn + k)%nat -> take k (fl ++ ac) = l2 ->
     (length dn + k <= accounted w)%nat -> stored (image f0 (dn ++ l2)) r) as Himg.
  { intros l2 k Hk _ Hl2 Ha. rewrite <- Hmid, <- app_assoc. cbn. apply stored_image; [lia|]. intros r' Hin.
    assert (r' ∈ drop (S i) (take (length dn + k) (w_log w))) as Hin'.
    { rewrite Hl, take_app_ge by lia. replace (length dn + k - length dn)%nat with k by lia. rewrite Hl2, drop_app_le by lia. done. }
    apply list_elem_of_lookup in Hin' as [j Hj]. rewrite lookup_drop in Hj. apply lookup_take_Some in Hj as [Hj Hlt].
    split; [destruct (L1 r'); [by eapply list_elem_of_lookup_2|lia]|]. apply (Hd (S i + j)%nat); [lia|done]. }
  assert (length dn <= accounted w)%nat as Hda.
  { destruct (w_wk w) as [|t|t [e|]], (w_begun w); try lia. cbn in Hfl. destruct Hfl as (_ & _ & _ & _ & _ & Hq & _). lia. }
  assert (stored (image f0 dn) r) as Hdn by (rewrite <- (app_nil_r dn); by apply (Himg [] 0%nat); [|lia|rewrite take_0|lia]).
  pose proof (ri_writing _ _ I) as Iw. destruct (w_begun w) eqn:Eb.
  - destruct Iw as (t & Ht & W1 & W2 & W3). destruct Ht as [Ht|[e Ht]]; rewrite Ht in *; [by rewrite Hdk|].
    cbn in Hfl. destruct Hdk as [->|(k & -> & _)]; [done|]. destruct Hfl as (Hn & Hlaid & Hbuf & _).
    assert (t_offset t + blen (payload fl) <= maxOffset (s_agg (w_s w)) /\ 0 <= t_offset t) as [Hend Hoff].
    { pose proof (laid_pos _ _ _ Hlaid Hn). split.
      - destruct (laid_cover _ _ _ (t_offset t + blen (payload fl) - 1) Hlaid ltac:(lia)) as (r0 & Hr0 & Hx0).
        destruct (L1 r0) as (_ & ? & _); [rewrite Hl; set_solver|]. lia.
      - destruct fl as [|r0 fl]; [done|]. destruct Hlaid as (<- & _). destruct (L1 r0); [rewrite Hl; set_solver|]. lia. }
    pose proof (blen_nonneg (payload fl)). rewrite Hbuf, i64_small in W2 by (unfold fits_i64; lia).
    assert (blen (take k (payload fl)) <= blen (payload fl)) by (unfold blen; rewrite length_take; lia).
    apply stored_write_other; [done|done|]. rewrite W1, W2, W3 in Hw.
    destruct (Hw eq_refl) as [Hg|[Hg|Hg]]; [|right; lia|by left].
    destruct (laid_disjoint _ _ _ r Hlaid B3) as [?|[?| ->]]; [|by left|right; lia|done].
    intros r' Hin. apply list_elem_of_lookup in Hin as [j Hj]. pose proof (lookup_lt_Some _ _ _ Hj).
    assert (w_log w !! (length dn + j)%nat = Some r') as Hj'.
    { rewrite Hl, lookup_app_r by lia. rewrite lookup_app_l by lia. rewrite <- Hj. f_equal. lia. }
    destruct (laid_within _ _ _ r' Hlaid) as (_ & _ & Hg'); [by eapply list_elem_of_lookup_2|].
    pose proof (L3 i (length dn + j)%nat r r' ltac:(lia) Hr Hj') as Hb. unfold before, disjoint in *. lia.
  - destruct (w_wk w) as [|t|t [e|]] eqn:Ew; cbn in Hfl; [by rewrite Hdk..| |].
    + exfalso. by apply (proj2 (ri_failed _ _ I) t e).
    + rewrite (HdkN t eq_refl). destruct Hfl as (_ & _ & _ & _ & _ & Hq & _). apply (Himg fl (length fl)); [done|lia|by apply take_app_length|lia].
Qed.

(** Written records after [r] that the ring position orders do not touch it. *)
Lemma later_disjoint f0 w (i : nat) r :
  ring_inv f0 w -> s_storageErr (w_s w) = None -> w_log w !! i = Some r ->
  l_gen r = s_generation (w_s w) \/ (l_gen r + 1 = s_generation (w_s w) /\ s_writePos (w_s w) <= l_off r) ->
  forall j r', (i < j < accounted w)%nat -> w_log w !! j = Some r' -> disjoint r r'.
Proof.
  intros I Hs Hr Hg j r' Hj Hr'. pose proof (ri_past _ _ I Hs r') as Hp. pose proof (ai_log _ _ _ (ri_agg _ _ I)) as [_ _ L3 _].
  cbn [proj agg log] in L3. pose proof (L3 i j r r' ltac:(lia) Hr Hr') as Hb.
  assert (r' ∈ take (accounted w) (w_log w)) as Hin.
  { apply list_elem_of_lookup. exists j. apply lookup_take_Some. split; [done|lia]. }
  specialize (Hp Hin). unfold before, posle, disjoint in *. lia.
Qed.

(** A flushed record with a valid allocation is intact on the disk. *)
Lemma allocation_intact f0 w (i : nat) r :
  wreach f0 w -> s_storageErr (w_s w) = None ->
  w_log w !! i = Some r -> Z.of_nat i < completed (s_agg (w_s w)) ->
  allocationValid (w_s w) (mkAlloc (l_off r) (l_gen r) (Z.of_nat i + 1)) (blen (l_data r)) = true ->
  ReadAt (diskOf (w_s w)) (blen (l_data r)) (l_off r) = (l_data r, None).
Proof.
  intros Rw Hs Hr Hi V. pose proof (wreach_inv _ _ Rw) as I. apply stored_read.
  pose proof (ai_log _ _ _ (ri_agg _ _ I)) as [L1 _ _ L4]. cbn [proj agg log] in L1, L4. pose proof (ri_bounds _ _ I) as Hb. pose proof (ri_conf _ _ I) as [C1 C2].
  assert (r ∈ w_log w) as Hin by (by eapply list_elem_of_lookup_2). destruct (L1 _ Hin) as (B1 & B2 & B3). pose proof (L4 _ Hin) as B4.
  pose proof (ri_gen _ _ I Hs) as Hg. destruct (data_bounds _ _ I Hs) as (_ & _ & _ & Hacc).
  assert (l_gen r <= s_generation (w_s w)) as Hle.
  { assert (i < accounted w)%nat as Hia.
    { destruct (w_wk w) as [|t|t [e|]] eqn:Ew, (w_begun w) eqn:Eb; try lia.
      destruct (ai_data _ _ _ (ri_agg _ _ I)) as (dn & fl & ac & _ & Hcomp & _ & Hfl & _); [by apply (data_bounds _ _ I Hs)|].
      cbn [proj agg wk] in Hcomp, Hfl. rewrite Ew in Hfl. cbn in Hfl. destruct Hfl as (_ & _ & _ & _ & _ & Hq & _). lia. }
    pose proof (ri_past _ _ I Hs r) as Hp. assert (r ∈ take (accounted w) (w_log w)) as Ht.
    { apply list_elem_of_lookup. exists i. by apply lookup_take_Some. }
    specialize (Hp Ht). unfold posle in Hp. lia. }
  unfold allocationValid in V. cbn [a_offset a_generation] in V. unfold stripeEnd in V. fold (l_end r) in V.
  rewrite !i64_small in V by (unfold fits_i64, l_end in *; lia). rewrite u64_small in V by (unfold fits; lia).
  destruct (_ && (s_writingStart (w_s w) <? l_end r)) eqn:E1; [done|]. destruct (_ || (_ <? l_end r)) eqn:E2; [done|].
  apply (stored_in_world f0 w i); try done.
  - apply (later_disjoint f0); try done. apply orb_true_iff in V as [V|V]; b2p; [by left|by right].
  - intros Eb. pose proof (ri_writing _ _ I) as Iw. rewrite Eb in Iw. destruct Iw as (t & _ & W1 & W2 & W3).
    destruct (decide (s_writingEnd (w_s w) <= l_off r)); [by right; left|].
    assert (0 < s_writingEnd (w_s w)) by lia.
    destruct (decide (s_writingGeneration (w_s w) = l_gen r)); [by left|]. right; right.
    replace (0 <? s_writingEnd (w_s w)) with true in E1 by lia. replace (l_gen r =? _) with false in E1 by lia.
    replace (l_off r <? s_writingEnd (w_s w)) with true in E1 by lia. cbn in E1. b2p. lia.
Qed.

(** C1: ring safety of [allocationValid].  In every interleaving of writers,
    flushes, disk writes, wraps and failures of a healthy stripe, a record
    whose flush has completed and whose allocation passes [allocationValid] is
    intact: reading its place in the file returns exactly its bytes, even
    while the disk worker is overwriting another part of the ring. *)
Theorem ring_allocation_intact f0 w (i : nat) r :
  wreach f0 w -> s_storageErr (w_s w) = None ->
  w_log w !! i = Some r -> Z.of_nat i < completed (s_agg (w_s w)) ->
  allocationValid (w_s w) (mkAlloc (l_off r) (l_gen r) (Z.of_nat i + 1)) (blen (l_data r)) = true ->
  ReadAt (diskOf (w_s w)) (blen (l_data r)) (l_off r) = (l_data r, None).
Proof. apply allocation_intact. Qed.

Lemma odd_Zodd g : 0 <= g -> odd g = Z.odd g.
Proof.
  intros Hg. unfold odd. rewrite Z.rem_mod_nonneg by lia. rewrite Zmod_odd. by destruct (Z.odd g).
Qed.

Lemma odd_succ g : 0 <= g -> odd (g + 1) = negb (odd g).
Proof. intros Hg. rewrite !odd_Zodd by lia. by rewrite Z.add_1_r, Z.odd_succ, <- Z.negb_odd. Qed.

(** The newest generation on its way to the disk. *)
Definition top s : Z := if 0 <? s_writingEnd s then s_writingGeneration s else s_generation s.

(** Ring safety of [dirValid].  A directory entry that describes a flushed
    record of one of the two newest generations, by offset, phase bit and
    rounded size, and that passes [dirValid], leads to the intact bytes of that
    record.  The generation condition is what [removePhase] establishes before
    a phase bit is used again. *)
Theorem ring_dir_intact f0 w (i : nat) r d :
  wreach f0 w -> w_log w !! i = Some r -> Z.of_nat i < completed (s_agg (w_s w)) ->
  i64 (offset d) = l_off r -> phase d = odd (l_gen r) -> blen (l_data r) <= approxSize d <= DirMaxDataSize ->
  top (w_s w) - 1 <= l_gen r ->
  dirValid (w_s w) d = true ->
  ReadAt (diskOf (w_s w)) (blen (l_data r)) (l_off r) = (l_data r, None).
Proof.
  intros Rw Hr Hi Ho Hph Hsz Htop V. pose proof (wreach_inv _ _ Rw) as I. apply stored_read.
  pose proof (ai_log _ _ _ (ri_agg _ _ I)) as [L1 _ _ L4]. cbn [proj agg log] in L1, L4. pose proof (ri_bounds _ _ I) as Hb. pose proof (ri_conf _ _ I) as [C1 C2].
  assert (r ∈ w_log w) as Hin by (by eapply list_elem_of_lookup_2). destruct (L1 _ Hin) as (B1 & B2 & B3). pose proof (L4 _ Hin) as B4.
  unfold dirValid in V. rewrite Ho in V. unfold DirMaxDataSize in Hsz. unfold stripeEnd in V. pose proof (blen_nonneg (l_data r)).
  rewrite (i64_small (approxSize d)), (i64_small (l_off r + approxSize d)), (i64_small (s_skip (w_s w) + _)) in V by (unfold fits_i64, l_end in *; lia).
  destruct (_ && (s_writingStart (w_s w) <? _)) eqn:E1; [done|]. destruct (_ || (_ <=? l_off r)) eqn:E2; [done|]. b2p.
  assert (s_storageErr (w_s w) = None) as Hs by (destruct (s_storageErr (w_s w)); [exfalso; eauto|done]).
  pose proof (ri_gen _ _ I Hs) as Hg. destruct (data_bounds _ _ I Hs) as (He & D & _ & Hacc). rewrite (ri_phase _ _ I) in V.
  destruct D as (dn & fl & ac & Hl & Hcomp & _ & Hfl & _). cbn [proj agg wk log] in Hl, Hcomp, Hfl.
  assert (i < accounted w)%nat as Hia.
  { destruct (w_wk w) as [|t|t [e|]] eqn:Ew, (w_begun w) eqn:Eb; try lia. cbn in Hfl. destruct Hfl as (_ & _ & _ & _ & _ & Hq & _). lia. }
  assert (l_gen r <= s_generation (w_s w)) as Hle.
  { pose proof (ri_past _ _ I Hs r) as Hp. assert (r ∈ take (accounted w) (w_log w)) as Ht.
    { apply list_elem_of_lookup. exists i. by apply lookup_take_Some. }
    specialize (Hp Ht). unfold posle in Hp. lia. }
  assert (w_begun w = true -> s_generation (w_s w) <= s_writingGeneration (w_s w)) as Hwg.
  { intros Eb. pose proof (ri_writing _ _ I) as Iw. rewrite Eb in Iw. destruct Iw as (t & Ht & _ & _ & ->).
    assert (accounted w = length dn) as Ha by (destruct (w_wk w) as [|?|? [?|]]; rewrite ?Eb in Hacc; lia).
    assert (holds_flushing (s_agg (w_s w)) t fl (Z.of_nat (length dn + length fl))) as (Hn & Hlaid & _)
      by (destruct Ht as [Ht|[e Ht]]; rewrite Ht in Hfl; exact Hfl).
    destruct fl as [|r0 fl]; [done|]. destruct Hlaid as (_ & <- & _).
    pose proof (ri_future _ _ I Hs r0) as Hf. rewrite Ha, Hl, drop_app_length in Hf. specialize (Hf ltac:(set_solver)). unfold posle in Hf. lia. }
  assert (w_begun w = false -> top (w_s w) = s_generation (w_s w)) as Hquiet.
  { intros Eb. pose proof (ri_writing _ _ I) as Iw. rewrite Eb in Iw. unfold top. by rewrite Iw. }
  assert (s_generation (w_s w) - 1 <= l_gen r) as Hge.
  { destruct (w_begun w) eqn:Eb; [|rewrite Hquiet in Htop by done; lia]. unfold top in Htop. specialize (Hwg eq_refl).
    destruct (0 <? s_writingEnd (w_s w)); lia. }
  assert (l_gen r + 1 = s_generation (w_s w) -> odd (s_generation (w_s w)) = negb (odd (l_gen r))) as Hpar
    by (intros <-; by apply odd_succ).
  assert (l_gen r = s_generation (w_s w) \/ (l_gen r + 1 = s_generation (w_s w) /\ s_writePos (w_s w) <= l_off r)) as Hcase.
  { destruct (decide (l_gen r = s_generation (w_s w))) as [|Hne]; [by left|right]. split; [lia|].
    specialize (Hpar ltac:(lia)). rewrite Hph, Hpar in V. destruct (odd (l_gen r)); cbn in V; lia. }
  apply (stored_in_world f0 w i); try done; [by apply (later_disjoint f0)|].
  intros Eb. specialize (Hwg Eb). destruct (decide (s_writingEnd (w_s w) <= l_off r)); [by right; left|].
  assert (0 < s_writingEnd (w_s w)) by lia. unfold top in Htop. replace (0 <? s_writingEnd (w_s w)) with true in Htop, E1 by lia.
  destruct (decide (s_writingGeneration (w_s w) = l_gen r)) as [|Hne]; [by left|]. right; right.
  assert (l_gen r + 1 = s_writingGeneration (w_s w)) as Hw by lia. rewrite <- Hw, odd_succ, Hph in E1 by done.
  replace (l_off r <? s_writingEnd (w_s w)) with true in E1 by lia.
  destruct (odd (l_gen r)); cbn in E1; b2p; unfold l_end; lia.
Qed.

End Ring.

(** ** A concrete run: one record written and flushed *)

Abbreviation Ram := (RamCache (Otter := s3FIFO)).

Definition stripe0 : Stripe Ram := Eval vm_compute in
  mkStripe emptyManager (opened 100 200 100 2) NewOpenDir None (Some []) 100 200 0 100 false 0 0 0 2 None false [] NewEvacuationTable 0 [].
Definition world0 : world := mkWorld stripe0 Idle false [].
Definition rec1 : lrec := mkRec 100 2 [1; 2; 3].
Definition world1 : world := Eval vm_compute in mkWorld (set_s_agg (agg run1) stripe0) Idle false [rec1].
Definition world2 : world := Eval vm_compute in mkWorld (set_s_agg (agg run2) stripe0) Idle false [rec1].
Definition world3 : world := Eval vm_compute in mkWorld (set_s_agg (agg run3) stripe0) (Taken runTask) false [rec1].
Definition world4 : world := Eval vm_compute in
  mkWorld (match flushBegin (fun l => l) (w_s world3) runTask with Some (s, _, _) => s | None => stripe0 end) (Taken runTask) true [rec1].
Definition world5 : world := Eval vm_compute in
  mkWorld (set_s_disk (Some (disk run4)) (w_s world4)) (Written runTask None) true [rec1].
Definition world6 : world := Eval vm_compute in mkWorld (flushEnd true None runTask (w_s world5)) (Written runTask None) false [rec1].
Definition world7 : world := Eval vm_compute in
  mkWorld (set_s_agg (NotifyFlushDone None (s_agg (w_s world6))).1 (w_s world6)) Idle false [rec1].

Lemma stripe0_ready : ready stripe0 [].
Proof.
  split; try done; try (vm_compute; split; congruence); try (cbn; lia); try (by left); vm_compute; reflexivity.
Qed.

Lemma world_run : wreach [] world7.
Proof.
  assert (wreach [] world0) as W0 by exact (wr_init [] stripe0 stripe0_ready).
  assert (wstep world0 world1) as S1.
  { assert (addContext None [1; 2; 3] None (agg run0) = Some (agg run1, Return (Ok (mkAlloc 100 2 1)))) as E by (vm_compute; reflexivity).
    exact (ws_call world0 _ (call_add (proj world0) None [1; 2; 3] None (agg run1) (Return (Ok (mkAlloc 100 2 1))) ltac:(vm_compute; reflexivity) E)). }
  assert (wstep world1 world2) as S2.
  { assert (TriggerFlush (agg run1) = Some (agg run2)) as E by (vm_compute; reflexivity).
    exact (ws_call world1 _ (call_trigger (proj world1) (agg run2) E)). }
  assert (wstep world2 world3) as S3 by exact (ws_take world2 runTask [] eq_refl eq_refl).
  assert (wstep world3 world4) as S4.
  { assert (flushBegin (fun l => l) (w_s world3) runTask = Some (w_s world4, [], None)) as E by (vm_compute; reflexivity).
    exact (ws_begin world3 (fun l => l) runTask (w_s world4) [] eq_refl eq_refl E). }
  assert (wstep world4 world5) as S5.
  { assert (writeFullAt io_ok [] (t_buffer runTask) (t_offset runTask) = (disk run4, None)) as E by (vm_compute; reflexivity).
    exact (ws_write world4 io_ok runTask [] (disk run4) None eq_refl eq_refl eq_refl E). }
  assert (wstep world5 world6) as S6 by exact (ws_end world5 runTask None eq_refl eq_refl).
  assert (wstep world6 world7) as S7 by exact (ws_notify world6 runTask None eq_refl eq_refl).
  do 7 (eapply wr_step; [|eassumption]). exact W0.
Qed.

Lemma ring_allocation_intact_witness : ReadAt (diskOf (w_s world7)) 3 100 = ([1; 2; 3], None).
Proof.
  apply (ring_allocation_intact [] world7 0 rec1);
    [exact world_run|reflexivity|reflexivity|vm_compute; reflexivity|vm_compute; reflexivity].
Defined.

(** A directory entry for the record: offset 100, 512 bytes, even phase. *)
Definition dir1 : Dir := default emptyDir (newEntry 0 100 512 false).

Lemma ring_dir_intact_witness : dirValid (w_s world7) dir1 = true /\ ReadAt (diskOf (w_s world7)) 3 100 = ([1; 2; 3], None).
Proof.
  split; [vm_compute; reflexivity|].
  apply (ring_dir_intact [] world7 0 rec1 dir1); try (vm_compute; reflexivity); [exact world_run|vm_compute; split; congruence|vm_compute; congruence].
Defined.

(** ** Runs of one record

    [addFlush] and [finish] run one record through the buffer and the disk
    worker, up to the start of the disk write and to its end. *)

Section Runs.
Context {R : Type} `{RamStore R}.

Definition addFlush (w : world (R := R)) (data : bytes) : option world :=
  match addContext None data None (s_agg (w_s w)), Z.of_nat (length (w_log w)) <? 2 ^ 62 with
  | Some (b, Return (Ok a)), true =>
      b ← TriggerFlush b;
      match w_wk w, w_begun w, flushChan b with
      | Idle, false, t :: rest =>
          match flushBegin (fun l => l) (set_s_agg (set_flushChan rest b) (w_s w)) t with
          | Some (s, _, None) => Some (mkWorld s (Taken t) true (w_log w ++ [mkRec (a_offset a) (a_generation a) data]))
          | _ => None
          end
      | _, _, _ => None
      end
  | _, _ => None
  end.

Definition finish (w : world (R := R)) : option world :=
  match w_wk w, w_begun w, s_disk (w_s w) with
  | Taken t, true, Some f =>
      match writeFullAt io_ok f (t_buffer t) (t_offset t) with
      | (f, None) =>
          let s := flushEnd true None t (set_s_disk (Some f) (w_s w)) in
          Some (mkWorld (set_s_agg (NotifyFlushDone None (s_agg s)).1 s) Idle false (w_log w))
      | _ => None
      end
  | _, _, _ => None
  end.

Lemma addFlush_steps w data w' : addFlush w data = Some w' -> rtc wstep w w'.
Proof.
  intros E. unfold addFlush in E. destruct (addContext None data None (s_agg (w_s w))) as [[b [[a|]|]]|] eqn:Ea; try done.
  destruct (_ <? 2 ^ 62) eqn:Hl; [|done]. b2p.
  eapply rtc_l; [exact (ws_call w _ (call_add (proj w) None data None b _ Hl Ea))|]. cbn.
  destruct (TriggerFlush b) as [b2|] eqn:Et; [|done]. cbn in E.
  match goal with |- rtc _ ?x _ => eapply rtc_l; [exact (ws_call x _ (call_trigger (proj x) b2 Et))|] end. cbn.
  destruct (w_wk w) eqn:Ew; try done. destruct (w_begun w) eqn:Eb; [done|]. destruct (flushChan b2) as [|t rest] eqn:Ec; [done|].
  match goal with |- rtc _ ?x _ => eapply rtc_l; [exact (ws_take x t rest eq_refl Ec)|] end. cbn.
  destruct (flushBegin _ _ t) as [[[s vs] [e|]]|] eqn:Eg; try done. injection E as <-.
  match goal with |- rtc _ ?x _ => eapply rtc_once; exact (ws_begin x (fun l => l) t s vs eq_refl eq_refl Eg) end.
Qed.

Lemma finish_steps w w' : finish w = Some w' -> rtc wstep w w'.
Proof.
  intros E. unfold finish in E. destruct (w_wk w) as [|t|] eqn:Ew; try done. destruct (w_begun w) eqn:Eb; [|done].
  destruct (s_disk (w_s w)) as [f|] eqn:Ed; [|done]. destruct (writeFullAt io_ok f _ _) as [f' [e|]] eqn:Ef; [done|]. injection E as <-.
  eapply rtc_l; [exact (ws_write w io_ok t f f' None Ew Eb Ed Ef)|].
  match goal with |- rtc _ ?x _ => eapply rtc_l; [exact (ws_end x t None eq_refl eq_refl)|] end.
  match goal with |- rtc _ ?x _ => eapply rtc_once; exact (ws_notify x t None eq_refl eq_refl) end.
Qed.

Lemma addFlush_finish_steps w data w' : (addFlush w data ≫= finish) = Some w' -> rtc wstep w w'.
Proof. intros (x & Ex & E)%bind_Some. etrans; [by eapply addFlush_steps|by apply finish_steps]. Qed.

(** A list of records, one after the other. *)
Fixpoint runAll (w : world (R := R)) (ds : list bytes) : option world :=
  match ds with
  | [] => Some w
  | d :: ds => w ← addFlush w d ≫= finish; runAll w ds
  end.

Lemma runAll_steps ds w w' : runAll w ds = Some w' -> rtc wstep w w'.
Proof.
  revert w. induction ds as [|d ds IH]; intros w E; [by injection E as <-|]. apply bind_Some in E as (x & Ex & E).
  etrans; [by eapply addFlush_finish_steps|by apply IH].
Qed.

Lemma runAll_addFlush_steps w ds d w' : (x ← runAll w ds; addFlush x d) = Some w' -> rtc wstep w w'.
Proof. intros (x & Ex & E)%bind_Some. etrans; [by eapply runAll_steps|by eapply addFlush_steps]. Qed.

Lemma finish_runAll_steps w ds w' : (x ← finish w; runAll x ds) = Some w' -> rtc wstep w w'.
Proof. intros (x & Ex & E)%bind_Some. etrans; [by apply finish_steps|by eapply runAll_steps]. Qed.

Lemma wreach_steps f0 (w w' : world (R := R)) : wreach f0 w -> rtc wstep w w' -> wreach f0 w'.
Proof. intros W Rn. induction Rn as [|x y z St _ IH]; [done|]. apply IH. by eapply wr_step. Qed.

End Runs.
