(* ===== verification/CacheWriter.v ===== *)
(** * Cache writers

    [cache/cache_write.go]: an object arrives as a stream and is stored as
    fragments of [TargetFragmentSize] bytes; fragments 1, 2, ... are stored as
    soon as they are full and fragment 0, which carries the HTTP metadata and
    the total length, last.  The stream operations only need a place to store
    fragments, the interface [FragmentSink]; [writeFragment] on a stripe is
    one implementation.  Every function is one critical section of the
    writer's mutex; [w_ctxErr] is what [w.ctx.Err()] returns. *)

From S2P Require Import Prelude Hash Dir Doc DirTrie DirManager HttpInfo RamCache File AggBuffer OpenDir Evacuation Stripe.

(** [FragmentKey] of [cache/cache.go]. *)
Definition FragmentKey (firstKey : bytes) (idx : Z) : bytes :=
  if idx =? 0 then firstKey else md5 (firstKey ++ put_be 8 (u64 idx)).

Record CacheWriter : Type := mkWriter {
  w_key : bytes;
  w_info : option CacheHTTPInfo;
  w_buffer : bytes;
  w_frag0Data : option bytes;
  w_nextFragIdx : Z;
  w_totalWritten : Z;
  w_closed : bool;
  w_err : option error;
  w_published : list (bytes * allocation * Z);
  w_ctxErr : option error;
  w_fenceSelector : bytes;
  w_fencePolicy : Z;
  w_generation : Z;
  w_policy : Z;
  w_selector : bytes;
  w_version : Z;
  w_od : option nat }.

Definition set_w_key (v : bytes) (w : CacheWriter) : CacheWriter :=
  mkWriter v (w_info w) (w_buffer w) (w_frag0Data w) (w_nextFragIdx w) (w_totalWritten w) (w_closed w) (w_err w) (w_published w) (w_ctxErr w) (w_fenceSelector w) (w_fencePolicy w) (w_generation w) (w_policy w) (w_selector w) (w_version w) (w_od w).
Definition set_w_info (v : option CacheHTTPInfo) (w : CacheWriter) : CacheWriter :=
  mkWriter (w_key w) v (w_buffer w) (w_frag0Data w) (w_nextFragIdx w) (w_totalWritten w) (w_closed w) (w_err w) (w_published w) (w_ctxErr w) (w_fenceSelector w) (w_fencePolicy w) (w_generation w) (w_policy w) (w_selector w) (w_version w) (w_od w).
Definition set_w_buffer (v : bytes) (w : CacheWriter) : CacheWriter :=
  mkWriter (w_key w) (w_info w) v (w_frag0Data w) (w_nextFragIdx w) (w_totalWritten w) (w_closed w) (w_err w) (w_published w) (w_ctxErr w) (w_fenceSelector w) (w_fencePolicy w) (w_generation w) (w_policy w) (w_selector w) (w_version w) (w_od w).
Definition set_w_frag0Data (v : option bytes) (w : CacheWriter) : CacheWriter :=
  mkWriter (w_key w) (w_info w) (w_buffer w) v (w_nextFragIdx w) (w_totalWritten w) (w_closed w) (w_err w) (w_published w) (w_ctxErr w) (w_fenceSelector w) (w_fencePolicy w) (w_generation w) (w_policy w) (w_selector w) (w_version w) (w_od w).
Definition set_w_nextFragIdx (v : Z) (w : CacheWriter) : CacheWriter :=
  mkWriter (w_key w) (w_info w) (w_buffer w) (w_frag0Data w) v (w_totalWritten w) (w_closed w) (w_err w) (w_published w) (w_ctxErr w) (w_fenceSelector w) (w_fencePolicy w) (w_generation w) (w_policy w) (w_selector w) (w_version w) (w_od w).
Definition set_w_totalWritten (v : Z) (w : CacheWriter) : CacheWriter :=
  mkWriter (w_key w) (w_info w) (w_buffer w) (w_frag0Data w) (w_nextFragIdx w) v (w_closed w) (w_err w) (w_published w) (w_ctxErr w) (w_fenceSelector w) (w_fencePolicy w) (w_generation w) (w_policy w) (w_selector w) (w_version w) (w_od w).
Definition set_w_closed (v : bool) (w : CacheWriter) : CacheWriter :=
  mkWriter (w_key w) (w_info w) (w_buffer w) (w_frag0Data w) (w_nextFragIdx w) (w_totalWritten w) v (w_err w) (w_published w) (w_ctxErr w) (w_fenceSelector w) (w_fencePolicy w) (w_generation w) (w_policy w) (w_selector w) (w_version w) (w_od w).
Definition set_w_err (v : option error) (w : CacheWriter) : CacheWriter :=
  mkWriter (w_key w) (w_info w) (w_buffer w) (w_frag0Data w) (w_nextFragIdx w) (w_totalWritten w) (w_closed w) v (w_published w) (w_ctxErr w) (w_fenceSelector w) (w_fencePolicy w) (w_generation w) (w_policy w) (w_selector w) (w_version w) (w_od w).
Definition set_w_published (v : list (bytes * allocation * Z)) (w : CacheWriter) : CacheWriter :=
  mkWriter (w_key w) (w_info w) (w_buffer w) (w_frag0Data w) (w_nextFragIdx w) (w_totalWritten w) (w_closed w) (w_err w) v (w_ctxErr w) (w_fenceSelector w) (w_fencePolicy w) (w_generation w) (w_policy w) (w_selector w) (w_version w) (w_od w).
Definition set_w_ctxErr (v : option error) (w : CacheWriter) : CacheWriter :=
  mkWriter (w_key w) (w_info w) (w_buffer w) (w_frag0Data w) (w_nextFragIdx w) (w_totalWritten w) (w_closed w) (w_err w) (w_published w) v (w_fenceSelector w) (w_fencePolicy w) (w_generation w) (w_policy w) (w_selector w) (w_version w) (w_od w).
Definition set_w_fenceSelector (v : bytes) (w : CacheWriter) : CacheWriter :=
  mkWriter (w_key w) (w_info w) (w_buffer w) (w_frag0Data w) (w_nextFragIdx w) (w_totalWritten w) (w_closed w) (w_err w) (w_published w) (w_ctxErr w) v (w_fencePolicy w) (w_generation w) (w_policy w) (w_selector w) (w_version w) (w_od w).
Definition set_w_fencePolicy (v : Z) (w : CacheWriter) : CacheWriter :=
  mkWriter (w_key w) (w_info w) (w_buffer w) (w_frag0Data w) (w_nextFragIdx w) (w_totalWritten w) (w_closed w) (w_err w) (w_published w) (w_ctxErr w) (w_fenceSelector w) v (w_generation w) (w_policy w) (w_selector w) (w_version w) (w_od w).
Definition set_w_generation (v : Z) (w : CacheWriter) : CacheWriter :=
  mkWriter (w_key w) (w_info w) (w_buffer w) (w_frag0Data w) (w_nextFragIdx w) (w_totalWritten w) (w_closed w) (w_err w) (w_published w) (w_ctxErr w) (w_fenceSelector w) (w_fencePolicy w) v (w_policy w) (w_selector w) (w_version w) (w_od w).
Definition set_w_policy (v : Z) (w : CacheWriter) : CacheWriter :=
  mkWriter (w_key w) (w_info w) (w_buffer w) (w_frag0Data w) (w_nextFragIdx w) (w_totalWritten w) (w_closed w) (w_err w) (w_published w) (w_ctxErr w) (w_fenceSelector w) (w_fencePolicy w) (w_generation w) v (w_selector w) (w_version w) (w_od w).
Definition set_w_selector (v : bytes) (w : CacheWriter) : CacheWriter :=
  mkWriter (w_key w) (w_info w) (w_buffer w) (w_frag0Data w) (w_nextFragIdx w) (w_totalWritten w) (w_closed w) (w_err w) (w_published w) (w_ctxErr w) (w_fenceSelector w) (w_fencePolicy w) (w_generation w) (w_policy w) v (w_version w) (w_od w).
Definition set_w_version (v : Z) (w : CacheWriter) : CacheWriter :=
  mkWriter (w_key w) (w_info w) (w_buffer w) (w_frag0Data w) (w_nextFragIdx w) (w_totalWritten w) (w_closed w) (w_err w) (w_published w) (w_ctxErr w) (w_fenceSelector w) (w_fencePolicy w) (w_generation w) (w_policy w) (w_selector w) v (w_od w).
Definition set_w_od (v : option nat) (w : CacheWriter) : CacheWriter :=
  mkWriter (w_key w) (w_info w) (w_buffer w) (w_frag0Data w) (w_nextFragIdx w) (w_totalWritten w) (w_closed w) (w_err w) (w_published w) (w_ctxErr w) (w_fenceSelector w) (w_fencePolicy w) (w_generation w) (w_policy w) (w_selector w) (w_version w) v.

(** [NewCacheWriter]; [identity] is what [rand.Read] returned. *)
Definition NewCacheWriter (od : OpenDir) (key : bytes) (identity : result bytes) : CacheWriter :=
  let w := mkWriter key None [] None 0 0 false None [] None [] 0 (Generation od) (policyEpoch od key) key 0 None in
  match identity with
  | Err _ => set_w_closed true (set_w_err (Some (Errorf "cache write identity")) w)
  | Ok id => set_w_version (get_be id) w
  end.

(** ** Reading from an active writer *)

(** The read-locked section of [ReadAtContext] for a buffer of [n > 0] bytes. *)
Definition readTry (ctxErr : option error) (w : CacheWriter) (off n : Z) : outcome bytes :=
  match ctxErr with
  | Some e => Return (Err e)
  | None =>
      match w_err w with
      | Some e => Return (Err e)
      | None =>
          let available := w_totalWritten w - off in
          let frag0 := default [] (w_frag0Data w) in
          if 0 <? available then
            let bufferStart := w_totalWritten w - blen (w_buffer w) in
            if bufferStart <=? off then
              let bufOffset := off - bufferStart in
              let toRead := Z.min n available in
              Return (Ok (slice (w_buffer w) bufOffset (bufOffset + toRead)))
            else if (0 <? blen frag0) && (off <? blen frag0) then
              let toRead := Z.min n (blen frag0 - off) in
              Return (Ok (slice frag0 off (off + toRead)))
            else Return (Err ErrReadFromDisk)
          else if w_closed w then Return (Err (match w_err w with Some e => e | None => ErrEOF end))
          else Wait
      end
  end.

(** The write-locked section that parks the reader: [None] retries, [Some Wait]
    waits for a broadcast. *)
Definition readWait (ctxErr : option error) (w : CacheWriter) (off : Z) : option (outcome bytes) :=
  match ctxErr with
  | Some e => Some (Return (Err e))
  | None =>
      if w_closed w then Some (Return (Err (match w_err w with Some e => e | None => ErrEOF end)))
      else if off <? w_totalWritten w then None
      else Some Wait
  end.

Definition ReadAtContext (ctxErr : option error) (w : CacheWriter) (off n : Z) : outcome bytes :=
  if n =? 0 then Return (Ok []) else readTry ctxErr w off n.

(** ** The stream *)

(** A place to store fragments.  [None] stands for a call that has not
    returned.  [fs_trace] lists the fragments stored, with the total length
    their headers carry. *)
Record fragCall : Type := mkCall { fc_idx : Z; fc_data : bytes; fc_info : bytes; fc_total : Z }.

(** The parts of a writer that the stream operations own. *)
Definition sameStream (w w' : CacheWriter) : Prop :=
  w_key w' = w_key w /\ w_buffer w' = w_buffer w /\ w_frag0Data w' = w_frag0Data w /\ w_nextFragIdx w' = w_nextFragIdx w /\
  w_totalWritten w' = w_totalWritten w /\ w_closed w' = w_closed w /\ w_err w' = w_err w /\ w_info w' = w_info w.

Class FragmentSink (St : Type) : Type := {
  fs_area : St -> Z;
  fs_write : St -> CacheWriter -> Z -> bytes -> bytes -> option (St * CacheWriter * result unit);
  fs_abort : St -> CacheWriter -> error -> option (St * CacheWriter);
  fs_ready : St -> CacheWriter -> St;
  fs_trace : St -> list fragCall;
  fs_write_law st w idx data info st' w' r : fs_write st w idx data info = Some (st', w', r) ->
    sameStream w w' /\
    fs_trace st' = match r with Ok _ => fs_trace st ++ [mkCall idx data info (w_totalWritten w)] | Err _ => fs_trace st end;
  fs_abort_law st w e st' w' : fs_abort st w e = Some (st', w') ->
    fs_trace st' = fs_trace st /\ w_closed w' = true /\ w_err w' = Some e;
  fs_ready_law st w : fs_trace (fs_ready st w) = fs_trace st }.

Section Stream.
Context {St : Type} `{FragmentSink St}.

Fixpoint processBuffer (fuel : nat) (st : St) (w : CacheWriter) : option (St * CacheWriter * result unit) :=
  match fuel with
  | O => None
  | S fuel =>
      if blen (w_buffer w) <? TargetFragmentSize then Some (st, w, Ok tt)
      else
        let chunk := slice (w_buffer w) 0 TargetFragmentSize in
        let advance w := set_w_nextFragIdx (w_nextFragIdx w + 1)
                           (set_w_buffer (slice (w_buffer w) TargetFragmentSize (blen (w_buffer w))) w) in
        if w_nextFragIdx w =? 0 then processBuffer fuel st (advance (set_w_frag0Data (Some chunk) w))
        else
          '(st, w, r) ← fs_write st w (w_nextFragIdx w) chunk [];
          match r with
          | Err e => Some (st, w, Err e)
          | Ok _ => processBuffer fuel st (advance w)
          end
  end.

Definition processFuel (w : CacheWriter) : nat := S (Z.to_nat (blen (w_buffer w) / TargetFragmentSize)).

(** The loop of [Write]: the bytes consumed so far and the outcome. *)
Fixpoint writeLoop (fuel : nat) (st : St) (w : CacheWriter) (p : bytes) (n : Z) : option (St * CacheWriter * Z * option error) :=
  match fuel with
  | O => None
  | S fuel =>
      if blen p =? 0 then Some (st, w, n, None)
      else
        let tk := Z.min (TargetFragmentSize - blen (w_buffer w)) (blen p) in
        let w := set_w_totalWritten (w_totalWritten w + tk) (set_w_buffer (w_buffer w ++ slice p 0 tk) w) in
        '(st, w, r) ← processBuffer (processFuel w) st w;
        match r with
        | Err e => '(st, w) ← fs_abort st w e; Some (st, w, n + tk, Some e)
        | Ok _ => writeLoop fuel st w (slice p tk (blen p)) (n + tk)
        end
  end.

Definition tooBig : error := Errorf "object exceeds stripe data area".

Definition Write (st : St) (w : CacheWriter) (p : bytes) : option (St * CacheWriter * Z * option error) :=
  if w_closed w then Some (st, w, 0, Some (match w_err w with Some e => e | None => Errorf "writer closed" end))
  else match w_ctxErr w with
  | Some e => '(st, w) ← fs_abort st w e; Some (st, w, 0, Some e)
  | None =>
      if fs_area st - w_totalWritten w <? blen p then
        '(st, w) ← fs_abort st w tooBig; Some (st, w, 0, Some tooBig)
      else writeLoop (S (length p)) st w p 0
  end.

(** "Handle remaining buffer" of [Close]: the last partial fragment. *)
Definition closePartial (st : St) (w : CacheWriter) : option (St * CacheWriter * result unit) :=
  if 0 <? blen (w_buffer w) then
    if w_nextFragIdx w =? 0 then Some (st, set_w_buffer [] (set_w_frag0Data (Some (w_buffer w)) w), Ok tt)
    else
      '(st, w, r) ← fs_write st w (w_nextFragIdx w) (w_buffer w) [];
      Some (st, (match r with
                 | Ok _ => set_w_buffer [] (set_w_nextFragIdx (w_nextFragIdx w + 1) w)
                 | Err _ => w
                 end), r)
  else Some (st, w, Ok tt).

(** An empty object has an empty fragment 0. *)
Definition emptyFrag0 (w : CacheWriter) : CacheWriter :=
  if bool_decide (w_frag0Data w = None) && (w_totalWritten w =? 0) then set_w_frag0Data (Some []) w else w.

(** [Close] without its deferred abort: the metadata, the last partial
    fragment, then fragment 0. *)
Definition closeFragments (st : St) (w : CacheWriter) : option (St * CacheWriter * option error) :=
  match (match w_info w with Some i => HttpInfo.MarshalBinary i | None => Ok [] end) with
  | Err _ => Some (st, w, Some (Errorf "failed to marshal http info"))
  | Ok infoBytes =>
      '(st, w, r) ← closePartial st w;
      match r with
      | Err e => Some (st, w, Some e)
      | Ok _ =>
          let w := emptyFrag0 w in
          '(st, w, r) ← (match w_frag0Data w with
                         | Some d => fs_write st w 0 d infoBytes
                         | None => Some (st, w, Ok tt)
                         end);
          match r with
          | Err e => Some (st, w, Some e)
          | Ok _ =>
              let w := set_w_published [] (set_w_frag0Data None (set_w_buffer [] (set_w_closed true w))) in
              Some (fs_ready st w, w, None)
          end
      end
  end.

Definition Close (st : St) (w : CacheWriter) : option (St * CacheWriter * option error) :=
  if w_closed w then Some (st, w, w_err w)
  else
    '(st, w, e) ← closeFragments st w;
    match e with
    | None => Some (st, w, None)
    | Some e => '(st, w) ← fs_abort st w e; Some (st, w, Some e)
    end.

End Stream.
