(* ===== verification/WriterSpec.v ===== *)
(** * What a cache writer stores

    The fragments of an object do not depend on how the caller cut the stream
    into [Write] calls, and a concurrent reader sees exactly the stream. *)

From S2P Require Import Prelude Hash Dir Doc DirTrie DirManager HttpInfo RamCache File AggBuffer OpenDir Evacuation Stripe CacheWriter.

Abbreviation T := TargetFragmentSize.

(** The bytes of fragment [i] of the object [D], and where it ends. *)
Definition fragEnd (D : bytes) (i : Z) : Z := Z.min ((i + 1) * T) (blen D).
Definition frag (D : bytes) (i : Z) : bytes := slice D (i * T) (fragEnd D i).

(** How many fragments an object has: at least one. *)
Definition fragCount (D : bytes) : Z := Z.max 1 ((blen D + T - 1) / T).

(** The reference: the fragments of [D] in the order they are stored. *)
Definition fragments (D info : bytes) : list fragCall :=
  map (fun i => mkCall i (frag D i) [] (fragEnd D i)) (seqZ 1 (fragCount D - 1)) ++ [mkCall 0 (frag D 0) info (blen D)].

Section WriterSpec.
Context {St : Type} `{FragmentSink St}.

(** The fragments stored before [Close], once [n] of them are full. *)
Definition fullCalls (D : bytes) (n : Z) : list fragCall :=
  map (fun i => mkCall i (slice D (i * T) ((i + 1) * T)) [] ((i + 1) * T)) (seqZ 1 (n - 1)).

(** The state of a writer that has received the stream [D]. *)
Record streaming (D : bytes) (tr0 : list fragCall) (st : St) (w : CacheWriter) : Prop := {
  sm_total : w_totalWritten w = blen D;
  sm_next : 0 <= w_nextFragIdx w /\ w_nextFragIdx w * T <= blen D;
  sm_buffer : w_buffer w = slice D (w_nextFragIdx w * T) (blen D);
  sm_frag0 : w_frag0Data w = if w_nextFragIdx w =? 0 then None else Some (slice D 0 T);
  sm_trace : fs_trace st = tr0 ++ fullCalls D (w_nextFragIdx w);
  sm_open : w_closed w = false /\ w_err w = None }.

Lemma T_pos : 0 < T.
Proof. done. Qed.

Lemma blen_slice (l : bytes) a b : 0 <= a <= b -> b <= blen l -> blen (slice l a b) = b - a.
Proof. unfold blen. intros H1 H2. rewrite length_slice by lia. lia. Qed.

Lemma slice_slice (l : bytes) a b c d :
  0 <= a -> 0 <= c <= d -> a + d <= b -> slice (slice l a b) c d = slice l (a + c) (a + d).
Proof.
  intros Ha Hc Hd. unfold slice. rewrite skipn_firstn_comm, firstn_firstn, drop_drop.
  f_equal; [lia|]. f_equal. lia.
Qed.

Lemma slice_snoc_all (l p : bytes) a : 0 <= a <= blen l -> slice (l ++ p) a (blen (l ++ p)) = slice l a (blen l) ++ p.
Proof.
  intros Ha. unfold slice, blen in *. rewrite drop_app_le by lia. rewrite !take_ge; [done| |]; rewrite ?length_app, ?length_drop; lia.
Qed.

Lemma fullCalls_app D p n : n * T <= blen D -> fullCalls (D ++ p) n = fullCalls D n.
Proof.
  intros Hn. unfold fullCalls. apply map_ext_in. intros i Hi%list_elem_of_In. apply elem_of_seqZ in Hi. pose proof T_pos.
  f_equal. apply slice_app_l; [nia|]. unfold blen in Hn. nia.
Qed.

Lemma fullCalls_snoc D n : 1 <= n -> fullCalls D (n + 1) = fullCalls D n ++ [mkCall n (slice D (n * T) ((n + 1) * T)) [] ((n + 1) * T)].
Proof.
  intros Hn. unfold fullCalls. replace (n + 1 - 1) with (n - 1 + 1) by lia. rewrite (seqZ_app 1 (n - 1) 1) by lia.
  rewrite map_app. replace (1 + (n - 1)) with n by lia. done.
Qed.

(** One full fragment is taken off the buffer. *)
Lemma processBuffer_spec fuel D tr0 st w r :
  streaming D tr0 st w -> blen (w_buffer w) <= T -> (2 <= fuel)%nat -> processBuffer fuel st w = Some r ->
  match r with
  | (st', w', Ok _) => streaming D tr0 st' w' /\ blen (w_buffer w') < T /\ w_info w' = w_info w /\ w_key w' = w_key w
  | (_, _, Err _) => True
  end.
Proof.
  intros S Hb Hf. destruct fuel as [|[|fuel]]; [lia|lia|]. cbn [processBuffer].
  destruct (blen (w_buffer w) <? T) eqn:E1; b2p; [by intros [= <-]|].
  destruct S as [St0 [Sn1 Sn2] Sb Sf Str [So1 So2]]. pose proof T_pos as HT.
  assert (blen (w_buffer w) = T) as Hbl by lia.
  assert (blen D = (w_nextFragIdx w + 1) * T) as HD by (rewrite Sb, blen_slice in Hbl by lia; lia).
  assert (slice (w_buffer w) 0 T = slice D (w_nextFragIdx w * T) ((w_nextFragIdx w + 1) * T)) as Hchunk.
  { rewrite Sb, slice_slice by lia. f_equal; lia. }
  assert (slice (w_buffer w) T (blen (w_buffer w)) = []) as Hrest.
  { unfold slice. rewrite Hbl, Z.sub_diag. done. }
  assert (slice D ((w_nextFragIdx w + 1) * T) (blen D) = []) as Hnil by (unfold slice; by replace (blen D - _) with 0 by lia).
  destruct (w_nextFragIdx w =? 0) eqn:E0; b2p.
  - cbn [set_w_buffer set_w_nextFragIdx set_w_frag0Data w_buffer w_nextFragIdx]. rewrite Hrest.
    replace (blen [] <? T) with true by done. intros [= <-]. cbn. split_and!; try done.
    split; cbn; try done; try lia.
    + rewrite Hchunk, E0. done.
    + rewrite Str, E0. done.
  - destruct (fs_write st w (w_nextFragIdx w) _ []) as [[[st1 w1] r1]|] eqn:Ew; [|done]. cbn [mbind option_bind].
    destruct (fs_write_law _ _ _ _ _ _ _ _ Ew) as ((L1 & L2 & L3 & L4 & L5 & L6 & L7 & L8) & Lt).
    destruct r1 as [u|e]; [|by intros [= <-]].
    cbn [set_w_buffer set_w_nextFragIdx w_buffer w_nextFragIdx]. rewrite L2, L4, Hrest.
    replace (blen [] <? T) with true by done. intros [= <-]. cbn. split_and!; try done.
    split; cbn; rewrite ?L2, ?L3, ?L4, ?L5, ?L6, ?L7; try done; try lia.
    + rewrite Sf. replace (w_nextFragIdx w =? 0) with false by lia. by replace (w_nextFragIdx w + 1 =? 0) with false by lia.
    + rewrite Lt, Str, Hchunk, St0, HD, <- app_assoc, fullCalls_snoc by lia. done.
Qed.

(** The parts of a writer that [Write] does not touch. *)
Definition sameHead (w w' : CacheWriter) : Prop :=
  w_info w' = w_info w /\ w_key w' = w_key w.

Lemma streaming_grow D tr0 st w p :
  streaming D tr0 st w ->
  streaming (D ++ p) tr0 st (set_w_totalWritten (w_totalWritten w + blen p) (set_w_buffer (w_buffer w ++ p) w)).
Proof.
  intros [S1 [S2 S3] S4 S5 S6 S7]. pose proof T_pos. split; cbn; try done.
  - rewrite blen_app. lia.
  - rewrite blen_app. pose proof (blen_nonneg p). lia.
  - rewrite S4. symmetry. apply slice_snoc_all. lia.
  - rewrite S5. destruct (w_nextFragIdx w =? 0) eqn:E; [done|]. b2p. f_equal. symmetry. apply slice_app_l; [lia|]. unfold blen in S3. nia.
  - by rewrite fullCalls_app.
Qed.

Lemma writeLoop_spec fuel D tr0 st w p n st' w' n' :
  streaming D tr0 st w -> blen (w_buffer w) < T -> (length p < fuel)%nat ->
  writeLoop fuel st w p n = Some (st', w', n', None) ->
  streaming (D ++ p) tr0 st' w' /\ blen (w_buffer w') < T /\ n' = n + blen p /\ sameHead w w'.
Proof.
  revert D st w p n. induction fuel as [|fuel IH]; intros D st w p n S Hb Hf E; [lia|]. cbn [writeLoop] in E.
  destruct (blen p =? 0) eqn:E0; b2p.
  { assert (p = []) as -> by (destruct p; [done|unfold blen in E0; cbn in E0; lia]). rewrite app_nil_r.
    injection E as <- <- <-. split_and!; try done. cbn. lia. }
  set (tk := Z.min (T - blen (w_buffer w)) (blen p)) in *. pose proof (blen_nonneg p). pose proof (blen_nonneg (w_buffer w)).
  assert (0 < tk <= blen p) as Htk by lia.
  assert (blen (slice p 0 tk) = tk) as Hl by (rewrite blen_slice; lia).
  pose proof (streaming_grow D tr0 st w (slice p 0 tk) S) as S1. rewrite Hl in S1.
  set (w1 := set_w_totalWritten _ _) in *.
  assert (blen (w_buffer w1) <= T) as Hb1 by (unfold w1; cbn; rewrite blen_app, Hl; lia).
  assert (blen (w_buffer w1) < T \/ (2 <= processFuel w1)%nat) as Hpf.
  { destruct (decide (blen (w_buffer w1) < T)); [by left|right]. unfold processFuel. replace (blen (w_buffer w1)) with T by lia. done. }
  destruct (processBuffer (processFuel w1) st w1) as [[[st2 w2] r]|] eqn:Ep; [|done]. cbn [mbind option_bind] in E.
  assert (forall u, r = Ok u -> streaming (D ++ slice p 0 tk) tr0 st2 w2 /\ blen (w_buffer w2) < T /\ sameHead w1 w2) as Hok.
  { intros u ->. destruct Hpf as [Hlt|Hpf].
    - unfold processFuel in Ep. cbn [processBuffer] in Ep. replace (blen (w_buffer w1) <? T) with true in Ep by lia.
      injection Ep as <- <- _. done.
    - pose proof (processBuffer_spec _ _ _ _ _ _ S1 Hb1 Hpf Ep) as (? & ? & ? & ?). done. }
  destruct r as [u|e]; [|by destruct (fs_abort st2 w2 e) as [[? ?]|]].
  destruct (Hok u eq_refl) as (S2 & Hb2 & Hh). assert (slice p tk (blen p) = drop (Z.to_nat tk) p) as Hd.
  { unfold slice. apply take_ge. rewrite length_drop. unfold blen. lia. }
  assert (slice p 0 tk = take (Z.to_nat tk) p) as Ht by (unfold slice; rewrite drop_0; f_equal; lia).
  assert (length (slice p tk (blen p)) < fuel)%nat as Hf2 by (rewrite Hd, length_drop; unfold blen in *; lia).
  destruct (IH (D ++ slice p 0 tk) st2 w2 (slice p tk (blen p)) (n + tk) S2 Hb2 Hf2 E) as (S3 & Hb3 & Hn3 & Hh3).
  rewrite <- app_assoc, Hd, Ht, take_drop in S3. split_and!; try done.
  - rewrite Hn3, Hd. unfold blen. rewrite length_drop. unfold blen in *. lia.
  - unfold sameHead in *. destruct Hh as (I1 & I2). destruct Hh3 as (-> & ->). by rewrite I1, I2.
Qed.

Lemma Write_spec D tr0 st w p st' w' n :
  streaming D tr0 st w -> blen (w_buffer w) < T -> Write st w p = Some (st', w', n, None) ->
  streaming (D ++ p) tr0 st' w' /\ blen (w_buffer w') < T /\ n = blen p /\ sameHead w w'.
Proof.
  intros S Hb E. unfold Write in E. destruct (w_closed w); [done|]. destruct (w_ctxErr w) as [e|]; [by destruct (fs_abort st w e) as [[? ?]|]|].
  destruct (_ <? blen p); [by destruct (fs_abort st w tooBig) as [[? ?]|]|].
  apply (writeLoop_spec _ D tr0 _ _ _ 0) in E; [|done|done|lia]. done.
Qed.

(** The calls of a client: a sequence of successful [Write]s. *)
Fixpoint writes (st : St) (w : CacheWriter) (ps : list bytes) : option (St * CacheWriter) :=
  match ps with
  | [] => Some (st, w)
  | p :: ps => match Write st w p with Some (st, w, _, None) => writes st w ps | _ => None end
  end.

Lemma writes_spec D tr0 st w ps st' w' :
  streaming D tr0 st w -> blen (w_buffer w) < T -> writes st w ps = Some (st', w') ->
  streaming (D ++ mjoin ps) tr0 st' w' /\ blen (w_buffer w') < T /\ sameHead w w'.
Proof.
  revert D st w. induction ps as [|p ps IH]; intros D st w S Hb E; cbn in E.
  - injection E as <- <-. cbn. by rewrite app_nil_r.
  - destruct (Write st w p) as [[[[st1 w1] n] [e|]]|] eqn:Ew; try done.
    destruct (Write_spec _ _ _ _ _ _ _ _ S Hb Ew) as (S1 & Hb1 & _ & Hh1).
    destruct (IH _ _ _ S1 Hb1 E) as (S2 & Hb2 & Hh2). cbn. rewrite app_assoc. split_and!; try done.
    unfold sameHead in *. destruct Hh1 as (<- & <-). done.
Qed.

(** A writer that has received nothing yet. *)
Definition fresh_writer (w : CacheWriter) : Prop :=
  w_buffer w = [] /\ w_frag0Data w = None /\ w_nextFragIdx w = 0 /\ w_totalWritten w = 0 /\ w_closed w = false /\ w_err w = None.

Lemma fresh_streaming st w : fresh_writer w -> streaming [] (fs_trace st) st w /\ blen (w_buffer w) < T.
Proof.
  intros (H1 & H2 & H3 & H4 & H5 & H6). split; [|by rewrite H1]. split; rewrite ?H1, ?H2, ?H3, ?H4; try done. by rewrite app_nil_r.
Qed.

Lemma fullCalls_frags D n :
  0 <= n -> n * T <= blen D ->
  fullCalls D n = map (fun i => mkCall i (frag D i) [] (fragEnd D i)) (seqZ 1 (n - 1)).
Proof.
  intros Hn Hl. pose proof T_pos. unfold fullCalls. apply map_ext_in. intros i Hi%list_elem_of_In. apply elem_of_seqZ in Hi.
  unfold frag, fragEnd. replace (Z.min ((i + 1) * T) (blen D)) with ((i + 1) * T) by nia. done.
Qed.

Lemma fragCount_eq D n :
  0 <= n -> n * T <= blen D < (n + 1) * T -> fragCount D = Z.max 1 (if blen D =? n * T then n else n + 1).
Proof.
  intros Hn Hl. pose proof T_pos. unfold fragCount. f_equal. destruct (blen D =? n * T) eqn:E; b2p.
  - rewrite E. replace (n * T + T - 1) with (T - 1 + n * T) by lia. rewrite Z.div_add, Z.div_small by lia. lia.
  - replace (blen D + T - 1) with ((blen D - n * T - 1) + (n + 1) * T) by lia. rewrite Z.div_add, Z.div_small by lia. lia.
Qed.

(** After the last partial fragment every fragment but fragment 0 is stored. *)
Lemma closePartial_spec D tr0 st w st' w' u :
  streaming D tr0 st w -> blen (w_buffer w) < T -> closePartial st w = Some (st', w', Ok u) ->
  w_totalWritten w' = blen D /\ w_info w' = w_info w /\
  fs_trace st' = tr0 ++ map (fun i => mkCall i (frag D i) [] (fragEnd D i)) (seqZ 1 (fragCount D - 1)) /\
  w_frag0Data w' = (if blen D =? 0 then None else Some (frag D 0)).
Proof.
  intros [S1 [S2 S3] S4 S5 S6 [S7 S8]] Hb E. unfold closePartial in E. set (n := w_nextFragIdx w) in *. pose proof T_pos as HT.
  assert (blen (w_buffer w) = blen D - n * T) as Hbl by (rewrite S4, blen_slice; lia).
  assert (n * T <= blen D < (n + 1) * T) as Hn by lia. pose proof (fragCount_eq D n S2 Hn) as Hc.
  rewrite fullCalls_frags in S6 by lia.
  destruct (0 <? blen (w_buffer w)) eqn:Eb; b2p; [replace (blen D =? n * T) with false in Hc by lia; destruct (n =? 0) eqn:En; b2p|].
  - injection E as <- <- _. cbn. rewrite S6, Hc. split_and!; try done.
    + replace (Z.max 1 (n + 1) - 1) with 0 by lia. by replace (n - 1) with (-1) by lia.
    + replace (blen D =? 0) with false by lia. rewrite S4. unfold frag, fragEnd. do 2 f_equal; lia.
  - destruct (fs_write st w n (w_buffer w) []) as [[[st4 w4] r]|] eqn:Ewr; [|done]. cbn [mbind option_bind] in E.
    destruct (fs_write_law _ _ _ _ _ _ _ _ Ewr) as ((_ & _ & L3 & _ & L5 & _ & _ & L8) & Lt).
    injection E as <- <- ->. cbn. rewrite L3, L5, L8, Lt, S6, S5, Hc. split_and!; try done.
    + replace (Z.max 1 (n + 1) - 1) with (n - 1 + 1) by lia. rewrite (seqZ_app 1 (n - 1) 1), map_app, <- app_assoc by lia.
      replace (1 + (n - 1)) with n by lia. cbn. do 3 f_equal. rewrite S1. unfold frag, fragEnd. rewrite S4.
      rewrite seqZ_cons by lia. cbn. by replace (Z.min ((n + 1) * T) (blen D)) with (blen D) by lia.
    + replace (blen D =? 0) with false by nia. f_equal. unfold frag, fragEnd. f_equal. nia.
  - injection E as <- <- _. replace (blen D =? n * T) with true in Hc by lia. rewrite S6, Hc, S5. split_and!; try done.
    + destruct (decide (n = 0)) as [->|]; [done|]. by replace (Z.max 1 n) with n by lia.
    + destruct (n =? 0) eqn:En; b2p.
      * by replace (blen D =? 0) with true by lia.
      * replace (blen D =? 0) with false by nia. f_equal. unfold frag, fragEnd. f_equal. nia.
Qed.

(** Fragment 0 exists by the time it is stored. *)
Lemma emptyFrag0_spec D w :
  w_totalWritten w = blen D -> w_frag0Data w = (if blen D =? 0 then None else Some (frag D 0)) ->
  w_frag0Data (emptyFrag0 w) = Some (frag D 0) /\ w_totalWritten (emptyFrag0 w) = blen D.
Proof.
  intros H1 H2. unfold emptyFrag0. rewrite H1, H2. destruct (blen D =? 0) eqn:E0; b2p; [|by rewrite andb_false_r, H2].
  rewrite bool_decide_eq_true_2 by done. cbn. rewrite H1. split; [|done]. unfold frag, fragEnd, slice. by rewrite E0.
Qed.

(** [Close] of a writer that has received [D]. *)
Lemma Close_streaming D tr0 st w st2 w2 :
  streaming D tr0 st w -> blen (w_buffer w) < T -> Close st w = Some (st2, w2, None) ->
  exists infoBytes, (match w_info w with Some i => HttpInfo.MarshalBinary i | None => Ok [] end) = Ok infoBytes /\
    fs_trace st2 = tr0 ++ fragments D infoBytes /\ w_closed w2 = true.
Proof.
  intros S Hb Ec. unfold Close in Ec. rewrite (proj1 (sm_open _ _ _ _ S)) in Ec.
  destruct (closeFragments st w) as [[[st3 w3] [e|]]|] eqn:Ef; [cbn in Ec; by destruct (fs_abort st3 w3 e) as [[? ?]|]| |done].
  cbn in Ec. injection Ec as -> ->. unfold closeFragments in Ef.
  destruct (match w_info w with Some i => HttpInfo.MarshalBinary i | None => Ok [] end) as [ib|]; [|done]. exists ib. split; [done|].
  destruct (closePartial st w) as [[[st4 w4] [u|e]]|] eqn:E4; [|done|done]. cbn [mbind option_bind] in Ef.
  destruct (closePartial_spec _ _ _ _ _ _ _ S Hb E4) as (T4 & _ & Tr4 & F4).
  destruct (emptyFrag0_spec D w4 T4 F4) as [F5 T5]. rewrite F5 in Ef.
  destruct (fs_write st4 (emptyFrag0 w4) 0 (frag D 0) ib) as [[[st6 w6] r]|] eqn:E6; [|done]. cbn [mbind option_bind] in Ef.
  destruct (fs_write_law _ _ _ _ _ _ _ _ E6) as (_ & Lt). destruct r as [u'|]; [|done]. injection Ef as <- <-.
  split; [|done]. rewrite fs_ready_law, Lt, Tr4, T5, <- app_assoc. done.
Qed.

(** C8: the fragments stored for an object are those of the reference
    [fragments], whatever sizes the caller's [Write] calls had: fragment [i]
    holds bytes [[i * T, (i + 1) * T)] of the stream with its end offset in the
    header, and fragment 0, stored last, holds the metadata and the total
    length. *)
Theorem writer_fragments_reference st w ps st1 w1 st2 w2 :
  fresh_writer w -> writes st w ps = Some (st1, w1) -> Close st1 w1 = Some (st2, w2, None) ->
  exists infoBytes, (match w_info w with Some i => HttpInfo.MarshalBinary i | None => Ok [] end) = Ok infoBytes /\
    fs_trace st2 = fs_trace st ++ fragments (mjoin ps) infoBytes /\ w_closed w2 = true.
Proof.
  intros Hw Ew Ec. destruct (fresh_streaming st w Hw) as [S0 Hb0].
  destruct (writes_spec _ _ _ _ _ _ _ S0 Hb0 Ew) as (S & Hb & (Hi & _)). cbn [app] in S.
  rewrite <- Hi. by eapply Close_streaming.
Qed.

(** C37: a reader following the active writer sees the stream: after any
    sequence of [Write]s, [ReadAtContext] at an offset below the end returns a
    nonempty run of the stream's bytes from that offset, as long as the buffer
    allows when the bytes are in the writer's buffer, or says
    [ErrReadFromDisk], which it does exactly for offsets inside the fragments
    already stored; at or past the end it waits. *)
Theorem writer_reads_stream st w ps st1 w1 off n :
  fresh_writer w -> writes st w ps = Some (st1, w1) -> 0 <= off -> 0 < n ->
  let D := mjoin ps in
  let stored := (blen D / T) * T in
  ReadAtContext None w1 off n =
    if blen D <=? off then Wait
    else if stored <=? off then Return (Ok (slice D off (Z.min (off + n) (blen D))))
    else if off <? T then Return (Ok (slice D off (Z.min (off + n) T)))
    else Return (Err ErrReadFromDisk).
Proof.
  intros Hw Ew Ho Hn. cbn zeta. destruct (fresh_streaming st w Hw) as [S0 Hb0].
  destruct (writes_spec _ _ _ _ _ _ _ S0 Hb0 Ew) as ([S1 [S2 S3] S4 S5 S6 [S7 S8]] & Hb & _). cbn [app] in *. set (D := mjoin ps) in *.
  pose proof T_pos as HT. set (k := w_nextFragIdx w1) in *.
  assert (blen (w_buffer w1) = blen D - k * T) as Hbl by (rewrite S4, blen_slice; lia).
  replace (blen D / T) with k by (apply (Z.div_unique_pos _ _ _ (blen D - k * T)); lia).
  unfold ReadAtContext, readTry. replace (n =? 0) with false by lia. rewrite S1, S7, S8, Hbl.
  destruct (blen D <=? off) eqn:E1; b2p; [by replace (0 <? blen D - off) with false by lia|].
  replace (0 <? blen D - off) with true by lia. replace (blen D - (blen D - k * T)) with (k * T) by lia.
  destruct (k * T <=? off) eqn:E2; b2p.
  - rewrite S4, slice_slice by lia. do 3 f_equal; lia.
  - assert (1 <= k) by nia. rewrite S5. replace (k =? 0) with false by lia. cbn [from_option]. unfold id. rewrite blen_slice by nia.
    replace (0 <? T - 0) with true by done. cbn [andb]. rewrite Z.sub_0_r. destruct (off <? T) eqn:E3; b2p; [|done].
    rewrite slice_slice by lia. do 3 f_equal; lia.
Qed.

End WriterSpec.
