(* ===== verification/FragmentWriter.v ===== *)
(** * Storing fragments in a stripe

    [CacheWriter.writeFragment] and [CacheWriter.abortLocked] of
    [cache/cache_write.go]: a fragment becomes a record, is appended to the
    write buffer, waits for its flush, and is published in the directory, the
    RAM cache and the identity index inside one critical section.

    Between two critical sections, and while it waits, the writer leaves the
    stripe to the other goroutines: a schedule lists what they do at each such
    point, and whether the writer's context was cancelled meanwhile.  A
    schedule that runs out leaves the call waiting ([None], as for a panic). *)

From S2P Require Import Prelude Hash Dir Doc DirTrie DirManager HttpInfo RamCache File AggBuffer OpenDir Evacuation Stripe CacheWriter.

(** ** Records *)

(** The header [writeFragment] builds, without its checksum. *)
Definition fragmentDoc (key : bytes) (version total idx : Z) (data infoBytes : bytes) : Doc :=
  mkDoc DocMagic (u32 (DocHeaderSize + (blen infoBytes + blen data))) (u64 total)
    (docKey key) (docKey (FragmentKey key idx)) (u32 (blen infoBytes)) 0 docIdentityVersion 0 0
    (u32 (Z.shiftr version 32)) (u32 version) 0 0.

(** [fullData] with the checksum patched in. *)
Definition fragmentRecord (key : bytes) (version total idx : Z) (data infoBytes : bytes) : bytes :=
  record (fragmentDoc key version total idx data infoBytes) (infoBytes ++ data).

Definition approxRecordSize (data infoBytes : bytes) : Z :=
  Z.quot (DocHeaderSize + (blen infoBytes + blen data) + SectorSize - 1) SectorSize * SectorSize.

Section FragmentWriter.
Context {R : Type} `{RamStore R}.
Implicit Types s : Stripe R.

(** ** Schedules *)

Record turn : Type := mkTurn { tn_run : Stripe R -> option (Stripe R); tn_ctx : option error }.

(** Other goroutines run before the next critical section. *)
Definition yield (sch : list turn) s : option (list turn * Stripe R * option error) :=
  match sch with [] => None | t :: sch => s ← tn_run t s; Some (sch, s, tn_ctx t) end.

(** [addContext] to its return. *)
Fixpoint addAwait (sch : list turn) s (data : bytes) (r : AggregateWriteBuffer * outcome allocation)
    : option (list turn * Stripe R * result allocation) :=
  match r with
  | (b, Return x) => Some (sch, set_s_agg b s, x)
  | (b, Wait) =>
      match sch with
      | [] => None
      | t :: sch =>
          s ← tn_run t (set_s_agg b s);
          r ← addResume (tn_ctx t) data None (s_agg s);
          addAwait sch s data r
      end
  end.

Definition addSync (sch : list turn) (ctxErr : option error) s (data : bytes)
    : option (list turn * Stripe R * result allocation) :=
  r ← addContext ctxErr data None (s_agg s); addAwait sch s data r.

(** [flushThrough] to its return. *)
Fixpoint flushAwait (sch : list turn) s (target : Z) (r : AggregateWriteBuffer * outcome unit)
    : option (list turn * Stripe R * result unit) :=
  match r with
  | (b, Return x) => Some (sch, set_s_agg b s, x)
  | (b, Wait) =>
      match sch with
      | [] => None
      | t :: sch =>
          s ← tn_run t (set_s_agg b s);
          r ← flushResume (tn_ctx t) target (s_agg s);
          flushAwait sch s target r
      end
  end.

Definition flushSync (sch : list turn) (ctxErr : option error) s (target : Z)
    : option (list turn * Stripe R * result unit) :=
  r ← flushThrough ctxErr target (s_agg s); flushAwait sch s target r.

(** ** Publication *)

(** The fences of a writer: its key was invalidated, or another writer has
    taken its place. *)
Definition fenced s (w : CacheWriter) : bool :=
  ((0 <? blen (w_fenceSelector w)) && negb (w_fencePolicy w =? policyEpoch (s_open s) (w_fenceSelector w))) ||
  negb (w_generation w =? Generation (s_open s)) ||
  negb (w_policy w =? policyEpoch (s_open s) (w_selector w)) ||
  (bool_decide (w_od w <> None) && negb (bool_decide (OpenDir.Get (s_open s) (w_key w) = w_od w))).

(** Whether a fragment published earlier is still reachable and intact. *)
Definition fragmentLive s (p : bytes * allocation * Z) : option bool :=
  let '(key, a, size) := p in
  g ← DirManager.Get (s_dir s) key;
  let '(hit, _, d) := g in
  Some (hit && (i64 (offset d) =? a_offset a) && Bool.eqb (phase d) (odd (a_generation a)) && allocationValid s a size).

Fixpoint allLive s (l : list (bytes * allocation * Z)) : option bool :=
  match l with
  | [] => Some true
  | p :: l => b ← fragmentLive s p; if b : bool then allLive s l else Some false
  end.

(** The guards of the publication: what makes it refuse. *)
Definition publishCheck (ctxErr : option error) s (w : CacheWriter) (idx : Z) (size : Z) (a : allocation)
    : option (result unit) :=
  match s_storageErr s with
  | Some e => Some (Err e)
  | None =>
      match ctxErr with
      | Some e => Some (Err e)
      | None =>
          if s_closing s then Some (Err ErrCacheClosed)
          else if fenced s w then Some (Err ErrInvalidated)
          else if negb (allocationValid s a size) then Some (Err (Errorf "fragment overwritten before publication"))
          else
            live ← (if idx =? 0 then allLive s (w_published w) else Some true);
            Some (if live : bool then Ok tt else Err (Errorf "object fragment overwritten before commit"))
      end
  end.

(** The insertions into the directory and the RAM cache. *)
Definition publishEntry (rnd : nat -> nat) s (thisKey fullData : bytes) (approxSize : Z) (a : allocation) : option (Stripe R) :=
  r ← DirManager.Set_ rnd (s_dir s) thisKey (u64 (a_offset a)) approxSize (odd (a_generation a));
  let s := set_s_dir r.1 s in
  match s_ram s with
  | None => Some s
  | Some ram => ram ← rs_put ram thisKey fullData; Some (set_s_ram (Some ram) s)
  end.

(** The critical section of [writeFragment] after the flush; [ctxErr] is what
    [w.ctx.Err()] returns in it. *)
Definition publish (rnd : nat -> nat) (ctxErr : option error) s (w : CacheWriter) (idx : Z) (fullData : bytes)
    (approxSize : Z) (a : allocation) : option (Stripe R * CacheWriter * result unit) :=
  let thisKey := FragmentKey (w_key w) idx in
  c ← publishCheck ctxErr s w idx (blen fullData) a;
  match c with
  | Err e => Some (s, w, Err e)
  | Ok _ =>
      s ← publishEntry rnd s thisKey fullData approxSize a;
      let w := set_w_published (w_published w ++ [(thisKey, a, blen fullData)]) w in
      if idx =? 0 then
        match SetIdentity (Trie (s_dir s)) (w_key w) (w_selector w) with
        | Err e => Some (s, w, Err e)
        | Ok dt => Some (set_s_dir (setTrie (s_dir s) dt) s, w, Ok tt)
        end
      else Some (s, w, Ok tt)
  end.

Definition writeFragment (rnd : nat -> nat) (sch : list turn) s (w : CacheWriter) (idx : Z) (data infoBytes : bytes)
    : option (list turn * Stripe R * CacheWriter * result unit) :=
  let fullData := fragmentRecord (w_key w) (w_version w) (w_totalWritten w) idx data infoBytes in
  '(sch, s, a) ← addSync sch (w_ctxErr w) s fullData;
  match a with
  | Err e => Some (sch, s, w, Err e)
  | Ok a =>
      '(sch, s, ctx) ← yield sch s;
      '(sch, s, f) ← flushSync sch ctx s (a_sequence a);
      match f with
      | Err e => Some (sch, s, w, Err e)
      | Ok _ =>
          '(sch, s, ctx) ← yield sch s;
          '(s, w, r) ← publish rnd ctx s w idx fullData (approxRecordSize data infoBytes) a;
          Some (sch, s, set_w_ctxErr ctx w, r)
      end
  end.

(** ** Evacuation *)

(** The loop of [Stripe.evacuate] over one batch: each victim is appended,
    flushed and republished; the first failure drops the rest. *)
Fixpoint evacuateBatch (rnd : nat -> nat) (sch : list turn) (ctxErr : option error) s (batch : list evacuationRecord)
    : option (list turn * Stripe R) :=
  match batch with
  | [] => Some (sch, s)
  | v :: batch =>
      '(sch, s, a) ← addSync sch ctxErr s (v_data v);
      match a with
      | Err _ => Some (sch, s)
      | Ok a =>
          '(sch, s, ctx) ← yield sch s;
          '(sch, s, f) ← flushSync sch ctx s (a_sequence a);
          match f with
          | Err _ => Some (sch, s)
          | Ok _ =>
              '(sch, s, ctx) ← yield sch s;
              s ← evacuatePublish rnd s v a;
              evacuateBatch rnd sch ctx s batch
          end
      end
  end.

(** ** Aborting *)

(** The withdrawal of one published fragment. *)
Definition withdraw s (p : bytes * allocation * Z) : option (Stripe R) :=
  let '(key, a, size) := p in
  if negb (allocationValid s a size) then Some s
  else
    r ← deleteAt (s_dir s) key (a_offset a);
    let s := set_s_dir r.1 s in
    if negb r.2 then Some s
    else match s_ram s with
    | None => Some s
    | Some ram => ram ← rs_delete ram key; Some (set_s_ram (Some ram) s)
    end.

Fixpoint withdrawAll s (l : list (bytes * allocation * Z)) : option (Stripe R) :=
  match l with [] => Some s | p :: l => s ← withdraw s p; withdrawAll s l end.

Definition signalOd (w : CacheWriter) s : Stripe R :=
  match w_od w with Some a => set_s_open (signalReady (s_open s) a) s | None => s end.

Definition abortLocked s (w : CacheWriter) (e : option error) : option (Stripe R * CacheWriter) :=
  let e := default (Errorf "cache write aborted") e in
  let w := set_w_frag0Data None (set_w_buffer [] (set_w_closed true (set_w_err (Some e) w))) in
  s ← withdrawAll s (w_published w);
  let s := if bool_decide (OpenDir.Get (s_open s) (w_key w) = w_od w)
           then set_s_dir (setTrie (s_dir s) (DirTrie.Delete (Trie (s_dir s)) (w_key w))) s else s in
  let w := set_w_published [] w in
  Some (signalOd w s, w).

Definition ErrCanceled : error := ErrContext 1.

Definition Abort s (w : CacheWriter) (e : option error) : option (Stripe R * CacheWriter) :=
  let w := match w_ctxErr w with None => set_w_ctxErr (Some ErrCanceled) w | Some _ => w end in
  if w_closed w then Some (s, w) else abortLocked s w e.

End FragmentWriter.
Arguments turn R : clear implicits.

(** ** A stripe stores fragments *)

Section StripeSink.
Context {R : Type} `{RamStore R} (rnd : nat -> nat).

(** The stripe, the schedule ahead, and the fragments published so far. *)
Record sink : Type := mkSink { k_stripe : Stripe R; k_sched : list (turn R); k_trace : list fragCall }.

Definition sinkWrite (k : sink) (w : CacheWriter) (idx : Z) (data info : bytes) : option (sink * CacheWriter * result unit) :=
  '(sch, s, w', r) ← writeFragment rnd (k_sched k) (k_stripe k) w idx data info;
  let tr := match r with Ok _ => k_trace k ++ [mkCall idx data info (w_totalWritten w)] | Err _ => k_trace k end in
  Some (mkSink s sch tr, w', r).

Definition sinkAbort (k : sink) (w : CacheWriter) (e : error) : option (sink * CacheWriter) :=
  '(s, w) ← abortLocked (k_stripe k) w (Some e); Some (mkSink s (k_sched k) (k_trace k), w).

Lemma publish_stream ctxErr (s : Stripe R) w idx fd sz a s' w' r :
  publish rnd ctxErr s w idx fd sz a = Some (s', w', r) -> exists l, w' = set_w_published l w.
Proof.
  assert (w = set_w_published (w_published w) w) as Hw by (by destruct w).
  unfold publish. intros E. destruct (publishCheck _ _ _ _ _ _) as [[u|e]|]; [|simplify_option_eq; eauto|done].
  cbn [mbind option_bind] in E. destruct (publishEntry _ _ _ _ _ _) as [s1|]; [|done]. cbn [mbind option_bind] in E.
  destruct (idx =? 0); [destruct (SetIdentity _ _ _)|]; simplify_eq; eauto.
Qed.

Lemma writeFragment_stream sch (s : Stripe R) w idx data info sch' s' w' r :
  writeFragment rnd sch s w idx data info = Some (sch', s', w', r) -> sameStream w w'.
Proof.
  unfold writeFragment. intros E. destruct (addSync _ _ _ _) as [[[sch1 s1] [a|e]]|]; [|by simplify_option_eq|done].
  cbn [mbind option_bind] in E. destruct (yield sch1 s1) as [[[sch2 s2] ctx]|]; [|done]. cbn [mbind option_bind] in E.
  destruct (flushSync _ _ _ _) as [[[sch3 s3] [u|e]]|]; [|by simplify_option_eq|done]. cbn [mbind option_bind] in E.
  destruct (yield sch3 s3) as [[[sch4 s4] ctx']|]; [|done]. cbn [mbind option_bind] in E.
  destruct (publish _ _ _ _ _ _ _ _) as [[[s5 w5] r5]|] eqn:Ep; [|done]. cbn in E. injection E as <- <- <- <-.
  apply publish_stream in Ep as [l ->]. done.
Qed.

#[refine, export] Instance stripe_sink : FragmentSink sink := {|
  fs_area k := i64 (stripeEnd (k_stripe k) - s_start (k_stripe k));
  fs_write := sinkWrite;
  fs_abort := sinkAbort;
  fs_ready k w := mkSink (signalOd w (k_stripe k)) (k_sched k) (k_trace k);
  fs_trace := k_trace |}.
Proof.
  - intros k w idx data info k' w' r E. unfold sinkWrite in E.
    destruct (writeFragment _ _ _ _ _ _ _) as [[[[sch s] w1] r1]|] eqn:Ew; [|done]. cbn in E. injection E as <- <- <-.
    split; [by eapply writeFragment_stream|done].
  - intros k w e k' w' E. unfold sinkAbort, abortLocked in E. destruct (withdrawAll _ _); [|done]. cbn in E. by injection E as <- <-.
  - done.
Defined.

End StripeSink.
