(* ===== verification/CacheReader.v ===== *)
(** * Cache readers

    [cache/cache_read.go]: a reader fetches the fragments of an object one at
    a time, checks each against its header and its predecessors, and hands out
    the payload as a stream.  The stream operations only need a place to fetch
    records from, the interface [FragmentSource]; [handleRead] on a stripe is
    one implementation.  [None] stands for a Go panic or exhausted fuel. *)

From S2P Require Import Prelude Hash Dir Doc DirTrie DirManager HttpInfo RamCache File AggBuffer OpenDir Evacuation Stripe CacheWriter.

Record CacheReader : Type := mkReader {
  r_key : bytes;
  r_firstKey : bytes;
  r_dir : Dir;
  r_info : option CacheHTTPInfo;
  r_offset : Z;
  r_following : bool;   (** [writer != nil] *)
  r_version : Z;
  r_versionSet : bool;
  r_fragmentIndex : Z;
  r_totalRead : Z;
  r_totalLen : Z;
  r_buf : bytes;
  r_readErr : option error;
  r_ram : option ramEntry;
  r_doc : option Doc }.

Definition set_r_key (v : bytes) (r : CacheReader) : CacheReader :=
  mkReader v (r_firstKey r) (r_dir r) (r_info r) (r_offset r) (r_following r) (r_version r) (r_versionSet r) (r_fragmentIndex r) (r_totalRead r) (r_totalLen r) (r_buf r) (r_readErr r) (r_ram r) (r_doc r).
Definition set_r_firstKey (v : bytes) (r : CacheReader) : CacheReader :=
  mkReader (r_key r) v (r_dir r) (r_info r) (r_offset r) (r_following r) (r_version r) (r_versionSet r) (r_fragmentIndex r) (r_totalRead r) (r_totalLen r) (r_buf r) (r_readErr r) (r_ram r) (r_doc r).
Definition set_r_dir (v : Dir) (r : CacheReader) : CacheReader :=
  mkReader (r_key r) (r_firstKey r) v (r_info r) (r_offset r) (r_following r) (r_version r) (r_versionSet r) (r_fragmentIndex r) (r_totalRead r) (r_totalLen r) (r_buf r) (r_readErr r) (r_ram r) (r_doc r).
Definition set_r_info (v : option CacheHTTPInfo) (r : CacheReader) : CacheReader :=
  mkReader (r_key r) (r_firstKey r) (r_dir r) v (r_offset r) (r_following r) (r_version r) (r_versionSet r) (r_fragmentIndex r) (r_totalRead r) (r_totalLen r) (r_buf r) (r_readErr r) (r_ram r) (r_doc r).
Definition set_r_offset (v : Z) (r : CacheReader) : CacheReader :=
  mkReader (r_key r) (r_firstKey r) (r_dir r) (r_info r) v (r_following r) (r_version r) (r_versionSet r) (r_fragmentIndex r) (r_totalRead r) (r_totalLen r) (r_buf r) (r_readErr r) (r_ram r) (r_doc r).
Definition set_r_following (v : bool) (r : CacheReader) : CacheReader :=
  mkReader (r_key r) (r_firstKey r) (r_dir r) (r_info r) (r_offset r) v (r_version r) (r_versionSet r) (r_fragmentIndex r) (r_totalRead r) (r_totalLen r) (r_buf r) (r_readErr r) (r_ram r) (r_doc r).
Definition set_r_version (v : Z) (r : CacheReader) : CacheReader :=
  mkReader (r_key r) (r_firstKey r) (r_dir r) (r_info r) (r_offset r) (r_following r) v (r_versionSet r) (r_fragmentIndex r) (r_totalRead r) (r_totalLen r) (r_buf r) (r_readErr r) (r_ram r) (r_doc r).
Definition set_r_versionSet (v : bool) (r : CacheReader) : CacheReader :=
  mkReader (r_key r) (r_firstKey r) (r_dir r) (r_info r) (r_offset r) (r_following r) (r_version r) v (r_fragmentIndex r) (r_totalRead r) (r_totalLen r) (r_buf r) (r_readErr r) (r_ram r) (r_doc r).
Definition set_r_fragmentIndex (v : Z) (r : CacheReader) : CacheReader :=
  mkReader (r_key r) (r_firstKey r) (r_dir r) (r_info r) (r_offset r) (r_following r) (r_version r) (r_versionSet r) v (r_totalRead r) (r_totalLen r) (r_buf r) (r_readErr r) (r_ram r) (r_doc r).
Definition set_r_totalRead (v : Z) (r : CacheReader) : CacheReader :=
  mkReader (r_key r) (r_firstKey r) (r_dir r) (r_info r) (r_offset r) (r_following r) (r_version r) (r_versionSet r) (r_fragmentIndex r) v (r_totalLen r) (r_buf r) (r_readErr r) (r_ram r) (r_doc r).
Definition set_r_totalLen (v : Z) (r : CacheReader) : CacheReader :=
  mkReader (r_key r) (r_firstKey r) (r_dir r) (r_info r) (r_offset r) (r_following r) (r_version r) (r_versionSet r) (r_fragmentIndex r) (r_totalRead r) v (r_buf r) (r_readErr r) (r_ram r) (r_doc r).
Definition set_r_buf (v : bytes) (r : CacheReader) : CacheReader :=
  mkReader (r_key r) (r_firstKey r) (r_dir r) (r_info r) (r_offset r) (r_following r) (r_version r) (r_versionSet r) (r_fragmentIndex r) (r_totalRead r) (r_totalLen r) v (r_readErr r) (r_ram r) (r_doc r).
Definition set_r_readErr (v : option error) (r : CacheReader) : CacheReader :=
  mkReader (r_key r) (r_firstKey r) (r_dir r) (r_info r) (r_offset r) (r_following r) (r_version r) (r_versionSet r) (r_fragmentIndex r) (r_totalRead r) (r_totalLen r) (r_buf r) v (r_ram r) (r_doc r).
Definition set_r_ram (v : option ramEntry) (r : CacheReader) : CacheReader :=
  mkReader (r_key r) (r_firstKey r) (r_dir r) (r_info r) (r_offset r) (r_following r) (r_version r) (r_versionSet r) (r_fragmentIndex r) (r_totalRead r) (r_totalLen r) (r_buf r) (r_readErr r) v (r_doc r).
Definition set_r_doc (v : option Doc) (r : CacheReader) : CacheReader :=
  mkReader (r_key r) (r_firstKey r) (r_dir r) (r_info r) (r_offset r) (r_following r) (r_version r) (r_versionSet r) (r_fragmentIndex r) (r_totalRead r) (r_totalLen r) (r_buf r) (r_readErr r) (r_ram r) v.

Definition NewCacheReader (key : bytes) : CacheReader :=
  mkReader key key emptyDir None 0 false 0 false 0 0 0 [] None None None.

Definition NewCacheReaderFromWriter (key : bytes) (w : CacheWriter) : CacheReader :=
  mkReader key key emptyDir (w_info w) 0 true (w_version w) true 0 0 0 [] None None None.

(** ** The place fragments come from *)

(** What a fetch leaves in the reader. *)
Record fetched : Type := mkFetched { f_dir : Dir; f_buf : bytes; f_ram : option ramEntry }.

Class FragmentSource (St : Type) : Type := {
  src_fetch : St -> bytes -> option (St * result fetched);
  src_bound : St -> Z;
  src_note : St -> Dir -> bytes -> St;
  (** A source at rest, and the record it stores under a key. *)
  src_ok : St -> Prop;
  src_content : St -> bytes -> option bytes;
  src_fetch_law st key v : src_ok st -> src_content st key = Some v -> exists st' f,
    src_fetch st key = Some (st', Ok f) /\ f_buf f = v /\ (f_ram f = None \/ f_ram f = Some (newRAMEntry v)) /\
    src_ok st' /\ src_bound st' = src_bound st /\ forall k, src_content st' k = src_content st k;
  src_note_law st d key : src_ok st -> src_ok (src_note st d key) /\ src_bound (src_note st d key) = src_bound st /\
    forall k, src_content (src_note st d key) k = src_content st k }.

Section Reader.
Context {St : Type} `{FragmentSource St}.

Definition parseDocFromBuf (r : CacheReader) : CacheReader * result Doc :=
  match r_doc r with
  | Some d => (r, Ok d)
  | None =>
      if blen (r_buf r) <? DocHeaderSize then (r, Err (Errorf "buffer too small for doc header"))
      else match Doc.UnmarshalBinary (slice (r_buf r) 0 DocHeaderSize) with
      | Err e => (r, Err e)
      | Ok d => (set_r_doc (Some d) r, Ok d)
      end
  end.

(** The chain checks of [parseDoc] for the current fragment. *)
Definition chainError (r : CacheReader) (doc : Doc) : option string :=
  let idx := u64 (r_fragmentIndex r) in
  if r_fragmentIndex r =? 0 then
    if negb (DataLen doc =? Z.min (TotalLen doc) TargetFragmentSize) then Some "invalid head fragment length" else None
  else
    let stop := u64 (u64 (idx * TargetFragmentSize) + DataLen doc) in
    if negb (HLen doc =? 0) || (DataLen doc =? 0) || negb (TotalLen doc =? stop) then Some "invalid fragment chain"
    else if negb (r_following r) &&
            ((r_totalLen r <? stop) ||
             negb (DataLen doc =? Z.min TargetFragmentSize (u64 (r_totalLen r - u64 (idx * TargetFragmentSize)))))
    then Some "inconsistent fragment chain length" else None.

Definition docVersion (doc : Doc) : Z := Z.lor (Z.shiftl (SyncSerial doc) 32) (WriteSerial doc).

Definition parseDoc (bound : Z) (r : CacheReader) : CacheReader * result unit :=
  let '(r, d) := parseDocFromBuf r in
  match d with
  | Err e => (r, Err e)
  | Ok doc =>
      match Doc.validate doc (r_buf r) with
      | Err e => (r, Err e)
      | Ok _ =>
          if negb (bool_decide (Key doc = docKey (r_key r))) || negb (bool_decide (FirstKey doc = docKey (r_firstKey r)))
          then (r, Err (Errorf "cache document identity mismatch"))
          else if u64 bound <? TotalLen doc then (r, Err (Errorf "cache object exceeds stripe bounds"))
          else match chainError r doc with
          | Some msg => (r, Err (Errorf msg))
          | None =>
              let version := docVersion doc in
              if r_versionSet r && negb (r_version r =? version) then (r, Err (Errorf "cache object replaced during read"))
              else
                let r := set_r_versionSet true (set_r_version version r) in
                let r := if r_fragmentIndex r =? 0 then set_r_totalLen (TotalLen doc) r else r in
                let r := if Doc.Len doc <? blen (r_buf r) then set_r_buf (slice (r_buf r) 0 (Doc.Len doc)) r else r in
                (r, Ok tt)
          end
      end
  end.

(** A failed load leaves no bytes for a later [Read]. *)
Definition loadFailed (e : error) (r : CacheReader) : CacheReader := set_r_readErr (Some e) (set_r_buf [] r).

Definition loadFragment (st : St) (r : CacheReader) (idx : Z) : option (St * CacheReader * result unit) :=
  let r := set_r_doc None (set_r_ram None r) in
  let r := set_r_fragmentIndex idx (set_r_key (FragmentKey (r_firstKey r) idx) r) in
  '(st, f) ← src_fetch st (r_key r);
  match f with
  | Err e => Some (st, loadFailed e r, Err e)
  | Ok f =>
      let r := set_r_ram (f_ram f) (set_r_buf (f_buf f) (set_r_dir (f_dir f) r)) in
      let '(r, x) := parseDoc (src_bound st) r in
      match x with
      | Err e => Some (st, loadFailed e r, Err e)
      | Ok _ => Some (src_note st (r_dir r) (r_key r), r, Ok tt)
      end
  end.

(** ** Metadata *)

(** The part of [LoadHTTPInfo] after the load. *)
Definition decodeInfo (r : CacheReader) : CacheReader * result CacheHTTPInfo :=
  let '(r, d) := parseDocFromBuf r in
  match d with
  | Err e => (r, Err e)
  | Ok doc =>
      let cached := match r_ram r with
                    | Some e => match re_info e with
                                | Some i => if re_checksum e =? Checksum doc then Some i else None
                                | None => None
                                end
                    | None => None
                    end in
      match cached with
      | Some i => (set_r_info (Some i) r, Ok i)
      | None =>
          if 0 <? HLen doc then
            let infoEnd := DocHeaderSize + HLen doc in
            if infoEnd <=? blen (r_buf r) then
              match HttpInfo.UnmarshalBinary (slice (r_buf r) DocHeaderSize infoEnd) with
              | Err e => (r, Err e)
              | Ok i => (set_r_info (Some i) r, Ok i)
              end
            else (r, Err (Errorf "buffer too small for http info"))
          else (set_r_info (Some NewCacheHTTPInfo) r, Ok NewCacheHTTPInfo)
      end
  end.

(** [LoadHTTPInfo]; [w] is the writer the reader follows.  The metadata of a
    followed writer may be nil. *)
Definition LoadHTTPInfo (st : St) (r : CacheReader) (w : option CacheWriter)
    : option (St * CacheReader * option CacheHTTPInfo * option error) :=
  match r_readErr r, r_info r, w with
  | Some e, _, _ => Some (st, r, None, Some e)
  | None, Some i, _ => Some (st, r, Some i, None)
  | None, None, Some w => Some (st, r, w_info w, w_err w)
  | None, None, None =>
      '(st, r, x) ← loadFragment st r 0;
      match x with
      | Err e => Some (st, r, None, Some e)
      | Ok _ =>
          let '(r, i) := decodeInfo r in
          match i with Ok i => Some (st, r, Some i, None) | Err e => Some (st, r, None, Some e) end
      end
  end.

(** ** The stream *)

(** The loop of [Read] for a buffer with room for [n] more bytes; [got] holds
    the bytes copied so far. *)
Fixpoint readLoop (fuel : nat) (st : St) (r : CacheReader) (n : Z) (got : bytes)
    : option (St * CacheReader * bytes * option error) :=
  match fuel with
  | O => None
  | S fuel =>
      if n <=? 0 then Some (st, r, got, None)
      else
        let finished r := r_totalLen r <=? u64 (r_totalRead r) in
        let ended st r := if bool_decide (got = []) then Some (st, r, [], Some ErrEOF) else Some (st, r, got, None) in
        let copy st r :=
          let '(r, d) := parseDocFromBuf r in
          match d with
          | Err e => Some (st, r, got, Some e)
          | Ok doc =>
              let dataStart := DocHeaderSize + HLen doc in
              let available := blen (r_buf r) - dataStart - r_offset r in
              if available <=? 0 then
                if finished r then ended st r else readLoop fuel st (set_r_buf [] r) n got
              else
                let toRead := Z.min n available in
                let src := slice (r_buf r) (dataStart + r_offset r) (dataStart + r_offset r + toRead) in
                readLoop fuel st (set_r_totalRead (r_totalRead r + toRead) (set_r_offset (r_offset r + toRead) r))
                  (n - toRead) (got ++ src)
          end in
        if blen (r_buf r) =? 0 then
          if finished r then ended st r
          else
            '(st, r, x) ← loadFragment st (set_r_fragmentIndex (r_fragmentIndex r + 1) r) (r_fragmentIndex r + 1);
            match x with
            | Err e => Some (st, r, got, Some e)
            | Ok _ => copy st (set_r_offset 0 r)
            end
        else copy st r
  end.

Definition readFuel (n : Z) : nat := (2 * Z.to_nat n + 4)%nat.

(** The deferred function of [Read]. *)
Definition readDone (x : St * CacheReader * bytes * option error) : St * CacheReader * bytes * option error :=
  let '(st, r, got, e) := x in
  match e with
  | Some e => if decide (e = ErrEOF) then (st, r, got, Some e) else (st, set_r_buf [] (set_r_readErr (Some e) r), got, Some e)
  | None => (st, r, got, None)
  end.

(** [Read] of a reader that follows no writer, into a buffer of [n] bytes. *)
Definition Read (st : St) (r : CacheReader) (n : Z) : option (St * CacheReader * bytes * option error) :=
  match r_readErr r with
  | Some e => Some (st, r, [], Some e)
  | None =>
      x ← (if blen (r_buf r) =? 0 then
             '(st, r, x) ← loadFragment st r 0;
             match x with
             | Err e => Some (st, r, [], Some e)
             | Ok _ => readLoop (readFuel n) st (set_r_fragmentIndex 0 r) n []
             end
           else readLoop (readFuel n) st r n []);
      Some (readDone x)
  end.

(** The part of [readFromWriter] for bytes that are no longer in the writer. *)
Definition readStored (st : St) (r : CacheReader) (n : Z) : option (St * CacheReader * bytes * option error) :=
  let fragIdx := Z.quot (r_totalRead r) TargetFragmentSize in
  let fragOffset := Z.rem (r_totalRead r) TargetFragmentSize in
  '(st, r, x) ← loadFragment st r fragIdx;
  match x with
  | Err e => Some (st, r, [], Some e)
  | Ok _ =>
      let '(r, d) := parseDocFromBuf r in
      match d with
      | Err e => Some (st, r, [], Some e)
      | Ok doc =>
          let dataStart := DocHeaderSize + HLen doc in
          let available := blen (r_buf r) - dataStart - fragOffset in
          if available <=? 0 then Some (st, r, [], Some (Errorf "inconsistent state: writer said disk, but disk empty"))
          else
            let toRead := Z.min n available in
            Some (st, set_r_totalRead (r_totalRead r + toRead) r,
                  slice (r_buf r) (dataStart + fragOffset) (dataStart + fragOffset + toRead), None)
      end
  end.

(** [Read] of a reader that follows the writer [w], from one wake-up of
    [ReadAtContext] to the next: [inl] parks the reader. *)
Fixpoint readFromWriter (fuel : nat) (ctxErr : option error) (w : CacheWriter) (st : St) (r : CacheReader) (n : Z)
    : option (CacheReader + St * CacheReader * bytes * option error) :=
  match fuel with
  | O => None
  | S fuel =>
      match ReadAtContext ctxErr w (r_totalRead r) n with
      | Wait => Some (inl r)
      | Return (Err e) =>
          if decide (e = ErrReadFromDisk) then x ← readStored st r n; Some (inr (readDone x))
          else Some (inr (readDone (st, r, [], Some e)))
      | Return (Ok p) =>
          if 0 <? blen p then Some (inr (st, set_r_totalRead (r_totalRead r + blen p) r, p, None))
          else readFromWriter fuel ctxErr w st r n
      end
  end.

Definition ReadFollowing (fuel : nat) (ctxErr : option error) (w : CacheWriter) (st : St) (r : CacheReader) (n : Z)
    : option (CacheReader + St * CacheReader * bytes * option error) :=
  match r_readErr r with
  | Some e => Some (inr (st, r, [], Some e))
  | None => readFromWriter fuel ctxErr w st r n
  end.

(** An empty buffer is never filled: the loop does not end. *)
Lemma empty_read_spins fuel ctxErr w st r : readFromWriter fuel ctxErr w st r 0 = None.
Proof. induction fuel as [|fuel IH]; [done|]. exact IH. Qed.

End Reader.
