(* ===== verification/ReaderSpec.v ===== *)
(** * What a cache reader delivers

    A reader of a stored object delivers exactly the bytes and the metadata
    its writer was given, however the caller sizes its buffers. *)

From S2P Require Import Prelude Hash Dir Doc DirTrie DirManager HttpInfo RamCache File AggBuffer OpenDir Evacuation Stripe CacheWriter WriterSpec FragmentWriter CacheReader.

(** ** The record of a fragment *)

(** The inputs for which a record can be built and read back. *)
Record storable (ver total : Z) (data info : bytes) : Prop := {
  sb_bytes : bytes_ok data /\ bytes_ok info;
  sb_data : blen data <= TargetFragmentSize;
  sb_size : DocHeaderSize + (blen info + blen data) <= AggBufferSize;
  sb_ver : fits 64 ver;
  sb_total : fits 64 total }.

Lemma fragmentDoc_sealable key ver total idx data info :
  storable ver total data info -> sealable (fragmentDoc key ver total idx data info) (info ++ data).
Proof.
  intros [[H1 H2] H3 H4 H5 H6]. pose proof (blen_nonneg data). pose proof (blen_nonneg info).
  unfold sealable, fragmentDoc, doc_ok. cbn. unfold AggBufferSize, TargetFragmentSize, DocHeaderSize in *.
  rewrite (u32_small (72 + _)), (u32_small (blen info)), (u64_small total), blen_app by (done || unfold fits; lia).
  split_and!; try done; try apply length_docKey; try apply docKey_ok; try (by apply Forall_app); try apply u32_fits; try (unfold fits; lia).
Qed.

Lemma fragmentDoc_DataLen key ver total idx data info c :
  storable ver total data info -> DataLen (setChecksum (fragmentDoc key ver total idx data info) c) = blen data.
Proof.
  intros S. destruct (fragmentDoc_sealable key ver total idx data info S) as ((_ & HL & _ & _ & _ & HH & _) & _ & _ & _ & _ & _ & _ & _ & Hlen & _ & Hh & _).
  destruct S as [_ H3 H4 _ _]. pose proof (blen_nonneg data). pose proof (blen_nonneg info).
  change (DataLen (setChecksum ?d c)) with (DataLen d). rewrite DataLen_eq; [|done|unfold fits in HH; rewrite Hlen, blen_app; rewrite blen_app in Hh; lia].
  rewrite Hlen, blen_app. cbn. unfold AggBufferSize, DocHeaderSize in *. rewrite u32_small by (unfold fits; lia). lia.
Qed.

Lemma docVersion_fragment key ver total idx data info c :
  fits 64 ver -> docVersion (setChecksum (fragmentDoc key ver total idx data info) c) = ver.
Proof.
  intros Hv. unfold docVersion, fragmentDoc. cbn. unfold u32. apply Z.bits_inj'. intros n Hn.
  rewrite Z.lor_spec, Z.shiftl_spec by lia. unfold fits in Hv.
  destruct (decide (n < 32)).
  - rewrite (Z.testbit_neg_r _ (n - 32)) by lia. by rewrite Z.mod_pow2_bits_low by lia.
  - rewrite (Z.mod_pow2_bits_high ver 32 n) by lia. rewrite orb_false_r.
    destruct (decide (n < 64)).
    + rewrite Z.mod_pow2_bits_low, Z.shiftr_spec by lia. f_equal. lia.
    + rewrite Z.mod_pow2_bits_high by lia. symmetry. apply Z.testbit_false; [lia|]. rewrite Z.div_small; [done|].
      split; [lia|]. apply Z.lt_le_trans with (2 ^ 64); [lia|]. apply Z.pow_le_mono_r; lia.
Qed.

Lemma blen_fragmentRecord key ver total idx data info :
  storable ver total data info -> blen (fragmentRecord key ver total idx data info) = DocHeaderSize + (blen info + blen data).
Proof.
  intros S. unfold fragmentRecord, record. rewrite blen_app, blen_MarshalBinary, blen_app; [done|].
  by apply seal_doc_ok, fragmentDoc_sealable.
Qed.

(** The header decoded from a record, and the record's own checks. *)
Definition storedDoc (key : bytes) (ver total idx : Z) (data info : bytes) : Doc :=
  seal (fragmentDoc key ver total idx data info) (info ++ data).

Lemma decode_fragmentRecord key ver total idx data info :
  storable ver total data info ->
  Doc.UnmarshalBinary (slice (fragmentRecord key ver total idx data info) 0 DocHeaderSize) = Ok (storedDoc key ver total idx data info) /\
  validate (storedDoc key ver total idx data info) (fragmentRecord key ver total idx data info) = Ok tt.
Proof.
  intros S%(fragmentDoc_sealable key _ _ idx). split; [|by apply validate_seal]. unfold slice. rewrite drop_0.
  by apply Doc_decode_header, seal_doc_ok.
Qed.

Section ReaderSpec.
Context {St : Type} `{FragmentSource St}.

(** ** Stored objects *)

(** The source [st] stores the object [D] with the metadata [info]: every
    fragment the reference lists is there. *)
Record object (st : St) (key : bytes) (ver : Z) (D info : bytes) : Prop := {
  ob_ok : src_ok st;
  ob_bytes : bytes_ok D /\ bytes_ok info;
  ob_info : DocHeaderSize + (blen info + TargetFragmentSize) <= AggBufferSize;
  ob_bound : blen D <= src_bound st < 2 ^ 63;
  ob_ver : fits 64 ver;
  ob_frags : forall c, c ∈ fragments D info ->
    src_content st (FragmentKey key (fc_idx c)) = Some (fragmentRecord key ver (fc_total c) (fc_idx c) (fc_data c) (fc_info c)) }.

(** The part of it that does not depend on the source. *)
Record sound (ver : Z) (D info : bytes) : Prop := {
  so_bytes : bytes_ok D /\ bytes_ok info;
  so_info : DocHeaderSize + (blen info + TargetFragmentSize) <= AggBufferSize;
  so_len : blen D < 2 ^ 63;
  so_ver : fits 64 ver }.

Lemma object_sound st key ver D info : object st key ver D info -> sound ver D info.
Proof. intros [? ? ? ? ? ?]. split; try done. lia. Qed.

Lemma object_same st st' key ver D info :
  src_ok st' -> src_bound st' = src_bound st -> (forall k, src_content st' k = src_content st k) ->
  object st key ver D info -> object st' key ver D info.
Proof. intros H1 H2 H3 [? ? ? ? ? H4]. split; try done; [by rewrite H2|]. intros c Hc. rewrite H3. eauto. Qed.

Definition fragInfo (info : bytes) (i : Z) : bytes := if i =? 0 then info else [].
Definition fragTotal (D : bytes) (i : Z) : Z := if i =? 0 then blen D else fragEnd D i.

Lemma object_frag st key ver D info i :
  object st key ver D info -> 0 <= i < fragCount D ->
  src_content st (FragmentKey key i) = Some (fragmentRecord key ver (fragTotal D i) i (frag D i) (fragInfo info i)).
Proof.
  intros O Hi. unfold fragTotal, fragInfo. destruct (i =? 0) eqn:E; b2p.
  - subst. apply (ob_frags _ _ _ _ _ O (mkCall 0 (frag D 0) info (blen D))). unfold fragments. set_solver.
  - apply (ob_frags _ _ _ _ _ O (mkCall i (frag D i) [] (fragEnd D i))). unfold fragments. apply elem_of_app. left.
    apply list_elem_of_In, in_map_iff. exists i. split; [done|]. apply list_elem_of_In, elem_of_seqZ. lia.
Qed.

(** Where fragment [i] lies in the object. *)
Lemma fragCount_last D i : 0 <= i < fragCount D -> i * TargetFragmentSize <= blen D /\ (0 < i -> i * TargetFragmentSize < blen D).
Proof.
  unfold fragCount. intros Hi. pose proof T_pos as HT. pose proof (blen_nonneg D).
  destruct (decide (i = 0)) as [->|]; [lia|].
  assert (i <= (blen D + TargetFragmentSize - 1) / TargetFragmentSize - 1) as Hd by lia.
  assert ((i + 1) * TargetFragmentSize <= blen D + TargetFragmentSize - 1); [|lia].
  etransitivity; [|apply (Z.mul_div_le _ _ HT)]. nia.
Qed.

Lemma blen_frag D i : 0 <= i < fragCount D -> blen (frag D i) = fragEnd D i - i * TargetFragmentSize.
Proof.
  intros Hi. pose proof T_pos. destruct (fragCount_last D i Hi). unfold frag, fragEnd. rewrite blen_slice; lia.
Qed.

Lemma sound_storable ver D info i :
  sound ver D info -> 0 <= i < fragCount D -> storable ver (fragTotal D i) (frag D i) (fragInfo info i).
Proof.
  intros O Hi. destruct (so_bytes _ _ _ O) as [B1 B2]. pose proof (so_info _ _ _ O) as Hinfo.
  pose proof (so_len _ _ _ O). destruct (fragCount_last D i Hi) as [L1 L2]. pose proof T_pos. pose proof (blen_nonneg D).
  pose proof (blen_frag D i Hi) as Hf. unfold fragEnd in Hf. pose proof (blen_nonneg info).
  assert (blen (fragInfo info i) <= blen info) by (unfold fragInfo; destruct (i =? 0); [lia|change (blen []) with 0; lia]).
  split.
  - split; [by apply Forall_take, Forall_drop|]. unfold fragInfo. destruct (i =? 0); [done|by constructor].
  - lia.
  - lia.
  - apply (so_ver _ _ _ O).
  - unfold fragTotal, fits, fragEnd. destruct (i =? 0); lia.
Qed.

(** ** Loading a fragment *)

(** The reader holds fragment [i] of the object. *)
Record loaded (key : bytes) (ver : Z) (D info : bytes) (i : Z) (r : CacheReader) : Prop := {
  ld_key : r_firstKey r = key;
  ld_index : r_fragmentIndex r = i /\ 0 <= i < fragCount D;
  ld_total : r_totalLen r = blen D;
  ld_version : r_versionSet r = true /\ r_version r = ver;
  ld_buf : r_buf r = fragmentRecord key ver (fragTotal D i) i (frag D i) (fragInfo info i);
  ld_doc : r_doc r = Some (storedDoc key ver (fragTotal D i) i (frag D i) (fragInfo info i));
  ld_ram : r_ram r = None \/ r_ram r = Some (newRAMEntry (r_buf r));
  ld_ok : r_readErr r = None /\ r_following r = false }.

(** The reader may load fragment [i]: it is at the start, or it has seen an
    earlier fragment of the same object. *)
Record may_load (key : bytes) (ver : Z) (D : bytes) (i : Z) (r : CacheReader) : Prop := {
  ml_key : r_firstKey r = key;
  ml_version : r_versionSet r = true -> r_version r = ver;
  ml_total : i <> 0 -> r_totalLen r = blen D;
  ml_ok : r_readErr r = None /\ r_following r = false }.

(** What a load leaves alone. *)
Definition samePos (r r' : CacheReader) : Prop :=
  r_offset r' = r_offset r /\ r_totalRead r' = r_totalRead r /\ r_info r' = r_info r.

(** The chain checks accept the fragments of one object. *)
Lemma chainError_sound key ver D info i r c :
  sound ver D info -> 0 <= i < fragCount D -> r_fragmentIndex r = i -> (i <> 0 -> r_totalLen r = blen D) ->
  chainError r (setChecksum (fragmentDoc key ver (fragTotal D i) i (frag D i) (fragInfo info i)) c) = None.
Proof.
  intros O Hi Hx Ht. pose proof (sound_storable _ _ _ _ O Hi) as S. pose proof (fragCount_last D i Hi) as [L1 L2]. pose proof T_pos as HT.
  pose proof (so_len _ _ _ O). pose proof (blen_nonneg D). unfold chainError. rewrite Hx, fragmentDoc_DataLen by done.
  change (TotalLen _) with (u64 (fragTotal D i)). change (HLen _) with (u32 (blen (fragInfo info i))).
  rewrite (u64_small (fragTotal D i)) by apply S. rewrite blen_frag by done. unfold fragTotal, fragInfo, fragEnd. destruct (i =? 0) eqn:E; b2p.
  - subst i. replace (_ =? _) with true by lia. done.
  - specialize (L2 ltac:(lia)). rewrite Ht by done. rewrite (u64_small i), (u64_small (i * _)) by (unfold fits; nia).
    rewrite (u64_small (_ + _)), (u64_small (blen D - _)) by (unfold fits; lia). change (u32 (blen [])) with 0. cbn [negb orb Z.eqb].
    replace (_ =? 0) with false by lia. cbn [orb]. replace (_ =? _) with true by lia. cbn [negb].
    replace (blen D <? _) with false by lia. replace (_ =? _) with true by lia. cbn. by rewrite andb_false_r.
Qed.

(** [parseDoc] accepts the record of a fragment of the object. *)
Lemma parseDoc_sound bound key ver D info i r :
  sound ver D info -> fragTotal D i <= u64 bound -> 0 <= i < fragCount D -> may_load key ver D i r ->
  r_key r = FragmentKey key i -> r_fragmentIndex r = i -> r_doc r = None ->
  r_buf r = fragmentRecord key ver (fragTotal D i) i (frag D i) (fragInfo info i) ->
  (r_ram r = None \/ r_ram r = Some (newRAMEntry (r_buf r))) ->
  exists r', parseDoc bound r = (r', Ok tt) /\ loaded key ver D info i r' /\ samePos r r'.
Proof.
  intros O Hbd Hi [M1 M2 M3 [M4 M5]] Hk Hx Hd Hb Hram. pose proof (sound_storable _ _ _ _ O Hi) as S.
  destruct (decode_fragmentRecord key ver (fragTotal D i) i (frag D i) (fragInfo info i) S) as [Dec Val].
  pose proof (blen_fragmentRecord key ver (fragTotal D i) i (frag D i) (fragInfo info i) S) as Hl.
  pose proof (blen_nonneg (frag D i)). pose proof (blen_nonneg (fragInfo info i)). pose proof (blen_nonneg D).
  unfold parseDoc, parseDocFromBuf. rewrite Hd, Hb, Hl. replace (_ <? DocHeaderSize) with false by (unfold DocHeaderSize in *; lia). rewrite Dec.
  cbn [r_buf set_r_doc]. rewrite Hb, Val. cbn [r_key r_firstKey set_r_doc]. rewrite Hk, M1, !bool_decide_eq_true_2 by done. cbn [negb orb].
  replace (u64 bound <? _) with false by (change (TotalLen _) with (u64 (fragTotal D i)); rewrite (u64_small (fragTotal D i)) by apply S; lia).
  unfold storedDoc, seal. set (r1 := set_r_doc _ r). rewrite chainError_sound by done. cbn [r_versionSet r_version r1 set_r_doc].
  rewrite docVersion_fragment by apply S.
  replace (r_versionSet r && negb (r_version r =? ver)) with false.
  2: { destruct (r_versionSet r); [|done]. rewrite M2 by done. by rewrite Z.eqb_refl. }
  change (Doc.Len (setChecksum ?d _)) with (Doc.Len d). cbn [r1 r_fragmentIndex set_r_doc set_r_versionSet set_r_version]. rewrite Hx.
  assert (Doc.Len (fragmentDoc key ver (fragTotal D i) i (frag D i) (fragInfo info i)) = blen (r_buf r)) as HL.
  { rewrite Hb, Hl. cbn. apply u32_small. pose proof (sb_size _ _ _ _ S). unfold fits, AggBufferSize, DocHeaderSize in *. lia. }
  eexists. split; [reflexivity|]. destruct (i =? 0) eqn:E; b2p;
    cbn [r_buf r1 set_r_totalLen set_r_versionSet set_r_version set_r_doc]; rewrite HL, Z.ltb_irrefl; (split; [split|]; cbn; try done).
  - rewrite u64_small by apply S. unfold fragTotal. by rewrite E.
  - by apply M3.
Qed.

Lemma loadFragment_object st key ver D info i r :
  object st key ver D info -> 0 <= i < fragCount D -> may_load key ver D i r ->
  exists st' r', loadFragment st r i = Some (st', r', Ok tt) /\ object st' key ver D info /\
    src_bound st' = src_bound st /\ loaded key ver D info i r' /\ samePos r r'.
Proof.
  intros O Hi M. unfold loadFragment. cbn [r_key r_firstKey set_r_fragmentIndex set_r_key set_r_doc set_r_ram].
  rewrite (ml_key _ _ _ _ _ M).
  destruct (src_fetch_law st _ _ (ob_ok _ _ _ _ _ O) (object_frag _ _ _ _ _ _ O Hi)) as (st1 & f & -> & Hf & Hr & Ok1 & B1 & C1).
  cbn [mbind option_bind]. pose proof (object_same _ _ _ _ _ _ Ok1 B1 C1 O) as O1.
  assert (fragTotal D i <= u64 (src_bound st1)).
  { pose proof (ob_bound _ _ _ _ _ O1). pose proof (blen_nonneg D). rewrite u64_small by (unfold fits; lia). unfold fragTotal, fragEnd. destruct (i =? 0); lia. }
  destruct (parseDoc_sound (src_bound st1) key ver D info i
    (set_r_ram (f_ram f) (set_r_buf (f_buf f) (set_r_dir (f_dir f) (set_r_fragmentIndex i (set_r_key (FragmentKey key i) (set_r_doc None (set_r_ram None r)))))))
    (object_sound _ _ _ _ _ O1)) as (r' & -> & L & P); try done; [by destruct M|by rewrite <- Hf in Hr|].
  destruct (src_note_law st1 (r_dir r') (r_key r') Ok1) as (Ok2 & B2 & C2). eexists _, _. split; [reflexivity|].
  split_and!; try done; [|by rewrite B2]. by apply (object_same st1).
Qed.

(** ** The stream *)

(** The payload of a record lies after its header and metadata. *)
Lemma record_slice key ver total idx data info a b :
  storable ver total data info -> 0 <= a <= b ->
  slice (fragmentRecord key ver total idx data info) (DocHeaderSize + blen info + a) (DocHeaderSize + blen info + b) = slice data a b.
Proof.
  intros S Ha. pose proof (blen_MarshalBinary _ (seal_doc_ok _ _ (fragmentDoc_sealable key ver total idx data info S))) as Hm.
  unfold fragmentRecord, record. pose proof (blen_nonneg info). unfold slice. rewrite app_assoc, drop_app_ge.
  - f_equal; [lia|]. f_equal. rewrite length_app. unfold blen, DocHeaderSize in *. lia.
  - rewrite length_app. unfold blen, DocHeaderSize in *. lia.
Qed.

(** The reader stands at byte [pos] of the object, inside fragment [i]. *)
Record at_pos (key : bytes) (ver : Z) (D info : bytes) (pos : Z) (r : CacheReader) : Prop := {
  ap_loaded : loaded key ver D info (r_fragmentIndex r) r;
  ap_pos : r_totalRead r = pos /\ pos = r_fragmentIndex r * TargetFragmentSize + r_offset r;
  ap_offset : 0 <= r_offset r <= blen (frag D (r_fragmentIndex r)) }.

(** What the next [Read] of [n] bytes at [pos] should deliver. *)
Definition readStop (D : bytes) (pos n : Z) : Z := Z.min (pos + n) (blen D).
Definition readEnd (D got : bytes) (pos n : Z) : option error :=
  if (0 <? n) && (blen D <=? pos) && bool_decide (got = []) then Some ErrEOF else None.

Lemma slice_split (l : bytes) a b c : 0 <= a <= b -> b <= c -> slice l a b ++ slice l b c = slice l a c.
Proof.
  intros H1 H2. unfold slice. rewrite <- (take_drop (Z.to_nat (b - a)) (take (Z.to_nat (c - a)) (drop (Z.to_nat a) l))).
  rewrite take_take, skipn_firstn_comm, drop_drop. f_equal; [f_equal; lia|]. f_equal; [lia|]. f_equal. lia.
Qed.

Lemma slice_nonempty (l : bytes) a b : 0 <= a < b -> b <= blen l -> slice l a b <> [].
Proof. intros H1 H2 E. pose proof (blen_slice l a b ltac:(lia) H2) as Hl. rewrite E in Hl. change (blen []) with 0 in Hl. lia. Qed.

(** Fragment bounds of a reader that stands at [pos]. *)
Lemma at_pos_bounds key ver D info pos r :
  sound ver D info -> at_pos key ver D info pos r ->
  blen (r_buf r) - (DocHeaderSize + HLen (storedDoc key ver (fragTotal D (r_fragmentIndex r)) (r_fragmentIndex r) (frag D (r_fragmentIndex r)) (fragInfo info (r_fragmentIndex r)))) - r_offset r
    = fragEnd D (r_fragmentIndex r) - pos /\ 0 <= pos <= fragEnd D (r_fragmentIndex r) /\ fragEnd D (r_fragmentIndex r) <= blen D /\
  storable ver (fragTotal D (r_fragmentIndex r)) (frag D (r_fragmentIndex r)) (fragInfo info (r_fragmentIndex r)) /\
  DocHeaderSize + HLen (storedDoc key ver (fragTotal D (r_fragmentIndex r)) (r_fragmentIndex r) (frag D (r_fragmentIndex r)) (fragInfo info (r_fragmentIndex r)))
    = DocHeaderSize + blen (fragInfo info (r_fragmentIndex r)).
Proof.
  intros O [L [P1 P2] Ho]. set (i := r_fragmentIndex r) in *. destruct (ld_index _ _ _ _ _ _ L) as [_ Hi].
  pose proof (sound_storable _ _ _ _ O Hi) as S. pose proof (sb_size _ _ _ _ S). pose proof (blen_frag D i Hi) as Hf. pose proof T_pos.
  pose proof (blen_nonneg (frag D i)). pose proof (blen_nonneg (fragInfo info i)).
  change (HLen (storedDoc _ _ _ _ _ _)) with (u32 (blen (fragInfo info i))). rewrite u32_small by (unfold fits, AggBufferSize, DocHeaderSize in *; lia).
  rewrite (ld_buf _ _ _ _ _ _ L), blen_fragmentRecord by done. split_and!; try lia; try done. unfold fragEnd. lia.
Qed.

(** Copying [k] bytes from the current fragment. *)
Lemma at_pos_copy key ver D info pos r k :
  sound ver D info -> at_pos key ver D info pos r -> 0 < k <= fragEnd D (r_fragmentIndex r) - pos ->
  let ds := DocHeaderSize + HLen (storedDoc key ver (fragTotal D (r_fragmentIndex r)) (r_fragmentIndex r) (frag D (r_fragmentIndex r)) (fragInfo info (r_fragmentIndex r))) in
  slice (r_buf r) (ds + r_offset r) (ds + r_offset r + k) = slice D pos (pos + k) /\
  at_pos key ver D info (pos + k) (set_r_totalRead (r_totalRead r + k) (set_r_offset (r_offset r + k) r)).
Proof.
  intros O A Hk. destruct (at_pos_bounds _ _ _ _ _ _ O A) as (B1 & B2 & B3 & S & ->). cbn zeta. destruct A as [L [P1 P2] Ho].
  destruct (ld_index _ _ _ _ _ _ L) as [_ Hi]. pose proof (blen_frag _ _ Hi) as Hf. pose proof T_pos. split.
  - rewrite (ld_buf _ _ _ _ _ _ L), <- (Z.add_assoc (DocHeaderSize + _) _ k), record_slice by (done || lia). unfold frag. rewrite slice_slice by lia. f_equal; lia.
  - split; cbn; [by destruct L; split|lia|lia].
Qed.

(** The next fragment, when the current one is exhausted. *)
Lemma next_fragment D i : 0 <= i < fragCount D -> fragEnd D i < blen D ->
  0 <= i + 1 < fragCount D /\ fragEnd D i = (i + 1) * TargetFragmentSize /\ fragEnd D i < fragEnd D (i + 1).
Proof.
  unfold fragEnd, fragCount. intros Hi He. pose proof T_pos as HT. split_and!; try lia.
  assert ((i + 1) < (blen D + TargetFragmentSize - 1) / TargetFragmentSize); [|lia].
  assert (i + 1 + 1 <= (blen D + TargetFragmentSize - 1) / TargetFragmentSize); [|lia]. apply Z.div_le_lower_bound; lia.
Qed.

(** ** The loop over any source

    The loop only relies on what a load of the next fragment does: over the
    sources [live], it delivers the fragment of version [ver] with metadata of
    the set [metas], or fails as [fails] allows. *)

Section Loop.
Context (live : St -> Prop) (key : bytes) (ver : Z) (D : bytes) (metas : bytes -> Prop) (fails : error -> Prop).
Hypothesis metas_sound : forall info, metas info -> sound ver D info.

Definition loads : Prop := forall st r i, live st -> 0 <= i < fragCount D -> may_load key ver D i r -> r_versionSet r = true ->
  exists st' r' x, loadFragment st r i = Some (st', r', x) /\ live st' /\
    match x with Ok _ => exists info, metas info /\ loaded key ver D info i r' /\ samePos r r' | Err e => fails e end.
Hypothesis Hload : loads.

(** The contract of the loop with [fuel] iterations. *)
Definition delivered (r : CacheReader) (pos n : Z) (got : bytes) (x : St * CacheReader * bytes * option error) : Prop :=
  let '(st', r', p, e) := x in live st' /\ exists q, p = got ++ slice D pos q /\
    ((q = readStop D pos n /\ e = readEnd D got pos n /\ r_info r' = r_info r /\ exists info, metas info /\ at_pos key ver D info (Z.max pos q) r') \/
     (exists err, e = Some err /\ fails err /\ pos <= q <= readStop D pos n)).

Definition loopOk (fuel : nat) : Prop := forall st r pos n got info,
  live st -> metas info -> at_pos key ver D info pos r -> 0 <= n -> (2 * Z.to_nat n + 2 <= fuel)%nat ->
  exists x, readLoop fuel st r n got = Some x /\ delivered r pos n got x.

Lemma loop_copy fuel st r pos n got info :
  loopOk fuel -> live st -> metas info -> at_pos key ver D info pos r ->
  0 < n -> (2 * Z.to_nat n <= fuel)%nat -> pos < fragEnd D (r_fragmentIndex r) ->
  let k := Z.min n (fragEnd D (r_fragmentIndex r) - pos) in
  exists x, readLoop fuel st (set_r_totalRead (r_totalRead r + k) (set_r_offset (r_offset r + k) r)) (n - k) (got ++ slice D pos (pos + k)) = Some x /\
    delivered r pos n got x.
Proof.
  intros IH L M A Hn Hf Hlt k. destruct (at_pos_bounds _ _ _ _ _ _ (metas_sound _ M) A) as (_ & B2 & B3 & _).
  assert (0 < k <= fragEnd D (r_fragmentIndex r) - pos) as Hk by lia.
  destruct (at_pos_copy _ _ _ _ _ _ k (metas_sound _ M) A Hk) as [_ A'].
  destruct (IH st _ (pos + k) (n - k) (got ++ slice D pos (pos + k)) info L M A' ltac:(lia) ltac:(lia)) as ([[[st' r'] p] e] & E & L' & q & -> & Hq).
  eexists. split; [exact E|]. split; [done|]. assert (readStop D (pos + k) (n - k) = readStop D pos n) as Hs by (unfold readStop; lia). rewrite Hs in Hq.
  assert (pos + k <= readStop D pos n) by (unfold readStop; lia). exists q.
  assert (pos + k <= q) by (destruct Hq as [(-> & _)|(? & _ & _ & ?)]; lia). rewrite <- app_assoc, slice_split by lia. split; [done|].
  destruct Hq as [(-> & -> & Hi & info' & M' & A2)|(err & -> & Hf' & Hr)]; [left|right; exists err; split_and!; done || lia].
  split_and!; [done| |done|exists info'; by replace (Z.max pos _) with (Z.max (pos + k) (readStop D pos n)) by lia].
  unfold readEnd. replace (blen D <=? pos) with false by lia. rewrite andb_false_r, (bool_decide_eq_false_2 (_ = [])); [by rewrite andb_false_r|].
  intros [_ X]%app_eq_nil. revert X. apply slice_nonempty; lia.
Qed.

Lemma readLoop_spec fuel : loopOk fuel.
Proof.
  induction fuel as [fuel IH] using lt_wf_ind. intros st r pos n got info L M A Hn Hf. destruct fuel as [|fuel]; [lia|]. cbn [readLoop].
  pose proof (metas_sound _ M) as O. destruct (at_pos_bounds _ _ _ _ _ _ O A) as (Hav & B2 & B3 & S & Hds).
  pose proof (ap_loaded _ _ _ _ _ _ A) as Ld. destruct (ap_pos _ _ _ _ _ _ A) as [P1 P2]. destruct (ld_index _ _ _ _ _ _ Ld) as [_ Hi].
  pose proof (so_len _ _ _ O) as Hbd. pose proof (blen_nonneg D) as HD.
  destruct (n <=? 0) eqn:En; b2p.
  { assert (n = 0) as -> by lia. eexists. split; [done|]. split; [done|]. exists pos. unfold readEnd, readStop. rewrite Z.add_0_r, Z.min_l, Z.max_id by lia.
    unfold slice at 1. rewrite Z.sub_diag. cbn. rewrite app_nil_r. split; [done|]. left. split_and!; try done. by exists info. }
  assert (0 < blen (r_buf r)) as Hbuf.
  { rewrite (ld_buf _ _ _ _ _ _ Ld), blen_fragmentRecord by done. unfold DocHeaderSize. pose proof (blen_nonneg (frag D (r_fragmentIndex r))). pose proof (blen_nonneg (fragInfo info (r_fragmentIndex r))). lia. }
  replace (blen (r_buf r) =? 0) with false by lia. unfold parseDocFromBuf at 1. rewrite (ld_doc _ _ _ _ _ _ Ld), Hav.
  destruct (_ - pos <=? 0) eqn:Ea; b2p.
  2: { destruct (at_pos_copy _ _ _ _ _ _ (Z.min n (fragEnd D (r_fragmentIndex r) - pos)) O A ltac:(lia)) as [-> _].
       apply (loop_copy _ _ _ _ _ _ info); try done; [apply IH; lia|lia|lia]. }
  rewrite (ld_total _ _ _ _ _ _ Ld), P1, u64_small by (unfold fits; lia). destruct (blen D <=? pos) eqn:Efin; b2p.
  { assert (forall l : bytes, l ++ slice D pos (readStop D pos n) = l) as Hnil.
    { intros l. unfold readStop, slice. rewrite Z.min_r by lia. replace (blen D - pos) with 0 by lia. apply app_nil_r. }
    assert (Z.max pos (readStop D pos n) = pos) as Hmax by (unfold readStop; lia).
    assert (readEnd D got pos n = if bool_decide (got = []) then Some ErrEOF else None) as Hend.
    { unfold readEnd. replace (blen D <=? pos) with true by lia. by replace (0 <? n) with true by lia. }
    destruct (bool_decide_reflect (got = [])) as [->|]; (eexists; split; [done|]; split; [done|]; exists (readStop D pos n); rewrite Hnil, Hmax; split; [done|]; left; split_and!; try done; by exists info). }
  destruct fuel as [|fuel]; [lia|]. cbn [readLoop]. replace (n <=? 0) with false by lia. cbn [r_buf set_r_buf].
  change (blen [] =? 0) with true. cbn [r_totalLen r_totalRead set_r_buf r_fragmentIndex]. rewrite (ld_total _ _ _ _ _ _ Ld), P1, u64_small by (unfold fits; lia).
  replace (blen D <=? pos) with false by lia.
  destruct (next_fragment D (r_fragmentIndex r) Hi ltac:(lia)) as (Hi' & Hend & Hlt).
  destruct (Hload st (set_r_fragmentIndex (r_fragmentIndex r + 1) (set_r_buf [] r)) (r_fragmentIndex r + 1) L Hi') as (st1 & r1 & x & -> & L1 & Hx).
  { destruct Ld as [Q1 _ Q2 [Q3 Q4] _ _ _ Q5]. by split. } { by destruct (ld_version _ _ _ _ _ _ Ld). }
  cbn [mbind option_bind]. destruct x as [[]|e].
  2: { eexists. split; [done|]. split; [done|]. exists pos. unfold slice. rewrite Z.sub_diag. cbn. rewrite app_nil_r. split; [done|]. right. exists e. unfold readStop. split_and!; done || lia. }
  destruct Hx as (info1 & M1 & Ld1 & (Q1 & Q2 & Q3)). destruct (ld_index _ _ _ _ _ _ Ld1) as [Hx1 _].
  assert (at_pos key ver D info1 pos (set_r_offset 0 r1)) as A1.
  { split; cbn.
    - rewrite Hx1. destruct Ld1; by split.
    - rewrite Q2, Hx1. cbn. lia.
    - pose proof (blen_nonneg (frag D (r_fragmentIndex r1))). lia. }
  unfold parseDocFromBuf. rewrite (ld_doc _ _ _ _ _ _ (ap_loaded _ _ _ _ _ _ A1)).
  destruct (at_pos_bounds _ _ _ _ _ _ (metas_sound _ M1) A1) as (-> & B2' & _). cbn [r_fragmentIndex set_r_offset] in *. rewrite Hx1 in *.
  destruct (_ - pos <=? 0) eqn:Ea'; b2p; [lia|].
  destruct (at_pos_copy _ _ _ _ _ _ (Z.min n (fragEnd D (r_fragmentIndex r + 1) - pos)) (metas_sound _ M1) A1 ltac:(cbn; rewrite Hx1; lia)) as [Es _].
  cbn [r_fragmentIndex set_r_offset] in Es. rewrite Hx1 in Es. rewrite Es.
  destruct (loop_copy fuel st1 (set_r_offset 0 r1) pos n got info1 (IH fuel ltac:(lia)) L1 M1 A1 ltac:(lia) ltac:(lia)) as (y & E & Hy).
  { cbn. rewrite Hx1. lia. }
  cbn [r_fragmentIndex set_r_offset] in E. rewrite Hx1 in E. exists y. rewrite E. split; [done|].
  destruct y as [[[? ?] ?] ?], Hy as (? & q & ? & Hq). split; [done|]. exists q. split; [done|]. cbn in Hq, Q3. rewrite Q3 in Hq. exact Hq.
Qed.
End Loop.

Lemma object_loads key ver D info : loads (fun st => object st key ver D info) key ver D (eq info) (fun _ => False).
Proof.
  intros st r i O Hi M _. destruct (loadFragment_object st key ver D info i r O Hi M) as (st' & r' & -> & O' & _ & L & P). eexists _, _, _. split; [done|]. split; [done|]. by exists info.
Qed.

(** ** Whole reads *)

Lemma fragCount_pos D : 0 < fragCount D.
Proof. unfold fragCount. lia. Qed.

(** A reader that stands at [pos], or has loaded nothing and stands at 0. *)
Definition standing (key : bytes) (ver : Z) (D info : bytes) (pos : Z) (r : CacheReader) : Prop :=
  at_pos key ver D info pos r \/ (pos = 0 /\ r_buf r = [] /\ may_load key ver D 0 r /\ r_offset r = 0 /\ r_totalRead r = 0).

Lemma at_pos_buf key ver D info pos r :
  sound ver D info -> at_pos key ver D info pos r -> (blen (r_buf r) =? 0) = false.
Proof.
  intros O A. destruct (at_pos_bounds _ _ _ _ _ _ O A) as (_ & _ & _ & S & _). rewrite (ld_buf _ _ _ _ _ _ (ap_loaded _ _ _ _ _ _ A)), blen_fragmentRecord by done.
  pose proof (blen_nonneg (frag D (r_fragmentIndex r))). pose proof (blen_nonneg (fragInfo info (r_fragmentIndex r))). unfold DocHeaderSize. lia.
Qed.

(** Fragment 0 just loaded. *)
Lemma at_pos_first key ver D info r :
  loaded key ver D info 0 r -> r_offset r = 0 -> r_totalRead r = 0 -> at_pos key ver D info 0 (set_r_fragmentIndex 0 r).
Proof.
  intros L Ho Ht. pose proof (blen_nonneg (frag D 0)). split; cbn; [|lia|lia]. destruct L as [? [? ?] ? ? ? ? ? ?]. by split.
Qed.

Lemma Read_spec st key ver D info pos r n :
  object st key ver D info -> standing key ver D info pos r -> 0 <= n ->
  exists st' r', Read st r n = Some (st', r', slice D pos (readStop D pos n), readEnd D [] pos n) /\
    object st' key ver D info /\ at_pos key ver D info (Z.max pos (readStop D pos n)) r'.
Proof.
  intros O HS Hn. unfold Read.
  assert (forall e, readEnd D [] pos n = Some e -> e = ErrEOF) as He by (unfold readEnd; intros e; destruct (_ && _); congruence).
  assert (forall (st1 : St) r1, readDone (st1, r1, slice D pos (readStop D pos n), readEnd D [] pos n) = (st1, r1, slice D pos (readStop D pos n), readEnd D [] pos n)) as Hdone.
  { intros st1 r1. unfold readDone. destruct (readEnd D [] pos n) as [e|] eqn:E; [|done]. rewrite (He e eq_refl). by case_decide. }
  assert (forall st1 r1, object st1 key ver D info -> at_pos key ver D info pos r1 -> exists st' r',
    (x ← readLoop (readFuel n) st1 r1 n []; Some (readDone x)) = Some (st', r', slice D pos (readStop D pos n), readEnd D [] pos n) /\
    object st' key ver D info /\ at_pos key ver D info (Z.max pos (readStop D pos n)) r') as Hloop.
  { intros st1 r1 O1 A1. destruct (readLoop_spec _ key ver D (eq info) (fun _ => False) ltac:(intros ? <-; by eapply object_sound) (object_loads key ver D info) (readFuel n) st1 r1 pos n [] info O1 eq_refl A1 Hn ltac:(unfold readFuel; lia))
      as ([[[st' r'] p] e] & -> & O' & q & -> & [(-> & -> & _ & ? & <- & A')|(? & _ & [] & _)]).
    exists st', r'. cbn [mbind option_bind app]. by rewrite Hdone. }
  destruct HS as [A|(-> & Hb & M & Ho & Ht)].
  - rewrite (proj1 (ld_ok _ _ _ _ _ _ (ap_loaded _ _ _ _ _ _ A))), (at_pos_buf key ver D info pos) by (done || by eapply object_sound). by apply Hloop.
  - rewrite (proj1 (ml_ok _ _ _ _ _ M)), Hb. change (blen [] =? 0) with true.
    destruct (loadFragment_object st key ver D info 0 r O ltac:(pose proof (fragCount_pos D); lia) M) as (st1 & r1 & -> & O1 & _ & L1 & (Q1 & Q2 & _)).
    apply Hloop; [done|]. apply at_pos_first; [done|by rewrite Q1|by rewrite Q2].
Qed.

(** A client that reads with buffers of the sizes [ns], and what it should
    see. *)
Fixpoint reads (st : St) (r : CacheReader) (ns : list Z) : option (St * CacheReader * list (bytes * option error)) :=
  match ns with
  | [] => Some (st, r, [])
  | n :: ns =>
      '(st, r, p, e) ← Read st r n;
      '(st, r, l) ← reads st r ns; Some (st, r, (p, e) :: l)
  end.

Fixpoint stream (D : bytes) (pos : Z) (ns : list Z) : list (bytes * option error) :=
  match ns with
  | [] => []
  | n :: ns => (slice D pos (Z.min (pos + n) (blen D)), if (0 <? n) && (blen D <=? pos) then Some ErrEOF else None)
               :: stream D (Z.min (pos + n) (blen D)) ns
  end.

Lemma reads_spec st key ver D info pos r ns :
  object st key ver D info -> standing key ver D info pos r -> 0 <= pos <= blen D -> Forall (Z.le 0) ns ->
  exists st' r', reads st r ns = Some (st', r', stream D pos ns) /\ object st' key ver D info.
Proof.
  revert st pos r. induction ns as [|n ns IH]; intros st pos r O HS Hp Hns; [by exists st, r|]. apply Forall_cons in Hns as [Hn Hns].
  destruct (Read_spec st key ver D info pos r n O HS Hn) as (st1 & r1 & E & O1 & A1). cbn [reads stream]. rewrite E. cbn [mbind option_bind].
  assert (Z.max pos (readStop D pos n) = Z.min (pos + n) (blen D)) as Hs by (unfold readStop; lia). rewrite Hs in A1.
  destruct (IH st1 (Z.min (pos + n) (blen D)) r1 O1 (or_introl A1) ltac:(lia) Hns) as (st2 & r2 & -> & O2). exists st2, r2. split; [|done].
  cbn [mbind option_bind]. unfold readEnd, readStop. rewrite bool_decide_eq_true_2, andb_true_r by done. done.
Qed.

(** C2: a stored object reads back exactly.  A fresh reader delivers the
    object's bytes in order, each [Read] as many as its buffer takes up to the
    end of the object, across fragment boundaries, and then [io.EOF]; no read
    fails, blocks or panics, for every object and every list of buffer
    sizes. *)
Theorem reader_delivers_object st key ver D info ns :
  object st key ver D info -> Forall (Z.le 0) ns ->
  exists st' r', reads st (NewCacheReader key) ns = Some (st', r', stream D 0 ns).
Proof.
  intros O Hns. destruct (reads_spec st key ver D info 0 (NewCacheReader key) ns O) as (st' & r' & E & _); try done; [|pose proof (blen_nonneg D); lia|eauto].
  right. by split_and!.
Qed.

(** ** Metadata *)

(** The metadata of the record of fragment 0. *)
Lemma record_info key ver total idx data info :
  storable ver total data info -> slice (fragmentRecord key ver total idx data info) DocHeaderSize (DocHeaderSize + blen info) = info.
Proof.
  intros S. pose proof (blen_MarshalBinary _ (seal_doc_ok _ _ (fragmentDoc_sealable key ver total idx data info S))) as Hm.
  unfold fragmentRecord, record, slice. rewrite drop_app_length' by (unfold blen in Hm; lia).
  rewrite take_app_le by (unfold blen; lia). apply take_ge. unfold blen. lia.
Qed.

(** The decoded metadata a RAM entry carries is that of its bytes. *)
Lemma newRAMEntry_info v i :
  re_info (newRAMEntry v) = Some i -> exists doc, Doc.UnmarshalBinary (slice v 0 DocHeaderSize) = Ok doc /\
    HttpInfo.UnmarshalBinary (slice v DocHeaderSize (DocHeaderSize + HLen doc)) = Ok i.
Proof.
  unfold newRAMEntry. destruct (blen v <? DocHeaderSize); [done|]. destruct (Doc.UnmarshalBinary _) as [doc|]; [|done].
  destruct (_ || _); [done|]. destruct (HttpInfo.UnmarshalBinary _) as [i'|] eqn:Ei; [|done]. destruct (_ <? _); [done|].
  cbn. intros [= <-]. eauto.
Qed.

(** [decodeInfo] on the head of an object: the metadata, decoded by the RAM
    cache or now; a head without any has empty metadata. *)
Definition metaOf (info : bytes) (i : CacheHTTPInfo) : Prop := HttpInfo.UnmarshalBinary info = Ok i \/ (info = [] /\ i = NewCacheHTTPInfo).

Lemma decodeInfo_loaded key ver D info r :
  sound ver D info -> loaded key ver D info 0 r ->
  exists x, decodeInfo r = (match x with Ok i => set_r_info (Some i) r | Err _ => r end, x) /\
    match x with Ok i => metaOf info i | Err e => HttpInfo.UnmarshalBinary info = Err e end.
Proof.
  intros O L. assert (0 <= 0 < fragCount D) as H0 by (destruct (ld_index _ _ _ _ _ _ L); done). pose proof (sound_storable _ _ _ _ O H0) as S.
  unfold decodeInfo, parseDocFromBuf. rewrite (ld_doc _ _ _ _ _ _ L). pose proof (so_info _ _ _ O) as Hinfo. pose proof (blen_nonneg info).
  assert (HLen (storedDoc key ver (fragTotal D 0) 0 (frag D 0) (fragInfo info 0)) = blen info) as Hh.
  { change (HLen _) with (u32 (blen info)). apply u32_small. unfold fits, AggBufferSize, DocHeaderSize, TargetFragmentSize in *. lia. }
  assert (slice (r_buf r) DocHeaderSize (DocHeaderSize + blen info) = info) as Hdec.
  { rewrite (ld_buf _ _ _ _ _ _ L). change (fragInfo info 0) with info. by apply (record_info _ _ _ _ _ _ S). }
  set (cached := match r_ram r with Some _ => _ | None => None end).
  assert (cached = None \/ exists i, cached = Some i /\ HttpInfo.UnmarshalBinary info = Ok i) as [->|(i & -> & Hi)].
  { subst cached. destruct (ld_ram _ _ _ _ _ _ L) as [->| ->]; [by left|]. destruct (re_info _) as [i'|] eqn:Er; [|by left].
    destruct (_ =? _); [|by left]. right. exists i'. split; [done|]. apply newRAMEntry_info in Er as (doc & Ed & Ei).
    rewrite (ld_buf _ _ _ _ _ _ L) in Ed. rewrite (proj1 (decode_fragmentRecord key ver _ _ _ _ S)) in Ed. injection Ed as <-. by rewrite Hh, Hdec in Ei. }
  - rewrite Hh. destruct (0 <? blen info) eqn:Ep; b2p.
    + replace (_ <=? blen (r_buf r)) with true; [|].
      2: { rewrite (ld_buf _ _ _ _ _ _ L), blen_fragmentRecord by done. change (fragInfo info 0) with info. pose proof (blen_nonneg (frag D 0)). lia. }
      rewrite Hdec. destruct (HttpInfo.UnmarshalBinary info) as [i|e] eqn:Eu; [exists (Ok i)|exists (Err e)]; (split; [reflexivity|]); [by left|done].
    + exists (Ok NewCacheHTTPInfo). split; [reflexivity|]. right. split; [|done]. destruct info; [done|]. unfold blen in Ep. cbn [length] in Ep. lia.
  - exists (Ok i). split; [reflexivity|]. by left.
Qed.

(** The reader after a successful [decodeInfo] stands at the first byte. *)
Lemma at_pos_info key ver D info r i : loaded key ver D info 0 r -> r_offset r = 0 -> r_totalRead r = 0 -> at_pos key ver D info 0 (set_r_info (Some i) r).
Proof.
  intros L Q1 Q2. destruct (ld_index _ _ _ _ _ _ L) as [Hx _]. pose proof (blen_nonneg (frag D 0)). split; cbn; rewrite ?Hx, ?Q1, ?Q2; cbn; try lia. by destruct L; split.
Qed.

(** [LoadHTTPInfo] of a stored object leaves the reader at its first byte. *)
Lemma LoadHTTPInfo_object st key ver D info i :
  object st key ver D info -> HttpInfo.UnmarshalBinary info = Ok i -> 0 < blen info ->
  exists st' r', LoadHTTPInfo st (NewCacheReader key) None = Some (st', r', Some i, None) /\
    object st' key ver D info /\ at_pos key ver D info 0 r'.
Proof.
  intros O Hi Hpos. unfold LoadHTTPInfo. cbn [r_readErr r_info NewCacheReader].
  assert (0 <= 0 < fragCount D) as H0 by (pose proof (fragCount_pos D); lia).
  destruct (loadFragment_object st key ver D info 0 (NewCacheReader key) O H0) as (st1 & r1 & -> & O1 & _ & L & (Q1 & Q2 & _)); [done|].
  cbn [mbind option_bind]. destruct (decodeInfo_loaded key ver D info r1 (object_sound _ _ _ _ _ O) L) as ([j|e] & -> & Hx); [|congruence].
  assert (j = i) as -> by (destruct Hx as [Hx|[-> _]]; [congruence|done]). eexists _, _. split; [reflexivity|]. split; [done|]. by apply at_pos_info.
Qed.

(** The metadata of a stored object reads back: [LoadHTTPInfo] returns
    exactly what decoding the writer's metadata gives, whether the fragment
    comes from the RAM cache with its decoded metadata or from the disk, and
    the stream still starts at byte 0 afterwards. *)
Theorem reader_delivers_info st key ver D info i :
  object st key ver D info -> HttpInfo.UnmarshalBinary info = Ok i -> 0 < blen info ->
  exists st' r', LoadHTTPInfo st (NewCacheReader key) None = Some (st', r', Some i, None) /\
    forall ns, Forall (Z.le 0) ns -> exists st2 r2, reads st' r' ns = Some (st2, r2, stream D 0 ns).
Proof.
  intros O Hi Hpos. destruct (LoadHTTPInfo_object st key ver D info i O Hi Hpos) as (st' & r' & E & O' & A').
  exists st', r'. split; [done|]. intros ns Hns.
  destruct (reads_spec st' key ver D info 0 r' ns O') as (st2 & r2 & E2 & _); try done; [by left|pose proof (blen_nonneg D); lia|eauto].
Qed.
End ReaderSpec.
