(* ===== verification/ReaderTotal.v ===== *)
(** * Readers over arbitrary content

    [ReaderSpec] follows a reader over a complete object.  Here the source may
    hold anything: every [Read] of [cache/cache_read.go] returns, a stream
    that ends without an error has fetched every fragment of the object it
    announced, and it advances by whole buffers up to the announced length. *)

From S2P Require Import Prelude Hash Dir Doc HttpInfo RamCache CacheWriter WriterSpec CacheReader ReaderSpec.

(** A word read off a buffer fits its width. *)
Lemma take_be_fits n l z l' : bytes_ok l -> take_be n l = (z, l') -> fits (8 * Z.of_nat n) z /\ bytes_ok l'.
Proof.
  intros Hl [= <- <-]. split; [|by apply Forall_drop].
  pose proof (get_be_bound (take n l) ltac:(by apply Forall_take)) as Hb. unfold blen in Hb. rewrite length_take in Hb.
  unfold fits. rewrite Z.pow_mul_r by lia. change (2 ^ 8) with 256.
  assert (256 ^ Z.of_nat (n `min` length l) <= 256 ^ Z.of_nat n) by (apply Z.pow_le_mono_r; lia). lia.
Qed.

Lemma UnmarshalBinary_fits data d :
  bytes_ok data -> Doc.UnmarshalBinary data = Ok d -> fits 32 (Doc.Len d) /\ fits 64 (TotalLen d) /\ fits 32 (HLen d).
Proof.
  intros Hd. unfold Doc.UnmarshalBinary. destruct (read_guard _ _); [|done]. cbn [mbind result_bind]. intros E.
  destruct (take_be 4 data) as [m l0] eqn:E0. apply take_be_fits in E0 as [_ H0]; [|done].
  destruct (take_be 4 l0) as [len l1] eqn:E1. apply take_be_fits in E1 as [F1 H1]; [|done].
  destruct (take_be 8 l1) as [total l2] eqn:E2. apply take_be_fits in E2 as [F2 H2]; [|done].
  destruct (take_bytes 16 l2) as [k1 l3] eqn:E3. injection E3 as _ <-.
  destruct (take_bytes 16 (drop 16 l2)) as [k2 l4] eqn:E4. injection E4 as _ <-.
  destruct (take_be 4 (drop 16 (drop 16 l2))) as [hlen l5] eqn:E5.
  apply take_be_fits in E5 as [F5 _]; [|by do 2 apply Forall_drop]. unfold take_be in E. injection E as <-. done.
Qed.

(** What a validated header says about its record. *)
Lemma validate_Len d data :
  fits 32 (Doc.Len d) -> fits 32 (HLen d) -> Doc.validate d data = Ok tt ->
  DocHeaderSize <= Doc.Len d <= blen data /\ DataLen d = Doc.Len d - DocHeaderSize - HLen d /\
  0 <= DataLen d <= TargetFragmentSize.
Proof.
  intros F1 F2. unfold Doc.validate. destruct (_ || _); [done|]. destruct (_ || (TargetFragmentSize <? _)) eqn:E; [done|]. intros _. b2p.
  unfold DataLen in *. rewrite (u32_small (_ - DocHeaderSize)) in * by (unfold fits, DocHeaderSize in *; lia).
  rewrite u32_small in * by (unfold fits, DocHeaderSize in *; lia). lia.
Qed.

Section ReaderTotal.
Context {St : Type} `{FragmentSource St}.

(** Fetches never panic, deliver bytes that [hits] relates to the key, and do not fail
    with [io.EOF], which the file of a stripe returns only past its end. *)
Context (live : St -> Prop) (hits : bytes -> bytes -> Prop) (lim : Z) (lim_small : lim <= 2 ^ 64).
Hypothesis fetch_live : forall st k, live st -> exists st' x, src_fetch st k = Some (st', x) /\ live st' /\
  match x with Ok f => bytes_ok (f_buf f) /\ hits k (f_buf f) | Err e => e <> ErrEOF end.
Hypothesis bound_live : forall st, live st -> u64 (src_bound st) < lim.
Hypothesis note_live : forall st d k, live st -> live (src_note st d k).

(** A record for [k] has been fetched and carries its identity. *)
Definition verified (k : bytes) : Prop := exists buf doc,
  hits k buf /\ Doc.UnmarshalBinary (slice buf 0 DocHeaderSize) = Ok doc /\ Key doc = docKey k.

(** So have the fragments [0 .. fi] of [key]. *)
Definition fetchedTo (key : bytes) (fi : Z) : Prop := forall i, 0 <= i <= fi -> verified (FragmentKey key i).

(** The reader stands inside a validated fragment. *)
Record inside (r : CacheReader) : Prop := {
  in_doc : exists doc, r_doc r = Some doc /\ blen (r_buf r) = Doc.Len doc /\ DocHeaderSize <= Doc.Len doc /\
    DataLen doc = Doc.Len doc - DocHeaderSize - HLen doc /\ 0 <= r_offset r <= DataLen doc /\ DataLen doc <= TargetFragmentSize /\
    r_fragmentIndex r * TargetFragmentSize + DataLen doc <= r_totalLen r /\
    (DataLen doc < TargetFragmentSize -> r_fragmentIndex r * TargetFragmentSize + DataLen doc = r_totalLen r);
  in_pos : 0 <= r_fragmentIndex r /\ r_totalRead r = r_fragmentIndex r * TargetFragmentSize + r_offset r;
  in_total : r_totalLen r < lim;
  in_ok : r_following r = false /\ r_readErr r = None;
  in_hits : fetchedTo (r_firstKey r) (r_fragmentIndex r) }.

Lemma inside_le r : inside r -> r_totalRead r <= r_totalLen r.
Proof. intros [(doc & _ & _ & _ & _ & D1 & D2 & D3 & _) [P1 P2] _ _ _]. lia. Qed.

(** The reader may load fragment [i] at its position. *)
Record ready_for (i : Z) (r : CacheReader) : Prop := {
  rf_pos : 0 <= i /\ r_totalRead r = i * TargetFragmentSize;
  rf_total : i <> 0 -> r_totalRead r < r_totalLen r < lim;
  rf_ok : r_following r = false /\ r_readErr r = None;
  rf_hits : fetchedTo (r_firstKey r) (i - 1) }.

Lemma parseDoc_notEOF bound r r' e : parseDoc bound r = (r', Err e) -> e <> ErrEOF.
Proof.
  unfold parseDoc, parseDocFromBuf. destruct (r_doc r) as [doc|].
  2: destruct (_ <? DocHeaderSize) eqn:E0; [by intros [= <- <-]|]; b2p.
  2: destruct (Doc.UnmarshalBinary _) as [doc|e'] eqn:E1; cbn [r_buf set_r_doc].
  3: { unfold Doc.UnmarshalBinary, read_guard in E1. rewrite blen_slice in E1 by (unfold DocHeaderSize in *; lia). done. }
  all: destruct (Doc.validate _ _) as [|e2] eqn:E2;
    [|unfold Doc.validate in E2; intros [= <- <-]; repeat (destruct (_ || _) in E2; [by injection E2 as <-|]); by destruct (negb _); [injection E2 as <-|]].
  all: destruct (_ || _); [by intros [= <- <-]|]; destruct (u64 bound <? _); [by intros [= <- <-]|];
    destruct (chainError _ _); [by intros [= <- <-]|]; by destruct (_ && _); [intros [= <- <-]|].
Qed.

(** The chain checks pin the length of a fragment. *)
Lemma chainError_None r doc i :
  0 <= DataLen doc <= TargetFragmentSize -> fits 64 (TotalLen doc) -> r_fragmentIndex r = i -> 0 <= i -> r_following r = false ->
  (i <> 0 -> i * TargetFragmentSize < r_totalLen r < 2 ^ 64) -> chainError r doc = None ->
  let total := if i =? 0 then TotalLen doc else r_totalLen r in
  (i <> 0 -> 0 < DataLen doc) /\ i * TargetFragmentSize + DataLen doc <= total /\
  (DataLen doc < TargetFragmentSize -> i * TargetFragmentSize + DataLen doc = total).
Proof.
  intros HD HT Hi H0 Hf Ht. pose proof T_pos as HTp. unfold chainError. rewrite Hi, Hf. cbn [negb andb]. unfold fits in HT.
  destruct (i =? 0) eqn:E; b2p.
  - subst i. destruct (negb _) eqn:E1; [done|]. b2p. intros _. cbn zeta. lia.
  - specialize (Ht E). rewrite (u64_small i), (u64_small (i * _)), (u64_small (r_totalLen r - _)) by (unfold fits; nia).
    destruct (_ || _ || _) eqn:E1; [done|]. destruct ((r_totalLen r <? _) || _) eqn:E2; [done|]. b2p. intros _. cbn zeta. lia.
Qed.

Lemma parseDoc_inside bound r r' i :
  parseDoc bound r = (r', Ok tt) -> u64 bound < lim -> r_doc r = None -> bytes_ok (r_buf r) -> r_fragmentIndex r = i ->
  ready_for i r -> r_key r = FragmentKey (r_firstKey r) i -> hits (r_key r) (r_buf r) ->
  inside (set_r_offset 0 r') /\ (i <> 0 -> exists d, r_doc r' = Some d /\ 0 < DataLen d) /\
  r_firstKey r' = r_firstKey r /\ r_totalRead r' = r_totalRead r /\ r_fragmentIndex r' = i /\ r_offset r' = r_offset r /\
  (i <> 0 -> r_totalLen r' = r_totalLen r).
Proof.
  intros E Hlim Hd Hb Hi [[R1 R2] R3 [R4 R5] R6] Hkey Hh. unfold parseDoc, parseDocFromBuf in E. rewrite Hd in E.
  destruct (_ <? DocHeaderSize) eqn:E0; [done|]. b2p.
  destruct (Doc.UnmarshalBinary _) as [doc|] eqn:E1; [|done].
  assert (bytes_ok (slice (r_buf r) 0 DocHeaderSize)) as Hs by (by apply Forall_take, Forall_drop).
  destruct (UnmarshalBinary_fits _ _ Hs E1) as (F1 & F2 & F3). cbn [r_buf set_r_doc] in E.
  destruct (Doc.validate doc (r_buf r)) as [[]|] eqn:E2; [|done].
  destruct (validate_Len _ _ F1 F3 E2) as (L1 & L2 & L3).
  destruct (_ || _) eqn:Eid; [done|]. b2p. destruct (u64 bound <? _) eqn:Etl; [done|]. b2p. destruct (chainError _ doc) eqn:E3; [done|].
  destruct (r_versionSet _ && _); [done|]. injection E as <-. cbn [r_fragmentIndex set_r_doc set_r_version set_r_versionSet]. rewrite Hi.
  destruct (chainError_None (set_r_doc (Some doc) r) doc i L3 F2 Hi R1 R4 ltac:(cbn; lia) E3) as (C2 & C3 & C4). cbn [r_totalLen set_r_doc] in *.
  assert (fetchedTo (r_firstKey r) i) as Hx.
  { intros j Hj. destruct (decide (j = i)) as [->|]; [|apply R6; lia]. rewrite <- Hkey. by exists (r_buf r), doc. }
  assert (Doc.Len doc < blen (r_buf r) -> blen (slice (r_buf r) 0 (Doc.Len doc)) = Doc.Len doc) as Hsl by (intros; rewrite blen_slice; unfold DocHeaderSize in *; lia).
  destruct (i =? 0) eqn:Ei; b2p; cbn [r_buf set_r_totalLen set_r_doc set_r_version set_r_versionSet];
    (destruct (Doc.Len doc <? blen (r_buf r)) eqn:El; b2p; cbn;
     (split_and!; [split; cbn; [exists doc; split_and!; try done; try lia; auto|lia|lia|done|by rewrite Hi]
                  |by eauto|done..|intros; lia || done])).
Qed.

Lemma loadFragment_inside st r i :
  live st -> ready_for i r ->
  exists st' r' x, loadFragment st r i = Some (st', r', x) /\ live st' /\
    (x = Ok tt -> inside (set_r_offset 0 r') /\ (i <> 0 -> exists d, r_doc r' = Some d /\ 0 < DataLen d) /\
       r_firstKey r' = r_firstKey r /\ r_totalRead r' = r_totalRead r /\ r_fragmentIndex r' = i /\ r_offset r' = r_offset r /\
       (i <> 0 -> r_totalLen r' = r_totalLen r)) /\
    (forall e, x = Err e -> e <> ErrEOF).
Proof.
  intros L RF. unfold loadFragment. cbn [r_key r_firstKey set_r_key set_r_fragmentIndex set_r_doc set_r_ram].
  destruct (fetch_live st (FragmentKey (r_firstKey r) i) L) as (st1 & x & -> & L1 & Hx). cbn [mbind option_bind].
  destruct x as [f|e]; [|eexists _, _, _; split; [reflexivity|]; split_and!; [done|done|by intros ? [= <-]]].
  destruct Hx as [Hb Hh].
  set (r1 := set_r_ram (f_ram f) (set_r_buf (f_buf f) _)).
  destruct (parseDoc (src_bound st1) r1) as [r' [[]|e]] eqn:E.
  - eexists _, _, _. split; [reflexivity|]. split; [by apply note_live|]. split; [|done]. intros _.
    destruct (parseDoc_inside _ r1 r' i E (bound_live _ L1) eq_refl Hb eq_refl) as (P1 & P2 & P3 & P4 & P5 & P6 & P7); [by destruct RF|done|done|].
    split_and!; done.
  - eexists _, _, _. split; [reflexivity|]. split; [done|]. split; [done|]. intros ? [= <-]. by eapply parseDoc_notEOF.
Qed.

(** What one call of the loop may do: fill the buffer, stop at the announced
    length, report the end there, or fail. *)
Definition advances (r r' : CacheReader) (n : Z) (e : option error) : Prop :=
  match e with
  | None => inside r' /\ r_firstKey r' = r_firstKey r /\ r_totalLen r' = r_totalLen r /\ r_totalRead r <= r_totalRead r' /\
      (r_totalRead r' = r_totalRead r + n \/ r_totalRead r' = r_totalLen r)
  | Some ErrEOF => inside r' /\ r_firstKey r' = r_firstKey r /\ r_totalLen r' = r_totalLen r /\ r_totalRead r' = r_totalLen r
  | Some _ => True
  end.

Lemma advances_err r r' n e : e <> ErrEOF -> advances r r' n (Some e).
Proof. by destruct e. Qed.

Lemma advances_later r1 r2 r' k n e :
  r_firstKey r2 = r_firstKey r1 -> r_totalLen r2 = r_totalLen r1 -> r_totalRead r2 = r_totalRead r1 + k -> 0 <= k ->
  advances r2 r' (n - k) e -> advances r1 r' n e.
Proof.
  intros E1 E2 E3 Hk. destruct e as [[]|]; cbn; rewrite ?E1, ?E2, ?E3; try done.
  intros (? & ? & ? & ? & ?). split_and!; try done; lia.
Qed.

(** A copy of part of the current fragment. *)
Lemma inside_copy r doc k :
  inside r -> r_doc r = Some doc -> 0 <= k <= DataLen doc - r_offset r ->
  inside (set_r_totalRead (r_totalRead r + k) (set_r_offset (r_offset r + k) r)).
Proof.
  intros [(doc' & D1 & D2 & D3 & D4 & D5 & D6 & D7 & D8) [P1 P2] T1 O1 H1] Hd Hk. assert (doc' = doc) as -> by congruence.
  split; cbn; [exists doc; split_and!; done || lia|lia|done..].
Qed.

Lemma readLoop_total fuel st r n got :
  live st -> inside r -> 0 <= n -> (2 * Z.to_nat n + 2 <= fuel)%nat ->
  exists st' r' got' e, readLoop fuel st r n got = Some (st', r', got', e) /\ live st' /\ advances r r' n e /\
    (e = None -> 0 < n -> got = [] -> r_totalRead r < r_totalRead r').
Proof.
  revert st r n got. induction fuel as [fuel IH] using lt_wf_ind. intros st r n got L I Hn Hf. destruct fuel as [|fuel]; [lia|]. cbn [readLoop].
  pose proof T_pos as HT. destruct (I) as [(doc & D1 & D2 & D3 & D4 & D5 & D6 & D7 & D8) [P1 P2] T1 O1 H1].
  destruct (n <=? 0) eqn:En; b2p.
  { eexists _, _, _, _. split; [done|]. split; [done|]. cbn. split_and!; try done; lia. }
  assert (forall k r2 r' e, 0 < k -> r_totalRead r2 = r_totalRead r + k -> advances r2 r' (n - k) e -> e = None -> 0 < n -> got = [] -> r_totalRead r < r_totalRead r') as Hprog.
  { intros k r2 r' e Hk Hr2 A -> _ _. destruct A as (_ & _ & _ & A & _). lia. }
  replace (blen (r_buf r) =? 0) with false by (unfold DocHeaderSize in *; lia). unfold parseDocFromBuf at 1. rewrite D1, D2.
  destruct (_ - _ - _ <=? 0) eqn:Ea; b2p.
  2: { destruct (IH fuel ltac:(lia) st (set_r_totalRead (r_totalRead r + Z.min n (Doc.Len doc - (DocHeaderSize + HLen doc) - r_offset r)) (set_r_offset (r_offset r + Z.min n (Doc.Len doc - (DocHeaderSize + HLen doc) - r_offset r)) r))
         (n - Z.min n (Doc.Len doc - (DocHeaderSize + HLen doc) - r_offset r)) (got ++ slice (r_buf r) (DocHeaderSize + HLen doc + r_offset r)
           (DocHeaderSize + HLen doc + r_offset r + Z.min n (Doc.Len doc - (DocHeaderSize + HLen doc) - r_offset r))) L)
         as (st' & r' & got' & e & E & L' & A & _); [apply (inside_copy r doc); try done; lia|lia|lia|].
       rewrite E. eexists _, _, _, _. split; [done|]. split; [done|].
       split; [eapply advances_later; [..|exact A]; cbn; done || lia|]. eapply Hprog; [| |exact A]; cbn; lia. }
  rewrite (u64_small (r_totalRead r)) by (unfold fits; nia). destruct (r_totalLen r <=? r_totalRead r) eqn:Efin; b2p.
  { assert (r_totalRead r = r_totalLen r) as Hfin by lia.
    case_bool_decide; (eexists _, _, _, _; split; [done|]; split; [done|]; cbn; split_and!; try done; try lia). }
  destruct fuel as [|fuel]; [lia|]. cbn [readLoop]. replace (n <=? 0) with false by lia. cbn [r_buf set_r_buf].
  change (blen [] =? 0) with true. cbn [r_totalLen r_totalRead set_r_buf r_fragmentIndex]. rewrite (u64_small (r_totalRead r)) by (unfold fits; nia).
  replace (r_totalLen r <=? r_totalRead r) with false by lia.
  destruct (loadFragment_inside st (set_r_fragmentIndex (r_fragmentIndex r + 1) (set_r_buf [] r)) (r_fragmentIndex r + 1) L) as (st1 & r1 & x & -> & L1 & Hx & He).
  { split; cbn; [lia|lia|done|]. by replace (r_fragmentIndex r + 1 - 1) with (r_fragmentIndex r) by lia. }
  cbn [mbind option_bind]. destruct x as [[]|e].
  2: { eexists _, _, _, _. split; [done|]. split; [done|]. split; [by apply advances_err, He|done]. }
  destruct (Hx eq_refl) as (I1 & Hd & Q1 & Q2 & Q3 & Q4 & Q5). clear Hx He. cbn [r_firstKey r_totalRead r_totalLen set_r_fragmentIndex set_r_buf] in *.
  destruct (Hd ltac:(lia)) as (d1 & Hd1 & Hpos). specialize (Q5 ltac:(lia)).
  pose proof (in_doc _ I1) as (d2 & E1 & E2 & E3 & E4 & E5 & E6 & _). cbn [r_doc r_buf r_offset set_r_offset] in *. assert (d2 = d1) as -> by congruence.
  unfold parseDocFromBuf. cbn [r_doc set_r_offset r_buf r_offset]. rewrite Hd1. cbn [r_buf set_r_offset r_offset]. rewrite E2.
  destruct (_ - _ - 0 <=? 0) eqn:Ea'; b2p; [lia|].
  set (k := Z.min n (Doc.Len d1 - (DocHeaderSize + HLen d1) - 0)).
  edestruct (IH fuel ltac:(lia) st1 (set_r_totalRead (r_totalRead (set_r_offset 0 r1) + k) (set_r_offset (0 + k) (set_r_offset 0 r1))) (n - k))
    as (st' & r' & got' & e & E & L' & A & _); [done|apply (inside_copy (set_r_offset 0 r1) d1); try done; cbn; lia|lia|lia|].
  rewrite E. eexists _, _, _, _. split; [done|]. split; [done|].
  split; [eapply advances_later; [..|exact A]; cbn; rewrite ?Q1, ?Q2, ?Q5; done || lia|]. eapply Hprog; [| |exact A]; cbn; rewrite ?Q2; lia.
Qed.

(** [Read] returns, whatever the source holds. *)
Lemma Read_total st r n :
  live st -> inside r -> 0 <= n ->
  exists st' r' got e, Read st r n = Some (st', r', got, e) /\ live st' /\ advances r r' n e /\
    (e = None -> 0 < n -> r_totalRead r < r_totalRead r').
Proof.
  intros L I Hn. unfold Read. destruct (in_doc _ I) as (doc & _ & D2 & D3 & _). destruct (in_ok _ I) as [_ ->].
  replace (blen (r_buf r) =? 0) with false by (unfold DocHeaderSize in *; lia).
  destruct (readLoop_total (readFuel n) st r n [] L I Hn ltac:(unfold readFuel; lia)) as (st' & r' & got & e & -> & L' & A & P).
  cbn [mbind option_bind]. unfold readDone. destruct e as [e|]; [|eexists _, _, _, _; split_and!; auto].
  case_decide as He; (eexists _, _, _, _; split; [done|]; split; [done|]; split; [|done]); [done|by apply advances_err].
Qed.

(** The head of the stream, as [LoadHTTPInfo] leaves it. *)
Lemma LoadHTTPInfo_total st key :
  live st -> exists st' r' i e, LoadHTTPInfo st (NewCacheReader key) None = Some (st', r', i, e) /\ live st' /\
    (e = None -> inside r' /\ r_firstKey r' = key /\ r_totalRead r' = 0 /\ r_fragmentIndex r' = 0).
Proof.
  intros L. unfold LoadHTTPInfo. cbn [r_readErr r_info NewCacheReader].
  destruct (loadFragment_inside st (NewCacheReader key) 0 L) as (st1 & r1 & x & -> & L1 & Hx & _).
  { split; cbn; try done. intros i Hi. lia. }
  cbn [mbind option_bind]. destruct x as [[]|e]; [|eexists _, _, _, _; by split].
  destruct (Hx eq_refl) as (I1 & _ & Q1 & Q2 & Q3 & Q4 & _). unfold decodeInfo, parseDocFromBuf.
  pose proof (in_doc _ I1) as (d & D1 & _). cbn in D1. rewrite D1.
  assert (set_r_offset 0 r1 = r1) as Hr by (destruct r1; cbn in *; by rewrite Q4). rewrite Hr in I1.
  assert (forall i, inside (set_r_info i r1)) as Hi by (intros i; by destruct I1; split).
  repeat (case_match; try done); simplify_eq; (eexists _, _, _, _; split; [reflexivity|]; split; [done|]); intros [=]; split_and!; done || apply Hi.
Qed.

End ReaderTotal.
