(* ===== verification/FragmentReader.v ===== *)
(** * Fetching fragments from a stripe

    [CacheReader.handleRead] and its helpers of [cache/cache_read.go]: the
    directory lookup, the ring checks and the copy of the record from the RAM
    cache or the disk, under the read lock of [Stripe.mu]. *)

From S2P Require Import Prelude Hash Dir Doc DirTrie DirManager DirSpec Directory HttpInfo RamCache File AggBuffer AggLog OpenDir Evacuation Stripe Ring CacheWriter WriterSpec FragmentWriter CacheReader ReaderSpec.

Section FragmentReader.
Context {R : Type} `{RamStore R}.
Implicit Types s : Stripe R.

Definition loadFromRamCache s (key : bytes) : Stripe R * option ramEntry :=
  match s_ram s with
  | None => (s, None)
  | Some ram => let '(e, ram) := rs_get ram key in (set_s_ram (Some ram) s, e)
  end.

Definition loadFromDisk s (d : Dir) : result bytes :=
  match s_disk s with
  | None => Err ErrCacheClosed
  | Some f =>
      let off := i64 (offset d) in
      match ReadAt f DocHeaderSize off with
      | (_, Some e) => Err e
      | (header, None) =>
          match Doc.UnmarshalBinary header with
          | Err e => Err e
          | Ok doc =>
              if (Doc.Len doc <? DocHeaderSize) || (AggBufferSize <? Doc.Len doc) || (approxSize d <? Doc.Len doc) ||
                 (i64 (stripeEnd s - off) <? Doc.Len doc)
              then Err (Errorf "invalid fragment bounds")
              else match ReadAt f (Doc.Len doc) off with
              | (_, Some e) => Err e
              | (buf, None) => Ok buf
              end
          end
      end
  end.

Lemma loadFromDisk_ok s f d v : s_disk s = Some f -> bytes_ok f -> loadFromDisk s d = Ok v -> bytes_ok v.
Proof.
  intros Hf Hb. unfold loadFromDisk. rewrite Hf. unfold ReadAt. destruct (_ <? 0); [done|].
  destruct (_ <? DocHeaderSize); [done|]. destruct (Doc.UnmarshalBinary _); [|done]. destruct (_ || _); [done|].
  destruct (_ <? _); [done|]. intros [= <-]. by apply Forall_take, Forall_drop.
Qed.

(** The directory entry a reader may follow. *)
Definition lookupEntry s (key : bytes) : option (result Dir) :=
  match s_storageErr s with
  | Some e => Some (Err e)
  | None =>
      if s_closing s || bool_decide (s_disk s = None) then Some (Err ErrCacheClosed)
      else
        g ← DirManager.Get (s_dir s) key;
        let '(hit, _, d) := g in
        if negb hit then Some (Err ErrNotResident)
        else
          let off := i64 (offset d) in
          if (off <? s_start s) || (stripeEnd s <=? off) then Some (Err (Errorf "invalid fragment directory offset"))
          else if negb (dirValid s d) then Some (Err ErrNotResident)
          else Some (Ok d)
  end.

Definition handleRead s (key : bytes) : option (Stripe R * result fetched) :=
  x ← lookupEntry s key;
  match x with
  | Err e => Some (s, Err e)
  | Ok d =>
      let '(s, e) := loadFromRamCache s key in
      match e with
      | Some e => Some (s, Ok (mkFetched d (re_data e) (Some e)))
      | None =>
          match loadFromDisk s d with
          | Err e => Some (s, Err e)
          | Ok buf => Some (s, Ok (mkFetched d buf None))
          end
      end
  end.

Definition checkEvacuation s (d : Dir) (key : bytes) : Stripe R :=
  let objOff := i64 (offset d) in
  if withinHitEvacuateWindow s objOff then set_s_evac (Register (s_evac s) key objOff (i64 (approxSize d))) s else s.

(** ** A stripe at rest is a source of fragments *)

Definition diskContent s (key : bytes) : option bytes :=
  match lookupEntry s key with
  | Some (Ok d) => match loadFromDisk s d with Ok v => Some v | Err _ => None end
  | _ => None
  end.

(** RAM entries agree with the disk. *)
Definition ramCoherent s : Prop := forall ram, s_ram s = Some ram ->
  rs_ok ram /\ forall k e v, rs_holds ram k = Some e -> diskContent s k = Some v -> e = newRAMEntry v.

(** The RAM cache serves what the disk holds, or misses. *)
Lemma loadFromRamCache_law s key v :
  ramCoherent s -> diskContent s key = Some v -> exists ram' e, loadFromRamCache s key = (set_s_ram ram' s, e) /\
    (e = None \/ e = Some (newRAMEntry v)) /\ ramCoherent (set_s_ram ram' s).
Proof.
  intros C Hv. unfold loadFromRamCache. destruct (s_ram s) as [ram|] eqn:Er.
  - destruct (C ram Er) as [K1 K2]. destruct (rs_get_law ram key K1) as (G1 & G2 & G3). destruct (rs_get ram key) as [e ram'] eqn:Eg.
    cbn in G1, G2, G3. exists (Some ram'), e. split_and!; [done| |].
    + destruct e as [e|]; [right|by left]. f_equal. eapply K2; [|exact Hv]. congruence.
    + intros ram2 [= <-]. split; [done|]. intros k e' v' He Hc. eapply K2; [by apply G3|exact Hc].
  - exists None, None. split_and!; [|by left|by intros ? [=]]. f_equal. rewrite <- Er. by destruct s.
Qed.

#[refine, export] Instance stripe_source : FragmentSource (Stripe R) := {|
  src_fetch := handleRead;
  src_bound s := i64 (stripeEnd s - s_start s);
  src_note := checkEvacuation;
  src_ok := ramCoherent;
  src_content := diskContent |}.
Proof.
  - intros s key v C Hv. destruct (loadFromRamCache_law s key v C Hv) as (ram' & e & El & He & C').
    unfold handleRead. unfold diskContent in Hv. destruct (lookupEntry s key) as [[d|]|]; try done.
    destruct (loadFromDisk s d) as [v'|] eqn:Ed; [|done]. injection Hv as ->. cbn [mbind option_bind]. rewrite El.
    assert (loadFromDisk (set_s_ram ram' s) d = Ok v) as Ed' by done. destruct He as [-> | ->].
    + rewrite Ed'. eexists _, _. split; [reflexivity|]. cbn. split_and!; try done. by left.
    + eexists _, _. split; [reflexivity|]. cbn. split_and!; try done; [apply newRAMEntry_data|by right].
  - intros s d key C. unfold checkEvacuation. by destruct (withinHitEvacuateWindow _ _).
Defined.

End FragmentReader.

(** ** Publication and lookup *)

Section Published.
Context {R : Type} `{RamStore R}.
Implicit Types s : Stripe R.

(** What a successful publication has checked and changed. *)
Lemma publish_Ok rnd ctx s w idx fd sz a s' w' :
  publish rnd ctx s w idx fd sz a = Some (s', w', Ok tt) ->
  s_storageErr s = None /\ s_closing s = false /\ fenced s w = false /\ allocationValid s a (blen fd) = true /\
  exists s1, publishEntry rnd s (FragmentKey (w_key w) idx) fd sz a = Some s1 /\
    (s' = s1 \/ exists dt, s' = set_s_dir (setTrie (s_dir s1) dt) s1).
Proof.
  unfold publish, publishCheck. intros E. destruct (s_storageErr s); [done|]. destruct ctx; [done|]. destruct (s_closing s); [done|].
  destruct (fenced s w); [done|]. destruct (allocationValid s a (blen fd)); [|done]. cbn [negb] in E.
  destruct (if idx =? 0 then allLive s (w_published w) else Some true) as [[]|]; [|done|done]. cbn [mbind option_bind] in E.
  destruct (publishEntry _ _ _ _ _ _) as [s1|]; [|done]. cbn [mbind option_bind] in E. split_and!; try done. exists s1. split; [done|].
  destruct (idx =? 0); [destruct (SetIdentity _ _ _) as [dt|]|]; simplify_eq; eauto.
Qed.

Lemma Get_setTrie dm t key : DirManager.Get (setTrie dm t) key = DirManager.Get dm key.
Proof. done. Qed.

(** The record of a fragment read from the disk through a directory entry. *)
Lemma loadFromDisk_record s d f v doc :
  s_disk s = Some f -> ReadAt f (blen v) (i64 (offset d)) = (v, None) -> 0 <= i64 (offset d) -> DocHeaderSize <= blen v ->
  Doc.UnmarshalBinary (slice v 0 DocHeaderSize) = Ok doc -> Doc.Len doc = blen v -> blen v <= AggBufferSize ->
  blen v <= approxSize d -> blen v <= i64 (stripeEnd s - i64 (offset d)) -> loadFromDisk s d = Ok v.
Proof.
  intros Hf Hr Ho Hl Hdec Hlen H1 H2 H3. unfold loadFromDisk. rewrite Hf.
  assert (ReadAt f DocHeaderSize (i64 (offset d)) = (slice v 0 DocHeaderSize, None)) as ->.
  { unfold ReadAt in *. replace (i64 (offset d) <? 0) with false in * by lia. injection Hr as Hs _.
    assert (slice f (i64 (offset d)) (i64 (offset d) + DocHeaderSize) = slice v 0 DocHeaderSize) as ->.
    { rewrite <- Hs, slice_slice by (unfold DocHeaderSize in *; lia). by rewrite Z.add_0_r. }
    rewrite blen_slice by (unfold DocHeaderSize in *; lia). by rewrite Z.sub_0_r, Z.ltb_irrefl. }
  rewrite Hdec, Hlen. replace (_ || _) with false; [by rewrite Hr|]. symmetry. rewrite !orb_false_iff, !Z.ltb_ge. lia.
Qed.

(** The next fetch of a key after its publication. *)
Lemma publishEntry_spec rnd s A key fd sz a s1 :
  dm_abs (s_dir s) A -> fitsBucket (s_dir s) A key -> 0 < a_offset a < 2 ^ 40 -> 0 < sz <= DirMaxDataSize ->
  (forall ram, s_ram s = Some ram -> rs_ok ram) -> bytes_ok fd -> publishEntry rnd s key fd sz a = Some s1 ->
  sameRing s s1 /\ s_closing s1 = s_closing s /\
  (exists g d, DirManager.Get (s_dir s1) key = Some (true, g, d) /\ offset d = a_offset a /\ phase d = odd (a_generation a) /\ sz <= approxSize d) /\
  (forall ram, s_ram s1 = Some ram -> rs_ok ram /\ forall e, rs_holds ram key = Some e -> e = newRAMEntry fd).
Proof.
  intros HA Hfit Ho Hsz Hram Hfd E. unfold publishEntry in E.
  rewrite (u64_small (a_offset a)) in E by (unfold fits; lia).
  destruct (Set_entry rnd (s_dir s) A key (a_offset a) sz (odd (a_generation a)) HA Ho Hsz Hfit) as (dm' & g & g' & d & Es & Eg & E1 & E2 & E3).
  rewrite Es in E. cbn [mbind option_bind fst] in E. change (s_ram (set_s_dir dm' s)) with (s_ram s) in E. destruct (s_ram s) as [ram|] eqn:Er.
  - destruct (rs_put_law ram key fd (Hram ram eq_refl) Hfd) as (ram' & Ep & K1 & K2). rewrite Ep in E. injection E as <-.
    split_and!; try done; [exists g', d; split_and!; try done; tauto|]. intros ram2 [= <-]. split; [done|]. intros e He.
    destruct (K2 _ _ He) as [[_ ->]|[? _]]; done.
  - injection E as <-. split_and!; try done; [exists g', d; split_and!; try done; tauto|]. cbn. rewrite Er. done.
Qed.

(** The record is smaller than its size class and both fit. *)
Lemma approxRecordSize_bounds ver total data info :
  storable ver total data info ->
  DocHeaderSize + (blen info + blen data) <= approxRecordSize data info /\ approxRecordSize data info <= DirMaxDataSize.
Proof.
  intros S. pose proof (sb_size _ _ _ _ S). pose proof (blen_nonneg data). pose proof (blen_nonneg info).
  unfold approxRecordSize, AggBufferSize, DocHeaderSize, SectorSize, DirMaxDataSize in *. rewrite Z.quot_div_nonneg by lia.
  pose proof (Z.div_mod (72 + (blen info + blen data) + 512 - 1) 512 ltac:(lia)). pose proof (Z.mod_pos_bound (72 + (blen info + blen data) + 512 - 1) 512 ltac:(lia)). lia.
Qed.

Lemma fragmentRecord_bytes key ver total idx data info :
  storable ver total data info -> bytes_ok (fragmentRecord key ver total idx data info).
Proof.
  intros S. destruct (fragmentDoc_sealable key ver total idx data info S) as (_ & K1 & K2 & K3 & _). unfold fragmentRecord, record.
  apply Forall_app. split; [by apply MarshalBinary_bytes_ok|done].
Qed.

(** What a fetch returns for an entry the directory and the RAM cache have
    just got: the record, unless the entry is refused as overwritten. *)
Definition fetches s (key fd : bytes) (d : Dir) : Prop :=
  if dirValid s d then exists s2 f, handleRead s key = Some (s2, Ok f) /\ f_buf f = fd else handleRead s key = Some (s, Err ErrNotResident).

Lemma entry_fetched f0 wo (i : nat) rnd A key fd doc sz a s1 s' :
  wreach f0 wo -> let s := w_s wo in
  s_storageErr s = None -> s_closing s = false -> allocationValid s a (blen fd) = true ->
  dm_abs (s_dir s) A -> fitsBucket (s_dir s) A key -> (forall ram, s_ram s = Some ram -> rs_ok ram) -> s_skip s + s_len s < 2 ^ 40 ->
  w_log wo !! i = Some (mkRec (a_offset a) (a_generation a) fd) -> Z.of_nat i < completed (s_agg s) ->
  bytes_ok fd -> Doc.UnmarshalBinary (slice fd 0 DocHeaderSize) = Ok doc -> Doc.Len doc = blen fd -> DocHeaderSize <= blen fd <= AggBufferSize ->
  blen fd <= sz <= DirMaxDataSize -> publishEntry rnd s key fd sz a = Some s1 -> s' = s1 \/ (exists dt, s' = set_s_dir (setTrie (s_dir s1) dt) s1) ->
  sameRing s s' /\ exists g d, DirManager.Get (s_dir s') key = Some (true, g, d) /\ fetches s' key fd d.
Proof.
  intros Rw s Hs Hc Hv HA Hfit Hram Hcap Hlog Hdone Hbytes Dec Hlen Hmax Hsz Hpe Hs'. pose proof (wreach_inv _ _ Rw) as I.
  pose proof (ri_bounds _ _ I) as Hb. destruct (ri_conf _ _ I) as [C1 C2]. fold s in Hb, C1, C2.
  destruct (ai_log _ _ _ (ri_agg _ _ I)) as [L1 _ _ _]. cbn [proj agg log] in L1. fold s in L1.
  destruct (L1 _ (list_elem_of_lookup_2 _ _ _ Hlog)) as (B1 & B2 & B3). unfold l_end in B2. cbn [l_off l_data] in B1, B2. rewrite C1 in B1. rewrite C2 in B2. pose proof (blen_nonneg fd).
  destruct (publishEntry_spec rnd s A key fd sz a s1) as (SR & Hcl & (g & d & Eg & Eo & Eph & Esz) & Hr1); try done;
    [unfold DocHeaderSize in *; lia|unfold DocHeaderSize in *; lia|].
  assert (sameRing s s' /\ s_closing s' = false /\ DirManager.Get (s_dir s') key = Some (true, g, d) /\ s_ram s' = s_ram s1) as (SR' & Hcl' & Eg' & Er').
  { destruct Hs' as [->|[dt ->]]; split_and!; try done; etransitivity; eauto. }
  split; [done|]. exists g, d. split; [done|]. destruct SR' as (_ & Q2 & Q3 & Q4 & Q5 & _ & _ & _ & _ & _ & _ & Q12).
  destruct (ri_disk _ _ I) as [f Hf]. fold s in Hf. assert (stripeEnd s' = s_skip s + s_len s) as Hend.
  { unfold stripeEnd. rewrite Q4, Q5. apply i64_small. unfold fits_i64. lia. }
  assert (i64 (offset d) = a_offset a) as Eo' by (rewrite Eo; apply i64_small; unfold fits_i64; lia).
  assert (lookupEntry s' key = Some (if dirValid s' d then Ok d else Err ErrNotResident)) as Hlk.
  { unfold lookupEntry. rewrite Q12, Hs, Hcl', Q2, Hf, bool_decide_eq_false_2, Eg' by done. cbn [orb mbind option_bind negb].
    rewrite Eo', Hend, Q3. replace (_ || _) with false; [by destruct (dirValid s' d)|]. symmetry. rewrite orb_false_iff, Z.ltb_ge, Z.leb_gt. unfold DocHeaderSize in *. lia. }
  unfold fetches, handleRead. rewrite Hlk. destruct (dirValid s' d); [|done]. cbn [mbind option_bind].
  assert (forall x, loadFromDisk (set_s_ram x s') d = Ok fd) as Hdisk.
  { intros x. eapply (loadFromDisk_record _ _ f); [cbn; by rewrite Q2|rewrite Eo'|rewrite Eo'; lia|lia|exact Dec|done|lia|lia|].
    - pose proof (allocation_intact f0 wo i _ Rw Hs Hlog Hdone Hv) as Hi. unfold diskOf in Hi. fold s in Hi. rewrite Hf in Hi. exact Hi.
    - rewrite Eo'. change (stripeEnd (set_s_ram x s')) with (stripeEnd s'). rewrite Hend, i64_small by (unfold fits_i64, DocHeaderSize in *; lia). lia. }
  unfold loadFromRamCache. destruct (s_ram s') as [ram|] eqn:Er.
  - rewrite <- Er' in Hr1. destruct (Hr1 ram eq_refl) as [K1 K2]. destruct (rs_get_law ram key K1) as (G1 & _). destruct (rs_get ram key) as [[e|] ram'].
    + cbn in G1. rewrite (K2 e (eq_sym G1)). eexists _, _. split; [reflexivity|]. apply newRAMEntry_data.
    + rewrite Hdisk. by eexists _, _.
  - assert (loadFromDisk s' d = Ok fd) as -> by (exact (Hdisk (s_ram s'))). by eexists _, _.
Qed.

(** The record of a fragment decodes to a header of its length. *)
Lemma fragmentRecord_header key ver total idx data info : storable ver total data info ->
  let fd := fragmentRecord key ver total idx data info in
  exists doc, Doc.UnmarshalBinary (slice fd 0 DocHeaderSize) = Ok doc /\ Doc.Len doc = blen fd /\ DocHeaderSize <= blen fd <= AggBufferSize /\
    blen fd <= approxRecordSize data info <= DirMaxDataSize.
Proof.
  intros S fd. pose proof (blen_fragmentRecord key _ _ idx _ _ S) as Hl. fold fd in Hl. destruct (approxRecordSize_bounds _ _ _ _ S) as [Z1 Z2].
  pose proof (blen_nonneg data). pose proof (blen_nonneg info). pose proof (sb_size _ _ _ _ S) as Hmax. destruct (decode_fragmentRecord key _ _ idx _ _ S) as [Dec _].
  eexists. split; [exact Dec|]. split_and!; [|unfold DocHeaderSize in *; lia..]. rewrite Hl. change (u32 (DocHeaderSize + (blen info + blen data)) = DocHeaderSize + (blen info + blen data)). apply u32_small. unfold fits, DocHeaderSize, AggBufferSize in *. lia.
Qed.

(** C10: publication is observable.  When a writer has published a fragment,
    a fetch of its key finds the new directory entry and returns exactly the
    record, from the RAM cache or from the disk, unless the directory entry
    is already refused as overwritten, which is reported as not resident;
    never other bytes.  This holds in every reachable interleaving of the
    ring. *)
Theorem published_fragment_fetched f0 wo (i : nat) rnd ctx w idx data info A s' w' :
  wreach f0 wo -> let s := w_s wo in
  let fd := fragmentRecord (w_key w) (w_version w) (w_totalWritten w) idx data info in
  let key := FragmentKey (w_key w) idx in
  storable (w_version w) (w_totalWritten w) data info ->
  dm_abs (s_dir s) A -> fitsBucket (s_dir s) A key -> (forall ram, s_ram s = Some ram -> rs_ok ram) -> s_skip s + s_len s < 2 ^ 40 ->
  forall a, w_log wo !! i = Some (mkRec (a_offset a) (a_generation a) fd) -> Z.of_nat i < completed (s_agg s) ->
  publish rnd ctx s w idx fd (approxRecordSize data info) a = Some (s', w', Ok tt) ->
  exists g d, DirManager.Get (s_dir s') key = Some (true, g, d) /\
    if dirValid s' d then exists s2 f, handleRead s' key = Some (s2, Ok f) /\ f_buf f = fd
    else handleRead s' key = Some (s', Err ErrNotResident).
Proof.
  intros Rw s fd key S HA Hfit Hram Hcap a Hlog Hdone Hp.
  destruct (publish_Ok _ _ _ _ _ _ _ _ _ _ Hp) as (Hs & Hc & _ & Hv & s1 & Hpe & Hs').
  destruct (fragmentRecord_header (w_key w) _ _ idx _ _ S) as (doc & Dec & Hlen & Hmax & Hsz).
  destruct (entry_fetched f0 wo i rnd A key fd doc (approxRecordSize data info) a s1 s' Rw Hs Hc Hv HA Hfit Hram Hcap Hlog Hdone
    (fragmentRecord_bytes _ _ _ _ _ _ S) Dec Hlen Hmax Hsz Hpe Hs') as (_ & g & d & Eg & Hf). by exists g, d.
Qed.
End Published.
