(* ===== verification/Invalidation.v ===== *)
(** * Fills and invalidation

    [cache/invalidation.go], [cache/http_update.go] and the admission part of
    [cache/cache_vc.go] and [cache/cache.go]: a fill captures the epochs of
    every stripe before it fetches from the origin; purges and removals bump
    the epochs and take the representations out; a writer whose epochs are
    stale can neither be admitted nor publish.

    A cache is the list of its stripes, each with the address that stands for
    the [*Stripe] pointer.  [lockStripes] makes every function one critical
    section of all stripes.  [None] stands for a Go panic. *)

From S2P Require Import Prelude Hash Dir Doc DirTrie DirManager HttpInfo RamCache File AggBuffer OpenDir Evacuation Stripe CacheWriter FragmentWriter.

Definition MaxFillVariants : Z := 64.

Record fillHead : Type := mkHead {
  fh_stripe : nat; fh_key : bytes; fh_dir : Dir; fh_present : bool; fh_writer : option nat }.
#[export] Instance fillHead_eq_dec : EqDecision fillHead.
Proof. solve_decision. Defined.

Inductive FillToken : Type := mkToken {
  tk_parent : option FillToken;
  tk_fenceSelector : bytes;
  tk_fencePolicy : Z;
  tk_stripe : nat;
  tk_key : bytes;
  tk_selector : bytes;
  tk_generation : Z;
  tk_stripes : list nat;
  tk_generations : list Z;
  tk_snapshot : list fillHead;
  tk_rangeSnapshot : list fillHead;
  tk_wraps : list Z;
  tk_policies : list Z;
  tk_policy : Z }.

(** ["\nrange:"] and ["\nrange:manifest:"]. *)
Definition rangeInfix : bytes := [10; 114; 97; 110; 103; 101; 58].
Definition manifestInfix : bytes := rangeInfix ++ [109; 97; 110; 105; 102; 101; 115; 116; 58].

Section Invalidation.
Context {R : Type} `{RamStore R}.
Implicit Types s : Stripe R.

Abbreviation Cache := (list (nat * Stripe R)).

(** The position of the stripe of a key. *)
Definition KeyToStripe (c : Cache) (key : bytes) : option nat :=
  match c with
  | [] => None
  | [_] => Some 0%nat
  | _ => Some (Z.to_nat (ChecksumIEEE key mod u32 (Z.of_nat (length c))))
  end.

(** ** Snapshots and epochs *)

Fixpoint headsOf (a : nat) s (keys : list bytes) : option (list fillHead) :=
  match keys with
  | [] => Some []
  | key :: keys =>
      g ← DirManager.Get (s_dir s) key;
      let '(hit, _, d) := g in
      l ← headsOf a s keys;
      Some (mkHead a key d hit (OpenDir.Get (s_open s) key) :: l)
  end.

(** The loop over the stripes; [keysOf] enumerates the keys of one of them. *)
Fixpoint snapshotLoop (keysOf : DirTrie -> Z -> result (list bytes)) (c : Cache) (heads : list fillHead)
    : option (result (list fillHead)) :=
  match c with
  | [] => Some (Ok heads)
  | (a, s) :: c =>
      match keysOf (Trie (s_dir s)) (MaxFillVariants - Z.of_nat (length heads)) with
      | Err e => Some (Err e)
      | Ok keys => l ← headsOf a s keys; snapshotLoop keysOf c (heads ++ l)
      end
  end.

Definition fillSnapshotLocked (c : Cache) (selector : bytes) : option (result (list fillHead)) :=
  snapshotLoop (fun dt limit => KeysForSelectorLimit dt selector limit) c [].

Definition rangeSnapshotLocked (c : Cache) (selector : bytes) : option (result (list fillHead)) :=
  snapshotLoop (fun dt limit => KeysForPrefixLimit dt (selector ++ manifestInfix) limit) c [].

(** One stripe of [checkFillEpochsLocked]. *)
Fixpoint epochsLoop (c : Cache) (stripes : list nat) (generations policies : list Z) (selector : bytes) : result unit :=
  match c, stripes, generations, policies with
  | (a, s) :: c, a' :: stripes, g :: generations, p :: policies =>
      if s_closing s then Err ErrCacheClosed
      else if negb (Nat.eqb a' a) || negb (g =? Generation (s_open s)) || negb (p =? policyEpoch (s_open s) selector)
      then Err ErrInvalidated
      else epochsLoop c stripes generations policies selector
  | _, _, _, _ => Ok tt
  end.

Fixpoint checkFillEpochsLocked (c : Cache) (token : FillToken) : result unit :=
  match token with
  | mkToken parent _ _ _ _ selector _ stripes generations _ _ wraps policies _ =>
      if negb (Nat.eqb (length stripes) (length c)) || negb (Nat.eqb (length generations) (length c)) ||
         negb (Nat.eqb (length wraps) (length c)) || negb (Nat.eqb (length policies) (length c))
      then Err ErrInvalidated
      else
        match (match parent with Some p => checkFillEpochsLocked c p | None => Ok tt end) with
        | Err e => Err e
        | Ok _ => epochsLoop c stripes generations policies selector
        end
  end.

(** [CheckFill]; the token may be nil. *)
Definition CheckFill (c : Cache) (token : option FillToken) : result unit :=
  match token with None => Err ErrInvalidated | Some t => checkFillEpochsLocked c t end.

Definition checkFillLocked (c : Cache) (token : FillToken) : option (result unit) :=
  match checkFillEpochsLocked c token with
  | Err e => Some (Err e)
  | Ok _ =>
      if negb (forallb (fun '(w, (_, s)) => w =? s_generation s) (zip (tk_wraps token) c)) then Some (Err ErrInvalidated)
      else
        heads ← fillSnapshotLocked c (tk_selector token);
        match heads with
        | Err e => Some (Err e)
        | Ok heads => Some (if bool_decide (heads = tk_snapshot token) then Ok tt else Err ErrInvalidated)
        end
  end.

(** ** Capturing a fill *)

Definition BeginFill (c : Cache) (key selector : bytes) : option (result FillToken) :=
  match validateIdentity key selector with
  | Err e => Some (Err e)
  | Ok _ =>
      match KeyToStripe c key with
      | None => Some (Err (Errorf "no stripe found"))
      | Some _ =>
          if existsb (fun '(_, s) => s_closing s) c then Some (Err ErrCacheClosed)
          else
            snapshot ← fillSnapshotLocked c selector;
            match snapshot with
            | Err e => Some (Err e)
            | Ok snapshot =>
                ranges ← rangeSnapshotLocked c selector;
                match ranges with
                | Err e => Some (Err e)
                | Ok ranges =>
                    Some (Ok (mkToken None [] 0 0 key selector 0 (map fst c)
                      (map (fun '(_, s) => Generation (s_open s)) c) snapshot ranges
                      (map (fun '(_, s) => s_generation s) c)
                      (map (fun '(_, s) => policyEpoch (s_open s) selector) c) 0))
                end
            end
      end
  end.

Definition deriveFillLocked (c : Cache) (parent : option FillToken) (key : bytes) : option (result FillToken) :=
  match parent with
  | None => Some (Err ErrInvalidated)
  | Some p =>
      if bool_decide (tk_parent p <> None) || negb (HasPrefix key (tk_selector p ++ rangeInfix)) then Some (Err ErrInvalidated)
      else match validateIdentity key key with
      | Err e => Some (Err e)
      | Ok _ =>
          match checkFillEpochsLocked c p with
          | Err e => Some (Err e)
          | Ok _ =>
              snapshot ← fillSnapshotLocked c key;
              match snapshot with
              | Err e => Some (Err e)
              | Ok snapshot =>
                  Some (Ok (mkToken (Some p) (tk_fenceSelector p) (tk_fencePolicy p) (tk_stripe p) key key (tk_generation p)
                    (tk_stripes p) (tk_generations p) snapshot []
                    (map (fun '(_, s) => s_generation s) c)
                    (map (fun '(_, s) => policyEpoch (s_open s) key) c) (tk_policy p)))
              end
          end
      end
  end.

(** ** Removal *)

(** [RamCache.Delete] when the stripe has a RAM cache. *)
Definition ramForget s (key : bytes) : option (Stripe R) :=
  match s_ram s with
  | None => Some s
  | Some ram => ram ← rs_delete ram key; Some (set_s_ram (Some ram) s)
  end.

(** The loop of [removeLocked] over at most [n] fragments from [idx]. *)
Fixpoint removeFragments (n : nat) (idx : Z) s (key : bytes) : option (Stripe R) :=
  match n with
  | O => Some s
  | S n =>
      let fragment := FragmentKey key idx in
      g ← DirManager.Get (s_dir s) fragment;
      let '(hit, _, _) := g in
      s ← ramForget s fragment;
      if negb hit then Some s
      else r ← DirManager.Delete (s_dir s) fragment; removeFragments n (idx + 1) (set_s_dir r.1 s) key
  end.

(** [removeLocked]: the stripe and the writer to abort. *)
Definition removeLocked s (key : bytes) : option (Stripe R * option nat) :=
  let '(od, entry) := detach (s_open s) key in
  let s := set_s_open od s in
  let s := set_s_dir (setTrie (s_dir s) (DirTrie.Delete (Trie (s_dir s)) key)) s in
  s ← removeFragments (Z.to_nat (FragmentsNum (s_dir s))) 0 s key;
  Some (s, a ← entry; e_writer <$> od_heap od !! a).

Fixpoint removeKeys s (keys : list bytes) : option (Stripe R * list nat) :=
  match keys with
  | [] => Some (s, [])
  | key :: keys =>
      '(s, w) ← removeLocked s key;
      '(s, ws) ← removeKeys s keys;
      Some (s, match w with Some w => w :: ws | None => ws end)
  end.

Definition bumpGeneration s : Stripe R := set_s_open (setGeneration (u64 (od_generation (s_open s) + 1)) (s_open s)) s.

(** The keys [PurgeSelector] takes out of one stripe. *)
Definition purgeKeys (dt : DirTrie) (selector : bytes) (prefix : bool) : list bytes :=
  if prefix then DirTrie.Get dt selector
  else KeysForSelector dt selector ++ DirTrie.Get dt (selector ++ rangeInfix).

Definition purgeStripe s (selector : bytes) (prefix : bool) : option (Stripe R * list bytes * list nat) :=
  let s := bumpGeneration s in
  let keys := purgeKeys (Trie (s_dir s)) selector prefix in
  '(s, ws) ← removeKeys s keys; Some (s, keys, ws).

Fixpoint purgeLoop (c : Cache) (selector : bytes) (prefix : bool) : option (Cache * list bytes * list nat) :=
  match c with
  | [] => Some ([], [], [])
  | (a, s) :: c =>
      '(s, keys, ws) ← purgeStripe s selector prefix;
      '(c, keys', ws') ← purgeLoop c selector prefix;
      Some ((a, s) :: c, keys ++ keys', ws ++ ws')
  end.

(** [PurgeSelector]: the keys purged, and the writers on which the caller
    runs [Abort(ErrInvalidated)] after the stripes are unlocked. *)
Definition PurgeSelector (c : Cache) (selector : bytes) (prefix : bool) : option (Cache * result (list bytes) * list nat) :=
  if blen selector =? 0 then Some (c, Err (Errorf "empty purge selector"), [])
  else if existsb (fun '(_, s) => s_closing s) c then Some (c, Err ErrCacheClosed, [])
  else '(c, keys, ws) ← purgeLoop c selector prefix; Some (c, Ok (sortStrings keys), ws).

(** [Remove] on the stripe of the key. *)
Definition Remove (c : Cache) (key : bytes) : option (Cache * option error * option nat) :=
  if blen key =? 0 then Some (c, Some (Errorf "empty cache key"), None)
  else match KeyToStripe c key with
  | None => Some (c, Some (Errorf "no stripe found"), None)
  | Some i =>
      '(a, s) ← c !! i;
      if s_closing s then Some (c, Some ErrCacheClosed, None)
      else '(s, w) ← removeLocked (bumpGeneration s) key; Some (<[i := (a, s)]> c, None, w)
  end.

(** [Purge]: a trailing slash selects a prefix. *)
Definition Purge (c : Cache) (key : bytes) : option (Cache * list bytes * list nat) :=
  match last key with
  | None => Some (c, [], [])
  | Some ch =>
      '(c, r, ws) ← PurgeSelector c key (ch =? 47);
      Some (c, match r with Ok keys => keys | Err _ => [] end, ws)
  end.

(** [abortOpenWriters]: every entry is detached, in the order the runtime
    picks for the map, which [order] lists. *)
Definition abortOpenWriters s (order : list bytes) : Stripe R * list nat :=
  let s := bumpGeneration s in
  let od := foldl (fun od key => (detach od key).1) (s_open s) order in
  (set_s_open od s, omap (fun key => a ← OpenDir.Get (s_open s) key; e_writer <$> od_heap (s_open s) !! a) order).

(** ** Admission of writers *)

(** The sweep of [reserveIdentityLocked]: identities that nothing backs. *)
Fixpoint sweepIdentities s (dt : DirTrie) (l : list IndexEntry) : option DirTrie :=
  match l with
  | [] => Some dt
  | e :: l =>
      match OpenDir.Get (s_open s) (ie_Key e) with
      | Some _ => sweepIdentities s dt l
      | None =>
          g ← DirManager.Get (s_dir s) (ie_Key e);
          let '(hit, _, d) := g in
          sweepIdentities s (if negb hit || negb (dirValid s d) then DirTrie.Delete dt (ie_Key e) else dt) l
      end
  end.

Definition reserveIdentityLocked s (key selector : bytes) : option (Stripe R * option error) :=
  match SetIdentity (Trie (s_dir s)) key selector with
  | Ok dt => Some (set_s_dir (setTrie (s_dir s) dt) s, None)
  | Err e =>
      if decide (e = ErrIndexFull) then
        dt ← sweepIdentities s (Trie (s_dir s)) (Snapshot (Trie (s_dir s)));
        Some (match SetIdentity dt key selector with
              | Ok dt => (set_s_dir (setTrie (s_dir s) dt) s, None)
              | Err e => (set_s_dir (setTrie (s_dir s) dt) s, Some e)
              end)
      else Some (s, Some e)
  end.

(** The write half of a [CacheVC]. *)
Record writeVC : Type := mkVC { vc_stripe : nat; vc_key : bytes; vc_writer : CacheWriter; vc_entry : nat; vc_generation : Z }.

(** [newCacheVCWriteLocked] on the stripe [s] of the token; [identity] is what
    [rand.Read] returned, [ctxErr] the state of the caller's context, and [wid]
    the address of the new writer. *)
Definition newCacheVCWriteLocked (identity : result bytes) (ctxErr : option error) (wid : nat) s (token : FillToken)
    : option (Stripe R * result writeVC) :=
  let key := tk_key token in
  let w := NewCacheWriter (s_open s) key identity in
  match w_err w with
  | Some e => Some (s, Err e)
  | None =>
      let w := set_w_policy (tk_policy token) (set_w_selector (tk_selector token) (set_w_generation (tk_generation token) (set_w_ctxErr ctxErr w))) in
      let w := set_w_fencePolicy (tk_fencePolicy token) (set_w_fenceSelector (tk_fenceSelector token) w) in
      if s_closing s || bool_decide (s_storageErr s <> None) then Some (s, Err ErrCacheClosed)
      else if negb (tk_generation token =? Generation (s_open s)) || negb (tk_policy token =? policyEpoch (s_open s) (tk_selector token)) ||
              ((0 <? blen (tk_fenceSelector token)) && negb (tk_fencePolicy token =? policyEpoch (s_open s) (tk_fenceSelector token)))
      then Some (s, Err ErrInvalidated)
      else if bool_decide (OpenDir.Get (s_open s) key <> None) then Some (s, Err (Errorf "write conflict: another writer is active"))
      else
        '(s, e) ← reserveIdentityLocked s key (tk_selector token);
        match e with
        | Some e => Some (s, Err e)
        | None =>
            let '(od, entry, _) := OpenDir.Add (s_open s) key wid in
            let s := set_s_open od s in
            let w := set_w_od (Some entry) w in
            r ← DirManager.Delete (s_dir s) key;
            let s := set_s_dir r.1 s in
            s ← ramForget s key;
            Some (s, Ok (mkVC (tk_stripe token) key w entry (tk_generation token)))
        end
  end.

(** The token bound to the key: the epochs of stripe [i], and the fence of a
    derived fill's parent. *)
Definition bindToken (token : FillToken) (key : bytes) (i : nat) (a : nat) : FillToken :=
  let '(fs, fp) := match tk_parent token with
                   | Some p => (tk_selector p, nth i (tk_policies p) 0)
                   | None => (tk_fenceSelector token, tk_fencePolicy token)
                   end in
  mkToken (tk_parent token) fs fp a key (tk_selector token) (nth i (tk_generations token) 0) (tk_stripes token)
    (tk_generations token) (tk_snapshot token) (tk_rangeSnapshot token) (tk_wraps token) (tk_policies token)
    (nth i (tk_policies token) 0).

(** [OpenWriteFillKey] and [newCacheVCWrite]; [OpenWriteFill] passes the
    token's own key. *)
Definition OpenWriteFillKey (identity : result bytes) (ctxErr : option error) (wid : nat) (c : Cache) (token : option FillToken) (key : bytes)
    : option (Cache * result writeVC) :=
  match token with
  | None => Some (c, Err (Errorf "invalid cache fill token"))
  | Some token =>
      if negb (Nat.eqb (length (tk_stripes token)) (length c)) || negb (Nat.eqb (length (tk_policies token)) (length c))
      then Some (c, Err (Errorf "invalid cache fill token"))
      else match validateIdentity key (tk_selector token) with
      | Err e => Some (c, Err e)
      | Ok _ =>
          match ctxErr with
          | Some e => Some (c, Err e)
          | None =>
              if negb (bool_decide (tk_stripes token = map fst c)) then Some (c, Err (Errorf "foreign cache fill token"))
              else
                i ← KeyToStripe c key;
                '(a, s) ← c !! i;
                match writeError s with
                | Some e => Some (c, Err e)
                | None =>
                    '(s, r) ← newCacheVCWriteLocked identity ctxErr wid s (bindToken token key i a);
                    Some (<[i := (a, s)]> c, r)
                end
          end
      end
  end.

(** The removals of [openWriteFillKeyReplacingLocked]. *)
Fixpoint removeOld (c : Cache) (key : bytes) (remove : list bytes) : option Cache :=
  match remove with
  | [] => Some c
  | old :: remove =>
      if decide (old = key) then removeOld c key remove
      else
        i ← KeyToStripe c old;
        '(a, s) ← c !! i;
        '(s, _) ← removeLocked s old;
        removeOld (<[i := (a, s)]> c) key remove
  end.

Definition openWriteFillKeyReplacingLocked (identity : result bytes) (ctxErr : option error) (wid : nat) (c : Cache) (token : FillToken)
    (key : bytes) (remove : list bytes) : option (Cache * result writeVC) :=
  x ← checkFillLocked c token;
  match x with
  | Err e => Some (c, Err e)
  | Ok _ =>
      if existsb (fun h => bool_decide (fh_writer h <> None)) (tk_snapshot token) then Some (c, Err ErrInvalidated)
      else if negb (forallb (fun k => existsb (fun h => bool_decide (fh_key h = k)) (tk_snapshot token)) remove)
      then Some (c, Err (Errorf "replacement outside selector"))
      else
        i ← KeyToStripe c key;
        '(a, s) ← c !! i;
        '(s, r) ← newCacheVCWriteLocked identity ctxErr wid s (bindToken token key i a);
        let c := <[i := (a, s)]> c in
        match r with
        | Err e => Some (c, Err e)
        | Ok vc => c ← removeOld c key remove; Some (c, Ok vc)
        end
  end.

Definition OpenWriteFillKeyReplacing (identity : result bytes) (ctxErr : option error) (wid : nat) (c : Cache) (token : option FillToken)
    (key : bytes) (remove : list bytes) : option (Cache * result writeVC) :=
  match token with
  | None => Some (c, Err ErrInvalidated)
  | Some token =>
      match validateIdentity key (tk_selector token) with
      | Err e => Some (c, Err e)
      | Ok _ =>
          match ctxErr with
          | Some e => Some (c, Err e)
          | None => openWriteFillKeyReplacingLocked identity ctxErr wid c token key remove
          end
      end
  end.

Definition OpenWriteDerivedFill (identity : result bytes) (ctxErr : option error) (wid : nat) (c : Cache) (parent : option FillToken)
    (key : bytes) : option (Cache * result writeVC) :=
  match ctxErr with
  | Some e => Some (c, Err e)
  | None =>
      t ← deriveFillLocked c parent key;
      match t with
      | Err e => Some (c, Err e)
      | Ok t => openWriteFillKeyReplacingLocked identity ctxErr wid c t key []
      end
  end.

(** ** Invalidating a fill *)

(** Whether [InvalidateFill] removes [head] from the stripe [s], whose wrap
    count in the token is [wrap]: the first equal snapshot head decides. *)
Definition ownsHead s (wrap : Z) (snapshots : list fillHead) (head : fillHead) : bool :=
  match list_find (fun old => old = head) snapshots with
  | None => negb (fh_present head) && bool_decide (fh_writer head <> None)
  | Some (_, old) =>
      if negb (fh_present head) then true
      else
        let aligned := Bool.eqb (phase (fh_dir old)) (odd wrap) in
        if negb aligned && (wrap =? 0) then negb (fh_present head) && bool_decide (fh_writer head <> None)
        else allocationValid s (mkAlloc (i64 (offset (fh_dir old))) (if aligned then wrap else wrap - 1) 0) 1
  end.

Fixpoint invalidateHeads s (a : nat) (wrap : Z) (snapshots heads : list fillHead) : option (Stripe R * list nat) :=
  match heads with
  | [] => Some (s, [])
  | head :: heads =>
      if Nat.eqb (fh_stripe head) a && ownsHead s wrap snapshots head then
        '(s, w) ← removeLocked s (fh_key head);
        '(s, ws) ← invalidateHeads s a wrap snapshots heads;
        Some (s, match w with Some w => w :: ws | None => ws end)
      else invalidateHeads s a wrap snapshots heads
  end.

Fixpoint invalidateLoop (c : Cache) (wraps : list Z) (selector : bytes) (snapshots heads : list fillHead) : option (Cache * list nat) :=
  match c, wraps with
  | (a, s) :: c, wrap :: wraps =>
      let s := set_s_open (addPolicyEpoch (s_open s) selector) s in
      '(s, ws) ← invalidateHeads s a wrap snapshots heads;
      '(c, ws') ← invalidateLoop c wraps selector snapshots heads;
      Some ((a, s) :: c, ws ++ ws')
  | _, _ => Some (c, [])
  end.

(** [InvalidateFill]: the outcome and the writers the caller aborts. *)
Definition InvalidateFill (c : Cache) (token : option FillToken) : option (Cache * option error * list nat) :=
  match token with
  | None => Some (c, Some ErrInvalidated, [])
  | Some token =>
      match checkFillEpochsLocked c token with
      | Err e => Some (c, Some e, [])
      | Ok _ =>
          h ← fillSnapshotLocked c (tk_selector token);
          match h with
          | Err e => Some (c, Some e, [])
          | Ok heads =>
              r ← rangeSnapshotLocked c (tk_selector token);
              match r with
              | Err e => Some (c, Some e, [])
              | Ok ranges =>
                  '(c, ws) ← invalidateLoop c (tk_wraps token) (tk_selector token) (tk_snapshot token ++ tk_rangeSnapshot token) (heads ++ ranges);
                  Some (c, None, ws)
              end
          end
      end
  end.

(** [OpenReadCommitted]: the generation the reader captures. *)
Definition OpenReadCommitted (c : Cache) (key : bytes) : option (result Z) :=
  match KeyToStripe c key with
  | None => Some (Err (Errorf "no stripe found"))
  | Some i =>
      '(_, s) ← c !! i;
      Some (if s_closing s then Err ErrCacheClosed
            else if bool_decide (OpenDir.Get (s_open s) key <> None) then Err ErrWriteInProgress
            else Ok (Generation (s_open s)))
  end.

End Invalidation.
Arguments removeLocked {R H} s key.
