(* ===== verification/Checkpoint.v ===== *)
(** * Checkpoints

    [cache/checkpoint.go] and the life cycle of a stripe in [cache/stripe.go]
    ([Open], [Close], [Save]): the sidecar file a drained stripe leaves, the
    session marker that makes it valid once, and the recovery that installs
    only complete objects.

    The sidecar is the content of the file [checkpointPath] names, [None] when
    it cannot be opened.  [StripeHeader], which nothing reads after recovery,
    is left out of the state. *)

From S2P Require Import Prelude Hash Dir Doc DirTrie DirManager DirSpec DirInit Directory HttpInfo RamCache File AggBuffer OpenDir Evacuation Stripe CacheWriter FragmentWriter CacheReader FragmentReader Invalidation.

Definition checkpointMagic : Z := 0x424b434845434b33.
Definition checkpointVersion : Z := 1.

Record checkpointHeader : Type := mkHeader {
  h_Magic : Z; h_Version : Z; h_Clean : Z;
  h_Skip : Z; h_Length : Z; h_Start : Z; h_WritePos : Z;
  h_Phase : Z; h_DirBytes : Z; h_Entries : Z; h_MapBytes : Z;
  h_Session : bytes; h_Checksum : Z }.

(** [binary.Size(h)] *)
Definition headerSize : Z := 92.

Definition setHeaderChecksum (c : Z) (h : checkpointHeader) : checkpointHeader :=
  mkHeader (h_Magic h) (h_Version h) (h_Clean h) (h_Skip h) (h_Length h) (h_Start h) (h_WritePos h) (h_Phase h)
    (h_DirBytes h) (h_Entries h) (h_MapBytes h) (h_Session h) c.

(** [binary.Write] of the header, all of it but the checksum. *)
Definition headerPrefix (h : checkpointHeader) : bytes :=
  put_be 8 (h_Magic h) ++ put_be 4 (h_Version h) ++ put_be 4 (h_Clean h) ++
  put_be 8 (u64 (h_Skip h)) ++ put_be 8 (u64 (h_Length h)) ++ put_be 8 (u64 (h_Start h)) ++ put_be 8 (u64 (h_WritePos h)) ++
  put_be 4 (h_Phase h) ++ put_be 8 (h_DirBytes h) ++ put_be 4 (h_Entries h) ++ put_be 8 (h_MapBytes h) ++ h_Session h.
Definition writeHeader (h : checkpointHeader) : bytes := headerPrefix h ++ put_be 4 (h_Checksum h).

(** [binary.Read] of the header. *)
Definition readHeader (l : bytes) : result checkpointHeader :=
  _ ← read_guard headerSize l;
  let '(magic, l) := take_be 8 l in
  let '(version, l) := take_be 4 l in
  let '(clean, l) := take_be 4 l in
  let '(skip, l) := take_be 8 l in
  let '(len, l) := take_be 8 l in
  let '(start, l) := take_be 8 l in
  let '(pos, l) := take_be 8 l in
  let '(ph, l) := take_be 4 l in
  let '(dirBytes, l) := take_be 8 l in
  let '(es, l) := take_be 4 l in
  let '(mapBytes, l) := take_be 8 l in
  let '(session, l) := take_bytes 16 l in
  let '(sum, l) := take_be 4 l in
  Ok (mkHeader magic version clean (i64 skip) (i64 len) (i64 start) (i64 pos) ph dirBytes es mapBytes session sum).

(** ** The identity mapping *)

Definition encodeEntry (e : IndexEntry) : bytes :=
  put_be 4 (u32 (blen (ie_Key e))) ++ put_be 4 (u32 (blen (ie_Selector e))) ++ ie_Key e ++ ie_Selector e.

Definition overLimit (e : IndexEntry) : bool :=
  (MaxIndexKeyBytes <? blen (ie_Key e)) || (MaxIndexKeyBytes <? blen (ie_Selector e)).

Definition encodeMapping (es : list IndexEntry) : result bytes :=
  if existsb overLimit es then Err (Errorf "checkpoint key limit")
  else
    let mapping := es ≫= encodeEntry in
    if (MaxIndexEntries <? Z.of_nat (length es)) || (MaxIndexBytes + 8 * MaxIndexEntries <? blen mapping)
    then Err (Errorf "checkpoint mapping limit") else Ok mapping.

Definition badKeyLength : error := Errorf "invalid checkpoint key length".

(** The loop over the [n] entries of the header. *)
Fixpoint readEntries (n : nat) (l : bytes) : result (list IndexEntry * bytes) :=
  match n with
  | O => Ok ([], l)
  | S n =>
      match read_be 4 l with
      | Err _ => Err badKeyLength
      | Ok (keyLen, l) =>
          match read_be 4 l with
          | Err _ => Err badKeyLength
          | Ok (selectorLen, l) =>
              if (keyLen =? 0) || (MaxIndexKeyBytes <? keyLen) || (MaxIndexKeyBytes <? selectorLen) ||
                 (blen l <? keyLen + selectorLen)
              then Err badKeyLength
              else
                let '(key, l) := take_bytes (Z.to_nat keyLen) l in
                let '(selector, l) := take_bytes (Z.to_nat selectorLen) l in
                '(es, l) ← readEntries n l;
                Ok (mkIndexEntry key selector :: es, l)
          end
      end
  end.

Definition decodeMapping (n : Z) (l : bytes) : result (list IndexEntry) :=
  '(es, l) ← readEntries (Z.to_nat n) l;
  if negb (blen l =? 0) then Err (Errorf "trailing checkpoint mapping") else Ok es.

Section Checkpoint.
Context {R : Type} `{RamStore R}.
Implicit Types s : Stripe R.

(** ** Writing *)

(** The header of a checkpoint, its checksum still zero. *)
Definition checkpointOf s (clean : Z) (dirBytes es mapBytes : Z) : checkpointHeader :=
  mkHeader checkpointMagic checkpointVersion clean (s_skip s) (s_len s) (s_start s) (s_writePos s)
    (if s_phase s then 1 else 0) dirBytes es mapBytes (s_session s) 0.

(** The header with [PutUint32] of the checksum, and what follows it. *)
Definition sealHeader (h : checkpointHeader) (body : bytes) : bytes :=
  let data := writeHeader h ++ body in
  take (Z.to_nat (headerSize - 4)) data ++ put_be 4 (ChecksumIEEE data) ++ drop (Z.to_nat headerSize) data.

Definition encodeCheckpoint s (clean : bool) : result bytes :=
  if clean then
    let dirs := DirManager.MarshalBinary (s_dir s) in
    let es := Snapshot (Trie (s_dir s)) in
    mapping ← encodeMapping es;
    Ok (sealHeader (checkpointOf s 1 (blen dirs) (u32 (Z.of_nat (length es))) (blen mapping)) (dirs ++ mapping))
  else Ok (sealHeader (checkpointOf s 0 0 0 0) []).

(** The system calls of [publishCheckpoint] and their outcomes. *)
Record publication : Type := mkPub {
  p_create : option error; p_write : io; p_sync : option error; p_close : option error;
  p_rename : option error; p_openDir : option error; p_syncDir : option error }.
Definition pub_ok : publication := mkPub None io_ok None None None None None.

(** The first error. *)
Definition firstErr (a b : option error) : option error := match a with Some _ => a | None => b end.

(** [publishCheckpoint]: the sidecar and the error. *)
Definition publishCheckpoint (p : publication) (sidecar : option bytes) (data : bytes) : option bytes * option error :=
  match p_create p with
  | Some e => (sidecar, Some e)
  | None =>
      let '(tmp, e) := writeFullAt (p_write p) [] data 0 in
      let e := match e with None => p_sync p | Some _ => e end in
      match firstErr e (p_close p) with
      | Some e => (sidecar, Some e)
      | None =>
          match p_rename p with
          | Some e => (sidecar, Some e)
          | None => (Some tmp, firstErr (p_openDir p) (p_syncDir p))
          end
      end
  end.

(** [saveSnapshot]; [sync] is the outcome of [f.Sync]. *)
Definition saveSnapshot (sync : option error) (p : publication) (clean : bool) s (sidecar : option bytes)
    : Stripe R * option bytes * option error :=
  match s_storageErr s, s_disk s with
  | Some e, _ => (s, sidecar, Some e)
  | None, None => (s, sidecar, Some ErrCacheClosed)
  | None, Some _ =>
      match encodeCheckpoint s clean with
      | Err e => let s := failLocked (Some e) s in (s, sidecar, s_storageErr s)
      | Ok data =>
          let '(sidecar, e) := match sync with
                               | Some e => (sidecar, Some e)
                               | None => publishCheckpoint p sidecar data
                               end in
          let s := failLocked e s in (s, sidecar, s_storageErr s)
      end
  end.

(** ** Reading *)

(** The session marker in the first bytes of the stripe. *)
Definition sessionMarker (session : bytes) : bytes :=
  put_be 4 StripeHeaderMagic ++ put_be 4 StripeHeaderVer ++ session.

Definition markerMatches (marker session : bytes) : bool :=
  (get_be (take 4 marker) =? StripeHeaderMagic) && (get_be (take 4 (drop 4 marker)) =? StripeHeaderVer) &&
  bool_decide (drop 8 marker = session).

(** The header fields a checkpoint of this stripe must have. *)
Definition trusted s (h : checkpointHeader) : bool :=
  (h_Magic h =? checkpointMagic) && (h_Version h =? checkpointVersion) && (h_Clean h =? 1) &&
  (h_Skip h =? s_skip s) && (h_Length h =? s_len s) && (h_Start h =? s_start s) &&
  (s_start s <=? h_WritePos h) && (h_WritePos h <=? stripeEnd s) && (h_Phase h <=? 1) &&
  (h_DirBytes h =? u64 (BinarySize (s_dir s))) &&
  (h_Entries h <=? u32 (Z.min (i64 (FragmentsNum (s_dir s))) MaxIndexEntries)) &&
  (h_MapBytes h <=? MaxIndexBytes + 8 * MaxIndexEntries).

Definition clearChecksum (data : bytes) : bytes :=
  take (Z.to_nat (headerSize - 4)) data ++ repeat 0 4 ++ drop (Z.to_nat headerSize) data.

(** [loadCheckpoint] up to the two decoders: the header, the directory image
    and the identities; [None] for the panic on a stripe without a file. *)
Definition readCheckpoint s (sidecar : option bytes) : option (result (checkpointHeader * bytes * list IndexEntry)) :=
  match sidecar with
  | None => Some (Err (Errorf "open checkpoint"))
  | Some f =>
      match readHeader f with
      | Err e => Some (Err e)
      | Ok h =>
          disk ← s_disk s;
          match ReadAt disk StripeHeaderSize (s_skip s) with
          | (_, Some e) => Some (Err e)
          | (marker, None) =>
              if negb (markerMatches marker (h_Session h)) then Some (Err (Errorf "checkpoint session mismatch"))
              else if negb (trusted s h) then Some (Err (Errorf "untrusted checkpoint"))
              else
                let size := u64 (headerSize + h_DirBytes h + h_MapBytes h) in
                if negb (blen f =? size) then Some (Err (Errorf "checkpoint length mismatch"))
                else match ReadAt f size 0 with
                | (_, Some e) => Some (Err e)
                | (data, None) =>
                    let data := clearChecksum data in
                    if negb (ChecksumIEEE data =? h_Checksum h) then Some (Err (Errorf "checkpoint checksum mismatch"))
                    else Some (es ← decodeMapping (h_Entries h) (drop (Z.to_nat (headerSize + h_DirBytes h)) data);
                               Ok (h, slice data headerSize (headerSize + h_DirBytes h), es))
                end
          end
      end
  end.

(** [io.Copy(io.Discard, r)]: reads of 8 KiB up to the end of the stream. *)
Definition discardBuffer : Z := 8192.

Fixpoint discard (fuel : nat) s (r : CacheReader) : option (Stripe R * option error) :=
  match fuel with
  | O => None
  | S fuel =>
      '(s, r, _, e) ← Read s r discardBuffer;
      match e with
      | None => discard fuel s r
      | Some e => Some (s, if decide (e = ErrEOF) then None else Some e)
      end
  end.

Definition discardFuel (r : CacheReader) : nat := Z.to_nat (r_totalLen r / discardBuffer + 2).

Record recoveredDir : Type := mkRecovered { rd_key : bytes; rd_dir : Dir }.

(** The fragments of one object, from the directory that was loaded. *)
Fixpoint recoverFragments (dm : DirManager) (key : bytes) (idxs : list nat) : option (result (list recoveredDir)) :=
  match idxs with
  | [] => Some (Ok [])
  | idx :: idxs =>
      let k := FragmentKey key (Z.of_nat idx) in
      '(hit, _, d) ← DirManager.Get dm k;
      if negb hit then Some (Err (Errorf "checkpoint changed during recovery"))
      else
        l ← recoverFragments dm key idxs;
        Some (ds ← l; Ok (mkRecovered k d :: ds))
  end.

(** One turn of the recovery loop; [Ok None] is a [continue]. *)
Definition recoverEntry s (e : IndexEntry) : option (Stripe R * result (option (list recoveredDir))) :=
  '(s, r, _, err) ← LoadHTTPInfo s (NewCacheReader (ie_Key e)) None;
  match err with
  | Some _ => Some (s, Ok None)
  | None =>
      let fragments := Z.max 1 (u64 (u64 (r_totalLen r + TargetFragmentSize) - 1) / TargetFragmentSize) in
      if FragmentsNum (s_dir s) <? fragments then Some (s, Ok None)
      else
        '(s, err) ← discard (discardFuel r) s r;
        match err with
        | Some _ => Some (s, Ok None)
        | None =>
            x ← recoverFragments (s_dir s) (ie_Key e) (seq 0 (Z.to_nat fragments));
            Some (s, match x with Ok ds => Ok (Some ds) | Err e => Err e end)
        end
  end.

Fixpoint recoverEntries s (es : list IndexEntry) : option (Stripe R * result (list recoveredDir * list IndexEntry)) :=
  match es with
  | [] => Some (s, Ok ([], []))
  | e :: es =>
      '(s, x) ← recoverEntry s e;
      match x with
      | Err err => Some (s, Err err)
      | Ok None => recoverEntries s es
      | Ok (Some ds) =>
          '(s, y) ← recoverEntries s es;
          Some (s, match y with Ok (ds', valid) => Ok (ds ++ ds', e :: valid) | Err err => Err err end)
      end
  end.

(** The entries are set again, now with the identity of their keys; [rnd]
    gives the draws of each [Set]. *)
Fixpoint installRecovered (rnd : nat -> nat -> nat) (dm : DirManager) (ds : list recoveredDir) : option DirManager :=
  match ds with
  | [] => Some dm
  | r :: ds =>
      let d := rd_dir r in
      '(dm, _) ← DirManager.Set_ (rnd (length ds)) dm (rd_key r) (offset d) (i64 (approxSize d)) (phase d);
      installRecovered rnd dm ds
  end.

Definition loadCheckpoint (rnd : nat -> nat -> nat) (sidecar : option bytes) s : option (Stripe R * option error) :=
  x ← readCheckpoint s sidecar;
  match x with
  | Err e => Some (s, Some e)
  | Ok (h, dirs, es) =>
      match DirTrie.Restore (Trie (s_dir s)) es with
      | Err e => Some (s, Some e)
      | Ok t =>
          let s := set_s_dir (setTrie (s_dir s) t) s in
          match DirManager.UnmarshalBinary (s_dir s) dirs with
          | Err e => Some (s, Some e)
          | Ok dm =>
              let s := set_s_phase (h_Phase h =? 1) (set_s_writePos (h_WritePos h) (set_s_dir dm s)) in
              '(s, y) ← recoverEntries s es;
              match y with
              | Err e => Some (s, Some e)
              | Ok (ds, valid) =>
                  dm ← InitEmptyDirs (s_dir s);
                  dm ← installRecovered rnd dm ds;
                  let s := set_s_evac NewEvacuationTable (set_s_dir dm s) in
                  match DirTrie.Restore (Trie (s_dir s)) valid with
                  | Err e => Some (s, Some e)
                  | Ok t => Some (set_s_dir (setTrie (s_dir s) t) s, None)
                  end
              end
          end
      end
  end.

(** [Load]: a stripe that cannot be recovered starts cold. *)
Definition coldStart s : option (Stripe R) :=
  dm ← InitEmptyDirs (s_dir s);
  let dm := match DirTrie.Restore (Trie dm) [] with Ok t => setTrie dm t | Err _ => dm end in
  Some (set_s_phase false (set_s_writePos (s_start s) (set_s_dir dm s))).

Definition Load (rnd : nat -> nat -> nat) (sidecar : option bytes) s : option (Stripe R * option error) :=
  '(s, e) ← loadCheckpoint rnd sidecar s;
  match e with
  | None => Some (s, None)
  | Some _ => s ← coldStart s; Some (s, e)
  end.

(** ** Sessions *)

(** [markSession]: [nonce] is what [rand.Read] filled in, [w] and [sync] the
    outcomes of the write and of [Sync]. *)
Definition markSession (nonce : result bytes) (w : io) (sync : option error) s : option (Stripe R * option error) :=
  match nonce with
  | Err e => Some (s, Some e)
  | Ok n =>
      let s := set_s_session n s in
      f ← s_disk s;
      let '(f, e) := writeFullAt w f (sessionMarker n) (s_skip s) in
      Some (set_s_disk (Some f) s, match e with Some e => Some e | None => sync end)
  end.

(** [Open] of a stripe [Init] has prepared, from the opened file on;
    [owned] is the outcome of [acquireOwnership]. *)
Definition Open (rnd : nat -> nat -> nat) (owned : option error) (nonce : result bytes) (w : io) (sync : option error)
    (f : file) (sidecar : option bytes) s : option (Stripe R * option error) :=
  match owned with
  | Some e => Some (s, Some e)
  | None =>
      '(s, _) ← Load rnd sidecar (set_s_disk (Some f) s);
      '(s, e) ← markSession nonce w sync s;
      match e with
      | Some e => Some (set_s_disk None s, Some e)
      | None => Some (openPosition s, None)
      end
  end.

(** [FlushAggBufferSync]: everything queued so far is flushed. *)
Definition FlushAggBufferSync (sch : list (turn R)) s : option (list (turn R) * Stripe R * result unit) :=
  flushSync sch None s (sequence (s_agg s)).

(** [Save] *)
Definition Save (sch : list (turn R)) (sync : option error) (p : publication) s (sidecar : option bytes)
    : option (list (turn R) * Stripe R * option bytes * option error) :=
  '(sch, s, x) ← FlushAggBufferSync sch s;
  match x with
  | Err e => Some (sch, s, sidecar, Some e)
  | Ok _ => let '(s, sidecar, e) := saveSnapshot sync p false s sidecar in Some (sch, s, sidecar, e)
  end.

(** The body of [Close]; [order] is the order the open writers are aborted
    in, [sch] what the disk worker does while the flush waits and
    [drain] what both workers do before they stop. *)
Definition Close (order : list bytes) (sch : list (turn R)) (drain : Stripe R -> option (Stripe R)) (sync : option error)
    (p : publication) (closeErr : option error) s (sidecar : option bytes)
    : option (Stripe R * option bytes * list (option error)) :=
  let s := set_s_closing true s in
  let s := (abortOpenWriters s order).1 in
  let s := set_s_agg (stopAdds (s_agg s)) s in
  '(_, s, x) ← FlushAggBufferSync sch s;
  let flushErr := match x with Ok _ => None | Err e => Some e end in
  s ← drain s;
  let '(s, sidecar, saveErr) := saveSnapshot sync p true s sidecar in
  match s_disk s with
  | None => Some (s, sidecar, [flushErr])
  | Some _ => Some (set_s_disk None s, sidecar, [flushErr; saveErr; closeErr])
  end.

End Checkpoint.
