(* ===== verification/CheckpointSpec.v ===== *)
(** * What a checkpoint restores

    Theorems about [Checkpoint]: the sidecar of a drained stripe decodes to
    what was encoded; a sidecar of another session, an unclean one and a
    damaged one are refused and the stripe starts cold; and a restart after a
    clean shutdown serves every complete object of the index again. *)

From S2P Require Import Prelude Hash Dir Doc DirTrie DirManager DirChain DirOps DirRemove DirSpec DirInit Directory DirReinstall HttpInfo RamCache File AggBuffer AggLog OpenDir Evacuation Stripe Ring CacheWriter WriterSpec FragmentWriter CacheReader ReaderSpec ReaderTotal FragmentReader Checkpoint.

(** ** The header *)

Record header_ok (h : checkpointHeader) : Prop := {
  ho_words : fits 64 (h_Magic h) /\ fits 32 (h_Version h) /\ fits 32 (h_Clean h) /\ fits 32 (h_Phase h);
  ho_pos : fits_i64 (h_Skip h) /\ fits_i64 (h_Length h) /\ fits_i64 (h_Start h) /\ fits_i64 (h_WritePos h);
  ho_sizes : fits 64 (h_DirBytes h) /\ fits 32 (h_Entries h) /\ fits 64 (h_MapBytes h);
  ho_session : length (h_Session h) = 16%nat /\ bytes_ok (h_Session h);
  ho_sum : fits 32 (h_Checksum h) }.

Lemma length_headerPrefix h : length (h_Session h) = 16%nat -> length (headerPrefix h) = 88%nat.
Proof. intros Hs. unfold headerPrefix. by rewrite !length_app, !length_put_be, Hs. Qed.

Lemma readHeader_write h l : header_ok h -> readHeader (writeHeader h ++ l) = Ok h.
Proof.
  intros [(W1 & W2 & W3 & W4) (P1 & P2 & P3 & P4) (S1 & S2 & S3) [H1 H2] C]. unfold readHeader, read_guard, writeHeader.
  assert (blen ((headerPrefix h ++ put_be 4 (h_Checksum h)) ++ l) = 92 + blen l) as ->.
  { unfold blen. rewrite !length_app, length_headerPrefix, length_put_be by done. lia. }
  pose proof (blen_nonneg l). unfold headerSize. destruct (_ <? 92) eqn:E; b2p; [lia|]. cbn [mbind result_bind].
  unfold headerPrefix. rewrite <- !app_assoc.
  repeat first [rewrite take_be_put by (done || apply u64_fits) | rewrite take_bytes_app by done].
  rewrite !i64_u64 by done. by destruct h.
Qed.

(** The sealed image is the header with its checksum, then the body. *)
Lemma sealHeader_eq h body :
  length (h_Session h) = 16%nat ->
  sealHeader h body = writeHeader (setHeaderChecksum (ChecksumIEEE (writeHeader h ++ body)) h) ++ body.
Proof.
  intros Hs. unfold sealHeader. change (Z.to_nat (headerSize - 4)) with 88%nat. change (Z.to_nat headerSize) with 92%nat.
  pose proof (length_headerPrefix h Hs) as Hl. unfold writeHeader. change (headerPrefix (setHeaderChecksum ?c h)) with (headerPrefix h).
  change (h_Checksum (setHeaderChecksum ?c h)) with c. rewrite <- !app_assoc. rewrite take_app_length' by lia. f_equal. f_equal.
  rewrite app_assoc, drop_app_length'; [done|]. rewrite length_app, Hl, length_put_be. lia.
Qed.

(** Clearing the checksum of the image gives back the bytes it was computed
    over. *)
Lemma clearChecksum_seal h body :
  length (h_Session h) = 16%nat -> h_Checksum h = 0 -> clearChecksum (sealHeader h body) = writeHeader h ++ body.
Proof.
  intros Hs H0. rewrite sealHeader_eq by done. pose proof (length_headerPrefix h Hs) as Hl. unfold clearChecksum, writeHeader.
  change (headerPrefix (setHeaderChecksum ?c h)) with (headerPrefix h).
  change (Z.to_nat (headerSize - 4)) with 88%nat. change (Z.to_nat headerSize) with 92%nat. rewrite <- !app_assoc.
  rewrite take_app_length' by lia. f_equal. rewrite H0. change (put_be 4 0) with (repeat 0 4). f_equal.
  rewrite app_assoc, drop_app_length'; [done|]. rewrite length_app, Hl, length_put_be. lia.
Qed.

(** ** The mapping *)

Definition entry_ok (e : IndexEntry) : Prop :=
  0 < blen (ie_Key e) <= MaxIndexKeyBytes /\ 0 < blen (ie_Selector e) <= MaxIndexKeyBytes.

Lemma blen_encodeEntry e : blen (encodeEntry e) = 8 + blen (ie_Key e) + blen (ie_Selector e).
Proof. unfold encodeEntry. rewrite !blen_app, !blen_put_be. lia. Qed.

Lemma readEntries_encode (es : list IndexEntry) l :
  Forall entry_ok es -> readEntries (length es) ((es ≫= encodeEntry) ++ l) = Ok (es, l).
Proof.
  induction 1 as [|[k v] es [Hk Hv] F IH]; [done|]. cbn [length readEntries]. rewrite bind_cons. cbn [ie_Key ie_Selector] in *.
  unfold encodeEntry at 1. cbn [ie_Key ie_Selector]. rewrite <- !app_assoc.
  assert (MaxIndexKeyBytes = 16384) as Hm by done. rewrite Hm in *.
  rewrite !u32_small by (unfold fits; lia). rewrite read_be_put by (unfold fits; lia). cbv beta iota.
  rewrite read_be_put by (unfold fits; lia). cbv beta iota. rewrite !blen_app. pose proof (blen_nonneg ((es ≫= encodeEntry) ++ l)) as Hn. rewrite blen_app in Hn.
  destruct (_ || _ || _ || _) eqn:E.
  { repeat (apply orb_true_iff in E as [E|E]); b2p; lia. }
  rewrite take_bytes_app by (unfold blen; lia). cbv beta iota. rewrite take_bytes_app by (unfold blen; lia). cbv beta iota. rewrite IH. done.
Qed.

Lemma decodeMapping_encode (es : list IndexEntry) n :
  Forall entry_ok es -> n = Z.of_nat (length es) -> decodeMapping n (es ≫= encodeEntry) = Ok es.
Proof.
  intros F ->. unfold decodeMapping. rewrite Nat2Z.id. rewrite <- (app_nil_r (es ≫= encodeEntry)), readEntries_encode by done. done.
Qed.

(** Size of the mapping of an index. *)
Lemma sumZ_map_fold (m : gmap bytes bytes) :
  DirTrie.weight m = sumZ (fun ks : bytes * bytes => blen ks.1 + blen ks.2) (map_to_list m).
Proof.
  induction m as [|k v m Hk IH] using map_ind; [done|]. rewrite weight_insert by done.
  rewrite (map_to_list_insert _ _ _ Hk). cbn. lia.
Qed.

Lemma blen_mapping (es : list IndexEntry) :
  blen (es ≫= encodeEntry) = 8 * Z.of_nat (length es) + sumZ (fun ks : bytes * bytes => blen ks.1 + blen ks.2) (DirTrie.pairs es).
Proof.
  induction es as [|e es IH]; [done|]. rewrite bind_cons, blen_app, blen_encodeEntry, IH.
  unfold DirTrie.pairs. rewrite fmap_cons. cbn [sumZ length fst snd]. lia.
Qed.

Lemma Snapshot_entry dt e : DirTrie.wf dt -> e ∈ Snapshot dt <-> entries dt !! ie_Key e = Some (ie_Selector e).
Proof.
  intros W. rewrite <- elem_of_map_to_list, <- (Snapshot_perm dt). unfold DirTrie.pairs. rewrite list_elem_of_fmap. split.
  - intros He. exists e. done.
  - intros ([k v] & [= E1 E2] & He). by destruct e; cbn in *; subst.
Qed.

Lemma Snapshot_ok dt : DirTrie.wf dt -> Forall entry_ok (Snapshot dt).
Proof.
  intros W. apply Forall_forall. intros e He. apply (Snapshot_entry _ _ W) in He. apply (wf_ident _ W) in He.
  unfold validateIdentity in He. destruct (_ || _) eqn:E; [done|]. b2p. unfold entry_ok.
  pose proof (blen_nonneg (ie_Key e)). pose proof (blen_nonneg (ie_Selector e)). lia.
Qed.

Lemma length_Snapshot dt : Z.of_nat (length (Snapshot dt)) = Z.of_nat (size (entries dt)).
Proof.
  f_equal. transitivity (length (DirTrie.pairs (Snapshot dt))); [symmetry; apply length_fmap|].
  rewrite (Permutation_length (Snapshot_perm dt)). apply length_map_to_list.
Qed.

Lemma encodeMapping_ok dt : DirTrie.wf dt -> encodeMapping (Snapshot dt) = Ok (Snapshot dt ≫= encodeEntry) /\
  blen (Snapshot dt ≫= encodeEntry) <= MaxIndexBytes + 8 * MaxIndexEntries.
Proof.
  intros W. pose proof (length_Snapshot dt) as Hl. destruct (wf_count _ W) as [Hc1 Hc2]. pose proof (wf_budget _ W) as Hb. rewrite (wf_bytes _ W) in Hb.
  assert (blen (Snapshot dt ≫= encodeEntry) <= MaxIndexBytes + 8 * MaxIndexEntries) as Hm.
  { rewrite blen_mapping, (Snapshot_perm dt), <- sumZ_map_fold. lia. }
  split; [|done]. unfold encodeMapping. destruct (existsb _ _) eqn:E.
  { apply existsb_exists in E as (e & He & Ho). apply list_elem_of_In in He. pose proof (Snapshot_ok _ W) as F. rewrite Forall_forall in F.
    destruct (F e He). unfold overLimit in Ho. apply orb_true_iff in Ho as [Ho|Ho]; b2p; lia. }
  destruct (_ || _) eqn:E2; [|done]. apply orb_true_iff in E2 as [E2|E2]; b2p; lia.
Qed.

Lemma markerMatches_session session : markerMatches (sessionMarker session) session = true.
Proof.
  unfold markerMatches, sessionMarker.
  rewrite (take_app_length' (put_be 4 StripeHeaderMagic)), (drop_app_length' (put_be 4 StripeHeaderMagic)) by done.
  rewrite take_app_length' by done. rewrite !get_put_be_fits by (unfold fits; vm_compute; split; congruence). rewrite !Z.eqb_refl. cbn [andb].
  apply bool_decide_eq_true. by rewrite app_assoc, drop_app_length' by done.
Qed.

Lemma ReadAt_full (f : file) : ReadAt f (blen f) 0 = (f, None).
Proof. unfold ReadAt. change (0 <? 0) with false. rewrite Z.add_0_l. unfold blen. by rewrite slice_full, Z.ltb_irrefl. Qed.

Section CheckpointSpec.
Context {R : Type} `{RamStore R}.
Implicit Types s : Stripe R.

(** ** Decoding what was encoded *)

(** A stripe whose state a checkpoint can describe. *)
Record checkpointable s : Prop := {
  ck_geometry : 0 <= s_skip s /\ 0 <= s_len s /\ s_skip s + s_len s < 2 ^ 63;
  ck_position : 0 < s_start s <= s_writePos s /\ s_writePos s <= s_skip s + s_len s;
  ck_session : length (s_session s) = 16%nat /\ bytes_ok (s_session s);
  ck_dir : dm_wf (s_dir s) /\ 0 <= FragmentsNum (s_dir s) < 2 ^ 63 /\ BinarySize (s_dir s) < 2 ^ 62;
  ck_index : DirTrie.wf (Trie (s_dir s)) /\ capacity (Trie (s_dir s)) <= FragmentsNum (s_dir s);
  ck_bytes : forall k v, entries (Trie (s_dir s)) !! k = Some v -> bytes_ok k /\ bytes_ok v }.

(** A stripe of the geometry of [s], as [Init] prepares it, over the file [f]. *)
Record sameGeometry s (f : file) (s0 : Stripe R) : Prop := {
  sg_span : s_skip s0 = s_skip s /\ s_len s0 = s_len s /\ s_start s0 = s_start s;
  sg_dir : dm_wf (s_dir s0) /\ SegmentsNum (s_dir s0) = SegmentsNum (s_dir s) /\
    BucketsNumPerSegment (s_dir s0) = BucketsNumPerSegment (s_dir s) /\ FragmentsNum (s_dir s0) = FragmentsNum (s_dir s) /\
    length (Segs (s_dir s0)) = length (Segs (s_dir s));
  sg_capacity : capacity (Trie (s_dir s0)) = capacity (Trie (s_dir s));
  sg_disk : s_disk s0 = Some f }.

(** The file carries the marker of the session of [s]. *)
Definition marked s (f : file) : Prop := ReadAt f StripeHeaderSize (s_skip s) = (sessionMarker (s_session s), None).

Lemma stripeEnd_eq s : checkpointable s -> stripeEnd s = s_skip s + s_len s.
Proof. intros C. destruct (ck_geometry _ C) as (? & ? & ?). unfold stripeEnd. apply i64_small. unfold fits_i64. lia. Qed.

Lemma readCheckpoint_encode s s0 f :
  checkpointable s -> sameGeometry s f s0 -> marked s f ->
  exists data h, encodeCheckpoint s true = Ok data /\
    readCheckpoint s0 (Some data) = Some (Ok (h, DirManager.MarshalBinary (s_dir s), Snapshot (Trie (s_dir s)))) /\
    h_WritePos h = s_writePos s /\ h_Phase h = (if s_phase s then 1 else 0).
Proof.
  intros C G M. destruct (ck_index _ C) as [W Hcap]. destruct (encodeMapping_ok _ W) as [Em Hm].
  destruct (ck_dir _ C) as ([A HA] & Hfn & Hbs). pose proof (blen_dm_image _ _ HA) as Hdir.
  destruct (ck_geometry _ C) as (G1 & G2 & G3). destruct (ck_position _ C) as (P1 & P2). destruct (ck_session _ C) as [S1 S2].
  destruct (wf_count _ W) as [Hc1 Hc2]. pose proof (length_Snapshot (Trie (s_dir s))) as Hn.
  unfold encodeCheckpoint. rewrite Em. cbn [mbind result_bind].
  set (body := DirManager.MarshalBinary (s_dir s) ++ _). set (h := checkpointOf s 1 _ _ _).
  pose proof (blen_nonneg (DirManager.MarshalBinary (s_dir s))) as N1. pose proof (blen_nonneg (Snapshot (Trie (s_dir s)) ≫= encodeEntry)) as N2.
  assert (MaxIndexEntries = 65536) as Hme by done. assert (MaxIndexBytes = 16777216) as Hmb by done. rewrite Hme, Hmb in *.
  set (hc := setHeaderChecksum (ChecksumIEEE (writeHeader h ++ body)) h).
  assert (bytes_ok (writeHeader h ++ body)) as Hbo.
  { apply Forall_app. split.
    - unfold writeHeader, headerPrefix, bytes_ok. rewrite !Forall_app. split_and!; apply put_be_ok || done.
    - apply Forall_app. split; [apply MarshalBinary_ok|]. apply Forall_bind, Forall_forall. intros e He. apply (Snapshot_entry _ _ W) in He.
      destruct (ck_bytes _ C _ _ He). unfold compose, encodeEntry. cbn beta. rewrite !Forall_app. split_and!; first [apply put_be_ok | exact H0 | exact H1]. }
  assert (header_ok hc) as Hok.
  { split; cbn; unfold fits, fits_i64; split_and!; try lia; try done; try (by destruct (s_phase s)); try apply u32_fits; apply crc32_fits; done. }
  assert (sealHeader h body = writeHeader hc ++ body) as Hs by (by apply sealHeader_eq).
  assert (blen (sealHeader h body) = headerSize + h_DirBytes h + h_MapBytes h) as Hlen.
  { rewrite Hs. unfold writeHeader, body. rewrite !blen_app, blen_put_be. change (headerPrefix hc) with (headerPrefix h).
    unfold blen at 1. rewrite length_headerPrefix by done. unfold headerSize. cbn [h h_DirBytes h_MapBytes checkpointOf]. lia. }
  eexists _, hc. split; [done|]. split; [|by split]. unfold readCheckpoint. rewrite Hs at 1. rewrite readHeader_write by done.
  rewrite (sg_disk _ _ _ G). cbn [mbind option_bind]. destruct (sg_span _ _ _ G) as (E1 & E2 & E3). unfold marked in M. rewrite E1, M.
  change (h_Session hc) with (s_session s). rewrite markerMatches_session. cbn [negb].
  assert (trusted s0 hc = true) as ->.
  { destruct (sg_dir _ _ _ G) as (_ & D1 & D2 & D3 & _). unfold trusted. assert (stripeEnd s0 = s_skip s + s_len s) as -> by (unfold stripeEnd; rewrite E1, E2; apply (stripeEnd_eq s C)).
    assert (BinarySize (s_dir s0) = BinarySize (s_dir s)) as -> by (unfold BinarySize; congruence).
    cbn [hc h setHeaderChecksum checkpointOf h_Magic h_Version h_Clean h_Skip h_Length h_Start h_WritePos h_Phase h_DirBytes h_Entries h_MapBytes].
    rewrite E1, E2, E3, D3, Hdir, Hmb, Hme, !Z.eqb_refl, (u64_small (BinarySize _)), Z.eqb_refl by (unfold fits; lia). cbn [andb].
    rewrite (i64_small (FragmentsNum _)), !u32_small by (unfold fits, fits_i64; lia).
    destruct (s_phase s); repeat (apply andb_true_iff; split); try done; try (apply Z.leb_le; lia). }
  cbn [negb]. change (h_DirBytes hc) with (h_DirBytes h). change (h_MapBytes hc) with (h_MapBytes h). rewrite Hlen.
  rewrite (u64_small (headerSize + _ + _)) by (unfold fits, headerSize; cbn [h checkpointOf h_DirBytes h_MapBytes]; lia). rewrite Z.eqb_refl. cbn [negb].
  rewrite <- Hlen, ReadAt_full.
  rewrite clearChecksum_seal by done. change (h_Checksum hc) with (ChecksumIEEE (writeHeader h ++ body)). rewrite Z.eqb_refl. cbn [negb].
  assert (blen (writeHeader h) = headerSize) as Hw.
  { unfold writeHeader. rewrite blen_app, blen_put_be. unfold blen. by rewrite length_headerPrefix. }
  cbn [h hc checkpointOf setHeaderChecksum h_DirBytes h_Entries]. fold h hc. unfold body.
  rewrite app_assoc, drop_app_length'.
  2: { rewrite length_app. unfold blen, headerSize in *. lia. }
  rewrite decodeMapping_encode; [|by apply Snapshot_ok|apply u32_small; unfold fits; lia]. cbn [mbind result_bind]. do 4 f_equal.
  rewrite <- app_assoc. unfold slice. rewrite drop_app_length'; [|unfold blen, headerSize in *; lia].
  rewrite take_app_length'; [done|unfold blen; lia].
Qed.

(** ** Reading a recovered stripe *)

(** The RAM cache is empty, as it is before a stripe serves. *)
Definition ramEmpty s : Prop := forall ram, s_ram s = Some ram -> rs_ok ram /\ forall k, rs_holds ram k = None.

Lemma ramEmpty_coherent s : ramEmpty s -> ramCoherent s.
Proof. intros E ram Hr. destruct (E ram Hr) as [K N]. split; [done|]. intros k e v He. by rewrite N in He. Qed.

(** No entry of the live part of the ring points past the end of the file. *)
Definition fileCovers s : Prop := forall d, dirValid s d = true -> loadFromDisk s d <> Err ErrEOF.

Lemma dirValid_range s d : dirValid s d = true -> s_start s <= i64 (offset d) < stripeEnd s.
Proof. unfold dirValid. destruct (_ && _ && _ && _); [done|]. destruct (_ || _) eqn:E; [done|]. b2p. lia. Qed.

(** A file as long as the stripe covers it. *)
Lemma fileCovers_full s f :
  s_disk s = Some f -> 0 <= s_start s -> - 2 ^ 62 < stripeEnd s < 2 ^ 62 -> stripeEnd s + DocHeaderSize <= blen f -> fileCovers s.
Proof.
  intros Hf Hs He Hl d Hv. pose proof (dirValid_range _ _ Hv) as Hr.
  unfold loadFromDisk, ReadAt. rewrite Hf. destruct (i64 (offset d) <? 0) eqn:E0; [done|]. b2p.
  destruct (blen (slice f _ _) <? DocHeaderSize) eqn:E1; b2p.
  { rewrite blen_slice in E1; unfold DocHeaderSize in *; lia. }
  destruct (Doc.UnmarshalBinary _) as [doc|e] eqn:Ed.
  2: { unfold Doc.UnmarshalBinary, read_guard in Ed. destruct (_ <? _) eqn:E2 in Ed; b2p; [lia|done]. }
  destruct (_ || _ || _ || _) eqn:E2; [done|]. b2p.
  destruct (blen (slice f _ (i64 (offset d) + Doc.Len doc)) <? _) eqn:E3; b2p; [|done].
  rewrite (i64_small (stripeEnd s - _)) in * by (unfold fits_i64; lia). rewrite blen_slice in E3; unfold DocHeaderSize in *; lia.
Qed.

Lemma lookupEntry_Get s k d : lookupEntry s k = Some (Ok d) ->
  (exists g, DirManager.Get (s_dir s) k = Some (true, g, d)) /\ s_start s <= i64 (offset d) /\ dirValid s d = true.
Proof.
  unfold lookupEntry. destruct (s_storageErr s); [done|]. destruct (_ || _); [done|].
  destruct (DirManager.Get _ _) as [[[[] g] d']|]; cbn [mbind option_bind negb]; try done.
  destruct (_ || _) eqn:E; [done|]. b2p. destruct (dirValid s d') eqn:Ev; cbn [negb]; [|done]. intros [= ->]. eauto.
Qed.

Section Recovery.
Context (s1 : Stripe R) (A1 : list (list (list Entry))) (f : file).
Hypothesis HA1 : dm_abs (s_dir s1) A1.
Hypothesis Hclean : s_storageErr s1 = None /\ s_closing s1 = false /\ s_writingEnd s1 = 0.
Hypothesis Hdisk : s_disk s1 = Some f /\ bytes_ok f /\ fileCovers s1.
Hypothesis Hspan : 0 < s_start s1 /\ 0 <= i64 (stripeEnd s1 - s_start s1).

(** Reads change only the RAM cache and the evacuation table. *)
Definition like s : Prop := exists ram ev, s = set_s_evac ev (set_s_ram ram s1) /\ ramEmpty s.

(** The record the directory and the disk give for a key. *)
Definition hits (k v : bytes) : Prop := exists d, lookupEntry s1 k = Some (Ok d) /\ loadFromDisk s1 d = Ok v.

Lemma lookupEntry_total k : exists x, lookupEntry s1 k = Some x /\ x <> Err ErrEOF.
Proof.
  unfold lookupEntry. destruct Hclean as (-> & -> & _). destruct Hdisk as (-> & _). cbn [orb]. rewrite bool_decide_eq_false_2 by done.
  destruct (Get_abs _ _ k HA1) as (hit & g & d & -> & _). cbn [mbind option_bind].
  destruct hit; cbn [negb]; [|by eexists]. destruct (_ || _); [by eexists|]. destruct (negb _); by eexists.
Qed.

Lemma fetch_like s k : like s -> exists s' x, handleRead s k = Some (s', x) /\ like s' /\
  match x with Ok f => bytes_ok (f_buf f) /\ hits k (f_buf f) | Err e => e <> ErrEOF end.
Proof.
  intros (ram & ev & -> & Hr). unfold handleRead. change (lookupEntry (set_s_evac ev (set_s_ram ram s1)) k) with (lookupEntry s1 k).
  destruct (lookupEntry_total k) as (x & El & Hx). rewrite El. cbn [mbind option_bind].
  destruct x as [d|e]; [|eexists _, _; split; [done|]; split; [by eexists _, _|congruence]].
  unfold loadFromRamCache. cbn [s_ram set_s_evac set_s_ram].
  assert (exists ram', (match ram with None => (set_s_evac ev (set_s_ram ram s1), None)
    | Some r => let '(e, r) := rs_get r k in (set_s_ram (Some r) (set_s_evac ev (set_s_ram ram s1)), e) end)
    = (set_s_evac ev (set_s_ram ram' s1), None) /\ ramEmpty (set_s_evac ev (set_s_ram ram' s1))) as (ram' & -> & Hr').
  { destruct ram as [r|]; [|by eexists]. destruct (Hr r eq_refl) as [K N]. destruct (rs_get_law r k K) as (G1 & G2 & G3).
    destruct (rs_get r k) as [e r'] eqn:Eg. cbn in G1, G2, G3. rewrite N in G1. subst e. exists (Some r'). split; [done|].
    intros r2 [= <-]. split; [done|]. intros k'. destruct (rs_holds r' k') as [e|] eqn:Eh; [|done]. apply G3 in Eh. by rewrite N in Eh. }
  change (loadFromDisk (set_s_evac ev (set_s_ram ram' s1)) d) with (loadFromDisk s1 d).
  destruct (loadFromDisk s1 d) as [v|e] eqn:Ed; (eexists _, _; split; [done|]; split; [by eexists _, _|]).
  - destruct Hdisk as (Hf & Hb & _). cbn. split; [by eapply loadFromDisk_ok|by exists d].
  - intros ->. destruct Hdisk as (_ & _ & U). destruct (lookupEntry_Get _ _ _ El) as (_ & _ & Hv). by apply (U d).
Qed.

Lemma note_like s d k : like s -> like (checkEvacuation s d k).
Proof. intros (ram & ev & -> & Hr). unfold checkEvacuation. destruct (withinHitEvacuateWindow _ _); by eexists _, _. Qed.

Lemma bound_like s : like s -> u64 (src_bound s) < 2 ^ 63.
Proof.
  intros (ram & ev & -> & Hr). cbn [src_bound stripe_source]. change (stripeEnd (set_s_evac ev (set_s_ram ram s1))) with (stripeEnd s1).
  cbn [s_start set_s_evac set_s_ram]. destruct Hspan. pose proof (i64_fits (stripeEnd s1 - s_start s1)) as Hi. unfold fits_i64 in Hi. rewrite u64_small; unfold fits; lia.
Qed.

(** ** The whole stream *)

Lemma discard_step_full fuel total pos :
  (Z.to_nat ((total - pos + 8192 - 1) / 8192) + 1 <= S fuel)%nat -> pos < total ->
  (Z.to_nat ((total - (pos + 8192) + 8192 - 1) / 8192) + 1 <= fuel)%nat.
Proof.
  intros Hf Hp. replace (total - pos + 8192 - 1) with ((total - (pos + 8192) + 8192 - 1) + 1 * 8192) in Hf by lia.
  rewrite Z.div_add in Hf by lia. pose proof (Z.div_pos (total - (pos + 8192) + 8192 - 1) 8192). lia.
Qed.

Lemma discard_step_last fuel total pos :
  (Z.to_nat ((total - pos + 8192 - 1) / 8192) + 1 <= S fuel)%nat -> pos < total ->
  (Z.to_nat ((total - total + 8192 - 1) / 8192) + 1 <= fuel)%nat.
Proof.
  intros Hf Hp. pose proof (Z.div_le_lower_bound (total - pos + 8192 - 1) 8192 1 ltac:(lia) ltac:(lia)).
  replace (total - total + 8192 - 1) with 8191 by lia. change (8191 / 8192) with 0. lia.
Qed.

Abbreviation inside := (ReaderTotal.inside hits (2 ^ 63)).

Lemma discard_total fuel s r :
  like s -> inside r -> (Z.to_nat ((r_totalLen r - r_totalRead r + discardBuffer - 1) / discardBuffer) + 1 <= fuel)%nat ->
  exists s' e, discard fuel s r = Some (s', e) /\ like s' /\
    (e = None -> forall i, 0 <= i < Z.max 1 ((r_totalLen r + TargetFragmentSize - 1) / TargetFragmentSize) -> verified hits (FragmentKey (r_firstKey r) i)).
Proof.
  revert s r. induction fuel as [|fuel IH]; intros s r L I Hf; [lia|]. cbn [discard]. assert (discardBuffer = 8192) as Hd by done. rewrite Hd in *.
  destruct (Read_total (H := stripe_source) like hits (2 ^ 63) ltac:(lia) fetch_like bound_like note_like s r 8192 L I ltac:(lia)) as (s' & r' & got & e & -> & L' & A & Hprog).
  cbn [mbind option_bind]. pose proof T_pos as HT.
  destruct e as [e|].
  - destruct (decide (e = ErrEOF)) as [->|Hne]; [|by eexists _, _; split; [reflexivity|]].
    eexists _, _. split; [done|]. split; [done|]. intros _ i Hi. destruct A as (I' & Hk & Ht & Hp). rewrite <- Hk. apply (in_hits _ _ _ I').
    destruct (in_pos _ _ _ I') as [P1 P2]. destruct (in_doc _ _ _ I') as (doc & _ & _ & _ & _ & D1 & D2 & _). split; [lia|].
    assert (r_totalLen r <= (r_fragmentIndex r' + 1) * TargetFragmentSize) by lia.
    assert ((r_totalLen r + TargetFragmentSize - 1) / TargetFragmentSize <= r_fragmentIndex r' + 1); [|lia].
    apply Z.lt_succ_r, Z.div_lt_upper_bound; lia.
  - destruct A as (I' & Hk & Ht & Hle & Hadv). destruct (IH s' r' L' I') as (s2 & e2 & E2 & L2 & H2).
    + rewrite Ht. specialize (Hprog eq_refl ltac:(lia)). pose proof (inside_le _ _ _ I') as Hend. rewrite Ht in Hend. clear -Hf Hadv Hprog Hle Hend.
      destruct Hadv as [Hr | ->]; [rewrite Hr; by apply discard_step_full; [|lia]|apply (discard_step_last _ _ (r_totalRead r)); [done|lia]].
    + eexists _, _. split; [exact E2|]. split; [done|]. by rewrite <- Hk, <- Ht.
Qed.

(** A stream that holds a whole object is read to its end. *)
Lemma discard_object fuel s r key ver D info pos :
  object s key ver D info -> at_pos key ver D info pos r -> pos <= blen D ->
  (Z.to_nat ((blen D - pos + discardBuffer - 1) / discardBuffer) + 1 <= fuel)%nat -> exists s', discard fuel s r = Some (s', None).
Proof.
  assert (discardBuffer = 8192) as Hd by done. rewrite Hd.
  revert s r pos. induction fuel as [|fuel IH]; intros s r pos O A Hp Hf; [lia|]. cbn [discard]. rewrite Hd.
  destruct (Read_spec s key ver D info pos r 8192 O (or_introl A) ltac:(lia)) as (s' & r' & -> & O' & A'). cbn [mbind option_bind].
  unfold readEnd. change (0 <? 8192) with true. cbn [andb]. destruct (blen D <=? pos) eqn:E; b2p.
  { rewrite bool_decide_eq_true_2 by done. cbn [andb]. rewrite decide_True by done. eauto. }
  cbn [andb]. unfold readStop in A'. rewrite Z.max_r in A' by lia. apply (IH s' r' _ O' A'); [lia|].
  destruct (decide (pos + 8192 <= blen D)).
  - rewrite Z.min_l by lia. apply discard_step_full; [done|lia].
  - rewrite Z.min_r by lia. by apply (discard_step_last _ _ pos).
Qed.

(** ** Recovered entries *)

(** The entry of a key, with a record that carries the key's identity. *)
Definition trustedDir (r : recoveredDir) : Prop :=
  (exists g, DirManager.Get (s_dir s1) (rd_key r) = Some (true, g, rd_dir r)) /\
  lookupEntry s1 (rd_key r) = Some (Ok (rd_dir r)) /\
  exists v doc, loadFromDisk s1 (rd_dir r) = Ok v /\ Doc.UnmarshalBinary (slice v 0 DocHeaderSize) = Ok doc /\ Key doc = docKey (rd_key r).

Lemma verified_dir k : verified hits k -> exists d, (exists g, DirManager.Get (s_dir s1) k = Some (true, g, d)) /\ trustedDir (mkRecovered k d).
Proof.
  intros (v & doc & (d & Hl & Hd) & Hu & Hk). destruct (lookupEntry_Get _ _ _ Hl) as [Hg _]. exists d. split; [done|].
  split; [done|]. split; [done|]. by exists v, doc.
Qed.

Lemma recoverFragments_ok key idxs :
  (forall i, i ∈ idxs -> verified hits (FragmentKey key (Z.of_nat i))) ->
  exists ds, recoverFragments (s_dir s1) key idxs = Some (Ok ds) /\ Forall trustedDir ds.
Proof.
  induction idxs as [|i idxs IH]; intros Hv; [by exists []|]. cbn [recoverFragments].
  destruct (verified_dir _ (Hv i ltac:(set_solver))) as (d & (g & ->) & Ht). cbn [mbind option_bind negb].
  destruct IH as (ds & -> & F); [intros j Hj; apply Hv; set_solver|]. cbn [mbind option_bind result_bind].
  eexists. split; [done|]. by constructor.
Qed.

Lemma recoverFragments_keys dm key idxs ds :
  recoverFragments dm key idxs = Some (Ok ds) -> rd_key <$> ds = (fun i => FragmentKey key (Z.of_nat i)) <$> idxs.
Proof.
  revert ds. induction idxs as [|i idxs IH]; intros ds; cbn [recoverFragments]; [by intros [= <-]|].
  destruct (DirManager.Get _ _) as [[[[] ?] d]|]; cbn [mbind option_bind negb]; try done.
  destruct (recoverFragments dm key idxs) as [[ds'|]|]; cbn [mbind option_bind result_bind]; try done. intros [= <-]. cbn. by rewrite (IH ds').
Qed.

(** One entry of the index: it is skipped, or its fragments are trusted. *)
Lemma recoverEntry_total s e :
  like s -> exists s' x, recoverEntry s e = Some (s', Ok x) /\ like s' /\
    match x with None => True | Some ds => Forall trustedDir ds end.
Proof.
  intros L. unfold recoverEntry.
  destruct (LoadHTTPInfo_total (H := stripe_source) like hits (2 ^ 63) ltac:(lia) fetch_like bound_like note_like s (ie_Key e) L)
    as (s2 & r & i & err & -> & L2 & Hr). cbn [mbind option_bind]. destruct err as [err|]; [by eexists _, _|].
  destruct (Hr eq_refl) as (I & Hk & Hp & Hx). pose proof (in_total _ _ _ I) as Hlt. pose proof (inside_le _ _ _ I) as Hle. pose proof T_pos as HT.
  assert (TargetFragmentSize < 2 ^ 62) by done. rewrite (u64_small (r_totalLen r + _)), (u64_small (_ - 1)) by (unfold fits; lia).
  destruct (_ <? _); [by eexists _, _|].
  destruct (discard_total (discardFuel r) s2 r L2 I) as (s3 & e3 & -> & L3 & H3).
  { unfold discardFuel. change discardBuffer with 8192. rewrite Hp.
    pose proof (Z.div_pos (r_totalLen r) 8192 ltac:(lia) ltac:(lia)).
    assert ((r_totalLen r - 0 + 8192 - 1) / 8192 <= r_totalLen r / 8192 + 1); [|lia].
    rewrite <- Z.div_add by lia. apply Z.div_le_mono; lia. }
  cbn [mbind option_bind]. destruct e3 as [e3|]; [by eexists _, _|].
  assert (s_dir s3 = s_dir s1) as -> by (destruct L3 as (? & ? & -> & _); done).
  destruct (recoverFragments_ok (ie_Key e) (seq 0 (Z.to_nat (Z.max 1 ((r_totalLen r + TargetFragmentSize - 1) / TargetFragmentSize)))))
    as (ds & -> & F).
  { intros j Hj. apply elem_of_seq in Hj. rewrite <- Hk. apply H3; [done|]. lia. }
  cbn [mbind option_bind]. by eexists _, (Some ds).
Qed.

(** A complete object of the index, with metadata the reader accepts. *)
Definition recoverable s (key : bytes) (ver : Z) (D info : bytes) : Prop :=
  object s key ver D info /\ is_ok (HttpInfo.UnmarshalBinary info) = true /\ 0 < blen info /\ fragCount D <= FragmentsNum (s_dir s).

Lemma recoverEntry_object s e ver D info :
  like s -> recoverable s1 (ie_Key e) ver D info ->
  exists s' ds, recoverEntry s e = Some (s', Ok (Some ds)) /\ like s' /\ Forall trustedDir ds /\
    forall i, 0 <= i < fragCount D -> FragmentKey (ie_Key e) i ∈ rd_key <$> ds.
Proof.
  intros L (O & Hi & Hpos & Hfr). destruct (HttpInfo.UnmarshalBinary info) as [i|] eqn:Ei; [|done].
  assert (object s (ie_Key e) ver D info) as Os.
  { destruct L as (ram & ev & -> & Hr). apply (object_same s1); try done. by apply ramEmpty_coherent. }
  destruct (LoadHTTPInfo_object s (ie_Key e) ver D info i Os Ei Hpos) as (s2 & r & E & O2 & A2).
  pose proof (recoverEntry_total s e L) as (s' & x & Er & L' & Hx). rewrite Er. unfold recoverEntry in Er. rewrite E in Er. cbn [mbind option_bind] in Er.
  destruct (LoadHTTPInfo_total (H := stripe_source) like hits (2 ^ 63) ltac:(lia) fetch_like bound_like note_like s (ie_Key e) L) as (s2' & r' & i' & err & E' & L2 & Hr).
  rewrite E in E'. injection E' as <- <- <- <-. destruct (Hr eq_refl) as (I & Hk & Hp & _).
  pose proof (in_total _ _ _ I) as Hlt. pose proof (inside_le _ _ _ I) as Hle. pose proof T_pos as HT. assert (TargetFragmentSize < 2 ^ 62) by done.
  rewrite (u64_small (r_totalLen r + _)), (u64_small (_ - 1)) in Er by (unfold fits; lia).
  assert (r_totalLen r = blen D) as Ht by (apply (ld_total _ _ _ _ _ _ (ap_loaded _ _ _ _ _ _ A2))). rewrite Ht in Er.
  assert (s_dir s2 = s_dir s1) as Hd by (destruct L2 as (? & ? & -> & _); done). rewrite Hd in Er.
  change (Z.max 1 ((blen D + TargetFragmentSize - 1) / TargetFragmentSize)) with (fragCount D) in Er.
  replace (FragmentsNum (s_dir s1) <? fragCount D) with false in Er by lia.
  destruct (discard_object (discardFuel r) s2 r (ie_Key e) ver D info 0 O2 A2) as (s3 & E3); [apply blen_nonneg| |].
  { unfold discardFuel. rewrite Ht. change discardBuffer with 8192. pose proof (blen_nonneg D).
    pose proof (Z.div_pos (blen D) 8192 ltac:(lia) ltac:(lia)). assert ((blen D - 0 + 8192 - 1) / 8192 <= blen D / 8192 + 1); [|lia].
    rewrite <- Z.div_add by lia. apply Z.div_le_mono; lia. }
  rewrite E3 in Er. cbn [mbind option_bind] in Er.
  destruct (recoverFragments _ _ _) as [[ds|]|] eqn:Ef; cbn [mbind option_bind] in Er; [|done|done]. injection Er as <- <-.
  exists s3, ds. split_and!; try done. intros j Hj. rewrite (recoverFragments_keys _ _ _ _ Ef). apply list_elem_of_fmap.
  exists (Z.to_nat j). rewrite elem_of_seq. split; [by rewrite Z2Nat.id by lia|lia].
Qed.

(** The whole index. *)
Lemma recoverEntries_total es s :
  like s -> exists s' ds valid, recoverEntries s es = Some (s', Ok (ds, valid)) /\ like s' /\ Forall trustedDir ds /\ valid `sublist_of` es /\
    forall e ver D info, e ∈ es -> recoverable s1 (ie_Key e) ver D info ->
      e ∈ valid /\ forall i, 0 <= i < fragCount D -> FragmentKey (ie_Key e) i ∈ rd_key <$> ds.
Proof.
  revert s. induction es as [|e es IH]; intros s L; cbn [recoverEntries].
  { eexists _, [], []. split_and!; try done. intros ? ? ? ? ?. set_solver. }
  destruct (recoverEntry_total s e L) as (s2 & x & E & L2 & Hx). rewrite E. cbn [mbind option_bind].
  destruct (IH s2 L2) as (s' & ds & valid & Er & L' & F & S & Hv). destruct x as [ds0|].
  - rewrite Er. cbn [mbind option_bind]. eexists _, _, _. split; [done|]. split_and!; [done|by apply Forall_app|by apply sublist_skip|].
    intros e' ver D info [->|Hin]%elem_of_cons Hrec.
    + destruct (recoverEntry_object s e ver D info L Hrec) as (s3 & ds3 & E3 & _ & _ & Hc). rewrite E in E3. injection E3 as <- <-.
      split; [set_solver|]. intros i Hi. rewrite fmap_app. apply elem_of_app. left. by apply Hc.
    + destruct (Hv e' ver D info Hin Hrec) as [Hv1 Hv2]. split; [set_solver|]. intros i Hi. rewrite fmap_app. apply elem_of_app. right. by apply Hv2.
  - rewrite Er. eexists _, _, _. split; [done|]. split_and!; [done|done|by apply sublist_cons|].
    intros e' ver D info [->|Hin]%elem_of_cons Hrec; [|by apply (Hv e' ver D info)].
    destruct (recoverEntry_object s e ver D info L Hrec) as (s3 & ds3 & E3 & _). rewrite E in E3. done.
Qed.

(** Keys of one hash position whose entries are trusted have one identity. *)
Lemma trusted_collision r r' :
  trustedDir r -> trustedDir r' -> hashPosition (s_dir s1) (rd_key r') = hashPosition (s_dir s1) (rd_key r) ->
  docKey (rd_key r') = docKey (rd_key r) /\ rd_dir r' = rd_dir r.
Proof.
  intros ((g & Hg) & _ & v & doc & Hv & Hu & Hk) ((g' & Hg') & _ & v' & doc' & Hv' & Hu' & Hk') Hp.
  destruct (Get_hit _ _ _ _ _ HA1 Hg) as (_ & _ & Hsame). specialize (Hsame _ _ _ Hp Hg'). rewrite Hsame in Hv'. split; [congruence|done].
Qed.

Lemma installRecovered_ok rnd ds dm A :
  Forall trustedDir ds -> dm_abs dm A -> alike (s_dir s1) dm -> DirReinstall.within A A1 ->
  exists dm', installRecovered rnd dm ds = Some dm' /\ dm_wf dm' /\ alike (s_dir s1) dm' /\ dm' = setSegs dm (Segs dm') /\
    (forall r, trustedDir r -> r ∈ ds \/ holdsEntry dm (rd_key r) (rd_dir r) -> holdsEntry dm' (rd_key r) (rd_dir r)).
Proof.
  intros F. revert dm A. induction F as [|r ds Hr F IH]; intros dm A HA G W; cbn [installRecovered].
  { exists dm. split_and!; [done|by exists A|done|by destruct dm|]. intros r _ [?|?]; [set_solver|done]. }
  destruct (Hr) as ((g & Hg) & Hl & _). destruct (lookupEntry_Get _ _ _ Hl) as (_ & Hstart & _). destruct Hspan as [Hs0 _].
  destruct (Get_hit _ _ _ _ _ HA1 Hg) as (Hok & _). pose proof (offset_lt _ Hok) as Hlt. rewrite i64_small in Hstart by (unfold fits_i64; lia).
  destruct (reinstall_step (s_dir s1) A1 HA1 (rnd (length ds)) dm A (rd_key r) g (rd_dir r) HA G W Hg ltac:(lia))
    as (dm2 & g2 & A2 & -> & HA2 & G2 & W2 & Em & Hnew & Hkeep). cbn [mbind option_bind].
  destruct (IH dm2 A2 HA2 G2 W2) as (dm' & E & Wf & G' & Em' & Hall). exists dm'. split_and!; [done|done|done|by rewrite Em', Em|].
  intros r' Hr' Hin. apply Hall; [done|]. destruct Hin as [[->|Hin]%elem_of_cons|Hold]; [by right|by left|right].
  apply Hkeep; [|done]. by apply trusted_collision.
Qed.

(** An empty directory is within any other. *)
Lemma within_fresh (A : list (list (list Entry))) nb n :
  length A = n -> Forall (fun a => length a = nb) A -> DirReinstall.within (repeat (freshViews nb) n) A.
Proof.
  intros <- F. unfold DirReinstall.within. induction F as [|a A Ha F IH]; [constructor|]. cbn [length repeat]. constructor; [|done]. unfold freshViews. rewrite <- Ha. clear.
  induction a as [|l a IH]; [constructor|]. cbn. constructor; [|done]. split; [constructor|set_solver].
Qed.

(** Everything after the two decoders of [loadCheckpoint]. *)
Lemma recovered_dir rnd ds :
  Forall trustedDir ds -> exists dm0 dm, InitEmptyDirs (s_dir s1) = Some dm0 /\ installRecovered rnd dm0 ds = Some dm /\
    dm_wf dm /\ dm = setSegs (s_dir s1) (Segs dm) /\ forall r, r ∈ ds -> trustedDir r -> holdsEntry dm (rd_key r) (rd_dir r).
Proof.
  intros F. destruct (InitEmptyDirs_abs _ _ HA1) as (dm0 & E0 & H0).
  assert (dm0 = setSegs (s_dir s1) (Segs dm0)) as Em0.
  { unfold InitEmptyDirs in E0. destruct (mapM _ _); [|done]. by injection E0 as <-. }
  destruct (installRecovered_ok rnd ds dm0 _ F H0) as (dm & E & Wf & _ & Em & Hall).
  { rewrite Em0. by split. }
  { destruct HA1 as (nb & Hnb & Eb & _ & _ & F2). rewrite Eb, Nat2Z.id. apply within_fresh; [symmetry; by apply Forall2_length in F2|].
    clear -F2. induction F2 as [|? ? ? ? [_ ?] _ IH]; by constructor. }
  exists dm0, dm. split_and!; try done; [rewrite Em at 1; by rewrite Em0|]. intros r Hin Hr. apply Hall; auto.
Qed.

(** The recovered stripe stores what the loaded one did under a trusted key. *)
Lemma restored_content ds dm t ram ev k :
  Forall trustedDir ds -> (forall r, r ∈ ds -> trustedDir r -> holdsEntry dm (rd_key r) (rd_dir r)) -> k ∈ rd_key <$> ds ->
  diskContent (set_s_dir (setTrie dm t) (set_s_evac ev (set_s_ram ram s1))) k = diskContent s1 k.
Proof.
  intros F Hall ([k' d] & -> & Hin)%list_elem_of_fmap. rewrite Forall_forall in F. destruct (F _ Hin) as (_ & Hl & v & _ & Hv & _).
  destruct (Hall _ Hin (F _ Hin)) as (g & d' & Hg & Ho & Hp & Hsz). cbn [rd_key rd_dir] in *. set (s' := set_s_dir _ _).
  destruct (lookupEntry_Get _ _ _ Hl) as (_ & Hs & Hval). pose proof (dirValid_range _ _ Hval) as Hr. destruct Hclean as (C1 & C2 & C3).
  assert (dirValid s' d' = true) as Hval'.
  { unfold dirValid in *. cbn [s' s_writingEnd set_s_dir set_s_evac set_s_ram] in *. rewrite C3 in *. cbn [Z.ltb Z.compare andb] in *.
    rewrite Ho, Hp. exact Hval. }
  unfold diskContent. rewrite Hl, Hv.
  assert (lookupEntry s' k' = Some (Ok d')) as ->.
  { unfold lookupEntry. cbn [s' s_storageErr s_closing s_disk s_dir s_start set_s_dir set_s_evac set_s_ram]. rewrite C1, C2. destruct Hdisk as (-> & _).
    rewrite bool_decide_eq_false_2 by done. cbn [orb]. change (DirManager.Get (setTrie dm t) k') with (DirManager.Get dm k'). rewrite Hg. cbn [mbind option_bind negb].
    fold s'. rewrite Hval', Ho. change (stripeEnd s') with (stripeEnd s1). replace (_ <? _) with false by lia. by replace (_ <=? _) with false by lia. }
  unfold loadFromDisk in *. cbn [s' s_disk set_s_dir set_s_evac set_s_ram]. rewrite Ho. change (stripeEnd s') with (stripeEnd s1).
  destruct (s_disk s1) as [f'|]; [|done]. destruct (ReadAt f' DocHeaderSize _) as [hd [e|]]; [done|]. destruct (Doc.UnmarshalBinary hd) as [doc|]; [|done].
  destruct (_ || _ || _ || _) eqn:E in Hv; [done|]. b2p. destruct (_ || _ || _ || _) eqn:E2.
  { repeat (apply orb_true_iff in E2 as [E2|E2]); b2p; lia. }
  destruct (ReadAt f' _ _) as [buf [e|]]; [done|]. by injection Hv as ->.
Qed.

End Recovery.

(** ** Restart *)

Lemma Restore_sublist dt es :
  DirTrie.wf dt -> es `sublist_of` Snapshot dt ->
  exists t, Restore dt es = Ok t /\ DirTrie.wf t /\ forall e, e ∈ es <-> entries t !! ie_Key e = Some (ie_Selector e).
Proof.
  intros W S. unfold Restore.
  assert (capacity (NewDirTrie (Some (capacity dt))) = capacity dt) as Hcap.
  { destruct (wf_count _ W). rewrite NewDirTrie_eq; [done|lia]. }
  assert (NoDup (DirTrie.pairs es).*1) as N.
  { apply (sublist_NoDup _ (DirTrie.pairs (Snapshot dt)).*1); [rewrite (Snapshot_perm dt); apply NoDup_fst_map_to_list|].
    unfold DirTrie.pairs. by do 2 apply fmap_sublist. }
  destruct (restoreInto_complete dt es (NewDirTrie (Some (capacity dt)))) as (r & -> & Wr & Hc & He); [done|apply wf_New|done|done| |apply map_empty_subseteq|].
  { intros e Hin. split; [|done]. apply (Snapshot_entry _ _ W). by eapply elem_of_sublist. }
  cbn [mbind result_bind]. exists r. split; [by destruct r; cbn in *; rewrite Hc, Hcap|]. split; [done|].
  cbn in He. rewrite (right_id_L ∅ (∪)) in He. intros e. rewrite He, <- (elem_of_list_to_map _ _ _ N). unfold DirTrie.pairs. rewrite list_elem_of_fmap. split.
  - intros Hin. exists e. done.
  - intros ([k v] & [= E1 E2] & Hin). by destruct e; cbn in *; subst.
Qed.

Lemma fragments_index D info c : c ∈ fragments D info -> 0 <= fc_idx c < fragCount D.
Proof.
  unfold fragments. intros [Hc|Hc]%elem_of_app.
  - apply list_elem_of_In, in_map_iff in Hc as (i & <- & Hi). apply list_elem_of_In, elem_of_seqZ in Hi. cbn. lia.
  - apply list_elem_of_singleton in Hc as ->. cbn. pose proof (fragCount_pos D). lia.
Qed.

(** Forgetting identities keeps every hit. *)
Lemma Get_forget dm A dm0 k g d :
  dm_abs dm A -> SegmentsNum dm0 = SegmentsNum dm -> BucketsNumPerSegment dm0 = BucketsNumPerSegment dm ->
  DirManager.Get dm k = Some (true, g, d) -> exists g', DirManager.Get (setSegs dm0 (map forgetIds (Segs dm))) k = Some (true, g', d).
Proof.
  intros HA E1 E2. assert (hashPosition (setSegs dm0 (map forgetIds (Segs dm))) k = hashPosition dm k) as Hp by (unfold hashPosition; cbn; by rewrite E1, E2).
  unfold DirManager.Get. rewrite Hp. destruct (hashPosition dm k) as [[t seg] b] eqn:Hpos. cbn [Segs setSegs].
  destruct (hashPosition_bound _ _ _ _ _ _ HA Hpos) as (_ & s & a & l & Hs & Ha & Habs & Hl & _). rewrite list_lookup_fmap, Hs. cbn [mbind option_bind fmap option_fmap option_map].
  change (dirs (forgetIds s)) with (dirs s). destruct (dirProbe_abs s a b l t Habs Hl) as (hit & i & p & d0 & -> & Hf).
  destruct hit; [|by intros [= ]]. destruct (findTag t l) as [e|]; [|by destruct Hf]. destruct Hf as (_ & Hd & _).
  destruct (foreign s i k) as [[]|]; cbn [mbind option_bind]; try done. intros [= _ <-]. unfold foreign, forgetIds. cbn [ids].
  assert (repeat noIdentity (length (dirs s)) !! i = Some noIdentity) as -> by (apply lookup_repeat; split; [done|by eapply lookup_lt_Some]).
  cbn [mbind option_bind]. rewrite bool_decide_eq_true_2 by done. cbn. eauto.
Qed.

(** A stripe after a clean shutdown, its file, and the stripe that reopens it. *)
Record restartable s (f : file) s0 : Prop := {
  rs_checkpoint : checkpointable s;
  rs_geometry : sameGeometry s f s0;
  rs_marked : marked s f;
  rs_file : s_disk s = Some f /\ bytes_ok f /\ fileCovers s;
  rs_drained : s_storageErr s = None /\ s_writingEnd s = 0;
  rs_fresh : s_storageErr s0 = None /\ s_closing s0 = false /\ s_writingEnd s0 = 0 /\ ramEmpty s0 }.

(** The stripe between the decoders of [loadCheckpoint] and the recovery. *)
Definition loadedStripe s s0 : Stripe R :=
  set_s_phase (s_phase s) (set_s_writePos (s_writePos s)
    (set_s_dir (setSegs (setTrie (s_dir s0) (Trie (s_dir s))) (map forgetIds (Segs (s_dir s)))) s0)).

Section Restart.
Context s f s0 (RS : restartable s f s0).
Abbreviation s1 := (loadedStripe s s0).

Lemma loaded_end : stripeEnd s1 = stripeEnd s.
Proof. destruct (sg_span _ _ _ (rs_geometry _ _ _ RS)) as (E1 & E2 & _). unfold stripeEnd. cbn. by rewrite E1, E2. Qed.

Lemma loaded_dirValid d : dirValid s1 d = dirValid s d.
Proof.
  unfold dirValid. rewrite loaded_end. cbn. destruct (sg_span _ _ _ (rs_geometry _ _ _ RS)) as (_ & _ & ->).
  destruct (rs_drained _ _ _ RS) as [-> ->]. destruct (rs_fresh _ _ _ RS) as (-> & _ & -> & _).
  rewrite (sg_disk _ _ _ (rs_geometry _ _ _ RS)). destruct (rs_file _ _ _ RS) as (-> & _). done.
Qed.

Lemma loaded_disk d : loadFromDisk s1 d = loadFromDisk s d.
Proof.
  unfold loadFromDisk. rewrite loaded_end. cbn. rewrite (sg_disk _ _ _ (rs_geometry _ _ _ RS)).
  destruct (rs_file _ _ _ RS) as (-> & _). done.
Qed.

Lemma loaded_unmarshal :
  DirManager.UnmarshalBinary (setTrie (s_dir s0) (Trie (s_dir s))) (DirManager.MarshalBinary (s_dir s)) = Ok (s_dir s1).
Proof.
  destruct (sg_dir _ _ _ (rs_geometry _ _ _ RS)) as (_ & D1 & D2 & _ & D4). destruct (ck_dir _ (rs_checkpoint _ _ _ RS)) as (W & _).
  by rewrite (Unmarshal_Marshal (s_dir s)).
Qed.

Lemma loaded_wf : dm_wf (s_dir s1).
Proof.
  destruct (sg_dir _ _ _ (rs_geometry _ _ _ RS)) as ([A0 H0] & _).
  apply (Unmarshal_abs (setTrie (s_dir s0) (Trie (s_dir s))) A0 (DirManager.MarshalBinary (s_dir s))); [done|apply MarshalBinary_ok|apply loaded_unmarshal].
Qed.

(** What the closed stripe stores, its successor reads. *)
Lemma loaded_content k v : diskContent (set_s_closing false s) k = Some v -> diskContent s1 k = Some v.
Proof.
  unfold diskContent. destruct (lookupEntry (set_s_closing false s) k) as [[d|]|] eqn:E; try done.
  change (loadFromDisk (set_s_closing false s) d) with (loadFromDisk s d).
  assert (lookupEntry s1 k = Some (Ok d)) as ->; [|by rewrite loaded_disk].
  destruct (lookupEntry_Get _ _ _ E) as ((g & Hg) & Hs & Hv). cbn in Hg, Hs. change (dirValid (set_s_closing false s) d) with (dirValid s d) in Hv.
  destruct (ck_dir _ (rs_checkpoint _ _ _ RS)) as ([A HA] & _). destruct (sg_dir _ _ _ (rs_geometry _ _ _ RS)) as (_ & D1 & D2 & _).
  destruct (Get_forget _ _ (setTrie (s_dir s0) (Trie (s_dir s))) k g d HA D1 D2 Hg) as (g' & Hg').
  pose proof (dirValid_range _ _ Hv) as Hr. destruct (sg_span _ _ _ (rs_geometry _ _ _ RS)) as (_ & _ & E3).
  unfold lookupEntry. cbn [s_storageErr s_closing s_disk s_dir s_start loadedStripe set_s_phase set_s_writePos set_s_dir].
  destruct (rs_fresh _ _ _ RS) as (-> & -> & _). rewrite (sg_disk _ _ _ (rs_geometry _ _ _ RS)), bool_decide_eq_false_2 by done. cbn [orb].
  rewrite Hg'. cbn [mbind option_bind negb]. rewrite loaded_end, loaded_dirValid, Hv, E3. replace (_ <? _) with false by lia. by replace (_ <=? _) with false by lia.
Qed.

Lemma loaded_object key ver D info : object (set_s_closing false s) key ver D info -> object s1 key ver D info.
Proof.
  intros [O1 O2 O3 O4 O5 O6]. split; try done.
  - apply ramEmpty_coherent. by destruct (rs_fresh _ _ _ RS) as (_ & _ & _ & ?).
  - cbn [src_bound stripe_source] in *. rewrite loaded_end. change (stripeEnd (set_s_closing false s)) with (stripeEnd s) in O4.
    destruct (sg_span _ _ _ (rs_geometry _ _ _ RS)) as (_ & _ & E3). cbn in *. by rewrite E3.
  - intros c Hc. by apply loaded_content, O6.
Qed.

(** The recovery on top of the decoded checkpoint. *)
Lemma restart_recovers rnd :
  exists s3 ds valid dm0 dm t, recoverEntries s1 (Snapshot (Trie (s_dir s))) = Some (s3, Ok (ds, valid)) /\
    InitEmptyDirs (s_dir s3) = Some dm0 /\ installRecovered rnd dm0 ds = Some dm /\ Restore (Trie dm) valid = Ok t /\
    let s' := set_s_dir (setTrie dm t) (set_s_evac NewEvacuationTable (set_s_dir dm s3)) in
    s_writePos s' = s_writePos s /\ s_phase s' = s_phase s /\ dm_wf (s_dir s') /\ DirTrie.wf t /\
    (forall k v, entries t !! k = Some v -> entries (Trie (s_dir s)) !! k = Some v) /\
    (forall key sel ver D info, entries (Trie (s_dir s)) !! key = Some sel -> recoverable (set_s_closing false s) key ver D info ->
       entries t !! key = Some sel /\ object s' key ver D info).
Proof.
  destruct loaded_wf as [A1 HA1]. destruct (rs_fresh _ _ _ RS) as (F1 & F2 & F3 & F4). destruct (rs_file _ _ _ RS) as (D1 & D2 & D3).
  destruct (sg_span _ _ _ (rs_geometry _ _ _ RS)) as (G1 & G2 & G3). pose proof (rs_checkpoint _ _ _ RS) as C.
  destruct (ck_geometry _ C) as (C1 & C2 & C3). destruct (ck_position _ C) as (C4 & C5). destruct (ck_index _ C) as [W _].
  assert (s_storageErr s1 = None /\ s_closing s1 = false /\ s_writingEnd s1 = 0) as Hclean by done.
  assert (s_disk s1 = Some f /\ bytes_ok f /\ fileCovers s1) as Hdisk.
  { split_and!; [apply (sg_disk _ _ _ (rs_geometry _ _ _ RS))|done|]. intros d. rewrite loaded_dirValid, loaded_disk. apply D3. }
  assert (0 < s_start s1 /\ 0 <= i64 (stripeEnd s1 - s_start s1)) as Hspan.
  { rewrite loaded_end, (stripeEnd_eq s C). cbn. rewrite G3. split; [lia|]. rewrite i64_small by (unfold fits_i64; lia). lia. }
  assert (like s1 s1) as L by (exists (s_ram s1), (s_evac s1); split; [by destruct s0|done]).
  destruct (recoverEntries_total s1 A1 f HA1 Hclean Hdisk Hspan (Snapshot (Trie (s_dir s))) s1 L) as (s3 & ds & valid & E & L3 & Fd & Sv & Hrec).
  destruct (recovered_dir s1 A1 f HA1 Hclean Hdisk Hspan rnd ds Fd) as (dm0 & dm & E0 & Ei & Wdm & Em & Hall).
  assert (Trie dm = Trie (s_dir s)) as Ht by (by rewrite Em).
  destruct (Restore_sublist (Trie (s_dir s)) valid W Sv) as (t & Er & Wt & Het).
  destruct L3 as (ram & ev & -> & Hram). exists (set_s_evac ev (set_s_ram ram s1)), ds, valid, dm0, dm, t.
  split; [done|]. split; [done|]. split; [done|]. split; [by rewrite Ht|]. cbn zeta.
  split; [done|]. split; [done|]. split; [by destruct Wdm as [A' HA']; exists A'|]. split; [done|]. split.
  { intros k v Hk. apply (Snapshot_entry (Trie (s_dir s)) (mkIndexEntry k v) W). eapply elem_of_sublist; [|done]. by apply (Het (mkIndexEntry k v)). }
  intros key sel ver D info Hin (O & R1 & R2 & R3).
  assert (recoverable s1 key ver D info) as Hr.
  { split_and!; try done; [by apply loaded_object|]. cbn. destruct (sg_dir _ _ _ (rs_geometry _ _ _ RS)) as (_ & _ & _ & -> & _). done. }
  destruct (Hrec (mkIndexEntry key sel) ver D info) as [Hv Hfr]; [by apply Snapshot_entry|done|].
  split; [by apply (Het (mkIndexEntry key sel))|]. destruct Hr as ([O1 O2 O3 O4 O5 O6] & _). split; try done.
  { by apply ramEmpty_coherent. }
  intros c Hc. rewrite <- (O6 c Hc). refine (restored_content s1 f Hclean Hdisk ds dm t ram NewEvacuationTable _ Fd Hall _).
  apply Hfr. by apply (fragments_index D info).
Qed.

End Restart.

(** ** Publication of the sidecar *)

Lemma write_at_empty data : data <> [] -> write_at [] 0 data = data.
Proof. intros _. unfold write_at. cbn [Z.to_nat resize]. by rewrite drop_nil, app_nil_r. Qed.

Lemma sealHeader_nonempty h body : sealHeader h body <> [].
Proof. unfold sealHeader. intros [_ [E%(f_equal length) _]%app_eq_nil]%app_eq_nil. by rewrite length_put_be in E. Qed.

Lemma encodeCheckpoint_nonempty s clean data : encodeCheckpoint s clean = Ok data -> data <> [].
Proof.
  unfold encodeCheckpoint. destruct clean; [|intros [= <-]; apply sealHeader_nonempty].
  destruct (encodeMapping _); [|done]. cbn. intros [= <-]. apply sealHeader_nonempty.
Qed.

(** A save that reports no error has replaced the sidecar. *)
Lemma saveSnapshot_ok sync p clean s old s2 sidecar :
  saveSnapshot sync p clean s old = (s2, sidecar, None) -> exists data, encodeCheckpoint s clean = Ok data /\ sidecar = Some data.
Proof.
  unfold saveSnapshot. destruct (s_storageErr s) eqn:Es; [done|]. destruct (s_disk s); [|done].
  assert (forall e, s_storageErr (failLocked e s) = None -> e = None) as Hf by (intros [e|]; [unfold failLocked; rewrite Es; done|done]).
  destruct (encodeCheckpoint s clean) as [data|e] eqn:Ee; [|intros E%(f_equal snd); cbn [snd] in E; by apply Hf in E].
  destruct sync as [e|]; [intros E%(f_equal snd); cbn [snd] in E; by apply Hf in E|].
  destruct (publishCheckpoint p old data) as [sc e] eqn:Ep. intros E0. pose proof (f_equal snd E0) as E. apply (f_equal fst), (f_equal snd) in E0. cbn [fst snd] in E, E0. subst sc. apply Hf in E. subst e.
  exists data. split; [done|]. unfold publishCheckpoint in Ep. destruct (p_create p); [done|].
  destruct (writeFullAt _ _ _ _) as [tmp [e|]] eqn:Ew; cbn [firstErr] in Ep; [done|]. destruct (p_sync p); [done|]. cbn [firstErr] in Ep.
  destruct (p_close p); [done|]. destruct (p_rename p); [done|]. injection Ep as <- _.
  destruct (writeFullAt_ok _ _ _ _ _ Ew) as [_ Hw]. apply encodeCheckpoint_nonempty in Ee. rewrite (Hw Ee). by rewrite write_at_empty.
Qed.

Lemma Restore_capacity dt dt' es : capacity dt = capacity dt' -> Restore dt es = Restore dt' es.
Proof. unfold Restore. by intros ->. Qed.

(** ** Cold starts *)

(** The stripe holds nothing and is ready to be written from the start. *)
Definition cold s : Prop :=
  dm_wf (s_dir s) /\ (forall key, found (s_dir s) key = None) /\ entries (Trie (s_dir s)) = ∅ /\ DirTrie.wf (Trie (s_dir s)) /\
  s_writePos s = s_start s /\ s_phase s = false.

Lemma coldStart_cold s :
  dm_wf (s_dir s) -> 0 <= capacity (Trie (s_dir s)) <= MaxIndexEntries -> exists s', coldStart s = Some s' /\ cold s'.
Proof.
  intros [A HA] Hc. unfold coldStart. destruct (InitEmptyDirs_abs _ _ HA) as (dm & E & HA'). rewrite E. cbn [mbind option_bind].
  assert (Trie dm = Trie (s_dir s)) as Ht by (unfold InitEmptyDirs in E; destruct (mapM _ _); [by injection E as <-|done]).
  eexists. split; [done|]. unfold cold. cbn [restoreInto Restore mbind result_bind NewDirTrie entries selectors nbytes]. split_and!; try done.
  - by exists (repeat (freshViews (Z.to_nat (BucketsNumPerSegment (s_dir s)))) (length (Segs (s_dir s)))).
  - intros key. change (found dm key = None). rewrite (found_abs _ _ _ HA'), alookup_bucketOf. unfold bucketOf. destruct (hashPosition _ key) as [[t seg] b]. cbn [fst snd].
    destruct (repeat (freshViews _) _ !! seg) as [a|] eqn:Ea; [|done]. apply lookup_repeat in Ea as [-> _]. cbn [mbind option_bind].
    unfold freshViews. destruct (repeat [] _ !! b) as [l|] eqn:El; [|done]. apply lookup_repeat in El as [-> _]. done.
  - change (DirTrie.wf (mkDirTrie ∅ ∅ (capacity (Trie dm)) 0)). rewrite <- NewDirTrie_eq by (by rewrite Ht). apply wf_New.
Qed.

Lemma markSession_disk nonce w sync s s1 :
  markSession (Ok nonce) w sync s = Some (s1, None) -> length nonce = 16%nat ->
  exists f, s_disk s1 = Some f /\ s_skip s1 = s_skip s /\ ReadAt f StripeHeaderSize (s_skip s) = (sessionMarker nonce, None).
Proof.
  unfold markSession. cbn [set_s_session s_disk s_skip]. destruct (s_disk s) as [f|]; [|done]. cbn [mbind option_bind]. intros E Hn.
  destruct (writeFullAt w f (sessionMarker nonce) (s_skip s)) as [f' [e|]] eqn:Ew; [done|]. injection E as <- _.
  exists f'. split; [done|]. split; [done|]. destruct (writeFullAt_ok _ _ _ _ _ Ew) as [Hs Hw].
  assert (blen (sessionMarker nonce) = StripeHeaderSize) as Hb.
  { unfold sessionMarker. rewrite !blen_app, !blen_put_be. unfold blen. rewrite Hn. done. }
  rewrite Hw; [|by intros E%(f_equal blen); rewrite Hb in E]. rewrite <- Hb. by apply ReadAt_write_same.
Qed.

(** The sidecar is one that the session [nonce] left at its clean end. *)
Definition cleanCheckpointOf (nonce : bytes) (sidecar : option bytes) : Prop :=
  exists f h, sidecar = Some f /\ readHeader f = Ok h /\ h_Session h = nonce /\ h_Clean h = 1.

Lemma readCheckpoint_refuses s0 f nonce sidecar :
  s_disk s0 = Some f -> ReadAt f StripeHeaderSize (s_skip s0) = (sessionMarker nonce, None) -> length nonce = 16%nat ->
  ~ cleanCheckpointOf nonce sidecar -> exists e, readCheckpoint s0 sidecar = Some (Err e).
Proof.
  intros Hf Hm Hn Hc. unfold readCheckpoint. destruct sidecar as [data|]; [|eauto]. destruct (readHeader data) as [h|e] eqn:Eh; [|eauto].
  rewrite Hf. cbn [mbind option_bind]. rewrite Hm. destruct (markerMatches _ _) eqn:Em; cbn [negb]; [|eauto].
  unfold markerMatches in Em. apply andb_true_iff in Em as [_ Em]. b2p. unfold sessionMarker in Em. rewrite app_assoc, drop_app_length' in Em by done.
  destruct (trusted s0 h) eqn:Et; cbn [negb]; [|eauto]. destruct Hc. exists data, h. split_and!; try done.
  unfold trusted in Et. by b2p.
Qed.

(** ** Properties *)

(** C4: a restart after a clean shutdown loses nothing: when the save of a
    drained stripe reported no error, a stripe of the same geometry over the
    same file loads the sidecar without an error, at the same write position
    and phase, with a well-formed directory and index, and serves every
    complete object of the old index again, with the same bytes, metadata and
    version; the index holds no other key.  The directory is rebuilt from
    empty, whatever the random draws, and no entry displaces another. *)
Theorem checkpoint_restart s f s0 sync p old s2 sidecar rnd :
  restartable s f s0 -> saveSnapshot sync p true s old = (s2, sidecar, None) ->
  exists s', Load rnd sidecar s0 = Some (s', None) /\ s_writePos s' = s_writePos s /\ s_phase s' = s_phase s /\
    dm_wf (s_dir s') /\ DirTrie.wf (Trie (s_dir s')) /\
    (forall k v, entries (Trie (s_dir s')) !! k = Some v -> entries (Trie (s_dir s)) !! k = Some v) /\
    (forall key sel ver D info, entries (Trie (s_dir s)) !! key = Some sel -> recoverable (set_s_closing false s) key ver D info ->
       entries (Trie (s_dir s')) !! key = Some sel /\ object s' key ver D info).
Proof.
  intros RS Hsave. destruct (saveSnapshot_ok _ _ _ _ _ _ _ Hsave) as (data & Ed & ->).
  pose proof (rs_checkpoint _ _ _ RS) as C. pose proof (rs_geometry _ _ _ RS) as G.
  destruct (readCheckpoint_encode s s0 f C G (rs_marked _ _ _ RS)) as (data' & h & Ed' & Er & Hp & Hph).
  assert (data' = data) as -> by congruence. unfold Load, loadCheckpoint. rewrite Er. cbn [mbind option_bind].
  rewrite (Restore_capacity _ (Trie (s_dir s))) by apply (sg_capacity _ _ _ G). rewrite Restore_Snapshot by apply (ck_index _ C).
  cbn [s_dir set_s_dir]. rewrite (loaded_unmarshal s f s0 RS), Hp, Hph.
  assert (((if s_phase s then 1 else 0) =? 1) = s_phase s) as -> by (by destruct (s_phase s)).
  destruct (restart_recovers s f s0 RS rnd) as (s3 & ds & valid & dm0 & dm & t & E1 & E2 & E3 & E4 & Hall).
  change (set_s_phase _ _) with (loadedStripe s s0). rewrite E1. cbn [mbind option_bind]. rewrite E2. cbn [mbind option_bind]. rewrite E3. cbn [mbind option_bind].
  cbn [s_dir set_s_evac set_s_dir]. rewrite E4. eexists. split; [reflexivity|]. exact Hall.
Qed.

(** A session that [Open] has started has marked the file. *)
Lemma Open_marks rnd owned nonce w sync f before s s1 :
  Open rnd owned nonce w sync f before s = Some (s1, None) ->
  exists s2 s3, markSession nonce w sync s2 = Some (s3, None) /\ s_disk s1 = s_disk s3 /\ s_skip s1 = s_skip s3.
Proof.
  unfold Open. destruct owned; [done|]. destruct (Load rnd before _) as [[s2 e]|]; [|done]. cbn [mbind option_bind].
  destruct (markSession nonce w sync s2) as [[s3 [e3|]]|] eqn:E; [done| |done]. cbn [mbind option_bind]. intros [= <-]. by exists s2, s3.
Qed.

(** ** The marker through a session

    A disk write of the stripe starts in its data area, after the header, so
    whatever a session does to the file, short and failed writes included, the
    bytes before [s_start] stay as [Open] left them. *)
Lemma write_at_ReadAt f off p n pos b :
  0 <= pos -> 0 <= n -> pos + n <= off -> ReadAt f n pos = (b, None) -> ReadAt (write_at f off p) n pos = (b, None).
Proof.
  unfold ReadAt. intros Hp Hn Ho. replace (pos <? 0) with false by lia. destruct (_ <? n) eqn:E; [done|]. b2p. intros [= <-].
  assert (slice (write_at f off p) pos (pos + n) = slice f pos (pos + n)) as ->; [|by replace (_ <? n) with false by lia].
  unfold blen in E. apply list_eq. intros i. rewrite !slice_lookup by lia. case_decide as Hi; [|done].
  rewrite lookup_write_at, decide_True by lia. unfold byteIx.
  destruct (slice f pos (pos + n) !! i) as [x|] eqn:Ex.
  - rewrite slice_lookup, decide_True in Ex by lia. by rewrite Ex.
  - apply lookup_ge_None in Ex. lia.
Qed.

Lemma writeFullAt_ReadAt o f p off f' e n pos b :
  writeFullAt o f p off = (f', e) -> 0 <= pos -> 0 <= n -> pos + n <= off -> ReadAt f n pos = (b, None) -> ReadAt f' n pos = (b, None).
Proof.
  unfold writeFullAt, WriteAt. destruct (off <? 0); [by intros [= <- _]|]. intros [= <- _] **.
  destruct (_ =? 0); [done|]. by apply write_at_ReadAt.
Qed.

Record keepsMarker (skip start : Z) (b : bytes) (w : world (R := R)) : Prop := {
  km_disk : exists f, s_disk (w_s w) = Some f /\ ReadAt f StripeHeaderSize skip = (b, None);
  km_start : s_start (w_s w) = start;
  km_task : w_begun w = true -> forall t, w_wk w = Taken t -> start <= t_offset t }.

Lemma flushEnd_disk b e t s : s_disk (flushEnd b e t s) = s_disk s /\ s_start (flushEnd b e t s) = s_start s.
Proof. unfold flushEnd, failLocked. destruct b, e, (s_storageErr s) eqn:E; cbn; rewrite ?E; done. Qed.

Lemma wstep_marker skip start b w w' :
  0 <= skip -> skip + StripeHeaderSize <= start -> wstep w w' -> keepsMarker skip start b w -> keepsMarker skip start b w'.
Proof.
  intros Hs Hst St [(f & Hf & Hr) Hstart Ht].
  destruct St as [x _|s' SR|t rest _ _|ord t s' vs Hw Hb E|ord t s' vs e Hw Hb E|o t f0 f' e Hw Hb Hd E|t e Hw Hb|t e Hw Hb|e].
  - split; cbn; [by exists f|done|exact Ht].
  - destruct SR as (_ & E & Es & _). split; cbn; [rewrite E; by exists f|by rewrite Es|exact Ht].
  - split; cbn; [by exists f|done|done].
  - destruct (flushBegin_None _ _ _ _ _ E) as (_ & H1 & _ & _ & E1 & E2 & _).
    split; cbn; [rewrite E1; by exists f|by rewrite E2|]. intros _ t' [= <-]. by rewrite <- Hstart.
  - rewrite (flushBegin_Some _ _ _ _ _ _ E). destruct (flushEnd_disk false (Some e) t (w_s w)) as [E1 E2].
    split; cbn [w_s w_wk w_begun]; [rewrite E1; by exists f|by rewrite E2|done].
  - assert (f0 = f) as -> by congruence. specialize (Ht Hb t Hw). split; cbn; [|done|done].
    exists f'. split; [done|]. apply (writeFullAt_ReadAt _ _ _ _ _ _ _ _ _ E); [done|vm_compute; congruence|lia|done].
  - destruct (flushEnd_disk true e t (w_s w)) as [E1 E2]. split; cbn [w_s w_wk w_begun]; [rewrite E1; by exists f|by rewrite E2|done].
  - split; cbn; [by exists f|done|done].
  - destruct (failLocked_fields e (w_s w)) as (E1 & E2 & _). split; cbn [w_s w_wk w_begun]; [rewrite E1; by exists f|by rewrite E2|exact Ht].
Qed.

Lemma session_marker skip start b w w' :
  0 <= skip -> skip + StripeHeaderSize <= start -> rtc wstep w w' -> keepsMarker skip start b w -> keepsMarker skip start b w'.
Proof. intros Hs Hst Rn. induction Rn as [|x y z St _ IH]; [done|]. intros K. by eapply IH, wstep_marker. Qed.

(** C13: checkpoints are valid once.  [Open] has started a session, from
    whatever the sidecar was, on a stripe whose data area begins after its
    header; the session then runs, its callers and its disk worker doing any
    steps, writing any records at any offset of the ring, with short and failed
    writes, and ends at any point.  A later [Load] over the file the session
    left, whoever wrote the sidecar and whatever it contains, either is given
    the clean checkpoint of that very session or starts cold, with an empty
    directory and index.  In particular the checkpoint the session itself
    recovered from, and the unclean ones [Save] writes, never come back. *)
Theorem checkpoint_valid_once rnd owned nonce w sync file before s s1 sw s0 sidecar rnd' :
  Open rnd owned (Ok nonce) w sync file before s = Some (s1, None) -> length nonce = 16%nat ->
  0 <= s_skip s1 -> s_skip s1 + StripeHeaderSize <= s_start s1 ->
  rtc wstep (mkWorld s1 Idle false []) sw ->
  s_disk s0 = s_disk (w_s sw) -> s_skip s0 = s_skip s1 -> dm_wf (s_dir s0) -> 0 <= capacity (Trie (s_dir s0)) <= MaxIndexEntries ->
  ~ cleanCheckpointOf nonce sidecar ->
  exists s' e, Load rnd' sidecar s0 = Some (s', Some e) /\ cold s'.
Proof.
  intros (s2 & s3 & Hm & E1 & E2)%Open_marks Hn Hskip Hstart Hrun Hd Hs Hwf Hcap Hc.
  destruct (markSession_disk _ _ _ _ _ Hm Hn) as (f & Hf & Hk & Hr). rewrite <- Hk, <- E2 in Hr.
  destruct (session_marker (s_skip s1) (s_start s1) (sessionMarker nonce) _ _ Hskip Hstart Hrun) as [(f' & Hf' & Hr') _ _].
  { split; cbn; [exists f; split; [by rewrite E1|done]|done|done]. }
  rewrite Hf' in Hd. rewrite <- Hs in Hr'.
  destruct (readCheckpoint_refuses s0 f' nonce sidecar Hd Hr' Hn Hc) as [e E]. destruct (coldStart_cold s0 Hwf Hcap) as (s' & Ec & Hcold).
  exists s', e. unfold Load, loadCheckpoint. rewrite E. cbn [mbind option_bind]. by rewrite Ec.
Qed.

End CheckpointSpec.
