(* ===== verification/InvalidationSpec.v ===== *)
(** * What a purge guarantees *)

From S2P Require Import Prelude Hash Dir Doc DirTrie DirManager HttpInfo RamCache File AggBuffer OpenDir Evacuation Stripe CacheWriter FragmentWriter Invalidation.

Section InvalidationSpec.
Context {R : Type} `{RamStore R}.
Implicit Types s : Stripe R.

(** What the removal of objects leaves alone in a stripe. *)
Definition sameHealth s s' : Prop :=
  s_storageErr s' = s_storageErr s /\ s_closing s' = s_closing s /\ od_generation (s_open s') = od_generation (s_open s) /\
  od_policyEpochs (s_open s') = od_policyEpochs (s_open s).

Lemma ramForget_frame s key s' : ramForget s key = Some s' -> sameHealth s s' /\ s_open s' = s_open s /\ s_dir s' = s_dir s.
Proof. unfold ramForget. destruct (s_ram s) as [ram|]; [destruct (rs_delete ram key); [|done]|]; cbn; by intros [= <-]. Qed.

Lemma Delete_Trie dm key dm' g : DirManager.Delete dm key = Some (dm', g) -> Trie dm' = Trie dm.
Proof.
  unfold DirManager.Delete. destruct (hashPosition dm key) as [[t seg] b]. destruct (Segs dm !! seg) as [sg|]; [|done]. cbn [mbind option_bind].
  destruct (dirProbe t b (dirs sg)) as [[[hit i] ?] ?]. destruct (if hit then foreign sg i key else Some false) as [[]|]; [|cbn [mbind option_bind]|done].
  - cbn. by intros [= <- _].
  - destruct (dirDelete sg t b) as [r|]; [|done]. cbn [mbind option_bind]. by intros [= <- _].
Qed.

Lemma removeFragments_frame n idx s key s' :
  removeFragments n idx s key = Some s' -> sameHealth s s' /\ s_open s' = s_open s /\ Trie (s_dir s') = Trie (s_dir s).
Proof.
  revert idx s. induction n as [|n IH]; intros idx s E; cbn [removeFragments] in E; [by injection E as <-|].
  destruct (DirManager.Get (s_dir s) _) as [[[hit ?] ?]|]; [|done]. cbn [mbind option_bind] in E.
  destruct (ramForget s _) as [s1|] eqn:Es; [|done]. cbn [mbind option_bind] in E. apply ramForget_frame in Es as (F1 & F2 & F3).
  destruct hit; cbn [negb] in E; [|injection E as <-; by rewrite F3].
  destruct (DirManager.Delete (s_dir s1) _) as [[dm g]|] eqn:Ed; [|done]. cbn [mbind option_bind fst] in E. apply Delete_Trie in Ed as Ht.
  destruct (IH _ _ E) as (G1 & G2 & G3). cbn in G2, G3. split_and!; [|by rewrite G2|by rewrite G3, Ht, F3].
  unfold sameHealth in *. destruct F1 as (<- & <- & <- & <-). exact G1.
Qed.

(** One removal: the key is out of the open directory and the index. *)
Lemma removeLocked_frame s key s' w :
  removeLocked s key = Some (s', w) ->
  sameHealth s s' /\ od_entries (s_open s') = delete key (od_entries (s_open s)) /\
  Trie (s_dir s') = DirTrie.Delete (Trie (s_dir s)) key.
Proof.
  unfold removeLocked, detach. intros E.
  destruct (od_entries (s_open s) !! key) as [a|] eqn:Ea; cbn in E;
    (destruct (removeFragments _ _ _ _) as [s1|] eqn:Er; [|done]); cbn in E; injection E as <- _;
    apply removeFragments_frame in Er as (G1 & G2 & G3); cbn in G2, G3; rewrite G2, G3; done.
Qed.

Lemma removeKeys_frame keys : forall s s' ws,
  removeKeys s keys = Some (s', ws) -> DirTrie.wf (Trie (s_dir s)) ->
  sameHealth s s' /\ DirTrie.wf (Trie (s_dir s')) /\
  (forall k, k ∈ keys -> od_entries (s_open s') !! k = None /\ entries (Trie (s_dir s')) !! k = None) /\
  (forall k, k ∉ keys -> od_entries (s_open s') !! k = od_entries (s_open s) !! k /\ entries (Trie (s_dir s')) !! k = entries (Trie (s_dir s)) !! k).
Proof.
  induction keys as [|key keys IH]; intros s s' ws E W; cbn in E.
  - injection E as <- <-. split_and!; try done. set_solver.
  - destruct (removeLocked s key) as [[s1 w]|] eqn:Er; [|done]. cbn in E. destruct (removeKeys s1 keys) as [[s2 ws2]|] eqn:E2; [|done].
    cbn in E. injection E as <- _. apply removeLocked_frame in Er as (F1 & F2 & F3).
    assert (DirTrie.wf (Trie (s_dir s1))) as W1 by (rewrite F3; by apply wf_deleteLocked).
    destruct (IH s1 s2 ws2 E2 W1) as (G1 & G2 & G3 & G4). split_and!; [|done| |].
    + unfold sameHealth in *. destruct F1 as (<- & <- & <- & <-). exact G1.
    + intros k Hk. destruct (decide (k ∈ keys)) as [|Hn]; [by apply G3|]. assert (k = key) as -> by set_solver.
      destruct (G4 key Hn) as [-> ->]. rewrite F2, F3. split; [apply lookup_delete_eq|apply deleteLocked_absent].
    + intros k Hk. apply not_elem_of_cons in Hk as [Hne Hk]. destruct (G4 k Hk) as [-> ->]. rewrite F2, F3. unfold DirTrie.Delete.
      rewrite deleteLocked_entries, !lookup_delete_ne by done. done.
Qed.

(** The keys a purge takes: those whose selector matches. *)
Definition purgeMatch (selector : bytes) (prefix : bool) (sel : bytes) : Prop :=
  if prefix then HasPrefix sel selector = true else sel = selector \/ HasPrefix sel (selector ++ rangeInfix) = true.

Lemma purgeKeys_elem dt selector prefix k :
  DirTrie.wf dt -> k ∈ purgeKeys dt selector prefix <-> exists sel, entries dt !! k = Some sel /\ purgeMatch selector prefix sel.
Proof.
  intros W. unfold purgeKeys, purgeMatch. destruct prefix; [by apply Get_elem|].
  rewrite elem_of_app, KeysForSelector_elem, Get_elem by done. naive_solver.
Qed.

(** A writer or fill that captured an older generation is refused. *)
Lemma stale_publish rnd ctx s w idx fd sz a :
  w_generation w <> Generation (s_open s) -> exists e, publish rnd ctx s w idx fd sz a = Some (s, w, Err e).
Proof.
  intros Hg. unfold publish, publishCheck. destruct (s_storageErr s); [by eexists|]. destruct ctx; [by eexists|]. destruct (s_closing s); [by eexists|].
  unfold fenced. replace (w_generation w =? Generation (s_open s)) with false by lia. cbn [negb]. rewrite orb_true_r. cbn [orb]. by eexists.
Qed.

Lemma stale_admission id ctx wid s t :
  tk_generation t <> Generation (s_open s) -> exists e, newCacheVCWriteLocked id ctx wid s t = Some (s, Err e).
Proof.
  intros Hg. unfold newCacheVCWriteLocked. destruct (w_err _); [by eexists|]. destruct (_ || _); [by eexists|].
  replace (tk_generation t =? Generation (s_open s)) with false by lia. by eexists.
Qed.

Lemma u64_succ_ne g : fits 64 g -> g <> u64 (g + 1).
Proof. unfold fits, u64. intros Hg E. destruct (decide (g + 1 = 2 ^ 64)) as [E1|]; [rewrite E1, Z.mod_same in E; lia|rewrite Z.mod_small in E; lia]. Qed.

(** What a purge does to one stripe. *)
Definition purgedStripe (selector : bytes) (prefix : bool) (keys : list bytes) (x x' : nat * Stripe R) : Prop :=
  x'.1 = x.1 /\
  purgeKeys (Trie (s_dir x'.2)) selector prefix = [] /\
  (forall k, k ∈ purgeKeys (Trie (s_dir x.2)) selector prefix -> k ∈ keys /\ OpenDir.Get (s_open x'.2) k = None) /\
  (forall k, k ∉ purgeKeys (Trie (s_dir x.2)) selector prefix ->
     OpenDir.Get (s_open x'.2) k = OpenDir.Get (s_open x.2) k /\ entries (Trie (s_dir x'.2)) !! k = entries (Trie (s_dir x.2)) !! k) /\
  (forall rnd ctx w idx fd sz a, w_generation w = Generation (s_open x.2) -> exists e, publish rnd ctx x'.2 w idx fd sz a = Some (x'.2, w, Err e)) /\
  (forall id ctx wid t, tk_generation t = Generation (s_open x.2) -> exists e, newCacheVCWriteLocked id ctx wid x'.2 t = Some (x'.2, Err e)).

Lemma purgeStripe_spec s selector prefix s' keys ws a :
  DirTrie.wf (Trie (s_dir s)) -> fits 64 (Generation (s_open s)) -> purgeStripe s selector prefix = Some (s', keys, ws) ->
  keys = purgeKeys (Trie (s_dir s)) selector prefix /\ purgedStripe selector prefix keys (a, s) (a, s').
Proof.
  intros W Hg E. unfold purgeStripe in E. cbn in E.
  destruct (removeKeys (bumpGeneration s) _) as [[s1 ws1]|] eqn:Er; [|done]. cbn in E. injection E as <- <- _.
  destruct (removeKeys_frame _ _ _ _ Er W) as (F1 & W1 & F2 & F3). cbn in F2, F3. split; [done|].
  assert (Generation (s_open s) <> Generation (s_open s1)) as Hne.
  { destruct F1 as (_ & _ & Hgen & _). unfold Generation in *. rewrite Hgen. by apply u64_succ_ne. }
  split_and!; [done| | | | |].
  - cbn. destruct (purgeKeys (Trie (s_dir s1)) selector prefix) as [|k l] eqn:Ek; [done|exfalso].
    assert (k ∈ purgeKeys (Trie (s_dir s1)) selector prefix) as Hk by (rewrite Ek; set_solver).
    apply purgeKeys_elem in Hk as (sel & He & Hm); [|done].
    destruct (decide (k ∈ purgeKeys (Trie (s_dir s)) selector prefix)) as [Hin|Hn]; [destruct (F2 k Hin); congruence|].
    destruct (F3 k Hn) as [_ Hs]. apply Hn, purgeKeys_elem; [done|]. exists sel. by rewrite <- Hs.
  - intros k Hk. split; [done|]. by apply F2.
  - intros k Hk. by apply F3.
  - intros. apply stale_publish. cbn in *. congruence.
  - intros. apply stale_admission. cbn in *. congruence.
Qed.

Lemma purgedStripe_mono selector prefix keys keys' x x' :
  keys ⊆ keys' -> purgedStripe selector prefix keys x x' -> purgedStripe selector prefix keys' x x'.
Proof. intros Hs (P1 & P2 & P3 & P4 & P5 & P6). split_and!; try done. intros k Hk. destruct (P3 k Hk). split; [set_solver|done]. Qed.

Lemma purgeLoop_spec selector prefix c : forall c' keys ws,
  Forall (fun x => DirTrie.wf (Trie (s_dir x.2)) /\ fits 64 (Generation (s_open x.2))) c ->
  purgeLoop c selector prefix = Some (c', keys, ws) -> Forall2 (purgedStripe selector prefix keys) c c'.
Proof.
  induction c as [|[a s] c IH]; intros c' keys ws F E; cbn in E; [injection E as <- <- <-; constructor|].
  apply Forall_cons in F as [[W Hg] F]. destruct (purgeStripe s selector prefix) as [[[s1 k1] w1]|] eqn:Es; [|done]. cbn in E.
  destruct (purgeLoop c selector prefix) as [[[c2 k2] w2]|] eqn:El; [|done]. cbn in E. injection E as <- <- <-.
  destruct (purgeStripe_spec _ _ _ _ _ _ a W Hg Es) as [_ P]. constructor.
  - eapply purgedStripe_mono; [|exact P]. set_solver.
  - eapply Forall2_impl; [by eapply IH|]. intros x x' Hx. eapply purgedStripe_mono; [|exact Hx]. set_solver.
Qed.

(** C11: a purge is final for everything that started before it.  After
    [PurgeSelector], on every stripe no index entry of the selector (or
    prefix, or its range objects) is left, every purged key is reported and
    has no active writer, all other identities and writers are untouched, and
    no writer and no fill that captured its epoch before the purge can publish
    a fragment or be admitted as a writer, whatever it does. *)
Theorem purge_is_final c selector prefix c' keys ws :
  Forall (fun x => DirTrie.wf (Trie (s_dir x.2)) /\ fits 64 (Generation (s_open x.2))) c ->
  PurgeSelector c selector prefix = Some (c', Ok keys, ws) ->
  Forall2 (purgedStripe selector prefix keys) c c' /\ Sorted bytes_le keys.
Proof.
  intros F E. unfold PurgeSelector in E. destruct (blen selector =? 0); [done|]. destruct (existsb _ c); [done|].
  destruct (purgeLoop c selector prefix) as [[[c1 k1] w1]|] eqn:El; [|done]. cbn in E. injection E as <- <- <-.
  split; [|apply sortStrings_sorted]. eapply Forall2_impl; [by eapply purgeLoop_spec|]. intros x x' Hx.
  eapply purgedStripe_mono; [|exact Hx]. intros k Hk. by rewrite sortStrings_perm.
Qed.

End InvalidationSpec.
