(* ===== verification/WriteRead.v ===== *)
(** * A concrete object, written and read

    One small stripe on which an object is written through a [CacheWriter],
    stored by the disk worker, and read by a [CacheReader]: the instance at
    which the theorems on writers, readers and publication are exercised. *)

From S2P Require Import Prelude Hash Dir Doc DirTrie DirManager DirSpec Directory HttpInfo RamCache File AggBuffer AggLog OpenDir Evacuation Stripe Ring CacheWriter WriterSpec FragmentWriter CacheReader ReaderSpec FragmentReader Invalidation InvalidationSpec.

(** An opened stripe over an empty file: data area [[1024, 9216)]. *)
Definition stripe1 : Stripe Ram := Eval vm_compute in
  mkStripe dm8 (opened 1024 9216 1024 2) NewOpenDir None (Some []) 1024 9216 0 1024 false 0 0 0 2 None false [] NewEvacuationTable 0 [].

(** What the disk worker does when it gets a turn. *)
Definition pump (s : Stripe Ram) : option (Stripe Ram) :=
  match flushChan (s_agg s) with
  | [] => Some s
  | t :: rest => handleFlushTask (fun l => l) io_ok (set_s_agg (set_flushChan rest (s_agg s)) s) t
  end.

Definition turns : list (turn Ram) := repeat (mkTurn pump None) 3.

(** A writer for the key [k] with metadata. *)
Definition info1 : CacheHTTPInfo := NewCacheHTTPInfo.
Definition writer1 : CacheWriter := Eval vm_compute in set_w_info (Some info1) (NewCacheWriter NewOpenDir [107] (Ok [0; 0; 0; 1; 0; 0; 0; 2])).
Definition sink1 : sink (R := Ram) := mkSink stripe1 turns [].

(** The client writes three bytes in two calls, then closes. *)
Definition writes1 : option (sink (R := Ram) * CacheWriter) := writes (H := stripe_sink noDraw) sink1 writer1 [[1; 2]; [3]].
Definition close1 : option (sink (R := Ram) * CacheWriter * option error) :=
  match writes1 with Some (k, w) => Close (H := stripe_sink noDraw) k w | None => None end.

Definition infoBytes1 : bytes := Eval vm_compute in match HttpInfo.MarshalBinary info1 with Ok b => b | Err _ => [] end.
Definition stripe2 : Stripe Ram := Eval vm_compute in match close1 with Some (k, _, _) => k_stripe k | None => stripe1 end.

Lemma close1_ok : match close1 with Some (_, _, None) => true | _ => false end = true.
Proof. vm_compute. reflexivity. Qed.

Lemma writer_fragments_reference_witness :
  match close1 with
  | Some (k, w, None) => k_trace k = fragments [1; 2; 3] infoBytes1 /\ w_closed w = true
  | _ => False
  end.
Proof.
  pose proof close1_ok as K. destruct close1 as [[[k2 w2] [e|]]|] eqn:E; try discriminate K.
  unfold close1 in E. destruct writes1 as [[k1 w1]|] eqn:E1; [|discriminate E].
  destruct (writer_fragments_reference (H := stripe_sink noDraw) sink1 writer1 [[1; 2]; [3]] k1 w1 k2 w2) as (ib & Hi & Ht & Hc).
  - vm_compute. repeat split.
  - exact E1.
  - exact E.
  - assert (ib = infoBytes1) as -> by (vm_compute in Hi; injection Hi as <-; reflexivity). exact (conj Ht Hc).
Defined.

Lemma writer_reads_stream_witness :
  match writes1 with Some (_, w) => ReadAtContext None w 1 10 = Return (Ok [2; 3]) | None => False end.
Proof.
  pose proof close1_ok as K. unfold close1 in K. destruct writes1 as [[k1 w1]|] eqn:E1; [|discriminate K].
  exact (writer_reads_stream (H := stripe_sink noDraw) sink1 writer1 [[1; 2]; [3]] k1 w1 1 10 ltac:(vm_compute; repeat split) E1 ltac:(vm_compute; congruence) ltac:(vm_compute; congruence)).
Defined.

(** ** Reading it back *)

Definition version1 : Z := Eval vm_compute in w_version writer1.

Lemma stripe2_object : object stripe2 [107] version1 [1; 2; 3] infoBytes1.
Proof.
  split.
  - intros ram [=].
  - split; repeat constructor; vm_compute; congruence.
  - vm_compute. congruence.
  - vm_compute. split; congruence.
  - vm_compute. split; congruence.
  - intros c Hc. change (fragments [1; 2; 3] infoBytes1) with [mkCall 0 [1; 2; 3] infoBytes1 3] in Hc.
    apply list_elem_of_singleton in Hc as ->. vm_compute. reflexivity.
Qed.

Lemma reader_delivers_object_witness :
  exists st' r', reads stripe2 (NewCacheReader [107]) [2; 5; 1] = Some (st', r', [([1; 2], None); ([3], None); ([], Some ErrEOF)]).
Proof.
  exact (reader_delivers_object stripe2 [107] version1 [1; 2; 3] infoBytes1 [2; 5; 1] stripe2_object
    ltac:(repeat constructor; vm_compute; congruence)).
Defined.

Lemma reader_delivers_info_witness :
  exists st' r', LoadHTTPInfo stripe2 (NewCacheReader [107]) None = Some (st', r', Some info1, None).
Proof.
  destruct (reader_delivers_info stripe2 [107] version1 [1; 2; 3] infoBytes1 info1 stripe2_object) as (st' & r' & E & _).
  - vm_compute. reflexivity.
  - vm_compute. reflexivity.
  - exists st', r'. exact E.
Defined.

(** ** Publication in a reachable world *)

Definition record1 : bytes := Eval vm_compute in fragmentRecord [107] version1 3 0 [1; 2; 3] infoBytes1.
Definition world8 : world (R := Ram) := Eval vm_compute in
  match addFlush (mkWorld stripe1 Idle false []) record1 ≫= finish with Some w => w | None => mkWorld stripe1 Idle false [] end.

Lemma stripe1_ready : ready stripe1 [].
Proof. split; try done; try (vm_compute; split; congruence); try (by left); vm_compute; reflexivity. Qed.

Lemma world8_reach : wreach [] world8.
Proof.
  apply (wreach_steps [] (mkWorld stripe1 Idle false [])); [exact (wr_init [] stripe1 stripe1_ready)|].
  apply (addFlush_finish_steps _ record1). vm_compute. reflexivity.
Qed.

(** The writer after [Write], with its three bytes. *)
Definition writer4 : CacheWriter := Eval vm_compute in set_w_totalWritten 3 writer1.
Definition alloc1 : allocation := mkAlloc 1024 2 1.
Definition published1 : option (Stripe Ram * CacheWriter * result unit) := Eval vm_compute in
  publish noDraw None (w_s world8) writer4 0 record1 (approxRecordSize [1; 2; 3] infoBytes1) alloc1.
Definition stripe3 : Stripe Ram := Eval vm_compute in match published1 with Some (s, _, _) => s | None => stripe1 end.

Lemma published_fragment_fetched_witness :
  exists g d, DirManager.Get (s_dir stripe3) [107] = Some (true, g, d) /\
    if dirValid stripe3 d then exists s2 f, handleRead stripe3 [107] = Some (s2, Ok f) /\ f_buf f = record1
    else handleRead stripe3 [107] = Some (stripe3, Err ErrNotResident).
Proof.
  destruct published1 as [[[s' w'] r]|] eqn:E; [|discriminate E].
  refine (published_fragment_fetched [] world8 0 noDraw None writer4 0 [1; 2; 3] infoBytes1 [[[]; []]] stripe3 w'
    world8_reach _ dm8_abs (dm8_fits _) _ _ alloc1 _ _ _).
  - split; [split; repeat constructor; vm_compute; congruence|vm_compute; congruence|vm_compute; congruence|vm_compute; split; congruence|vm_compute; split; congruence].
  - intros ram X. discriminate X.
  - vm_compute. reflexivity.
  - vm_compute. reflexivity.
  - vm_compute. reflexivity.
  - vm_compute in E. injection E as <- <- <-. vm_compute. reflexivity.
Defined.

(** ** Purging it *)

Definition purge1 : option (list (nat * Stripe Ram) * result (list bytes) * list nat) := Eval vm_compute in PurgeSelector [(0%nat, stripe2)] [107] false.
Definition cache2 : list (nat * Stripe Ram) := Eval vm_compute in match purge1 with Some (c, _, _) => c | None => [] end.

Lemma stripe2_wf : DirTrie.wf (Trie (s_dir stripe2)).
Proof.
  apply (wf_SetIdentity (NewDirTrie (Some 8)) [107] [107]); [apply wf_New|]. vm_compute. reflexivity.
Qed.

Lemma purge_is_final_witness :
  Forall2 (purgedStripe [107] false [[107]]) [(0%nat, stripe2)] cache2 /\ Sorted bytes_le [[107]].
Proof.
  refine (purge_is_final [(0%nat, stripe2)] [107] false cache2 [[107]] [] _ _).
  - apply Forall_singleton. split; [exact stripe2_wf|vm_compute; split; congruence].
  - vm_compute. reflexivity.
Defined.

(** ** Its state is well formed *)

Lemma bytes_ok_forallb l : forallb (fun b => (0 <=? b) && (b <? 256)) l = true -> bytes_ok l.
Proof. intros Hl. apply Forall_forall. intros b Hb%list_elem_of_In. rewrite forallb_forall in Hl. specialize (Hl b Hb). cbn in Hl. b2p. by split. Qed.

(** The directory of the stripe is one [Set] away from the empty one. *)
Lemma stripe2_dir : exists dm g, DirManager.Set_ noDraw dm8 [107] 1024 (approxRecordSize [1; 2; 3] infoBytes1) false = Some (dm, g) /\
  setTrie dm (Trie (s_dir stripe2)) = s_dir stripe2.
Proof. eexists _, _. vm_compute. split; reflexivity. Qed.

Lemma stripe2_dm_wf : dm_wf (s_dir stripe2).
Proof.
  destruct stripe2_dir as (dm & g & E & <-).
  destruct (Set_abs noDraw dm8 [[[]; []]] [107] 1024 (approxRecordSize [1; 2; 3] infoBytes1) false dm8_abs ltac:(concrete) ltac:(vm_compute; split; congruence) (dm8_fits [107]))
    as (dm' & g' & A' & d & E' & HA & _). rewrite E in E'. injection E' as <- <-. by exists A'.
Qed.

(** ** A stale publication

    A small ring, data area [[1024, 2624)], on which a writer is delayed
    between the flush of its record and its publication while the ring wraps
    twice.  [filler n v] is a record of [n] body bytes under another key. *)
Definition stripe4 : Stripe Ram := Eval vm_compute in
  mkStripe dm8 (opened 1024 2624 1024 2) NewOpenDir None (Some []) 1024 2624 0 1024 false 0 0 0 2 None false [] NewEvacuationTable 0 [].
Definition filler (n : nat) (v : Z) : bytes := fragmentRecord [102] v (Z.of_nat n) 0 (repeat 7 n) [].

(** The delayed writer of the key [k], the record it flushed, and the record
    of the key [o] that takes its place. *)
Definition writer5 : CacheWriter := Eval vm_compute in set_w_totalWritten 3 (NewCacheWriter NewOpenDir [107] (Ok [0; 0; 0; 1; 0; 0; 0; 2])).
Definition staleRecord : bytes := fragmentRecord [107] (w_version writer5) 3 0 [1; 2; 3] [].
Definition otherRecord : bytes := fragmentRecord [111] 9 3 0 [4; 5; 6] [].

(** The run up to the moment the disk worker is writing the first flush of
    generation 4, the publication, and the run after it. *)
Definition staleBefore : option world :=
  w ← runAll (mkWorld stripe4 Idle false []) [filler 1128 1; staleRecord; filler 1078 2]; addFlush w (filler 428 3).
Definition stalePublish (w : world) : option (Stripe Ram * CacheWriter * result unit) :=
  publish noDraw None (w_s w) writer5 0 staleRecord (approxRecordSize [1; 2; 3] []) (mkAlloc 2224 2 2).
Definition staleAfter (w : world (R := Ram)) : option world := w ← finish w; runAll w [filler 628 4; otherRecord].

Definition staleWorld1 : world (R := Ram) := Eval vm_compute in default (mkWorld stripe4 Idle false []) staleBefore.
Definition staleStripe : Stripe Ram := Eval vm_compute in match stalePublish staleWorld1 with Some (s, _, _) => s | None => stripe4 end.
Definition staleWriter : CacheWriter := Eval vm_compute in match stalePublish staleWorld1 with Some (_, w, _) => w | None => writer5 end.
Definition published5 : world (R := Ram) := mkWorld staleStripe (w_wk staleWorld1) (w_begun staleWorld1) (w_log staleWorld1).
Definition staleWorld2 : world (R := Ram) := Eval vm_compute in default published5 (staleAfter published5).

Lemma stripe4_ready : ready stripe4 [].
Proof. split; try done; try (vm_compute; split; congruence); try (by left); vm_compute; reflexivity. Qed.

Lemma staleWorld1_reach : wreach [] staleWorld1.
Proof.
  apply (wreach_steps [] (mkWorld stripe4 Idle false [])); [exact (wr_init [] stripe4 stripe4_ready)|].
  apply (runAll_addFlush_steps _ [filler 1128 1; staleRecord; filler 1078 2] (filler 428 3)). vm_compute. reflexivity.
Qed.

Lemma staleWorld2_steps : rtc wstep published5 staleWorld2.
Proof.
  apply (finish_runAll_steps _ [filler 628 4; otherRecord]). vm_compute. reflexivity.
Qed.

(** C39: the window between [removePhase] and the end of the disk write lets in
    a stale publication.  There is a run of the stripe in which a writer
    flushes the record of its fragment in generation 2 and is delayed; while
    the disk worker, which has removed the entries of the phase, writes the
    first flush of generation 4, [publish] still accepts the record; the run
    goes on, generation 4 overwrites the record with one of another key, and
    [handleRead], whose [dirValid] accepts the entry, then fetches the other
    key's record for the key, which the reader's identity check has to
    refuse. *)
Theorem stale_publication_aliases :
  exists w1 s' wr w2 s2 d st r e,
    wreach [] w1 /\ w_log w1 !! 1%nat = Some (mkRec 2224 2 staleRecord) /\ 1 < completed (s_agg (w_s w1)) /\
    s_writingGeneration (w_s w1) = 4 /\
    publish noDraw None (w_s w1) writer5 0 staleRecord (approxRecordSize [1; 2; 3] []) (mkAlloc 2224 2 2) = Some (s', wr, Ok tt) /\
    wstep w1 (mkWorld s' (w_wk w1) (w_begun w1) (w_log w1)) /\
    rtc wstep (mkWorld s' (w_wk w1) (w_begun w1) (w_log w1)) w2 /\
    handleRead (w_s w2) [107] = Some (s2, Ok (mkFetched d otherRecord None)) /\ dirValid (w_s w2) d = true /\
    otherRecord <> staleRecord /\
    reads (w_s w2) (NewCacheReader [107]) [3] = Some (st, r, [([], Some e)]).
Proof.
  exists staleWorld1, staleStripe, staleWriter, staleWorld2. do 5 eexists.
  split; [exact staleWorld1_reach|]. split; [vm_compute; reflexivity|]. split; [vm_compute; reflexivity|]. split; [vm_compute; reflexivity|].
  split; [vm_compute; reflexivity|]. split; [apply ws_other; vm_compute; repeat split|]. split; [exact staleWorld2_steps|].
  split; [vm_compute; reflexivity|]. split; [vm_compute; reflexivity|]. split; [vm_compute; discriminate|]. vm_compute. reflexivity.
Qed.
