(* ===== verification/ReaderIsolation.v ===== *)
(** * Readers while the store changes

    Between two fetches of a reader other goroutines may replace, refresh,
    overwrite, truncate or remove what it reads.  The checks of [parseDoc] in
    [cache/cache_read.go] still give the client one version of one object: what
    a stream delivers are the payloads, in order, of records that the stripe
    held under the keys of the fragments and that carry one version number.
    Nothing is assumed of the content of the stripe: it may hold records of
    other objects, damaged records, and directory entries that lead past the
    end of the file. *)

From S2P Require Import Prelude Hash Dir Doc DirTrie DirManager DirSpec Directory HttpInfo RamCache File OpenDir Evacuation Stripe Ring CacheWriter WriterSpec FragmentWriter CacheReader ReaderSpec ReaderTotal FragmentReader WriteRead.

(** ** Records and their payloads *)

Definition payload (b : bytes) : bytes :=
  match Doc.UnmarshalBinary (slice b 0 DocHeaderSize) with Ok d => slice b (DocHeaderSize + HLen d) (Doc.Len d) | Err _ => [] end.

(** The record [b] with the header [doc] is fragment [i] of version [ver] of an
    object of [total] bytes under [key]. *)
Record fragmentOf (key : bytes) (ver total i : Z) (b : bytes) (doc : Doc) : Prop := {
  fo_decoded : Doc.UnmarshalBinary (slice b 0 DocHeaderSize) = Ok doc /\ Doc.validate doc b = Ok tt;
  fo_identity : Key doc = docKey (FragmentKey key i) /\ FirstKey doc = docKey key;
  fo_version : docVersion doc = ver;
  fo_total : i = 0 -> TotalLen doc = total;
  fo_len : DataLen doc = Z.min TargetFragmentSize (total - i * TargetFragmentSize) }.

Lemma fragmentOf_bounds key ver total i b doc : bytes_ok b -> fragmentOf key ver total i b doc ->
  DocHeaderSize <= Doc.Len doc <= blen b /\ 0 <= HLen doc /\ DataLen doc = Doc.Len doc - DocHeaderSize - HLen doc /\ 0 <= DataLen doc <= TargetFragmentSize /\
  payload b = slice b (DocHeaderSize + HLen doc) (Doc.Len doc) /\ blen (payload b) = DataLen doc.
Proof.
  intros Hb [[E1 E2] _ _ _ _]. assert (bytes_ok (slice b 0 DocHeaderSize)) as Hs by (by apply Forall_take, Forall_drop).
  destruct (UnmarshalBinary_fits _ _ Hs E1) as (F1 & _ & F3). destruct (validate_Len _ _ F1 F3 E2) as (L1 & L2 & L3).
  assert (payload b = slice b (DocHeaderSize + HLen doc) (Doc.Len doc)) as Hp by (unfold payload; by rewrite E1).
  unfold fits in F3. split_and!; try lia; try done. rewrite Hp, blen_slice; unfold DocHeaderSize in *; lia.
Qed.

Definition body (fs : list fetched) : bytes := mjoin (map (fun f => payload (f_buf f)) fs).

Lemma body_snoc fs f : body (fs ++ [f]) = body fs ++ payload (f_buf f).
Proof. unfold body. rewrite map_app. cbn. rewrite join_app. cbn. by rewrite app_nil_r. Qed.

Lemma body_app fs gs : body (fs ++ gs) = body fs ++ body gs.
Proof. unfold body. by rewrite map_app, join_app. Qed.

Lemma slice_past (l1 l2 : bytes) a b : blen l1 <= a -> slice (l1 ++ l2) a b = slice l2 (a - blen l1) (b - blen l1).
Proof. unfold slice, blen. intros Ha. rewrite drop_app_ge by lia. f_equal; [lia|]. f_equal. lia. Qed.

Lemma slice_none (l : bytes) a : slice l a a = [].
Proof. unfold slice. by rewrite Z.sub_diag. Qed.

(** The metadata a record carries. *)
Definition headMeta (b : bytes) : bytes :=
  match Doc.UnmarshalBinary (slice b 0 DocHeaderSize) with Ok d => slice b DocHeaderSize (DocHeaderSize + HLen d) | Err _ => [] end.

(** ** What a client sees *)

(** The reads, with buffers of the sizes [ns], of a stream that announced
    [total] bytes and stands at byte [pos]; the records fetched while they ran
    have the payload [D].  A read fills its buffer up to the announced length,
    where it reports the end, or it fails and so do all later ones; a failure
    looks like the end of the stream only [early]. *)
Inductive transcript (early : Prop) (D : bytes) (total : Z) : Z -> list Z -> list (bytes * option error) -> Prop :=
  | t_nil pos : transcript early D total pos [] []
  | t_read pos n ns l : Z.min (pos + n) total <= blen D -> transcript early D total (Z.min (pos + n) total) ns l ->
      transcript early D total pos (n :: ns) ((slice D pos (Z.min (pos + n) total), if (0 <? n) && (total <=? pos) then Some ErrEOF else None) :: l)
  | t_fail pos n ns q e : pos <= q <= Z.min (pos + n) total -> q <= blen D -> (e = ErrEOF -> early) ->
      transcript early D total pos (n :: ns) ((slice D pos q, Some e) :: map (fun _ => ([], Some e)) ns).

Definition received (l : list (bytes * option error)) : bytes := mjoin (map fst l).

Lemma received_errors (e : error) (ns : list Z) : received (map (fun _ => ([], Some e)) ns) = [].
Proof. by induction ns. Qed.

Lemma transcript_grow early D D' total pos ns l : transcript early D total pos ns l -> 0 <= pos <= total -> Forall (Z.le 0) ns -> transcript early (D ++ D') total pos ns l.
Proof.
  induction 1 as [pos|pos n ns l Hb T IH|pos n ns q e Hq Hb He]; intros Hp Hns; [constructor|..]; apply Forall_cons in Hns as [Hn Hns].
  - rewrite <- (slice_app_l D D') by (unfold blen in Hb; lia). constructor; [rewrite blen_app; pose proof (blen_nonneg D'); lia|]. apply IH; [lia|done].
  - rewrite <- (slice_app_l D D') by (unfold blen in Hb; lia). constructor; [done|rewrite blen_app; pose proof (blen_nonneg D'); lia|done].
Qed.

(** The bytes are a prefix of what is left, all of it when the end was
    reported, unless that was a failure. *)
Lemma transcript_received early D total pos ns l : transcript early D total pos ns l -> 0 <= pos <= total -> pos <= blen D -> Forall (Z.le 0) ns ->
  (exists q, pos <= q <= total /\ q <= blen D /\ received l = slice D pos q) /\
  ((exists p, (p, Some ErrEOF) ∈ l) -> (total <= blen D /\ received l = slice D pos total) \/ early).
Proof.
  induction 1 as [pos|pos n ns l Hb T IH|pos n ns q e Hq Hb He]; intros Hp Hpb Hns.
  - split; [exists pos; rewrite slice_none; split_and!; done || lia|]. by intros (p & ?%elem_of_nil).
  - apply Forall_cons in Hns as [Hn Hns]. destruct (IH ltac:(lia) ltac:(lia) Hns) as [(q & Hq & Hqb & Hr) Hall]. change (received (?x :: ?l)) with (x.1 ++ received l). cbn [fst]. split.
    + exists q. rewrite Hr, slice_split by lia. split_and!; done || lia.
    + intros (p & [Hx|Hx]%elem_of_cons).
      * destruct ((0 <? n) && (total <=? pos)) eqn:E; [|done]. b2p. left. rewrite Hr, slice_split by lia. split; [lia|]. f_equal. lia.
      * destruct (Hall ltac:(eauto)) as [[Ht Hr']|?]; [|by right]. left. rewrite Hr', slice_split by lia. done.
  - change (received (?x :: ?l)) with (x.1 ++ received l). cbn [fst]. rewrite received_errors, app_nil_r. split; [exists q; split_and!; done || lia|].
    intros (p & [Hx|Hx]%elem_of_cons); right; apply He; [congruence|]. apply list_elem_of_In, in_map_iff in Hx as (? & Hx & _). congruence.
Qed.

(** ** Readers over any source *)

Section Chain.
Context {St : Type} `{FragmentSource St} (live : St -> Prop) (key : bytes) (held : Z -> fetched -> Prop) (early : Prop).

(** Fetches of the fragments return; what they return was [held] for the
    fragment, and they end with [io.EOF] only [early]. *)
Definition fetchesLive : Prop :=
  (forall st i, live st -> 0 <= i -> exists st' x, src_fetch st (FragmentKey key i) = Some (st', x) /\ live st' /\
     match x with Ok f => bytes_ok (f_buf f) /\ held i f | Err e => e = ErrEOF -> early end) /\
  (forall st d k, live st -> live (src_note st d k)) /\
  (forall i f, held i f -> f_ram f = None \/ f_ram f = Some (newRAMEntry (f_buf f))).
Hypothesis store : fetchesLive.

(** The first fragments of one version, all held. *)
Definition chain (ver total : Z) (fs : list fetched) : Prop := 0 <= total < 2 ^ 64 /\
  forall (i : nat) f, fs !! i = Some f -> held (Z.of_nat i) f /\ bytes_ok (f_buf f) /\
    (exists doc, fragmentOf key ver total (Z.of_nat i) (f_buf f) doc) /\ (i <> 0%nat -> Z.of_nat i * TargetFragmentSize < total).

Lemma chain_app ver total fs gs : chain ver total (fs ++ gs) -> chain ver total fs.
Proof. intros [Ht C]. split; [done|]. intros i f Hf. apply C. by apply lookup_app_l_Some. Qed.

Lemma chain_snoc ver total fs f doc : chain ver total fs -> held (Z.of_nat (length fs)) f -> bytes_ok (f_buf f) ->
  fragmentOf key ver total (Z.of_nat (length fs)) (f_buf f) doc -> (fs <> [] -> Z.of_nat (length fs) * TargetFragmentSize < total) -> chain ver total (fs ++ [f]).
Proof.
  intros [Ht C] Hh Hb Hf Hl. split; [done|]. intros i g [Hg|[Hi Hg]]%lookup_app_Some; [by apply C|].
  destruct (i - length fs)%nat as [|j] eqn:E; [|done]. injection Hg as <-. assert (i = length fs) as -> by lia.
  split; [done|]. split; [done|]. split; [by exists doc|]. intros Hne. apply Hl. by intros ->.
Qed.

(** The length of the body so far. *)
Lemma blen_body ver total fs : chain ver total fs -> blen (body fs) = Z.min (Z.of_nat (length fs) * TargetFragmentSize) total.
Proof.
  induction fs as [|f fs IH] using rev_ind; intros C; [destruct C as [Ht _]; change (0 = Z.min 0 total); lia|]. rewrite body_snoc, blen_app, IH by (by eapply chain_app).
  destruct C as [Ht C]. destruct (C (length fs) f) as (_ & Hb & [doc Hd] & Hl); [by apply list_lookup_middle|].
  destruct (fragmentOf_bounds _ _ _ _ _ _ Hb Hd) as (_ & _ & _ & _ & _ & ->). rewrite (fo_len _ _ _ _ _ _ Hd), length_app. cbn [length]. pose proof T_pos.
  destruct (decide (length fs = 0%nat)) as [->|Hn]; [lia|]. specialize (Hl Hn). lia.
Qed.

(** Where the last fragment of a chain begins. *)
Lemma body_before ver total fs f : chain ver total (fs ++ [f]) -> blen (body fs) = Z.of_nat (length fs) * TargetFragmentSize.
Proof.
  intros C. rewrite (blen_body ver total) by (by eapply chain_app). destruct C as [Ht C].
  destruct (C (length fs) f) as (_ & _ & _ & Hl); [by apply list_lookup_middle|]. destruct (decide (length fs = 0%nat)) as [->|Hn]; [lia|]. specialize (Hl Hn). lia.
Qed.

(** The reader stands at byte [pos], in the last fragment of the chain. *)
Record standsAt (ver total : Z) (fs : list fetched) (pos : Z) (r : CacheReader) : Prop := {
  sa_chain : chain ver total fs;
  sa_last : exists pre f doc, fs = pre ++ [f] /\ fragmentOf key ver total (Z.of_nat (length pre)) (f_buf f) doc /\ r_doc r = Some doc /\
    r_buf r = slice (f_buf f) 0 (Doc.Len doc) /\ r_fragmentIndex r = Z.of_nat (length pre) /\ 0 <= r_offset r <= DataLen doc;
  sa_pos : r_totalRead r = pos /\ pos = r_fragmentIndex r * TargetFragmentSize + r_offset r;
  sa_total : r_totalLen r = total;
  sa_version : r_version r = ver /\ r_versionSet r = true;
  sa_ok : r_firstKey r = key /\ r_following r = false /\ r_readErr r = None }.

(** The fragment of a reader, as the loop of [Read] sees it. *)
Lemma stands_fragment ver total fs pos r : standsAt ver total fs pos r ->
  exists doc, r_doc r = Some doc /\ DocHeaderSize <= blen (r_buf r) /\ 0 <= r_offset r <= DataLen doc /\
    blen (r_buf r) - (DocHeaderSize + HLen doc) - r_offset r = blen (body fs) - pos /\ 0 <= pos <= blen (body fs) /\ blen (body fs) <= total /\
    (blen (body fs) < total -> blen (body fs) = Z.of_nat (length fs) * TargetFragmentSize) /\ r_fragmentIndex r + 1 = Z.of_nat (length fs) /\
    forall k, 0 <= k <= blen (body fs) - pos ->
      slice (r_buf r) (DocHeaderSize + HLen doc + r_offset r) (DocHeaderSize + HLen doc + r_offset r + k) = slice (body fs) pos (pos + k) /\
      standsAt ver total fs (pos + k) (set_r_totalRead (r_totalRead r + k) (set_r_offset (r_offset r + k) r)).
Proof.
  intros [C (pre & f & doc & -> & Hd & Hdoc & Hbuf & Hix & Ho) [P1 P2] Ht Hv Hk]. exists doc.
  destruct (C) as [Htot C']. destruct (C' (length pre) f) as (_ & Hb & _ & _); [by apply list_lookup_middle|].
  destruct (fragmentOf_bounds _ _ _ _ _ _ Hb Hd) as (B1 & B2 & B3 & B4 & Hp & Hpl). pose proof (body_before _ _ _ _ C) as Hbp.
  pose proof (blen_body _ _ _ C) as Hbl. rewrite body_snoc, blen_app, Hpl, length_app in Hbl. cbn [length] in Hbl. pose proof T_pos.
  assert (blen (r_buf r) = Doc.Len doc) as Hbr by (rewrite Hbuf, blen_slice; unfold DocHeaderSize in *; lia).
  rewrite body_snoc, blen_app, Hpl, Hbr, length_app. cbn [length]. split_and!; try done; try lia. intros k Hkr. split.
  - rewrite slice_past by lia. rewrite Hbuf, Hp, !slice_slice by (unfold DocHeaderSize in *; lia). f_equal; lia.
  - split; cbn; [done|exists pre, f, doc; split_and!; try done; lia|lia|done..].
Qed.

(** What [parseDoc] has established when it accepts a record. *)
Lemma parseDoc_fragment bound r r' i : parseDoc bound r = (r', Ok tt) -> r_doc r = None -> bytes_ok (r_buf r) -> r_fragmentIndex r = i -> 0 <= i ->
  r_following r = false -> r_readErr r = None -> (i <> 0 -> i * TargetFragmentSize < r_totalLen r < 2 ^ 64) -> r_firstKey r = key -> r_key r = FragmentKey key i ->
  exists doc, let total := if i =? 0 then TotalLen doc else r_totalLen r in
    fragmentOf key (docVersion doc) total i (r_buf r) doc /\ 0 <= total < 2 ^ 64 /\ (i = 0 -> total <= u64 bound) /\ (r_versionSet r = true -> r_version r = docVersion doc) /\
    r_doc r' = Some doc /\ r_buf r' = slice (r_buf r) 0 (Doc.Len doc) /\ r_fragmentIndex r' = i /\ samePos r r' /\ r_totalLen r' = total /\
    (r_version r' = docVersion doc /\ r_versionSet r' = true) /\ (r_firstKey r' = key /\ r_following r' = false /\ r_readErr r' = None) /\ r_ram r' = r_ram r.
Proof.
  unfold parseDoc, parseDocFromBuf. intros E Hd Hb Hi H0 Hf He Ht Hk Hk'. rewrite Hd in E. destruct (_ <? DocHeaderSize); [done|].
  destruct (Doc.UnmarshalBinary _) as [doc|] eqn:E1; [|done]. exists doc.
  assert (bytes_ok (slice (r_buf r) 0 DocHeaderSize)) as Hs by (by apply Forall_take, Forall_drop). destruct (UnmarshalBinary_fits _ _ Hs E1) as (F1 & F2 & F3).
  cbn [r_buf set_r_doc] in E. destruct (Doc.validate doc (r_buf r)) as [[]|] eqn:E2; [|done]. destruct (validate_Len _ _ F1 F3 E2) as (L1 & L2 & L3).
  cbn [r_key r_firstKey set_r_doc] in E. destruct (_ || _) eqn:Eid; [done|]. b2p. destruct (u64 bound <? _) eqn:Ebd; [done|]. b2p. destruct (chainError _ doc) eqn:E3; [done|].
  destruct (chainError_None (set_r_doc (Some doc) r) doc i L3 F2 Hi H0 Hf ltac:(done) E3) as (C1 & C2 & C3). cbn [r_totalLen set_r_doc] in C2, C3.
  cbn [r_versionSet r_version set_r_doc] in E. assert (r_versionSet r = true -> r_version r = docVersion doc) as Hv.
  { intros Hv. rewrite Hv in E. cbn [andb] in E. destruct (r_version r =? docVersion doc) eqn:Ev; [|done]. by b2p. }
  destruct (r_versionSet r && _); [done|]. injection E as <-. cbn [r_fragmentIndex set_r_doc set_r_version set_r_versionSet] in *. rewrite Hi. pose proof T_pos. unfold fits in F2.
  cbn zeta. set (total := if i =? 0 then TotalLen doc else r_totalLen r) in *. assert (0 <= total < 2 ^ 64) as Htot by (subst total; destruct (i =? 0) eqn:Ei; b2p; [lia|specialize (Ht Ei); nia]).
  split.
  { split; [done| |done| |]; [by rewrite <- Hk', <- Hk|by intros ->|]. destruct (decide (DataLen doc = TargetFragmentSize)); lia. }
  assert (Doc.Len doc = blen (r_buf r) -> slice (r_buf r) 0 (Doc.Len doc) = r_buf r) as Hfull by (intros ->; apply slice_full).
  unfold samePos. split; [done|]. split; [subst total; by intros ->|]. split; [done|]. subst total.
  destruct (i =? 0) eqn:Ei; cbn [r_buf set_r_totalLen set_r_doc set_r_version set_r_versionSet]; (destruct (Doc.Len doc <? blen (r_buf r)) eqn:El; b2p; cbn; split_and!; try done; rewrite Hfull; done || lia).
Qed.

(** A load of fragment [i] by a reader whose chain has [i] fragments. *)
Lemma load_fragment st r fs ver total : live st -> (fs <> [] -> r_version r = ver /\ r_versionSet r = true /\ r_totalLen r = total /\ Z.of_nat (length fs) * TargetFragmentSize < total) ->
  chain ver total fs -> r_firstKey r = key /\ r_following r = false /\ r_readErr r = None ->
  exists st' r' x, loadFragment st r (Z.of_nat (length fs)) = Some (st', r', x) /\ live st' /\
    match x with
    | Ok _ => exists ver' total' f doc, (fs <> [] -> ver' = ver /\ total' = total) /\ (fs = [] -> exists st1, live st1 /\ total' <= u64 (src_bound st1)) /\ held (Z.of_nat (length fs)) f /\ bytes_ok (f_buf f) /\ chain ver' total' (fs ++ [f]) /\
        fragmentOf key ver' total' (Z.of_nat (length fs)) (f_buf f) doc /\ r_doc r' = Some doc /\ r_buf r' = slice (f_buf f) 0 (Doc.Len doc) /\
        r_fragmentIndex r' = Z.of_nat (length fs) /\ samePos r r' /\ r_totalLen r' = total' /\ (r_version r' = ver' /\ r_versionSet r' = true) /\
        (r_firstKey r' = key /\ r_following r' = false /\ r_readErr r' = None) /\ r_ram r' = f_ram f
    | Err e => r_readErr r' = Some e /\ (e = ErrEOF -> early)
    end.
Proof.
  intros L Hpre C (Hk & Hf & He). unfold loadFragment. cbn [r_key r_firstKey set_r_fragmentIndex set_r_key set_r_doc set_r_ram]. rewrite Hk.
  destruct (proj1 store st (Z.of_nat (length fs)) L ltac:(lia)) as (st1 & x & -> & L1 & Hx). cbn [mbind option_bind].
  destruct x as [f|e]; [|by eexists _, _, _]. destruct Hx as [Hb Hh]. set (r1 := set_r_ram (f_ram f) (set_r_buf (f_buf f) _)).
  assert (Z.of_nat (length fs) <> 0 -> fs <> []) as Hne by (intros X ->; done). pose proof (proj1 C) as Htot.
  destruct (parseDoc (src_bound st1) r1) as [r' [[]|e]] eqn:E; [|eexists _, _, _; split; [done|]; split; [done|]; split; [done|]; intros ->; by eapply parseDoc_notEOF in E].
  eexists _, _, _. split; [done|]. split; [by apply store|].
  destruct (parseDoc_fragment _ _ _ (Z.of_nat (length fs)) E eq_refl Hb eq_refl ltac:(lia) Hf He) as (doc & Hfo & Ht & Hbd & Hver & Q); [|done|done|].
  { intros X%Hne. destruct (Hpre X) as (_ & _ & <- & ?). cbn. lia. }
  exists (docVersion doc), (if Z.of_nat (length fs) =? 0 then TotalLen doc else r_totalLen r1), f, doc.
  assert (fs <> [] -> docVersion doc = ver /\ (if Z.of_nat (length fs) =? 0 then TotalLen doc else r_totalLen r1) = total) as Hsame.
  { intros X. destruct (Hpre X) as (<- & Hvs & <- & _). split; [symmetry; by apply Hver|]. destruct fs; done. }
  split; [done|]. split; [intros ->; exists st1; split; [done|by apply Hbd]|]. split; [done|]. split; [done|]. split; [|split; [done|exact Q]].
  apply (chain_snoc _ _ _ _ doc); try done.
  - destruct fs as [|f0 fs]; [split; [exact Ht|done]|]. destruct (Hsame ltac:(done)) as [-> ->]. done.
  - intros X. destruct (Hsame X) as [_ ->]. by apply Hpre.
Qed.

(** What [Read] does with a buffer of [n] bytes at [pos]: the chain may grow,
    and it fills the buffer up to the announced length, or it fails for good
    after some of the bytes. *)
Definition delivers (ver total : Z) (fs : list fetched) (pos n : Z) (got : bytes) (x : St * CacheReader * bytes * option error) : Prop :=
  let '(st', r', p, e) := x in live st' /\ exists gs q, chain ver total (fs ++ gs) /\ p = got ++ slice (body (fs ++ gs)) pos q /\
    pos <= q <= Z.min (pos + n) total /\ q <= blen (body (fs ++ gs)) /\
    ((q = Z.min (pos + n) total /\ e = (if (0 <? n) && (total <=? pos) && bool_decide (got = []) then Some ErrEOF else None) /\ standsAt ver total (fs ++ gs) q r') \/
     (exists err, e = Some err /\ r_readErr r' = Some err /\ (err = ErrEOF -> early))).

Definition loopDelivers (fuel : nat) : Prop := forall st r ver total fs pos n got,
  live st -> standsAt ver total fs pos r -> 0 <= n -> (2 * Z.to_nat n + 2 <= fuel)%nat ->
  exists x, readLoop fuel st r n got = Some x /\ delivers ver total fs pos n got x.

(** A copy from the current fragment, then the rest of the loop. *)
Lemma loop_copies fuel st r ver total fs pos n got :
  loopDelivers fuel -> live st -> standsAt ver total fs pos r -> 0 < n -> (2 * Z.to_nat n <= fuel)%nat -> pos < blen (body fs) ->
  let k := Z.min n (blen (body fs) - pos) in
  exists x, readLoop fuel st (set_r_totalRead (r_totalRead r + k) (set_r_offset (r_offset r + k) r)) (n - k) (got ++ slice (body fs) pos (pos + k)) = Some x /\
    delivers ver total fs pos n got x.
Proof.
  intros IH L S Hn Hf Hlt k. destruct (stands_fragment _ _ _ _ _ S) as (doc & _ & _ & _ & _ & Hp & Hbt & _ & _ & Hc).
  assert (0 < k <= blen (body fs) - pos) as Hk by lia. destruct (Hc k ltac:(lia)) as [_ S'].
  destruct (IH st _ ver total fs (pos + k) (n - k) (got ++ slice (body fs) pos (pos + k)) L S' ltac:(lia) ltac:(lia)) as ([[[st' r'] p] e] & E & L' & gs & q & C & -> & Hq & Hqb & Ho).
  eexists. split; [exact E|]. split; [done|]. exists gs, q. split; [done|]. split.
  { rewrite <- app_assoc. f_equal. rewrite <- (slice_split (body (fs ++ gs)) pos (pos + k) q) by lia. f_equal. rewrite body_app. symmetry. apply slice_app_l; unfold blen in *; lia. }
  split; [lia|]. split; [done|]. destruct Ho as [(-> & -> & S2)|Ho]; [left|by right]. replace (pos + k + (n - k)) with (pos + n) in * by lia. split; [done|]. split; [|done].
  replace (total <=? pos) with false by lia. rewrite andb_false_r, (bool_decide_eq_false_2 (_ = [])); [by rewrite andb_false_r|].
  intros [_ X]%app_eq_nil. revert X. apply slice_nonempty; lia.
Qed.

Lemma readLoop_delivers fuel : loopDelivers fuel.
Proof.
  induction fuel as [fuel IH] using lt_wf_ind. intros st r ver total fs pos n got L S Hn Hf. destruct fuel as [|fuel]; [lia|]. cbn [readLoop].
  destruct (stands_fragment _ _ _ _ _ S) as (doc & Hd & Hbuf & _ & Hav & Hp & Hbt & Hlen & Hix & Hc). pose proof (sa_chain _ _ _ _ _ S) as C. pose proof (proj1 C) as Htot.
  destruct (sa_pos _ _ _ _ _ S) as [P1 _]. pose proof (sa_total _ _ _ _ _ S) as Ht.
  destruct (n <=? 0) eqn:En; b2p.
  { assert (n = 0) as -> by lia. eexists. split; [done|]. split; [done|]. exists [], pos. rewrite !app_nil_r, slice_none, app_nil_r, Z.add_0_r, Z.min_l by lia. split_and!; try done; try lia. by left. }
  replace (blen (r_buf r) =? 0) with false by (unfold DocHeaderSize in *; lia). unfold parseDocFromBuf at 1. rewrite Hd, Hav.
  destruct (_ - pos <=? 0) eqn:Ea; b2p.
  2: { destruct (Hc (Z.min n (blen (body fs) - pos)) ltac:(lia)) as [-> _]. apply loop_copies; try done; [apply IH; lia|lia|lia]. }
  rewrite Ht, P1, u64_small by (unfold fits; lia). destruct (total <=? pos) eqn:Efin; b2p.
  { assert (delivers ver total fs pos n got (st, r, got, if bool_decide (got = []) then Some ErrEOF else None)) as Hend.
    { split; [done|]. exists [], pos. rewrite !app_nil_r, slice_none, app_nil_r. split_and!; try done; try lia. left. split; [lia|]. split; [|done].
      replace (0 <? n) with true by lia. by replace (total <=? pos) with true by lia. }
    destruct (bool_decide_reflect (got = [])) as [->|]; (eexists; split; [done|exact Hend]). }
  destruct fuel as [|fuel]; [lia|]. cbn [readLoop]. replace (n <=? 0) with false by lia. cbn [r_buf set_r_buf].
  change (blen [] =? 0) with true. cbn [r_totalLen r_totalRead set_r_buf r_fragmentIndex]. rewrite Ht, P1, u64_small by (unfold fits; lia).
  replace (total <=? pos) with false by lia. rewrite Hix.
  destruct (load_fragment st (set_r_fragmentIndex (Z.of_nat (length fs)) (set_r_buf [] r)) fs ver total L) as (st1 & r1 & x & -> & L1 & Hx); [|done|by apply S|].
  { intros _. destruct (sa_version _ _ _ _ _ S). cbn. split_and!; try done; lia. }
  cbn [mbind option_bind]. destruct x as [[]|e].
  2: { eexists. split; [done|]. split; [done|]. exists [], pos. rewrite !app_nil_r, slice_none, app_nil_r. split_and!; try done; try lia. right. by exists e. }
  assert (fs <> []) as Hne by (intros ->; cbn in Hix, Hlen; destruct (sa_last _ _ _ _ _ S) as (pre & f & d & X & _); by destruct pre).
  destruct Hx as (ver' & total' & f & d & Hsame & _ & _ & _ & C1 & Hfo & Hd1 & Hb1 & Hi1 & (_ & Q2 & _) & Ht1 & Hv1 & Hk1 & _). destruct (Hsame Hne) as [-> ->]. clear Hsame.
  assert (standsAt ver total (fs ++ [f]) pos (set_r_offset 0 r1)) as S1.
  { destruct (C1) as [_ C2]. destruct (C2 (length fs) f) as (_ & Hbf & _ & _); [by apply list_lookup_middle|]. destruct (fragmentOf_bounds _ _ _ _ _ _ Hbf Hfo) as (_ & _ & _ & HD & _).
    split; cbn; [done|exists fs, f, d; split_and!; try done; lia|rewrite Hi1, Q2; cbn; lia|done..]. }
  destruct (stands_fragment _ _ _ _ _ S1) as (d' & Hd' & _ & _ & Hav' & Hp' & _ & _ & _ & Hc').
  unfold parseDocFromBuf. rewrite Hd', Hav'. assert (blen (body fs) < blen (body (fs ++ [f]))) as Hgrow.
  { rewrite (blen_body _ _ _ C1), length_app. cbn [length]. pose proof T_pos. lia. }
  destruct (_ - pos <=? 0) eqn:Ea'; b2p; [lia|]. destruct (Hc' (Z.min n (blen (body (fs ++ [f])) - pos)) ltac:(lia)) as [-> _].
  destruct (loop_copies fuel st1 (set_r_offset 0 r1) ver total (fs ++ [f]) pos n got (IH fuel ltac:(lia)) L1 S1 ltac:(lia) ltac:(lia) ltac:(lia)) as ([[[st' r'] p] e] & E & L' & gs & q & Hq).
  cbv zeta in E. cbn [r_totalRead r_offset set_r_offset] in E |- *. rewrite E. eexists. split; [done|]. split; [done|]. exists ([f] ++ gs), q. by rewrite app_assoc.
Qed.

(** ** Whole reads *)

Lemma readDone_delivers ver total fs pos n x : delivers ver total fs pos n [] x -> delivers ver total fs pos n [] (readDone x).
Proof.
  destruct x as [[[st r] p] [e|]]; [|done]. unfold readDone. case_decide as He; [done|]. intros (L & gs & q & C & Hp & Hq & Hqb & [(_ & Hx & _)|(err & [= <-] & _ & Hee)]).
  - destruct (_ && _) in Hx; [by injection Hx as ->|done].
  - split; [done|]. exists gs, q. split_and!; try done; try lia. right. by exists e.
Qed.

Lemma Read_stands st r ver total fs pos n : live st -> standsAt ver total fs pos r -> 0 <= n ->
  exists x, Read st r n = Some x /\ delivers ver total fs pos n [] x.
Proof.
  intros L S Hn. unfold Read. destruct (stands_fragment _ _ _ _ _ S) as (doc & _ & Hb & _). rewrite (proj2 (proj2 (sa_ok _ _ _ _ _ S))).
  replace (blen (r_buf r) =? 0) with false by (unfold DocHeaderSize in *; lia).
  destruct (readLoop_delivers (readFuel n) st r ver total fs pos n [] L S Hn ltac:(unfold readFuel; lia)) as (x & -> & Hx). cbn [mbind option_bind].
  eexists. split; [done|]. by apply readDone_delivers.
Qed.

(** The head of the stream. *)
Lemma load_head st : live st ->
  exists st' r' x, loadFragment st (NewCacheReader key) 0 = Some (st', r', x) /\ live st' /\
    match x with
    | Ok _ => exists ver total f, held 0 f /\ standsAt ver total [f] 0 r' /\ r_ram r' = f_ram f /\ exists st1, live st1 /\ total <= u64 (src_bound st1)
    | Err e => r_readErr r' = Some e /\ (e = ErrEOF -> early)
    end.
Proof.
  intros L. destruct (load_fragment st (NewCacheReader key) [] 0 0 L ltac:(done) ltac:(by split; [|done]) ltac:(done)) as (st' & r' & x & E & L' & Hx).
  exists st', r', x. split; [exact E|]. split; [done|]. destruct x as [[]|e]; [|done].
  destruct Hx as (ver & total & f & doc & _ & Hbd & Hh & Hb & C & Hfo & Hd & Hbuf & Hi & (Q1 & Q2 & _) & Ht & Hv & Hk & Hr). exists ver, total, f. split; [done|]. split; [|split; [done|by apply Hbd]].
  destruct (fragmentOf_bounds _ _ _ _ _ _ Hb Hfo) as (_ & _ & _ & HD & _). cbn in Q1, Q2.
  split; [done|exists [], f, doc; split_and!; try done; lia|rewrite Hi, Q1, Q2; done|done..].
Qed.

Lemma Read_head st n : live st -> 0 <= n ->
  exists st' r' p e, Read st (NewCacheReader key) n = Some (st', r', p, e) /\ live st' /\
    ((exists ver total f, delivers ver total [f] 0 n [] (st', r', p, e)) \/ (exists err, p = [] /\ e = Some err /\ r_readErr r' = Some err /\ (err = ErrEOF -> early))).
Proof.
  intros L Hn. unfold Read. cbn [r_readErr r_buf NewCacheReader]. change (blen [] =? 0) with true. cbn [mbind option_bind].
  destruct (load_head st L) as (st1 & r1 & x & -> & L1 & Hx). cbn [mbind option_bind]. destruct x as [[]|e].
  - destruct Hx as (ver & total & f & Hh & S & _). assert (set_r_fragmentIndex 0 r1 = r1) as ->.
    { destruct (sa_last _ _ _ _ _ S) as (pre & g & d & Hpre & _ & _ & _ & Hi & _). destruct pre as [|? [|? ?]]; [|done..]. destruct r1; cbn in *. by rewrite Hi. }
    destruct (readLoop_delivers (readFuel n) st1 r1 ver total [f] 0 n [] L1 S Hn ltac:(unfold readFuel; lia)) as (x & -> & Hx). cbn [mbind option_bind].
    apply readDone_delivers in Hx. destruct (readDone x) as [[[st' r'] p] e]. exists st', r', p, e. split; [done|]. split; [apply Hx|]. left. by exists ver, total, f.
  - cbn [mbind option_bind]. unfold readDone. destruct Hx as [He Hee]. case_decide; (eexists _, _, _, _; split; [done|]; split; [done|]; right; exists e; split_and!; done).
Qed.

Lemma reads_failed st r e ns : r_readErr r = Some e -> reads st r ns = Some (st, r, map (fun _ => ([], Some e)) ns).
Proof. intros F. induction ns as [|n ns IH]; [done|]. cbn [reads]. unfold Read. rewrite F. cbn [mbind option_bind]. by rewrite IH. Qed.

(** The reads that follow a read. *)
Definition readsFrom (ver total : Z) (ns : list Z) : Prop := forall st r fs pos, live st -> standsAt ver total fs pos r ->
  exists st' r' l gs, reads st r ns = Some (st', r', l) /\ live st' /\ chain ver total (fs ++ gs) /\ transcript early (body (fs ++ gs)) total pos ns l.

Lemma reads_step ver total ns n fs pos st1 r1 p e : readsFrom ver total ns -> 0 <= n -> 0 <= pos <= total -> delivers ver total fs pos n [] (st1, r1, p, e) ->
  exists st' r' l gs, reads st1 r1 ns = Some (st', r', l) /\ live st' /\ chain ver total (fs ++ gs) /\ transcript early (body (fs ++ gs)) total pos (n :: ns) ((p, e) :: l).
Proof.
  intros IH Hn Hp (L1 & gs & q & C & -> & Hq & Hqb & Ho). cbn [app]. destruct Ho as [(-> & -> & S1)|(err & -> & Hr & Hee)].
  - destruct (IH st1 r1 (fs ++ gs) _ L1 S1) as (st' & r' & l & hs & E & L' & C' & T). exists st', r', l, (gs ++ hs). rewrite app_assoc. split; [done|]. split; [done|]. split; [done|].
    rewrite (bool_decide_eq_true_2 ([] = [])), andb_true_r by done. rewrite <- (slice_app_l _ (body hs)) by (unfold blen in Hqb; lia). rewrite <- body_app.
    constructor; [|done]. rewrite body_app, blen_app. pose proof (blen_nonneg (body hs)). lia.
  - exists st1, r1, (map (fun _ => ([], Some err)) ns), gs. rewrite (reads_failed _ _ _ _ Hr). split_and!; try done. by constructor.
Qed.

Lemma reads_stands ver total ns : Forall (Z.le 0) ns -> readsFrom ver total ns.
Proof.
  induction 1 as [|n ns Hn Hns IH]; intros st r fs pos L S; [exists st, r, [], []; rewrite app_nil_r; split_and!; try done; [apply S|constructor]|].
  cbn [reads]. destruct (Read_stands st r ver total fs pos n L S Hn) as ([[[st1 r1] p] e] & -> & Hx). cbn [mbind option_bind].
  destruct (stands_fragment _ _ _ _ _ S) as (_ & _ & _ & _ & _ & Hp & Hbt & _).
  destruct (reads_step ver total ns n fs pos st1 r1 p e IH Hn ltac:(lia) Hx) as (st' & r' & l & gs & -> & ?). cbn [mbind option_bind]. by exists st', r', ((p, e) :: l), gs.
Qed.

(** A new reader: it fails for good, or it delivers one chain. *)
Lemma reads_chain st ns : live st -> Forall (Z.le 0) ns ->
  exists st' r' l, reads st (NewCacheReader key) ns = Some (st', r', l) /\ live st' /\
    ((exists ver total fs, chain ver total fs /\ transcript early (body fs) total 0 ns l /\ (exists q, 0 <= q <= total /\ q <= blen (body fs) /\ received l = slice (body fs) 0 q) /\
        ((exists p, (p, Some ErrEOF) ∈ l) -> (blen (body fs) = total /\ received l = body fs) \/ early)) \/
     (exists e, l = map (fun _ => ([], Some e)) ns /\ (e = ErrEOF -> early))).
Proof.
  intros L Hns. destruct ns as [|n ns]; [eexists _, _, _; split; [done|]; split; [done|]; right; by exists ErrNotResident|].
  pose proof Hns as [Hn Hns']%Forall_cons. cbn [reads]. destruct (Read_head st n L Hn) as (st1 & r1 & p & e & -> & L1 & Hx). cbn [mbind option_bind].
  destruct Hx as [(ver & total & f & Hx)|(err & -> & -> & Hr & Hee)].
  2: { rewrite (reads_failed _ _ _ _ Hr). cbn [mbind option_bind]. eexists _, _, _. split; [done|]. split; [done|]. right. by exists err. }
  assert (0 <= total) as Ht by (destruct Hx as (_ & ? & ? & [? _] & _); lia).
  destruct (reads_step ver total ns n [f] 0 st1 r1 p e (reads_stands _ _ _ Hns') Hn ltac:(lia) Hx) as (st' & r' & l & gs & -> & L' & C & T). cbn [mbind option_bind].
  eexists _, _, _. split; [done|]. split; [done|]. left. exists ver, total, ([f] ++ gs). split; [done|]. split; [done|].
  destruct (transcript_received _ _ _ _ _ _ T ltac:(lia) (blen_nonneg _) Hns) as [Hq He]. split; [done|]. intros Hx2. destruct (He Hx2) as [[Hle ->]|?]; [left|by right].
  pose proof (blen_body _ _ _ C) as Hbl. split; [lia|]. assert (total = blen (body ([f] ++ gs))) as -> by lia. apply slice_full.
Qed.

(** [LoadHTTPInfo] of a new reader, which then stands at the first byte. *)
Lemma LoadHTTPInfo_chain st : live st ->
  exists st' r' i e, LoadHTTPInfo st (NewCacheReader key) None = Some (st', r', i, e) /\ live st' /\
    (e = None -> exists ver total f info, i = Some info /\ standsAt ver total [f] 0 r' /\ metaOf (headMeta (f_buf f)) info /\ exists st1, live st1 /\ total <= u64 (src_bound st1)).
Proof.
  intros L. unfold LoadHTTPInfo. cbn [r_readErr r_info NewCacheReader]. destruct (load_head st L) as (st1 & r1 & x & -> & L1 & Hx). cbn [mbind option_bind].
  destruct x as [[]|e]; [|by eexists _, _, _, _]. destruct Hx as (ver & total & f & Hh & S & Hram & Hbd).
  assert (forall i, standsAt ver total [f] 0 (set_r_info i r1)) as Si by (intros i; destruct S; by split).
  assert (r_readErr r1 = None) as Hre by apply S.
  destruct (sa_last _ _ _ _ _ S) as (pre & g & doc & Hpre & Hfo & Hd & Hbuf & _). destruct pre as [|? [|? ?]]; [|done..]. injection Hpre as <-.
  destruct (proj2 (sa_chain _ _ _ _ _ S) 0%nat f eq_refl) as (_ & Hb & _). destruct (fragmentOf_bounds _ _ _ _ _ _ Hb Hfo) as (B1 & B2 & B3 & B4 & _).
  assert (headMeta (f_buf f) = slice (f_buf f) DocHeaderSize (DocHeaderSize + HLen doc)) as Hm by (unfold headMeta; by rewrite (proj1 (fo_decoded _ _ _ _ _ _ Hfo))).
  unfold decodeInfo, parseDocFromBuf. rewrite Hd. set (cached := match r_ram r1 with Some _ => _ | None => None end).
  assert (cached = None \/ exists i, cached = Some i /\ HttpInfo.UnmarshalBinary (headMeta (f_buf f)) = Ok i) as [->|(i & -> & Hi)].
  { subst cached. rewrite Hram. destruct (proj2 (proj2 store) 0 f Hh) as [->| ->]; [by left|]. destruct (re_info _) as [i'|] eqn:Er; [|by left].
    destruct (_ =? _); [|by left]. right. exists i'. split; [done|]. apply newRAMEntry_info in Er as (doc' & Ed & Ei). rewrite (proj1 (fo_decoded _ _ _ _ _ _ Hfo)) in Ed. injection Ed as <-. by rewrite Hm. }
  2: { eexists _, _, _, _. split; [reflexivity|]. split; [done|]. intros _. exists ver, total, f, i. split; [done|]. split; [apply Si|]. split; [by left|done]. }
  destruct (0 <? HLen doc) eqn:Eh; b2p.
  - assert (slice (r_buf r1) DocHeaderSize (DocHeaderSize + HLen doc) = headMeta (f_buf f)) as -> by (rewrite Hm, Hbuf, slice_slice; unfold DocHeaderSize in *; done || lia).
    replace (_ <=? blen (r_buf r1)) with true; [|symmetry; apply Z.leb_le; rewrite Hbuf, blen_slice; unfold DocHeaderSize in *; lia].
    destruct (HttpInfo.UnmarshalBinary _) as [i|e] eqn:Eu; (eexists _, _, _, _; split; [reflexivity|]; split; [done|]); [|done].
    intros _. exists ver, total, f, i. split; [done|]. split; [apply Si|]. split; [by left|done].
  - eexists _, _, _, _. split; [reflexivity|]. split; [done|]. intros _. exists ver, total, f, NewCacheHTTPInfo. split; [done|]. split; [apply Si|]. split; [right; split; [|done]|done].
    rewrite Hm. replace (HLen doc) with 0 by lia. rewrite Z.add_0_r. apply slice_none.
Qed.
End Chain.

(** ** Interference

    A source whose content other goroutines change between the fetches of a
    reader: the states it takes next, one for each fetch. *)

Section Churn.
Context {St : Type} `{FragmentSource St}.

Definition next (st : St) (states : list St) : St * list St := match states with [] => (st, []) | st :: states => (st, states) end.

#[refine] Definition churning : FragmentSource (St * list St) := {|
  src_fetch x key := '(st, f) ← src_fetch x.1 key; Some (next st x.2, f);
  src_bound x := src_bound x.1;
  src_note x d key := (src_note x.1 d key, x.2);
  src_ok _ := False;
  src_content _ _ := None |}.
Proof. all: done. Defined.
End Churn.

(** ** Stripes *)

Section Stripes.
Context {R : Type} `{RamStore R}.
Implicit Types s : Stripe R.

(** The well-formedness every operation of a stripe keeps: of its directory
    and of its RAM cache, which holds what [Put] was given, and that bytes are
    bytes.  It says nothing of what the records contain. *)
Record sane s : Prop := {
  sn_dir : dm_wf (s_dir s);
  sn_disk : forall f, s_disk s = Some f -> bytes_ok f;
  sn_ram : forall ram, s_ram s = Some ram -> rs_ok ram /\ forall k e, rs_holds ram k = Some e -> exists v, e = newRAMEntry v /\ bytes_ok v }.

(** The changes other goroutines make to what a reader fetches from: those of
    the directory, of the RAM cache and of the file. *)
Inductive storeStep s : Stripe R -> Prop :=
  | ss_dir dm : dm_step (s_dir s) dm -> storeStep s (set_s_dir dm s)
  | ss_put ram ram' k v : s_ram s = Some ram -> bytes_ok v -> rs_put ram k v = Some ram' -> storeStep s (set_s_ram (Some ram') s)
  | ss_delete ram ram' k : s_ram s = Some ram -> rs_delete ram k = Some ram' -> storeStep s (set_s_ram (Some ram') s)
  | ss_write o f p off f' e : s_disk s = Some f -> bytes_ok p -> writeFullAt o f p off = (f', e) -> storeStep s (set_s_disk (Some f') s)
  | ss_truncate f n : s_disk s = Some f -> storeStep s (set_s_disk (Some (take n f)) s)
  | ss_close : storeStep s (set_s_disk None s).

Lemma write_at_bytes f off p : bytes_ok f -> bytes_ok p -> bytes_ok (write_at f off p).
Proof.
  intros Hf Hp. unfold write_at. apply Forall_app. split; [|apply Forall_app; split; [done|by apply Forall_drop]]. apply Forall_resize; [split; lia|done].
Qed.

Lemma sane_step s s' : storeStep s s' -> sane s -> sane s'.
Proof.
  intros St [S1 S2 S3]. destruct St as [dm D|ram ram' k v Er Hv E|ram ram' k Er E|o f p off f' e Ef Hp E|f n Ef|]; split; cbn; try done.
  - by eapply dm_step_wf.
  - intros r [= <-]. destruct (S3 ram Er) as [K Hh]. destruct (rs_put_law ram k v K Hv) as (r2 & E2 & K2 & H2). assert (r2 = ram') as -> by congruence.
    split; [done|]. intros k' e He. destruct (H2 k' e He) as [[_ ->]|[_ He']]; [by exists v|by eapply Hh].
  - intros r [= <-]. destruct (S3 ram Er) as [K Hh]. destruct (rs_delete_law ram k K) as (r2 & E2 & K2 & _ & H2). assert (r2 = ram') as -> by congruence.
    split; [done|]. intros k' e He. by eapply Hh, H2.
  - intros g [= <-]. specialize (S2 f Ef). unfold writeFullAt, WriteAt in E. destruct (off <? 0); [by injection E as <- _|]. injection E as <- _.
    destruct (_ =? 0); [done|]. apply write_at_bytes; [done|by apply Forall_take].
  - intros g [= <-]. by apply Forall_take, S2.
Qed.

(** The stripe holds the record under [k], on its disk or in its RAM cache. *)
Definition heldBy s (k : bytes) (f : fetched) : Prop := exists d, lookupEntry s k = Some (Ok d) /\
  ((loadFromDisk s d = Ok (f_buf f) /\ f_ram f = None) \/
   (exists ram, s_ram s = Some ram /\ rs_holds ram k = Some (newRAMEntry (f_buf f)) /\ f_ram f = Some (newRAMEntry (f_buf f)))).

(** One of the states holds the record for fragment [i]. *)
Definition storedIn (S : list (Stripe R)) (key : bytes) (i : Z) (f : fetched) : Prop := exists s, s ∈ S /\ heldBy s (FragmentKey key i) f.

(** In one of the states a fetch of a fragment fails with [io.EOF]: its entry
    leads past the end of the file, or that error has failed the stripe. *)
Definition endsEarly (S : list (Stripe R)) (key : bytes) : Prop := exists s i, s ∈ S /\ 0 <= i /\
  (lookupEntry s (FragmentKey key i) = Some (Err ErrEOF) \/ exists d, lookupEntry s (FragmentKey key i) = Some (Ok d) /\ loadFromDisk s d = Err ErrEOF).

(** A stripe after some fetches, which change the RAM cache, whose entries they
    may evict, and the evacuation table. *)
Definition fetchedFrom s s' : Prop := exists ram ev, s' = set_s_evac ev (set_s_ram ram s) /\
  match s_ram s, ram with
  | Some r0, Some r => rs_ok r /\ forall k e, rs_holds r k = Some e -> rs_holds r0 k = Some e
  | None, None => True
  | _, _ => False
  end.

Lemma fetchedFrom_refl s : sane s -> fetchedFrom s s.
Proof. intros S. exists (s_ram s), (s_evac s). split; [by destruct s|]. destruct (s_ram s) as [r|] eqn:E; [|done]. by destruct (sn_ram s S r E). Qed.

Lemma lookupEntry_wf s k : dm_wf (s_dir s) -> exists x, lookupEntry s k = Some x.
Proof.
  intros [A HA]. unfold lookupEntry. destruct (s_storageErr s); [by eexists|]. destruct (_ || _); [by eexists|].
  destruct (Get_abs _ _ k HA) as (hit & g & d & -> & _). cbn [mbind option_bind]. destruct hit; cbn [negb]; [|by eexists]. destruct (_ || _); [by eexists|]. destruct (negb _); by eexists.
Qed.

Definition outcomeOf s (k : bytes) (x : result fetched) : Prop :=
  match x with
  | Ok f => bytes_ok (f_buf f) /\ heldBy s k f
  | Err e => lookupEntry s k = Some (Err e) \/ exists d, lookupEntry s k = Some (Ok d) /\ loadFromDisk s d = Err e
  end.

Lemma handleRead_from s s1 k : sane s -> fetchedFrom s s1 -> exists s2 x, handleRead s1 k = Some (s2, x) /\ fetchedFrom s s2 /\ outcomeOf s k x.
Proof.
  intros Sn (ram & ev & -> & Hram). unfold handleRead. change (lookupEntry (set_s_evac ev (set_s_ram ram s)) k) with (lookupEntry s k).
  destruct (lookupEntry_wf s k (sn_dir _ Sn)) as ([d|e] & El); rewrite El; cbn [mbind option_bind]; [|eexists _, _; split; [done|]; split; [by exists ram, ev|by left]].
  assert (forall ram', match s_ram s, ram' with Some r0, Some r => rs_ok r /\ forall k e, rs_holds r k = Some e -> rs_holds r0 k = Some e | None, None => True | _, _ => False end ->
    exists s2 x, match loadFromDisk (set_s_evac ev (set_s_ram ram' s)) d with Err e => Some (set_s_evac ev (set_s_ram ram' s), Err e) | Ok buf => Some (set_s_evac ev (set_s_ram ram' s), Ok (mkFetched d buf None)) end = Some (s2, x) /\ fetchedFrom s s2 /\ outcomeOf s k x) as Hdisk.
  { intros ram' Hr'. change (loadFromDisk (set_s_evac ev (set_s_ram ram' s)) d) with (loadFromDisk s d).
    destruct (loadFromDisk s d) as [v|e] eqn:Ed; (eexists _, _; split; [done|]; split; [by exists ram', ev|]); [|right; by exists d].
    split; [|exists d; split; [done|by left]]. cbn. destruct (s_disk s) as [f|] eqn:Ef; [|unfold loadFromDisk in Ed; by rewrite Ef in Ed].
    exact (loadFromDisk_ok s f d v Ef (sn_disk _ Sn f Ef) Ed). }
  unfold loadFromRamCache. cbn [s_ram set_s_evac set_s_ram]. destruct ram as [r|]; [|exact (Hdisk None Hram)].
  destruct (s_ram s) as [r0|] eqn:Er; [|done]. destruct Hram as [K N]. destruct (rs_get_law r k K) as (G1 & G2 & G3). destruct (rs_get r k) as [e r'] eqn:Eg. cbn in G1, G2, G3.
  assert (rs_ok r' /\ forall k e, rs_holds r' k = Some e -> rs_holds r0 k = Some e) as Hr' by (split; [done|]; intros; by apply N, G3).
  destruct e as [e|]; [|by apply (Hdisk (Some r'))]. eexists _, _. split; [done|]. split; [exists (Some r'), ev; rewrite Er; by split|].
  symmetry in G1. apply N in G1. destruct (sn_ram _ Sn r0 Er) as [_ Hv]. destruct (Hv k e G1) as (v & -> & Hb). cbn [f_buf f_ram]. rewrite newRAMEntry_data. split; [done|].
  exists d. split; [done|]. right. exists r0. cbn [f_buf f_ram]. rewrite ?newRAMEntry_data. by split_and!.
Qed.

Lemma checkEvacuation_from s s1 d k : fetchedFrom s s1 -> fetchedFrom s (checkEvacuation s1 d k).
Proof. intros (ram & ev & -> & Hr). unfold checkEvacuation. destruct (withinHitEvacuateWindow _ _); by eexists _, _. Qed.

(** A stripe that takes the states [S]. *)
Definition among (S : list (Stripe R)) (x : Stripe R * list (Stripe R)) : Prop := (exists s, s ∈ S /\ fetchedFrom s x.1) /\ forall s, s ∈ x.2 -> s ∈ S.

Lemma among_live S key : Forall sane S -> fetchesLive (H := churning) (among S) key (storedIn S key) (endsEarly S key).
Proof.
  intros F. rewrite Forall_forall in F. split; [|split].
  - intros [s1 states] i [(s & Hs & Hf) Hst] Hi. destruct (handleRead_from s s1 (FragmentKey key i) (F s Hs) Hf) as (s2 & x & E & Hf2 & Hx). cbn [src_fetch churning fst stripe_source]. rewrite E. cbn [mbind option_bind].
    eexists _, _. split; [done|]. split.
    + destruct states as [|s3 states]; [split; [by exists s|done]|]. cbn [next] in *. assert (s3 ∈ S) as H3 by (apply Hst; set_solver). split; cbn; [exists s3; split; [done|by apply fetchedFrom_refl, F]|]. intros s4 H4. apply Hst. set_solver.
    + destruct x as [f|e]; [destruct Hx as [Hb Hh]; split; [done|by exists s]|]. intros ->. by exists s, i.
  - intros [s1 states] d k [(s & Hs & Hf) Hst]. split; [|done]. exists s. split; [done|]. by apply checkEvacuation_from.
  - intros i f (s & _ & d & _ & [[_ ?]|(ram & _ & _ & ?)]); by auto.
Qed.
End Stripes.

(** What a client that reads [key] with buffers of the sizes [ns] may see of a
    stripe that takes the states [S]. *)
Definition oneVersion {R : Type} `{RamStore R} (S : list (Stripe R)) (key : bytes) (ns : list Z) (l : list (bytes * option error)) : Prop :=
  exists ver total fs, chain key (storedIn S key) ver total fs /\ transcript (endsEarly S key) (body fs) total 0 ns l /\
    (exists q, 0 <= q <= total /\ q <= blen (body fs) /\ received l = slice (body fs) 0 q) /\
    ((exists p, (p, Some ErrEOF) ∈ l) -> (blen (body fs) = total /\ received l = body fs) \/ endsEarly S key).

(** C3: a reader delivers one version of the object, whatever happens to the
    stripe while it reads.  [s] is the stripe when the reader starts and
    [states] the states it takes, one after each fetch: between the fetches the
    object may be replaced, refreshed, overwritten by the ring, damaged,
    truncated or purged, and the states may hold anything that is well formed.
    For every sequence of buffer sizes every read returns, and either all fail,
    or the reads deliver the payloads, in order, of records which these states
    held under the keys of fragments 0, 1, ... of the object, which passed
    their checksums and carry one version, and whose lengths are those of an
    object of the announced length [total]; each read gives as many bytes as
    its buffer takes, up to the end or to an error that stays.  When the end of
    the stream was reported, the client has all [total] bytes, or else a fetch
    of a fragment itself failed with [io.EOF], which [Read] passes on. *)
Theorem reader_sees_one_version {R : Type} `{RamStore R} (s : Stripe R) states key ns :
  Forall sane (s :: states) -> Forall (Z.le 0) ns ->
  exists st' r' l, reads (H := churning) (s, states) (NewCacheReader key) ns = Some (st', r', l) /\
    (oneVersion (s :: states) key ns l \/ (exists e, l = map (fun _ => ([], Some e)) ns /\ (e = ErrEOF -> endsEarly (s :: states) key))).
Proof.
  intros F Hns. destruct (reads_chain (H := churning) _ key _ _ (among_live (s :: states) key F) (s, states) ns) as (st' & r' & l & E & _ & Ho); [|done|].
  - split; [exists s; split; [by left|by apply fetchedFrom_refl; inversion F]|]. intros s' Hs'. by right.
  - exists st', r', l. split; [exact E|exact Ho].
Qed.

(** When the records of that version under these keys are those one writer
    stored for the body [D], the stream is [D]. *)
Lemma payload_fragmentRecord key ver total i data info : storable ver total data info -> payload (fragmentRecord key ver total i data info) = data.
Proof.
  intros S. unfold payload. destruct (decode_fragmentRecord key ver total i data info S) as [-> _]. pose proof (sb_size _ _ _ _ S). pose proof (blen_nonneg data). pose proof (blen_nonneg info).
  change (HLen _) with (u32 (blen info)). change (Doc.Len _) with (u32 (DocHeaderSize + (blen info + blen data))).
  rewrite !u32_small by (unfold fits, AggBufferSize, DocHeaderSize in *; lia). rewrite <- (Z.add_0_r (DocHeaderSize + blen info)) at 1. rewrite (Z.add_assoc DocHeaderSize), record_slice by (done || lia).
  apply slice_full.
Qed.

Lemma chain_of_writer key held ver total fs D : chain key held ver total fs -> fs <> [] ->
  (forall (i : nat) f, fs !! i = Some f -> exists info, sound ver D info /\ Z.of_nat i < fragCount D /\
     f_buf f = fragmentRecord key ver (fragTotal D (Z.of_nat i)) (Z.of_nat i) (frag D (Z.of_nat i)) (fragInfo info (Z.of_nat i))) ->
  total = blen D /\ body fs = slice D 0 (blen (body fs)).
Proof.
  intros C Hne Hw. assert (total = blen D) as ->.
  { destruct fs as [|f fs]; [done|]. destruct (Hw 0%nat f eq_refl) as (info & So & Hc & Hb). destruct (proj2 C 0%nat f eq_refl) as (_ & _ & [doc [[Hd _] _ _ Ht _]] & _).
    pose proof (sound_storable _ _ _ 0 So ltac:(lia)) as S. cbn [Z.of_nat] in Hb. rewrite Hb, (proj1 (decode_fragmentRecord key ver _ _ _ _ S)) in Hd. injection Hd as <-. rewrite <- (Ht eq_refl).
    change (TotalLen _) with (u64 (blen D)). apply u64_small. pose proof (so_len _ _ _ So). pose proof (blen_nonneg D). unfold fits. lia. }
  split; [done|]. clear Hne. induction fs as [|f fs IH] using rev_ind; [by rewrite slice_none|].
  pose proof (chain_app _ _ _ _ _ _ C) as C0. specialize (IH C0 ltac:(intros i g Hg; by apply Hw, lookup_app_l_Some)).
  pose proof (body_before _ _ _ _ _ _ C) as Hbb. pose proof (blen_nonneg (body fs)).
  destruct (Hw (length fs) f) as (info & So & Hc & Hb); [by apply list_lookup_middle|]. pose proof (sound_storable _ _ _ (Z.of_nat (length fs)) So ltac:(lia)) as S.
  rewrite body_snoc, blen_app, Hb, payload_fragmentRecord by done. rewrite (blen_frag D (Z.of_nat (length fs))) by lia. rewrite IH at 1. unfold frag. rewrite <- Hbb.
  pose proof (fragCount_last D (Z.of_nat (length fs)) ltac:(lia)). pose proof T_pos. rewrite slice_split by (unfold fragEnd; lia). f_equal. lia.
Qed.

(** The object of [WriteRead] is being read when it is purged. *)
Lemma stripe2_sane : sane stripe2.
Proof.
  split; [exact stripe2_dm_wf| |by intros ram [=]]. intros f [= <-]. apply bytes_ok_forallb. vm_compute. reflexivity.
Qed.

Lemma stripe1_sane : sane stripe1.
Proof. split; [exists [[[]; []]]; exact dm8_abs| |by intros ram [=]]. intros f [= <-]. constructor. Qed.

Lemma reader_sees_one_version_witness :
  exists st' r' l, reads (H := churning) (stripe2, [stripe1; stripe1]) (NewCacheReader [107]) [2; 5; 1] = Some (st', r', l) /\
    l = [([1; 2], None); ([3], None); ([], Some ErrEOF)] /\
    (oneVersion [stripe2; stripe1; stripe1] [107] [2; 5; 1] l \/ exists e, l = map (fun _ => ([], Some e)) [2; 5; 1] /\ (e = ErrEOF -> endsEarly [stripe2; stripe1; stripe1] [107])).
Proof.
  destruct (reader_sees_one_version stripe2 [stripe1; stripe1] [107] [2; 5; 1]) as (st' & r' & l & E & Ho).
  - apply Forall_cons. split; [exact stripe2_sane|]. apply Forall_cons. split; [exact stripe1_sane|]. apply Forall_singleton. exact stripe1_sane.
  - repeat constructor; vm_compute; congruence.
  - exists st', r', l. split; [exact E|]. split; [|exact Ho]. clear -E. vm_compute in E. injection E as _ _ <-. reflexivity.
Defined.

(** The case in which the end is reported early does occur: the file of the
    stripe was cut off inside the record. *)
Definition truncated2 : Stripe Ram := set_s_disk (Some (take 1060 (default [] (s_disk stripe2)))) stripe2.

Lemma truncated_ends_early :
  endsEarly [truncated2] [107] /\ exists st r, reads truncated2 (NewCacheReader [107]) [8] = Some (st, r, [([], Some ErrEOF)]).
Proof.
  split; [|eexists _, _; vm_compute; reflexivity].
  exists truncated2, 0. split; [apply list_elem_of_singleton; reflexivity|]. split; [lia|]. right.
  exists (match lookupEntry truncated2 (FragmentKey [107] 0) with Some (Ok d) => d | _ => emptyDir end). split; vm_compute; reflexivity.
Qed.

Module RecordList.

(** A source that keeps its records in a list. *)
#[export, refine] Instance list_source : FragmentSource (list (bytes * bytes)) := {|
  src_fetch st key := Some (st, match List.find (fun kv : bytes * bytes => bool_decide (kv.1 = key)) st with Some kv => Ok (mkFetched emptyDir kv.2 None) | None => Err ErrNotResident end);
  src_bound _ := 2 ^ 40;
  src_note st _ _ := st;
  src_ok _ := True;
  src_content st key := snd <$> List.find (fun kv : bytes * bytes => bool_decide (kv.1 = key)) st |}.
Proof.
  - intros st key v _ Hv. destruct (List.find _ st) as [kv|]; [|done]. injection Hv as <-. exists st, (mkFetched emptyDir kv.2 None). by split_and!; auto.
  - done.
Defined.

(** Single-fragment objects under their keys. *)
Definition stored (key : bytes) (ver : Z) (D info : bytes) : bytes * bytes := (key, fragmentRecord key ver (blen D) 0 D info).

End RecordList.
