(* ===== verification/MetadataRefresh.v ===== *)
(** * Refreshing the metadata of a stored object

    [Cache.UpdateHTTPInfo] of [cache/http_update.go]: after the origin has
    confirmed a stored object, its head fragment is written again with new
    metadata and published in place of the old head, while the tail fragments
    stay where they are.  The call has two critical sections of all stripes,
    before and after the new head is on the disk; between them other
    goroutines run.  The mutex of the reader is held throughout. *)

From S2P Require Import Prelude Hash Dir Doc DirTrie DirManager DirSpec Directory DirReinstall HttpInfo RamCache File AggBuffer AggLog OpenDir Evacuation Stripe Ring CacheWriter WriterSpec FragmentWriter CacheReader ReaderSpec FragmentReader Invalidation WriteRead.

(** The read half of a [CacheVC]; [rv_stripe] is the address of its stripe. *)
Record readVC : Type := mkReadVC {
  rv_reading : bool; rv_closed : bool; rv_key : bytes; rv_stripe : nat; rv_generation : Z; rv_entry : option nat; rv_reader : option CacheReader; rv_info : option CacheHTTPInfo }.

(** A tail fragment as the first critical section found it. *)
Record retained : Type := mkRetained { rt_key : bytes; rt_dir : Dir; rt_allocation : allocation }.

(** The header of the new head: the old one with the new lengths. *)
Definition refreshDoc (doc : Doc) (encoded payload : bytes) : Doc :=
  mkDoc (Magic doc) (u32 (DocHeaderSize + blen encoded + blen payload)) (TotalLen doc) (FirstKey doc) (Key doc) (u32 (blen encoded)) (DocType doc)
    (VMajor doc) (VMinor doc) (Unused doc) (SyncSerial doc) (WriteSerial doc) (Pinned doc) (Checksum doc).

(** The body of the old head in the reader's buffer. *)
Definition refreshPayload (doc : Doc) (buf : bytes) : bytes := drop (Z.to_nat (DocHeaderSize + HLen doc)) buf.

Definition refreshRecord (doc : Doc) (buf encoded : bytes) : bytes :=
  let payload := refreshPayload doc buf in record (refreshDoc doc encoded payload) (encoded ++ payload).

Section Refresh.
Context {R : Type} `{RamStore R}.
Implicit Types s : Stripe R.
Abbreviation Cache := (list (nat * Stripe R)).

(** ** Before the write *)

(** The checks of the arguments: the reader, its header and the encoded
    metadata. *)
Definition refreshable (vc : option readVC) (info : option CacheHTTPInfo) : result (readVC * CacheReader * Doc * CacheHTTPInfo * bytes) :=
  match vc, info with
  | Some vc, Some info =>
      match rv_reader vc with
      | None => Err ErrInvalidated
      | Some r =>
          if negb (rv_reading vc) || rv_closed vc then Err ErrInvalidated
          else
            encoded ← HttpInfo.MarshalBinary info;
            if 64 * 2 ^ 10 <? blen encoded then Err (Errorf "HTTP metadata limit")
            else if r_following r || bool_decide (r_info r = None) || negb (r_fragmentIndex r =? 0) || negb (r_totalRead r =? 0) || negb (r_offset r =? 0) then Err ErrInvalidated
            else let '(r, d) := parseDocFromBuf r in doc ← d; Ok (vc, r, doc, info, encoded)
      end
  | _, _ => Err ErrInvalidated
  end.

(** The loop over [n] tails from index [i]. *)
Fixpoint collectTails (n : nat) (i : Z) s (key : bytes) : option (result (list retained)) :=
  match n with
  | O => Some (Ok [])
  | S n =>
      let fk := FragmentKey key i in
      g ← DirManager.Get (s_dir s) fk;
      let '(hit, _, dir) := g in
      if negb hit || negb (dirValid s dir) then Some (Err ErrInvalidated)
      else
        let aligned := Bool.eqb (phase dir) (s_phase s) in
        if negb aligned && (s_generation s =? 0) then Some (Err ErrInvalidated)
        else
          rest ← collectTails n (i + 1) s key;
          Some (l ← rest; Ok (mkRetained fk dir (mkAlloc (i64 (offset dir)) (if aligned then s_generation s else s_generation s - 1) 0) :: l))
  end.

Definition ownedHead (token : FillToken) (a : nat) (key : bytes) (dir : Dir) : bool :=
  existsb (fun h => Nat.eqb (fh_stripe h) a && bool_decide (fh_key h = key) && fh_present h && bool_decide (fh_dir h = dir) && bool_decide (fh_writer h = None)) (tk_snapshot token).

(** The first critical section, for the stripe at position [n]. *)
Definition refreshBegin (c : Cache) (token : FillToken) (n : nat) (vc : readVC) (r : CacheReader) (doc : Doc) : option (result (list retained)) :=
  x ← checkFillLocked c token;
  match x with
  | Err e => Some (Err e)
  | Ok _ =>
      '(a, s) ← c !! n;
      if negb (ownedHead token a (rv_key vc) (r_dir r)) || negb (rv_generation vc =? Generation (s_open s)) then Some (Err ErrInvalidated)
      else
        g ← DirManager.Get (s_dir s) (rv_key vc);
        let '(hit, _, current) := g in
        if negb hit || negb (bool_decide (current = r_dir r)) || negb (dirValid s current) then Some (Err ErrInvalidated)
        else
          let fragments := u64 (TotalLen doc + TargetFragmentSize - 1) / TargetFragmentSize in
          if u64 (FragmentsNum (s_dir s)) <? fragments then Some (Err ErrInvalidated)
          else collectTails (Z.to_nat (fragments - 1)) 1 s (rv_key vc)
  end.

(** ** After the write *)

Fixpoint tailsLive s (tails : list retained) : option bool :=
  match tails with
  | [] => Some true
  | t :: tails =>
      g ← DirManager.Get (s_dir s) (rt_key t);
      let '(hit, _, dir) := g in
      if negb hit || negb (bool_decide (dir = rt_dir t)) || negb (allocationValid s (rt_allocation t) (approxSize dir)) then Some false else tailsLive s tails
  end.

(** The second critical section: [originalHead] is the entry the reader was
    opened on, [data] the new head and [a] where it was written. *)
Definition refreshPublish (rnd : nat -> nat) (ctxErr : option error) (c : Cache) (token : FillToken) (n : nat) (vc : readVC) (originalHead : Dir)
    (tails : list retained) (data : bytes) (size : Z) (a : allocation) : option (Cache * result Dir) :=
  match ctxErr with
  | Some e => Some (c, Err e)
  | None =>
      x ← checkFillLocked c token;
      match x with
      | Err e => Some (c, Err e)
      | Ok _ =>
          '(addr, s) ← c !! n;
          g ← DirManager.Get (s_dir s) (rv_key vc);
          let '(hit, _, current) := g in
          if negb hit || negb (bool_decide (current = originalHead)) || negb (rv_generation vc =? Generation (s_open s)) then Some (c, Err ErrInvalidated)
          else if negb (allocationValid s a (blen data)) then Some (c, Err ErrInvalidated)
          else
            live ← tailsLive s tails;
            if negb live then Some (c, Err ErrInvalidated)
            else
              s ← publishEntry rnd s (rv_key vc) data size a;
              g ← DirManager.Get (s_dir s) (rv_key vc);
              let '(_, _, d) := g in Some (<[n := (addr, s)]> c, Ok d)
      end
  end.

(** The reader after a success. *)
Definition refreshed (d : Dir) (data : bytes) (info : CacheHTTPInfo) (vc : readVC) (r : CacheReader) : readVC :=
  let r := set_r_doc None (set_r_info (Some info) (set_r_buf data (set_r_dir d r))) in
  mkReadVC (rv_reading vc) (rv_closed vc) (rv_key vc) (rv_stripe vc) (rv_generation vc) (rv_entry vc) (Some r) (Some info).

(** [UpdateHTTPInfo] for the stripe at position [n]; the schedule lists what
    other goroutines do to it, and [others] what they do to the other
    stripes. *)
Definition UpdateHTTPInfo (rnd : nat -> nat) (sch : list (turn R)) (others : Cache -> Cache) (c : Cache) (token : FillToken) (n : nat)
    (source : option readVC) (info : option CacheHTTPInfo) : option (Cache * option readVC * result unit) :=
  match refreshable source info with
  | Err e => Some (c, source, Err e)
  | Ok (vc, r, doc, info, encoded) =>
      let vc := mkReadVC (rv_reading vc) (rv_closed vc) (rv_key vc) (rv_stripe vc) (rv_generation vc) (rv_entry vc) (Some r) (rv_info vc) in
      tails ← refreshBegin c token n vc r doc;
      match tails with
      | Err e => Some (c, Some vc, Err e)
      | Ok tails =>
          let data := refreshRecord doc (r_buf r) encoded in
          let size := Z.quot (blen data + SectorSize - 1) SectorSize * SectorSize in
          '(addr, s) ← c !! n;
          '(sch, s, ctx) ← yield sch s;
          '(sch, s, a) ← addSync sch ctx s data;
          match a with
          | Err e => Some (<[n := (addr, s)]> (others c), Some vc, Err e)
          | Ok a =>
              '(sch, s, ctx) ← yield sch s;
              '(sch, s, f) ← flushSync sch ctx s (a_sequence a);
              match f with
              | Err e => Some (<[n := (addr, s)]> (others c), Some vc, Err e)
              | Ok _ =>
                  '(sch, s, ctx) ← yield sch s;
                  '(c, r') ← refreshPublish rnd ctx (<[n := (addr, s)]> (others c)) token n vc (r_dir r) tails data size a;
                  match r' with
                  | Err e => Some (c, Some vc, Err e)
                  | Ok d => Some (c, Some (refreshed d data info vc r), Ok tt)
                  end
              end
          end
      end
  end.

(** ** Lemmas *)

Lemma refreshDoc_setChecksum d c encoded payload : refreshDoc (setChecksum d c) encoded payload = setChecksum (refreshDoc d encoded payload) c.
Proof. done. Qed.
Lemma seal_setChecksum d c payload : seal (setChecksum d c) payload = seal d payload.
Proof. done. Qed.
Lemma refreshDoc_fragment key ver total data info encoded : refreshDoc (fragmentDoc key ver total 0 data info) encoded data = fragmentDoc key ver total 0 data encoded.
Proof.
  unfold refreshDoc, fragmentDoc. cbn [Magic Len TotalLen FirstKey Key HLen DocType VMajor VMinor Unused SyncSerial WriteSerial Pinned Checksum]. by rewrite Z.add_assoc.
Qed.

(** The new head is the head of the same object with other metadata. *)
Lemma refreshRecord_fragment key ver total data info encoded : storable ver total data info ->
  refreshRecord (storedDoc key ver total 0 data info) (fragmentRecord key ver total 0 data info) encoded = fragmentRecord key ver total 0 data encoded.
Proof.
  intros S. pose proof (fragmentDoc_sealable key ver total 0 data info S) as Hs. pose proof (blen_nonneg data). pose proof (blen_nonneg info). pose proof (sb_size _ _ _ _ S) as Hmax.
  assert (refreshPayload (storedDoc key ver total 0 data info) (fragmentRecord key ver total 0 data info) = data) as Hp.
  { unfold refreshPayload. change (HLen (storedDoc key ver total 0 data info)) with (u32 (blen info)). rewrite u32_small by (unfold fits, DocHeaderSize, AggBufferSize in *; lia).
    unfold fragmentRecord, record. rewrite app_assoc, drop_app_length'; [done|]. rewrite length_app. pose proof (blen_MarshalBinary _ (seal_doc_ok _ _ Hs)) as Hm. unfold blen, DocHeaderSize in *. lia. }
  unfold refreshRecord. rewrite Hp. unfold storedDoc. unfold seal. rewrite refreshDoc_setChecksum. unfold fragmentRecord, record. rewrite seal_setChecksum, refreshDoc_fragment. done.
Qed.

Lemma tailsLive_true s tails : tailsLive s tails = Some true ->
  Forall (fun t => (exists g, DirManager.Get (s_dir s) (rt_key t) = Some (true, g, rt_dir t)) /\ allocationValid s (rt_allocation t) (approxSize (rt_dir t)) = true) tails.
Proof.
  induction tails as [|t tails IH]; cbn [tailsLive]; [by constructor|]. destruct (DirManager.Get (s_dir s) (rt_key t)) as [[[hit g] dir]|] eqn:Eg; [|done]. cbn [mbind option_bind].
  destruct hit; [|done]. destruct (decide (dir = rt_dir t)) as [->|Hne]; [|by rewrite bool_decide_eq_false_2]. rewrite bool_decide_eq_true_2 by done. cbn [negb orb].
  destruct (allocationValid _ _ _) eqn:Ea; [|done]. intros E. constructor; [eauto|by apply IH].
Qed.

Lemma tailsLive_total s A tails : dm_abs (s_dir s) A -> exists b, tailsLive s tails = Some b.
Proof.
  intros HA. induction tails as [|t tails IH]; cbn [tailsLive]; [eauto|]. destruct (Get_abs (s_dir s) A (rt_key t) HA) as (hit & g & d & -> & _). cbn [mbind option_bind].
  destruct (_ || _); [eauto|done].
Qed.

(** What the first section found: one entry for each tail, in order. *)
Lemma collectTails_keys m i s key tails : collectTails m i s key = Some (Ok tails) ->
  map rt_key tails = map (FragmentKey key) (seqZ i (Z.of_nat m)) /\
  Forall (fun t => a_offset (rt_allocation t) = i64 (offset (rt_dir t)) /\
    a_generation (rt_allocation t) = if Bool.eqb (phase (rt_dir t)) (s_phase s) then s_generation s else s_generation s - 1) tails.
Proof.
  revert i tails. induction m as [|m IH]; intros i tails; cbn [collectTails]; [by intros [= <-]|].
  destruct (DirManager.Get (s_dir s) (FragmentKey key i)) as [[[hit g] dir]|]; [|done]. cbn [mbind option_bind]. destruct (_ || _); [done|]. destruct (_ && _); [done|].
  destruct (collectTails m (i + 1) s key) as [[l|e]|] eqn:E; cbn; [|done|done]. intros [= <-]. destruct (IH _ _ E) as [H1 H2]. rewrite seqZ_cons by lia. cbn [map rt_key].
  replace (Z.pred (Z.of_nat (S m))) with (Z.of_nat m) by lia. change (Z.succ i) with (i + 1). split; [by rewrite <- H1|]. constructor; [done|exact H2].
Qed.

Lemma refreshBegin_Ok c token n vc r doc tails a s : c !! n = Some (a, s) -> refreshBegin c token n vc r doc = Some (Ok tails) ->
  checkFillLocked c token = Some (Ok tt) /\ collectTails (Z.to_nat (u64 (TotalLen doc + TargetFragmentSize - 1) / TargetFragmentSize - 1)) 1 s (rv_key vc) = Some (Ok tails).
Proof.
  intros Hn. unfold refreshBegin. destruct (checkFillLocked c token) as [[[]|]|]; [|done|done]. cbn [mbind option_bind]. rewrite Hn. cbn [mbind option_bind].
  destruct (_ || _); [done|]. destruct (DirManager.Get _ _) as [[[hit g] d]|]; [|done]. cbn [mbind option_bind]. destruct (_ || _); [done|]. destruct (_ <? _); done.
Qed.

(** A fill that is still valid fixes the wrap count of every stripe. *)
Lemma checkFill_generations (c : Cache) token : checkFillLocked c token = Some (Ok tt) -> map (fun p => s_generation p.2) (c : Cache) = tk_wraps token.
Proof.
  unfold checkFillLocked. destruct (checkFillEpochsLocked c token) as [[]|] eqn:E; [|done].
  assert (length (tk_wraps token) = length c) as Hl.
  { destruct token as [p1 p2 p3 p4 p5 p6 p7 p8 p9 p10 p11 wraps p13 p14]. cbn in E. destruct (_ || _) eqn:Eb in E; [done|]. b2p. cbn. by apply Nat.eqb_eq. }
  destruct (forallb _ _) eqn:Ef; [|done]. intros _. clear E. revert Ef Hl. generalize (tk_wraps token). induction c as [|[a s] c IH]; intros [|w ws] Ef Hl; try done.
  cbn in *. apply andb_true_iff in Ef as [E1 E2]. b2p. f_equal; [done|]. apply IH; [done|lia].
Qed.

(** Looking a selector up in well-formed directories does not panic. *)
Lemma headsOf_total a s A keys : dm_abs (s_dir s) A -> exists l, headsOf a s keys = Some l.
Proof.
  intros HA. induction keys as [|k keys [l IH]]; cbn [headsOf]; [eauto|]. destruct (Get_abs (s_dir s) A k HA) as (hit & g & d & -> & _). cbn [mbind option_bind]. rewrite IH. cbn. eauto.
Qed.
Lemma checkFillLocked_total (c : Cache) token : Forall (fun p => dm_wf (s_dir p.2)) (c : Cache) -> exists x, checkFillLocked c token = Some x.
Proof.
  intros F. unfold checkFillLocked. destruct (checkFillEpochsLocked c token) as [[]|]; [|eauto]. destruct (forallb _ _); [|cbn; eauto]. cbn [negb].
  assert (forall heads, exists x, snapshotLoop (fun dt limit => KeysForSelectorLimit dt (tk_selector token) limit) c heads = Some x) as G.
  { induction F as [|[a s] c' [A HA] F IH]; intros heads; cbn [snapshotLoop]; [eauto|]. destruct (KeysForSelectorLimit _ _ _) as [keys|]; [|eauto].
    destruct (headsOf_total a s A keys HA) as [l ->]. cbn. apply IH. }
  destruct (G []) as [x Hx]. unfold fillSnapshotLocked. rewrite Hx. cbn. destruct x; eauto.
Qed.

(** Setting a key that is present displaces nothing. *)
Lemma Set_in_place rnd dm A key g d off size ph : dm_abs dm A -> DirManager.Get dm key = Some (true, g, d) -> 0 < off < 2 ^ 40 -> 0 < size <= DirMaxDataSize ->
  fitsBucket dm A key /\ exists dm' g', DirManager.Set_ rnd dm key off size ph = Some (dm', g') /\
    forall k, hashPosition dm k <> hashPosition dm key -> found dm' k = found dm k.
Proof.
  intros HA Hg Ho Hs. destruct (Get_hit dm A key g d HA Hg) as (_ & Ht & _). assert (fitsBucket dm A key) as Hfit by (by left). split; [done|].
  destruct (Set_exact rnd dm A key off size ph HA Ho Hs Hfit (or_intror (or_intror Ht))) as (dm' & g' & e & E & Ee & HA' & Hsegs). exists dm', g'. split; [done|]. intros k Hk.
  rewrite (found_abs _ _ _ HA'), (found_abs _ _ _ HA). rewrite Hsegs, hashPosition_setSegs, !alookup_bucketOf, bucketOf_putAt by (left; intros En; rewrite En in Ht; done).
  case_decide as Hd; [|done]. destruct Hd as [H1 H2]. destruct (hashPosition dm key) as [[t seg] b] eqn:Ep, (hashPosition dm k) as [[t' seg'] b']. cbn [fst snd] in *. subst seg' b'.
  destruct (hashPosition_bound dm A key t seg b HA Ep) as (Htb & _). destruct (newEntry_spec t off size ph Htb Ho Hs) as (e' & Ee' & _ & _ & Hte & _). rewrite Ee in Ee'. injection Ee' as <-.
  rewrite find_put_other; [by unfold bucketOf|]. change (t' <> tag e). rewrite Hte. congruence.
Qed.

Lemma epochsLoop_open (c : Cache) stripes generations policies selector n a s :
  length stripes = length c -> length generations = length c -> length policies = length c ->
  epochsLoop c stripes generations policies selector = Ok tt -> c !! n = Some (a, s) -> s_closing s = false.
Proof.
  revert stripes generations policies n. induction c as [|[a0 s0] c IH]; intros [|x xs] [|g gs] [|p ps] n H1 H2 H3 E Hn; try done.
  cbn in E. destruct (s_closing s0) eqn:Ec; [done|]. destruct (_ || _); [done|]. destruct n as [|n]; [injection Hn as <- <-; done|]. cbn in *. eapply (IH xs gs ps n); eauto; lia.
Qed.

Lemma checkFill_open (c : Cache) token n a s : checkFillLocked c token = Some (Ok tt) -> c !! n = Some (a, s) -> s_closing s = false.
Proof.
  unfold checkFillLocked. destruct (checkFillEpochsLocked c token) as [[]|] eqn:E; [|done]. intros _.
  destruct token as [parent p2 p3 p4 p5 sel p7 stripes gens p10 p11 wraps policies p14]. cbn in E. destruct (_ || _) eqn:Eb in E; [done|]. b2p.
  repeat match goal with H : Nat.eqb _ _ = true |- _ => apply Nat.eqb_eq in H end.
  destruct (match parent with Some p => checkFillEpochsLocked c p | None => Ok tt end); [|done]. intros Hn. by eapply (epochsLoop_open c stripes gens policies).
Qed.

(** The number of tails the first section looks for. *)
Lemma fragments_count D : blen D < 2 ^ 63 -> Z.max 1 (u64 (u64 (blen D) + TargetFragmentSize - 1) / TargetFragmentSize) = fragCount D.
Proof.
  intros HD. pose proof (blen_nonneg D). rewrite (u64_small (blen D)) by (unfold fits; lia). rewrite u64_small by (unfold fits, TargetFragmentSize; lia). done.
Qed.

(** The publication of a new head in place of the old one. *)
Lemma head_replaced f0 wo (i : nat) rnd A key fd doc sz a g0 d0 :
  wreach f0 wo -> let s := w_s wo in
  s_closing s = false -> allocationValid s a (blen fd) = true -> dm_abs (s_dir s) A -> DirManager.Get (s_dir s) key = Some (true, g0, d0) ->
  (forall ram, s_ram s = Some ram -> rs_ok ram) -> s_skip s + s_len s < 2 ^ 40 ->
  w_log wo !! i = Some (mkRec (a_offset a) (a_generation a) fd) -> Z.of_nat i < completed (s_agg s) ->
  bytes_ok fd -> Doc.UnmarshalBinary (slice fd 0 DocHeaderSize) = Ok doc -> Doc.Len doc = blen fd -> DocHeaderSize <= blen fd <= AggBufferSize -> blen fd <= sz <= DirMaxDataSize ->
  exists s' g d, publishEntry rnd s key fd sz a = Some s' /\ sameRing s s' /\ DirManager.Get (s_dir s') key = Some (true, g, d) /\
    (s_storageErr s = None -> fetches s' key fd d) /\
    forall k, hashPosition (s_dir s) k <> hashPosition (s_dir s) key -> found (s_dir s') k = found (s_dir s) k.
Proof.
  intros Rw s Hc Hv HA Hg Hram Hcap Hlog Hdone Hbytes Dec Hlen Hmax Hsz. pose proof (wreach_inv _ _ Rw) as I. pose proof (ri_bounds _ _ I) as Hb. destruct (ri_conf _ _ I) as [C1 C2]. fold s in Hb, C1, C2.
  destruct (ai_log _ _ _ (ri_agg _ _ I)) as [L1 _ _ _]. cbn [proj agg log] in L1. fold s in L1.
  destruct (L1 _ (list_elem_of_lookup_2 _ _ _ Hlog)) as (B1 & B2 & _). unfold l_end in B2. cbn [l_off l_data] in B1, B2. rewrite C1 in B1. rewrite C2 in B2. pose proof (blen_nonneg fd).
  destruct (Set_in_place rnd (s_dir s) A key g0 d0 (a_offset a) sz (odd (a_generation a)) HA Hg ltac:(lia) ltac:(unfold DocHeaderSize in *; lia)) as (Hfit & dm' & g' & Es & Hoth).
  assert (exists s', publishEntry rnd s key fd sz a = Some s' /\ s_dir s' = dm') as (s' & Ep & Ed).
  { unfold publishEntry. rewrite (u64_small (a_offset a)) by (unfold fits; lia). rewrite Es. cbn [mbind option_bind fst]. change (s_ram (set_s_dir dm' s)) with (s_ram s).
    destruct (s_ram s) as [ram|] eqn:Er; [|by eexists]. destruct (rs_put_law ram key fd (Hram ram eq_refl) Hbytes) as (ram' & -> & _). cbn [mbind option_bind]. by eexists. }
  destruct (publishEntry_spec rnd s A key fd sz a s' HA Hfit ltac:(lia) ltac:(unfold DocHeaderSize in *; lia) Hram Hbytes Ep) as (SR & _ & (g & d & Eg & _) & _).
  exists s', g, d. split_and!; [done|done|done| |by rewrite Ed]. intros Hs.
  destruct (entry_fetched f0 wo i rnd A key fd doc sz a s' s' Rw Hs Hc Hv HA Hfit Hram Hcap Hlog Hdone Hbytes Dec Hlen Hmax Hsz Ep (or_introl eq_refl)) as (_ & g2 & d2 & Eg2 & Hf).
  rewrite Eg in Eg2. by injection Eg2 as <- <-.
Qed.

(** A failed refresh leaves the reader as it was, up to its parsed header. *)
Definition sameReader (source source' : option readVC) : Prop :=
  source' = source \/ exists vc vc' r r', source = Some vc /\ source' = Some vc' /\ rv_reader vc = Some r /\ rv_reader vc' = Some r' /\
    vc' = mkReadVC (rv_reading vc) (rv_closed vc) (rv_key vc) (rv_stripe vc) (rv_generation vc) (rv_entry vc) (Some r') (rv_info vc) /\ r' = set_r_doc (r_doc r') r.

Lemma parseDocFromBuf_doc r r' d : parseDocFromBuf r = (r', d) -> r' = set_r_doc (r_doc r') r.
Proof.
  unfold parseDocFromBuf. intros E. destruct (r_doc r) as [x|] eqn:Ex; [injection E as <- <-; rewrite Ex; destruct r; cbn in *; by rewrite <- Ex|].
  assert (r = set_r_doc (r_doc r) r) as Hr by (by destruct r). destruct (_ <? _); [by injection E as <- <-|]. destruct (Doc.UnmarshalBinary _); injection E as <- <-; done.
Qed.

Lemma UpdateHTTPInfo_Err rnd sch others (c : Cache) token n source info c' source' e :
  UpdateHTTPInfo rnd sch others c token n source info = Some (c', source', Err e) -> sameReader source source'.
Proof.
  unfold UpdateHTTPInfo. destruct (refreshable source info) as [[[[[vc r] doc] inf] encoded]|e0] eqn:Er; [|intros [= <- <- <-]; by left].
  assert (forall (c1 : Cache) (x : result unit), Some (c1, Some (mkReadVC (rv_reading vc) (rv_closed vc) (rv_key vc) (rv_stripe vc) (rv_generation vc) (rv_entry vc) (Some r) (rv_info vc)), x) = Some (c', source', Err e) -> sameReader source source') as K.
  { intros c1 x [= _ <- _]. right. unfold refreshable in Er. destruct source as [vc0|], info as [i0|]; try done. destruct (rv_reader vc0) as [r0|] eqn:E0; [|done].
    destruct (_ || _) in Er; [done|]. apply result_bind_Ok in Er as (enc & _ & Er). destruct (_ <? _) in Er; [done|]. destruct (_ || _) in Er; [done|].
    destruct (parseDocFromBuf r0) as [r1 d1] eqn:Ep. apply result_bind_Ok in Er as (doc1 & _ & Er). injection Er as <- <- <- <- <-. apply parseDocFromBuf_doc in Ep.
    eexists _, _, _, _. split_and!; [done|done|exact E0|done|done|exact Ep]. }
  intros E. destruct (refreshBegin _ _ _ _ _ _) as [[tails|e1]|]; [|by apply (K _ _ E)|done]. cbn [mbind option_bind] in E.
  destruct (c !! n) as [[addr s]|]; [|done]. cbn [mbind option_bind] in E. destruct (yield sch s) as [[[sch1 s1] ctx]|]; [|done]. cbn [mbind option_bind] in E.
  destruct (addSync _ _ _ _) as [[[sch2 s2] [a|e2]]|]; [|by apply (K _ _ E)|done]. cbn [mbind option_bind] in E.
  destruct (yield sch2 s2) as [[[sch3 s3] ctx3]|]; [|done]. cbn [mbind option_bind] in E. destruct (flushSync _ _ _ _) as [[[sch4 s4] [u|e4]]|]; [|by apply (K _ _ E)|done]. cbn [mbind option_bind] in E.
  destruct (yield sch4 s4) as [[[sch5 s5] ctx5]|]; [|done]. cbn [mbind option_bind] in E. destruct (refreshPublish _ _ _ _ _ _ _ _ _ _ _) as [[c5 [d|e5]]|]; cbn in E; [done|by apply (K _ _ E)|done].
Qed.

(** C12: a refresh of metadata replaces exactly the head of the object.  When
    the second critical section runs in a reachable state of the ring, on a
    reader that holds the head of an object, it does not panic; a refusal
    changes nothing; and a success publishes the head of the same object,
    version and body with the new metadata: a fetch returns exactly that
    record or reports it as not resident, no other entry of the directory is
    displaced, and every tail of the object is still published and intact, in
    the wrap of the ring in which it was found. *)
Theorem metadata_refresh_exact f0 wo (i : nat) rnd ctx c0 c token n addr0 s0 addr vc r ver D info0 encoded tails A a :
  wreach f0 wo -> let s := w_s wo in let key := rv_key vc in
  let data := refreshRecord (storedDoc key ver (blen D) 0 (frag D 0) info0) (r_buf r) encoded in
  let head := fragmentRecord key ver (blen D) 0 (frag D 0) encoded in
  loaded key ver D info0 0 r -> storable ver (blen D) (frag D 0) info0 -> storable ver (blen D) (frag D 0) encoded -> blen D < 2 ^ 63 ->
  c0 !! n = Some (addr0, s0) -> refreshBegin c0 token n vc r (storedDoc key ver (blen D) 0 (frag D 0) info0) = Some (Ok tails) ->
  c !! n = Some (addr, s) -> Forall (fun p => dm_wf (s_dir p.2)) (c : Cache) -> dm_abs (s_dir s) A -> (forall ram, s_ram s = Some ram -> rs_ok ram) -> s_skip s + s_len s < 2 ^ 40 ->
  w_log wo !! i = Some (mkRec (a_offset a) (a_generation a) data) -> Z.of_nat i < completed (s_agg s) ->
  exists c' res, refreshPublish rnd ctx c token n vc (r_dir r) tails data (Z.quot (blen data + SectorSize - 1) SectorSize * SectorSize) a = Some (c', res) /\
  match res with
  | Err _ => c' = c
  | Ok d => exists s' g, c' = <[n := (addr, s')]> c /\ sameRing s s' /\ DirManager.Get (s_dir s') key = Some (true, g, d) /\
      (s_storageErr s = None -> fetches s' key head d) /\
      (forall k, hashPosition (s_dir s) k <> hashPosition (s_dir s) key -> found (s_dir s') k = found (s_dir s) k) /\
      s_generation s = s_generation s0 /\ map rt_key tails = map (FragmentKey key) (seqZ 1 (fragCount D - 1)) /\
      Forall (fun t => found (s_dir s) (rt_key t) = Some (DirOps.payload (rt_dir t)) /\ allocationValid s' (rt_allocation t) (approxSize (rt_dir t)) = true) tails
  end.
Proof.
  intros Rw s key data head L S0 S1 HD Hn0 Hbegin Hn Hwf HA Hram Hcap Hlog Hdone.
  assert (data = head) as Hdata by (unfold data; rewrite (ld_buf _ _ _ _ _ _ L); by apply refreshRecord_fragment). rewrite Hdata in *. clear data Hdata.
  destruct (refreshBegin_Ok _ _ _ _ _ _ _ _ _ Hn0 Hbegin) as (Hc0 & Htails). fold key in Htails. apply collectTails_keys in Htails as [Hkeys _].
  destruct (fragmentRecord_header key ver (blen D) 0 (frag D 0) encoded S1) as (doc & Dec & Hlen & Hmax & Hsz). fold head in Dec, Hlen, Hmax, Hsz.
  assert (Z.quot (blen head + SectorSize - 1) SectorSize * SectorSize = approxRecordSize (frag D 0) encoded) as -> by (unfold head; by rewrite blen_fragmentRecord).
  unfold refreshPublish. destruct ctx as [e|]; [by eexists _, _|]. destruct (checkFillLocked_total c token Hwf) as [[[]|e] Hck]; rewrite Hck; cbn [mbind option_bind]; [|by eexists _, _].
  rewrite Hn. cbn [mbind option_bind]. fold s key. destruct (Get_abs (s_dir s) A key HA) as (hit & g & d & Eg & _). rewrite Eg. cbn [mbind option_bind].
  destruct hit; [|by eexists _, _]. cbn [negb orb]. destruct (_ || _); [by eexists _, _|]. destruct (allocationValid s a (blen head)) eqn:Ev; [|by eexists _, _]. cbn [negb].
  destruct (tailsLive_total s A tails HA) as [[] Hlive]; rewrite Hlive; cbn [mbind option_bind negb]; [|by eexists _, _]. apply tailsLive_true in Hlive.
  pose proof (checkFill_open _ _ _ _ _ Hck Hn) as Hcl.
  destruct (head_replaced f0 wo i rnd A key head doc (approxRecordSize (frag D 0) encoded) a g d Rw Hcl Ev HA Eg Hram Hcap Hlog Hdone (fragmentRecord_bytes _ _ _ _ _ _ S1) Dec Hlen Hmax Hsz)
    as (s' & g' & d' & Ep & SR & Eg' & Hf & Hoth). fold s in Ep. rewrite Ep. cbn [mbind option_bind]. rewrite Eg'. cbn [mbind option_bind]. eexists _, (Ok d'). split; [done|].
  exists s', g'. split_and!; try done.
  - apply checkFill_generations in Hck, Hc0. assert (map (fun p => s_generation p.2) c !! n = map (fun p => s_generation p.2) c0 !! n) as Hm by congruence.
    rewrite !list_lookup_fmap, Hn, Hn0 in Hm. by injection Hm.
  - rewrite Hkeys. f_equal. f_equal. change (TotalLen _) with (u64 (blen D)). pose proof (fragments_count D HD). lia.
  - eapply Forall_impl; [exact Hlive|]. intros t [[g1 Hg1] Ha]. split; [unfold found; by rewrite Hg1|]. rewrite <- Ha.
    destruct SR as (_ & _ & Q3 & Q4 & Q5 & Q6 & _ & Q8 & Q9 & Q10 & Q11 & _). unfold allocationValid, stripeEnd. by rewrite Q3, Q4, Q5, Q6, Q8, Q9, Q10, Q11.
Qed.
End Refresh.

(** ** An example

    The object of [WriteRead] is refreshed with another status. *)

Definition refreshWorld : world (R := Ram) := Eval vm_compute in mkWorld stripe3 Idle false (w_log world8).
Definition refreshReader : CacheReader := Eval vm_compute in match LoadHTTPInfo stripe3 (NewCacheReader [107]) None with Some (_, r, _, _) => r | None => NewCacheReader [107] end.
Definition refreshVC : readVC := Eval vm_compute in mkReadVC true false [107] 0 (Generation (s_open stripe3)) None (Some refreshReader) (r_info refreshReader).
Definition refreshToken : FillToken := Eval vm_compute in
  match BeginFill [(0%nat, stripe3)] [107] [107] with Some (Ok t) => t | _ => mkToken None [] 0 0 [] [] 0 [] [] [] [] [] [] 0 end.

Definition infoBytes2 : bytes := Eval vm_compute in match HttpInfo.MarshalBinary (mkInfo 0 0 [] [] 200 ∅) with Ok b => b | Err _ => [] end.
Definition refreshData : bytes := Eval vm_compute in refreshRecord (storedDoc [107] version1 3 0 [1; 2; 3] infoBytes1) (r_buf refreshReader) infoBytes2.
Definition world9 : world (R := Ram) := Eval vm_compute in match addFlush refreshWorld refreshData ≫= finish with Some w => w | None => refreshWorld end.
Definition alloc2 : allocation := Eval vm_compute in match w_log world9 !! 1%nat with Some l => mkAlloc (l_off l) (l_gen l) 2 | None => mkAlloc 0 0 0 end.

Lemma refreshWorld_reach : wreach [] refreshWorld.
Proof. apply (wr_step _ world8); [exact world8_reach|]. apply (ws_other world8 stripe3). repeat split. Qed.
Lemma world9_reach : wreach [] world9.
Proof.
  apply (wreach_steps [] refreshWorld); [exact refreshWorld_reach|]. apply (addFlush_finish_steps _ refreshData). vm_compute. reflexivity.
Qed.

Lemma world9_abs : exists A, dm_abs (s_dir (w_s world9)) A.
Proof.
  destruct (Set_abs noDraw dm8 [[[]; []]] [107] 1024 512 false dm8_abs ltac:(lia) ltac:(unfold DirMaxDataSize; lia) (dm8_fits _)) as (dm' & g & A' & d & E & HA & _).
  vm_compute in E. injection E as <- <-. exists A'. exact HA.
Qed.

Lemma refreshReader_loaded : loaded [107] version1 [1; 2; 3] infoBytes1 0 refreshReader.
Proof. split; try (vm_compute; reflexivity); try (split; vm_compute; reflexivity); [split; vm_compute; [reflexivity|split; congruence]|by left]. Qed.

Lemma small_storable info : bytes_ok info -> blen info <= 100 -> storable version1 3 [1; 2; 3] info.
Proof. intros Hi Hl. split; [split; [repeat constructor; vm_compute; congruence|done]|vm_compute; congruence|unfold DocHeaderSize, AggBufferSize; change (blen [1; 2; 3]) with 3; lia|vm_compute; split; congruence|vm_compute; split; congruence]. Qed.

Lemma metadata_refresh_exact_witness :
  exists c' res, refreshPublish noDraw None [(0%nat, w_s world9)] refreshToken 0 refreshVC (r_dir refreshReader) [] refreshData 512 alloc2 = Some (c', res) /\ is_ok res = true /\ c' <> [(0%nat, w_s world9)].
Proof.
  destruct world9_abs as [A HA].
  destruct (metadata_refresh_exact [] world9 1 noDraw None [(0%nat, stripe3)] [(0%nat, w_s world9)] refreshToken 0 0%nat stripe3 0%nat refreshVC refreshReader version1 [1; 2; 3] infoBytes1 infoBytes2 [] A alloc2)
    as (c' & res & E & Hres).
  - exact world9_reach.
  - exact refreshReader_loaded.
  - apply small_storable; [repeat constructor; vm_compute; congruence|vm_compute; congruence].
  - apply small_storable; [repeat constructor; vm_compute; congruence|vm_compute; congruence].
  - vm_compute. reflexivity.
  - reflexivity.
  - vm_compute. reflexivity.
  - reflexivity.
  - constructor; [by exists A|constructor].
  - exact HA.
  - intros ram X. discriminate X.
  - vm_compute. reflexivity.
  - vm_compute. reflexivity.
  - vm_compute. reflexivity.
  - exists c', res. assert (is_ok res = true /\ c' <> [(0%nat, w_s world9)]) as Hok by (clear Hres; vm_compute in E; injection E as <- <-; vm_compute; split; [reflexivity|discriminate]).
    split; [|exact Hok]. rewrite <- E. vm_compute. reflexivity.
Defined.
