(* ===== verification/ReadConnection.v ===== *)
(** * Read connections

    The read side of [CacheVC] in [cache/cache_vc.go] with [OpenRead] and
    [OpenReadCommitted] of [cache/cache.go]: a connection captures the
    invalidation generation of its stripe and a reference to the active writer
    of its key, checks the generation before every read, and gives the
    reference back once. *)

From S2P Require Import Prelude Hash Dir Doc DirTrie DirManager HttpInfo RamCache File AggBuffer OpenDir Evacuation Stripe CacheWriter WriterSpec FragmentWriter CacheReader ReaderSpec FragmentReader Invalidation InvalidationSpec WriteRead MetadataRefresh.

(** The generation of invalidations a connection compares: that of its stripe. *)
Class Generational (St : Type) : Type := generation : St -> Z.
#[export] Instance stripe_generational {R : Type} : Generational (Stripe R) := fun s => Generation (s_open s).

Definition setReader (r : CacheReader) (info : option CacheHTTPInfo) (vc : readVC) : readVC :=
  mkReadVC (rv_reading vc) (rv_closed vc) (rv_key vc) (rv_stripe vc) (rv_generation vc) (rv_entry vc) (Some r) info.

(** [IsRWW] *)
Definition IsRWW (vc : readVC) : bool := rv_reading vc && match rv_reader vc with Some r => r_following r | None => false end.

(** ** Reading from any source with a generation *)

Section Reading.
Context {St : Type} `{FragmentSource St} `{Generational St}.

(** [Read] of a connection that follows no writer. *)
Definition vcRead (st : St) (vc : readVC) (n : Z) : option (St * readVC * bytes * option error) :=
  if negb (rv_reading vc) || rv_closed vc then Some (st, vc, [], Some (Errorf "read operation not active or closed"))
  else if negb (rv_generation vc =? generation st) then Some (st, vc, [], Some ErrInvalidated)
  else r ← rv_reader vc; '(st, r, p, e) ← Read st r n; Some (st, setReader r (rv_info vc) vc, p, e).

Definition vcLoadHTTPInfo (st : St) (vc : readVC) : option (St * readVC * option CacheHTTPInfo * option error) :=
  if negb (rv_generation vc =? generation st) then Some (st, vc, None, Some ErrInvalidated)
  else if negb (rv_reading vc) then Some (st, vc, None, Some (Errorf "no active operation"))
  else
    r ← rv_reader vc;
    '(st, r, i, e) ← LoadHTTPInfo st r None;
    Some (st, setReader r (match e with None => i | Some _ => rv_info vc end) vc, i, e).

(** A sequence of reads. *)
Fixpoint vcReads (st : St) (vc : readVC) (ns : list Z) : option (St * readVC * list (bytes * option error)) :=
  match ns with
  | [] => Some (st, vc, [])
  | n :: ns => '(st, vc, p, e) ← vcRead st vc n; '(st, vc, l) ← vcReads st vc ns; Some (st, vc, (p, e) :: l)
  end.
End Reading.

Section ReadConnection.
Context {R : Type} `{RamStore R}.
Implicit Types s : Stripe R.
Abbreviation Cache := (list (nat * Stripe R)).

(** [NewCacheVCRead] on the stripe at address [a]; [writers] are the writers
    by their addresses. *)
Definition NewCacheVCRead (writers : nat -> CacheWriter) (a : nat) s (key : bytes) : Stripe R * result readVC :=
  if s_closing s then (s, Err ErrCacheClosed)
  else
    let '(od, entry) := Acquire (s_open s) key in
    let r := match entry ≫= (fun e => od_heap od !! e) with Some e => NewCacheReaderFromWriter key (writers (e_writer e)) | None => NewCacheReader key end in
    (set_s_open od s, Ok (mkReadVC true false key a (Generation (s_open s)) entry (Some r) None)).

Definition OpenRead (writers : nat -> CacheWriter) (c : Cache) (key : bytes) : option (Cache * result readVC) :=
  match KeyToStripe c key with
  | None => Some (c, Err (Errorf "no stripe found"))
  | Some i => '(a, s) ← c !! i; let '(s, r) := NewCacheVCRead writers a s key in Some (<[i := (a, s)]> c, r)
  end.

(** [OpenReadCommitted] with the connection it returns. *)
Definition openCommitted (c : Cache) (key : bytes) : option (result readVC) :=
  match KeyToStripe c key with
  | None => Some (Err (Errorf "no stripe found"))
  | Some i =>
      '(a, s) ← c !! i;
      g ← OpenReadCommitted c key;
      Some (g ← g; Ok (mkReadVC true false key a g None (Some (NewCacheReader key)) None))
  end.

(** What ends the wait of [WaitForHeaders]. *)
Inductive wake : Type := Signalled | ReaderClosed | TimedOut.

(** [WaitForHeaders]; a wake-up by the entry's signal needs the signal
    ([None] otherwise), and [w] is the writer of the entry. *)
Definition WaitForHeaders (k : wake) (w : CacheWriter) s (vc : readVC) : option (readVC * result unit) :=
  if negb (IsRWW vc) then Some (vc, Ok tt)
  else match k with
  | ReaderClosed => Some (vc, Err (Errorf "reader closed"))
  | TimedOut => Some (vc, Err (Errorf "timeout waiting for headers"))
  | Signalled =>
      e ← rv_entry vc ≫= (fun e => od_heap (s_open s) !! e);
      r ← rv_reader vc;
      if negb (e_ready e) then None
      else match e_error e, w_err w, w_info w with
      | Some err, _, _ => Some (vc, Err err)
      | None, Some err, _ => Some (vc, Err err)
      | None, None, None => Some (vc, Err (Errorf "writer finished without headers"))
      | None, None, Some i => Some (setReader (set_r_info (Some i) r) (Some i) vc, Ok tt)
      end
  end.

(** [Close], and [Abort], of a read connection. *)
Definition vcCloseRead s (vc : readVC) : Stripe R * readVC :=
  if rv_closed vc then (s, vc)
  else (set_s_open (Release (s_open s) (rv_key vc) (rv_entry vc)) s,
        mkReadVC (rv_reading vc) true (rv_key vc) (rv_stripe vc) (rv_generation vc) (rv_entry vc) (rv_reader vc) (rv_info vc)).

(** [CacheVC.Remove]: the removal of a key of one stripe. *)
Definition vcRemove (removing closed : bool) (a : nat) s (key : bytes) : option (Stripe R * option error * option nat) :=
  if negb removing || closed then Some (s, Some (Errorf "remove operation not active or closed"), None)
  else '(c, e, w) ← Invalidation.Remove [(a, s)] key; '(_, s) ← c !! 0%nat; Some (s, e, w).

(** ** Reading leaves the open directory alone *)

Lemma handleRead_open s key s' x : handleRead s key = Some (s', x) -> s_open s' = s_open s.
Proof.
  unfold handleRead. destruct (lookupEntry s key) as [[d|e]|]; cbn; [|by intros [= <- _]|done]. unfold loadFromRamCache. destruct (s_ram s) as [ram|].
  - destruct (rs_get ram key) as [[e|] ram']; [by intros [= <- _]|]. destruct (loadFromDisk _ d); by intros [= <- _].
  - destruct (loadFromDisk s d); by intros [= <- _].
Qed.

Lemma loadFragment_open s r idx s' r' x : loadFragment s r idx = Some (s', r', x) -> s_open s' = s_open s.
Proof.
  unfold loadFragment. cbn [src_fetch stripe_source]. intros E. destruct (handleRead s _) as [[s1 [f|e]]|] eqn:Eh; cbn [mbind option_bind] in E; [|injection E as <- _ _; by eapply handleRead_open|done].
  apply handleRead_open in Eh. destruct (parseDoc _ _) as [r1 [u|e]]; injection E as <- _ _; [|done]. cbn. unfold checkEvacuation. by destruct (withinHitEvacuateWindow _ _).
Qed.

Lemma readLoop_open fuel s r n got s' r' p e : readLoop fuel s r n got = Some (s', r', p, e) -> s_open s' = s_open s.
Proof.
  revert s r n got. induction fuel as [|fuel IH]; intros s r n got E; cbn [readLoop] in E; [done|]. destruct (n <=? 0); [by injection E as <- _ _ _|].
  assert (forall s0 r0, s_open s0 = s_open s -> (if bool_decide (got = []) then Some (s0, r0, [], Some ErrEOF) else Some (s0, r0, got, None)) = Some (s', r', p, e) -> s_open s' = s_open s) as Hend.
  { intros s0 r0 H0 E0. destruct (bool_decide _); by injection E0 as <- _ _ _. }
  assert (forall s0 r0, s_open s0 = s_open s ->
    (let '(r1, d) := parseDocFromBuf r0 in
     match d with
     | Err e => Some (s0, r1, got, Some e)
     | Ok doc =>
         let dataStart := DocHeaderSize + HLen doc in let available := blen (r_buf r1) - dataStart - r_offset r1 in
         if available <=? 0 then if r_totalLen r1 <=? u64 (r_totalRead r1) then (if bool_decide (got = []) then Some (s0, r1, [], Some ErrEOF) else Some (s0, r1, got, None)) else readLoop fuel s0 (set_r_buf [] r1) n got
         else
           let toRead := Z.min n available in let src := slice (r_buf r1) (dataStart + r_offset r1) (dataStart + r_offset r1 + toRead) in
           readLoop fuel s0 (set_r_totalRead (r_totalRead r1 + toRead) (set_r_offset (r_offset r1 + toRead) r1)) (n - toRead) (got ++ src)
     end) = Some (s', r', p, e) -> s_open s' = s_open s) as Hcopy.
  { clear E. intros s0 r0 H0. destruct (parseDocFromBuf r0) as [r1 [doc|e1]]; [|by intros [= <- _ _ _]]. cbv zeta. destruct (_ <=? 0).
    - destruct (_ <=? _); [by apply Hend|]. intros E1. rewrite <- H0. by eapply IH.
    - intros E1. rewrite <- H0. by eapply IH. }
  destruct (blen (r_buf r) =? 0) in E; [|by apply (Hcopy s r)]. destruct (r_totalLen r <=? _) in E; [by apply (Hend s r)|].
  destruct (loadFragment s _ _) as [[[s1 r1] [u|e1]]|] eqn:El; cbn [mbind option_bind] in E; [|injection E as <- _ _ _; by eapply loadFragment_open|done].
  apply loadFragment_open in El. by apply (Hcopy s1 (set_r_offset 0 r1)).
Qed.

Lemma Read_open s r n s' r' p e : Read s r n = Some (s', r', p, e) -> s_open s' = s_open s.
Proof.
  unfold Read. destruct (r_readErr r); [by intros [= <- _ _ _]|]. intros E.
  assert (forall x, Some (readDone x) = Some (s', r', p, e) -> s_open x.1.1.1 = s_open s -> s_open s' = s_open s) as Hd.
  { intros [[[s0 r0] p0] [e0|]] E0 H0; cbn in *; [destruct (decide _)|]; injection E0 as <- _ _ _; done. }
  destruct (blen (r_buf r) =? 0) in E.
  - destruct (loadFragment s r 0) as [[[s1 r1] [u|e1]]|] eqn:El; cbn [mbind option_bind] in E; [|apply (Hd _ E); by eapply loadFragment_open|done].
    apply loadFragment_open in El. destruct (readLoop _ _ _ _ _) as [[[[s2 r2] p2] e2]|] eqn:Er; [|done]. cbn [mbind option_bind] in E. apply (Hd _ E). cbn. rewrite <- El. by eapply readLoop_open.
  - destruct (readLoop _ _ _ _ _) as [[[[s2 r2] p2] e2]|] eqn:Er; [|done]. cbn [mbind option_bind] in E. apply (Hd _ E). cbn. by eapply readLoop_open.
Qed.

(** ** Reads of a connection *)

Lemma vcReads_reads ns : forall s vc r s' r' l,
  rv_reading vc = true -> rv_closed vc = false -> rv_generation vc = Generation (s_open s) -> rv_reader vc = Some r -> reads s r ns = Some (s', r', l) ->
  exists vc', vcReads s vc ns = Some (s', vc', l) /\ s_open s' = s_open s /\ rv_closed vc' = false /\ rv_generation vc' = rv_generation vc.
Proof.
  induction ns as [|n ns IH]; intros s vc r s' r' l Hr Hc Hg Hrd E; cbn [reads vcReads] in *; [injection E as <- _ <-; by exists vc|].
  destruct (Read s r n) as [[[[s1 r1] p] e]|] eqn:E1; [|done]. cbn [mbind option_bind] in E. destruct (reads s1 r1 ns) as [[[s2 r2] l2]|] eqn:E2; [|done]. injection E as <- <- <-.
  unfold vcRead. change (generation s) with (Generation (s_open s)). rewrite Hr, Hc, Hg, Z.eqb_refl, Hrd. cbn [negb orb mbind option_bind]. rewrite E1. cbn [mbind option_bind]. pose proof (Read_open _ _ _ _ _ _ _ E1) as Ho.
  destruct (IH s1 (setReader r1 (rv_info vc) vc) r1 s2 r2 l2) as (vc' & -> & H1 & H2 & H3); try done; [exact (eq_trans Hg (f_equal Generation (eq_sym Ho)))|]. cbn [mbind option_bind]. exists vc'. split_and!; [reflexivity|exact (eq_trans H1 Ho)|exact H2|exact (eq_trans H3 Hg)].
Qed.

(** A connection of an older generation delivers nothing. *)
Lemma vc_stale s vc : rv_reading vc = true -> rv_closed vc = false -> rv_generation vc <> Generation (s_open s) ->
  (forall n, vcRead s vc n = Some (s, vc, [], Some ErrInvalidated)) /\ vcLoadHTTPInfo s vc = Some (s, vc, None, Some ErrInvalidated).
Proof.
  intros Hr Hc Hg. unfold vcRead, vcLoadHTTPInfo. change (generation s) with (Generation (s_open s)). rewrite Hr, Hc. replace (rv_generation vc =? Generation (s_open s)) with false by lia. done.
Qed.

(** Every purge moves every stripe to another generation. *)
Lemma purgeLoop_generations selector prefix c : forall c' keys ws,
  Forall (fun x => DirTrie.wf (Trie (s_dir x.2)) /\ fits 64 (Generation (s_open x.2))) (c : Cache) -> purgeLoop c selector prefix = Some (c', keys, ws) ->
  Forall2 (fun x x' => x'.1 = x.1 /\ Generation (s_open x.2) <> Generation (s_open x'.2)) c c'.
Proof.
  induction c as [|[a s] c IH]; intros c' keys ws F E; cbn in E; [injection E as <- <- <-; constructor|]. apply Forall_cons in F as [[W Hg] F].
  destruct (purgeStripe s selector prefix) as [[[s1 k1] w1]|] eqn:Es; [|done]. cbn in E. destruct (purgeLoop c selector prefix) as [[[c2 k2] w2]|] eqn:El; [|done]. injection E as <- <- <-.
  constructor; [|by eapply IH]. split; [done|]. unfold purgeStripe in Es. cbn in Es. destruct (removeKeys (bumpGeneration s) _) as [[s2 ws2]|] eqn:Er; [|done]. injection Es as <- <- _.
  destruct (removeKeys_frame _ _ _ _ Er W) as ((_ & _ & Hgen & _) & _). cbn. unfold Generation in *. rewrite Hgen. by apply u64_succ_ne.
Qed.

Lemma remove_generation (c : Cache) key c' w i a s : Invalidation.Remove c key = Some (c', None, w) -> KeyToStripe c key = Some i -> c !! i = Some (a, s) -> fits 64 (Generation (s_open s)) ->
  exists s', c' = <[i := (a, s')]> c /\ Generation (s_open s) <> Generation (s_open s').
Proof.
  unfold Invalidation.Remove. intros E Hk Hi Hf. destruct (blen key =? 0); [done|]. rewrite Hk, Hi in E. cbn [mbind option_bind] in E. destruct (s_closing s); [done|].
  destruct (removeLocked (bumpGeneration s) key) as [[s1 w1]|] eqn:Er; [|done]. injection E as <- _. exists s1. split; [done|]. apply removeLocked_frame in Er as ((_ & _ & Hgen & _) & _).
  unfold Generation in *. rewrite Hgen. by apply u64_succ_ne.
Qed.

Lemma openCommitted_Ok (c : Cache) key vc i a s : openCommitted c key = Some (Ok vc) -> KeyToStripe c key = Some i -> c !! i = Some (a, s) ->
  s_closing s = false /\ OpenDir.Get (s_open s) key = None /\ vc = mkReadVC true false key a (Generation (s_open s)) None (Some (NewCacheReader key)) None.
Proof.
  unfold openCommitted, OpenReadCommitted. intros E Hk Hi. rewrite Hk, Hi in E. cbn [mbind option_bind] in E. destruct (s_closing s); [done|].
  destruct (OpenDir.Get (s_open s) key) as [e|] eqn:Eg; [rewrite bool_decide_eq_true_2 in E by done; done|]. rewrite bool_decide_eq_false_2 in E by (by intros []). cbn in E. by injection E as <-.
Qed.

(** Opening and closing a connection leaves the open directory as it was;
    closing again changes nothing. *)
Lemma open_close_restores writers a s key s1 vc : NewCacheVCRead writers a s key = (s1, Ok vc) ->
  (forall e, OpenDir.Get (s_open s) key = Some e -> 1 <= refCount (s_open s) e) ->
  s_open (vcCloseRead s1 vc).1 = s_open s /\ let '(s2, vc2) := vcCloseRead s1 vc in vcCloseRead s2 vc2 = (s2, vc2).
Proof.
  unfold NewCacheVCRead. destruct (s_closing s); [done|]. destruct (Acquire (s_open s) key) as [od entry] eqn:Ea. intros [= <- <-] Href. unfold vcCloseRead. cbn.
  split; [|done]. unfold Acquire in Ea. unfold OpenDir.Get in Href. destruct (od_entries (s_open s) !! key) as [e|]; injection Ea as <- <-; [|done].
  specialize (Href e eq_refl). unfold Release.
  assert (addRef (addRef (s_open s) e 1) e (-1) = s_open s) as ->.
  { destruct (s_open s) as [en hp ge po]. unfold addRef, setHeap. cbn. f_equal. apply map_eq. intros k. destruct (decide (k = e)) as [->|Hne]; [|by rewrite !lookup_alter_ne].
    rewrite !lookup_alter_eq. destruct (hp !! e) as [x|]; [|done]. cbn. f_equal. destruct x. unfold setRef. cbn. f_equal. lia. }
  replace (refCount (s_open s) e <=? 0) with false by lia. done.
Qed.

(** A read connection to a committed object delivers exactly the object,
    and nothing once its stripe was invalidated.  While the stripe is at
    rest, a connection opened on a stored object returns the bytes of the
    object in order and then the end of the stream, for every sequence of
    buffer sizes.  After any purge, whatever it selected, and after the
    removal of any key of the stripe, the connection returns no byte and no
    metadata, only [ErrInvalidated]. *)
Theorem connection_delivers_until_invalidated (c : Cache) key vc i a s ver D info :
  openCommitted c key = Some (Ok vc) -> KeyToStripe c key = Some i -> c !! i = Some (a, s) -> object s key ver D info ->
  Forall (fun x => DirTrie.wf (Trie (s_dir x.2)) /\ fits 64 (Generation (s_open x.2))) c ->
  (forall ns, Forall (Z.le 0) ns -> exists s' vc', vcReads s vc ns = Some (s', vc', stream D 0 ns) /\ s_open s' = s_open s) /\
  (forall c' s', (exists selector prefix keys ws, PurgeSelector c selector prefix = Some (c', Ok keys, ws)) \/ (exists key' w, KeyToStripe c key' = Some i /\ Invalidation.Remove c key' = Some (c', None, w)) ->
     c' !! i = Some (a, s') -> (forall n, vcRead s' vc n = Some (s', vc, [], Some ErrInvalidated)) /\ vcLoadHTTPInfo s' vc = Some (s', vc, None, Some ErrInvalidated)).
Proof.
  intros Ho Hk Hi O F. destruct (openCommitted_Ok _ _ _ _ _ _ Ho Hk Hi) as (_ & _ & ->). split.
  - intros ns Hns. destruct (reads_spec s key ver D info 0 (NewCacheReader key) ns O) as (s' & r' & E & _); try done; [by right|pose proof (blen_nonneg D); lia|].
    destruct (vcReads_reads ns s (mkReadVC true false key a (Generation (s_open s)) None (Some (NewCacheReader key)) None) _ _ _ _ eq_refl eq_refl eq_refl eq_refl E) as (vc' & E' & H1 & _). by exists s', vc'.
  - intros c' s' Hinv Hs'. apply vc_stale; [done|done|]. cbn [rv_generation]. destruct Hinv as [(selector & prefix & keys & ws & E)|(key' & w & Hk' & E)].
    + unfold PurgeSelector in E. destruct (blen selector =? 0); [done|]. destruct (existsb _ c); [done|]. destruct (purgeLoop c selector prefix) as [[[c1 k1] w1]|] eqn:El; [|done]. injection E as <- <- <-.
      pose proof (purgeLoop_generations _ _ _ _ _ _ F El) as F2. destruct (Forall2_lookup_l _ _ _ _ _ F2 Hi) as ([a1 s1] & Hi1 & _ & Hg). rewrite Hs' in Hi1. by injection Hi1 as -> ->.
    + pose proof (Forall_lookup_1 _ _ _ _ F Hi) as [_ Hf]. destruct (remove_generation _ _ _ _ _ _ _ E Hk' Hi Hf) as (s1 & -> & Hg). rewrite list_lookup_insert_eq in Hs' by (by eapply lookup_lt_Some). by injection Hs' as ->.
Qed.
End ReadConnection.

Definition readConnection : readVC := Eval vm_compute in
  match openCommitted [(0%nat, stripe2)] [107] with Some (Ok vc) => vc | _ => refreshVC end.

Lemma connection_delivers_until_invalidated_witness :
  (exists s' vc', vcReads stripe2 readConnection [2; 5; 1] = Some (s', vc', [([1; 2], None); ([3], None); ([], Some ErrEOF)])) /\
  forall s', cache2 !! 0%nat = Some (0%nat, s') -> vcRead s' readConnection 2 = Some (s', readConnection, [], Some ErrInvalidated).
Proof.
  destruct (connection_delivers_until_invalidated [(0%nat, stripe2)] [107] readConnection 0 0%nat stripe2 version1 [1; 2; 3] infoBytes1) as [H1 H2].
  - vm_compute. reflexivity.
  - reflexivity.
  - reflexivity.
  - exact stripe2_object.
  - apply Forall_singleton. split; [exact stripe2_wf|vm_compute; split; congruence].
  - split.
    + destruct (H1 [2; 5; 1] ltac:(repeat constructor; vm_compute; congruence)) as (s' & vc' & E & _). exists s', vc'. exact E.
    + intros s' Hs. apply (H2 cache2 s'); [|exact Hs]. left. exists [107], false, [[107]], []. vm_compute. reflexivity.
Defined.
