(* ===== verification/Restart.v ===== *)
(** * A concrete restart

    The stripe of [WriteRead], its object indexed, saved at a clean shutdown
    and loaded again by a fresh stripe over the same file: the instance at
    which the theorems on checkpoints are exercised. *)

From S2P Require Import Prelude Hash Dir Doc DirTrie DirManager DirSpec Directory DirReinstall HttpInfo RamCache File AggBuffer AggLog OpenDir Evacuation Stripe Ring CacheWriter WriterSpec FragmentWriter CacheReader ReaderSpec FragmentReader Invalidation Checkpoint CheckpointSpec WriteRead.

Definition session1 : bytes := repeat 7 16.
Definition session2 : bytes := repeat 8 16.

(** The file of the stripe, as long as its span, with the session marker. *)
Definition file2 : file := Eval vm_compute in
  write_at (resize 9300 0 (default [] (s_disk stripe2))) 0 (sessionMarker session1).

Definition closing2 : Stripe Ram :=
  set_s_closing true (set_s_session session1 (set_s_disk (Some file2) stripe2)).

(** The next process: an initialised stripe over the same file. *)
Definition fresh2 : Stripe Ram := set_s_disk (Some file2) stripe1.

Definition saved2 : Stripe Ram * option bytes * option error := saveSnapshot None pub_ok true closing2 None.

Lemma closing2_checkpointable : checkpointable closing2.
Proof.
  split.
  - vm_compute. repeat split; congruence.
  - vm_compute. repeat split; congruence.
  - split; [reflexivity|apply bytes_ok_forallb; vm_compute; reflexivity].
  - split; [exact stripe2_dm_wf|]. vm_compute. repeat split; congruence.
  - split; [exact stripe2_wf|]. vm_compute. congruence.
  - intros k v Hk. assert (entries (Trie (s_dir closing2)) = {[ [107] := [107] ]}) as E by (vm_compute; reflexivity).
    rewrite E in Hk. apply lookup_singleton_Some in Hk as [<- <-]. split; apply bytes_ok_forallb; reflexivity.
Qed.

Lemma restart2 : restartable closing2 file2 fresh2.
Proof.
  split.
  - exact closing2_checkpointable.
  - split; [done| |done|done]. split; [exists [[[]; []]]; exact dm8_abs|]. vm_compute. repeat split; reflexivity.
  - vm_compute. reflexivity.
  - split; [done|]. split; [apply bytes_ok_forallb; vm_compute; reflexivity|].
    apply (fileCovers_full closing2 file2); try done; vm_compute; try split; congruence.
  - done.
  - by split_and!.
Qed.

Lemma closing2_object : object (set_s_closing false closing2) [107] version1 [1; 2; 3] infoBytes1.
Proof.
  split.
  - intros ram [=].
  - split; repeat constructor; vm_compute; congruence.
  - vm_compute. congruence.
  - vm_compute. split; congruence.
  - vm_compute. split; congruence.
  - intros c Hc. change (fragments [1; 2; 3] infoBytes1) with [mkCall 0 [1; 2; 3] infoBytes1 3] in Hc.
    apply list_elem_of_singleton in Hc as ->. vm_compute. reflexivity.
Qed.

Lemma closing2_recoverable : recoverable (set_s_closing false closing2) [107] version1 [1; 2; 3] infoBytes1.
Proof. split; [exact closing2_object|]. vm_compute. repeat split; congruence. Qed.

Lemma saved2_ok : match saved2 with (_, Some _, None) => true | _ => false end = true.
Proof. vm_compute. reflexivity. Qed.

Lemma checkpoint_restart_witness :
  exists sidecar s', saved2.1.2 = Some sidecar /\ Load (fun _ => noDraw) (Some sidecar) fresh2 = Some (s', None) /\
    object s' [107] version1 [1; 2; 3] infoBytes1.
Proof.
  pose proof saved2_ok as K. destruct saved2 as [[s2 [sidecar|]] [e|]] eqn:E; try discriminate K.
  destruct (checkpoint_restart closing2 file2 fresh2 None pub_ok None s2 (Some sidecar) (fun _ => noDraw) restart2 E)
    as (s' & E' & _ & _ & _ & _ & _ & Hobj).
  exists sidecar, s'. split; [reflexivity|]. split; [exact E'|].
  exact (proj2 (Hobj [107] [107] version1 [1; 2; 3] infoBytes1 ltac:(vm_compute; reflexivity) closing2_recoverable)).
Defined.

(** The next session recovers from the checkpoint and marks the stripe; the
    checkpoint it came from is stale. *)
Definition marked2 : option (Stripe Ram * option error) :=
  Open (fun _ => noDraw) None (Ok session2) io_ok None file2 saved2.1.2 stripe1.

Lemma sidecar2_stale sidecar : saved2.1.2 = Some sidecar -> ~ cleanCheckpointOf session2 (Some sidecar).
Proof.
  intros E (f & h & [= <-] & Hh & Hs & _).
  assert (match saved2.1.2 with Some d => match readHeader d with Ok h => bool_decide (h_Session h = session2) | Err _ => true end | None => true end = false) as K
    by (vm_compute; reflexivity).
  rewrite E, Hh, Hs in K. rewrite bool_decide_eq_true_2 in K; done.
Qed.

Definition opened2 : Stripe Ram := Eval vm_compute in match marked2 with Some (s, _) => s | None => stripe1 end.

(** The session writes a record after the object it found. *)
Definition world10 : world (R := Ram) := Eval vm_compute in
  match addFlush (mkWorld opened2 Idle false []) otherRecord ≫= finish with Some w => w | None => mkWorld stripe1 Idle false [] end.

Lemma world10_steps : rtc wstep (mkWorld opened2 Idle false []) world10.
Proof. apply (addFlush_finish_steps _ otherRecord). vm_compute. reflexivity. Qed.

Lemma world10_writes : s_disk (w_s world10) <> s_disk opened2.
Proof.
  assert (bool_decide (s_disk (w_s world10) = s_disk opened2) = false) as X by (vm_compute; reflexivity). by apply bool_decide_eq_false in X.
Qed.

Lemma checkpoint_valid_once_witness :
  s_disk (w_s world10) <> s_disk opened2 /\
  exists sidecar s' e, saved2.1.2 = Some sidecar /\
    Load (fun _ => noDraw) (Some sidecar) (set_s_disk (s_disk (w_s world10)) stripe1) = Some (s', Some e) /\ cold s'.
Proof.
  split; [exact world10_writes|].
  pose proof saved2_ok as K. destruct (saved2.1.2) as [sidecar|] eqn:E; [|destruct saved2 as [[s2 [sidecar|]] e]; done].
  destruct (checkpoint_valid_once (fun _ => noDraw) None session2 io_ok None file2 saved2.1.2 stripe1 opened2 world10
    (set_s_disk (s_disk (w_s world10)) stripe1) (Some sidecar) (fun _ => noDraw)) as (s' & e & E2 & Hc).
  - vm_compute. reflexivity.
  - reflexivity.
  - vm_compute. congruence.
  - vm_compute. congruence.
  - exact world10_steps.
  - reflexivity.
  - reflexivity.
  - exists [[[]; []]]. exact dm8_abs.
  - vm_compute. split; congruence.
  - exact (sidecar2_stale sidecar E).
  - exists sidecar, s', e. split; [reflexivity|]. split; [exact E2|exact Hc].
Defined.
