(* ===== verification/CacheFill.v ===== *)
(** * Filling the cache from a body

    [server/cache_fill.go], the write side of [cache/cache_vc.go] and the
    copying loops of [server/range_cache.go] and [server/shared_fill.go]: a
    response body is written to a cache object piece by piece, under a limit
    and timeouts, and either committed as a whole or aborted. *)

From S2P Require Import Prelude Hash Dir Doc DirTrie DirManager HttpInfo RamCache File AggBuffer OpenDir Evacuation Stripe CacheWriter WriterSpec FragmentWriter Directory Ring WriteRead.

(** ** The virtual connection of a writer *)

(** A sink whose writers are registered in the open directory: [Close] gives
    the reference back, [OpenDir.Release]. *)
Class FillSink (St : Type) `{FragmentSink St} : Type := {
  fk_release : St -> CacheWriter -> St;
  fk_release_law st w : fs_trace (fk_release st w) = fs_trace st }.

(** [CacheVC] for a write; [closeOnce] has run when [vc_closed] is set. *)
Record CacheVC : Type := mkVC { vc_writer : CacheWriter; vc_closed : bool; vc_closeErr : option error }.

(** A context that has ended keeps its first error. *)
Definition expire (e : option error) (w : CacheWriter) : CacheWriter :=
  match w_ctxErr w with None => set_w_ctxErr e w | Some _ => w end.

Section Fill.
Context {St : Type} `{FillSink St}.

Definition vcWrite (st : St) (vc : CacheVC) (p : bytes) : option (St * CacheVC * option error) :=
  if vc_closed vc then Some (st, vc, Some (Errorf "write operation not active or closed"))
  else '(st, w, _, e) ← Write st (vc_writer vc) p; Some (st, mkVC w (vc_closed vc) (vc_closeErr vc), e).

Definition vcClose (st : St) (vc : CacheVC) : option (St * CacheVC * option error) :=
  if vc_closed vc then Some (st, vc, vc_closeErr vc)
  else
    '(st, w, e) ← Close st (vc_writer vc);
    let w := expire (Some ErrCanceled) w in
    Some (fk_release st w, mkVC w true e, e).

(** [CacheWriter.Abort] *)
Definition writerAbort (st : St) (w : CacheWriter) (e : error) : option (St * CacheWriter) :=
  let w := expire (Some ErrCanceled) w in
  if w_closed w then Some (st, w) else fs_abort st w e.

Definition vcAbort (st : St) (vc : CacheVC) (e : error) : option (St * CacheVC) :=
  let w := expire (Some ErrCanceled) (vc_writer vc) in
  if vc_closed vc then Some (st, mkVC w (vc_closed vc) (vc_closeErr vc))
  else
    '(st, w) ← writerAbort st w e;
    '(st, w, ce) ← Close st w;
    Some (fk_release st w, mkVC w true ce).

Definition SetHTTPInfo (st : St) (vc : CacheVC) (info : CacheHTTPInfo) : St * CacheVC :=
  if vc_closed vc || w_closed (vc_writer vc) then (st, vc)
  else let w := set_w_info (Some info) (vc_writer vc) in (fs_ready st w, mkVC w (vc_closed vc) (vc_closeErr vc)).

(** ** [cacheFill] *)

Record cacheFill : Type := mkFill {
  cf_vc : option CacheVC; cf_limit : Z; cf_written : Z; cf_skipped : Z; cf_errors : Z; cf_err : option error }.

Definition fillAbort (st : St) (f : cacheFill) (e : error) : option (St * cacheFill) :=
  match cf_vc f with
  | None => Some (st, mkFill None (cf_limit f) (cf_written f) (cf_skipped f) (cf_errors f) (Some e))
  | Some vc =>
      '(st, _) ← vcAbort st vc e;
      Some (st, mkFill None (cf_limit f) (cf_written f) (cf_skipped f) (cf_errors f) (Some e))
  end.

(** [write]; [ctx] is the error of the context when the call is made. *)
Definition fillWrite (ctx : option error) (st : St) (f : cacheFill) (p : bytes) : option (St * cacheFill) :=
  match cf_vc f with
  | None => Some (st, f)
  | Some vc =>
      let written := i64 (cf_written f + blen p) in
      if cf_limit f <? written
      then fillAbort st (mkFill (cf_vc f) (cf_limit f) written (u64 (cf_skipped f + 1)) (cf_errors f) (cf_err f)) (Errorf "cache object limit")
      else
        '(st, vc, e) ← vcWrite st (mkVC (expire ctx (vc_writer vc)) (vc_closed vc) (vc_closeErr vc)) p;
        match e with
        | None => Some (st, mkFill (Some vc) (cf_limit f) written (cf_skipped f) (cf_errors f) (cf_err f))
        | Some e => fillAbort st (mkFill (Some vc) (cf_limit f) written (cf_skipped f) (u64 (cf_errors f + 1)) (cf_err f)) e
        end
  end.

Definition commit (ctx : option error) (st : St) (f : cacheFill) : option (St * cacheFill * option error) :=
  match cf_vc f with
  | None => Some (st, f, cf_err f)
  | Some vc =>
      '(st, _, e) ← vcClose st (mkVC (expire ctx (vc_writer vc)) (vc_closed vc) (vc_closeErr vc));
      let errors := match e with Some _ => u64 (cf_errors f + 1) | None => cf_errors f end in
      Some (st, mkFill None (cf_limit f) (cf_written f) (cf_skipped f) errors (cf_err f), e)
  end.

(** ** Copying a body *)

(** One [Read] of the body: its bytes and its error, and the context at the
    time. *)
Record bodyRead : Type := mkRead { br_data : bytes; br_err : option error; br_ctx : option error }.

(** The copying loop: the error it returns, [None] at the end of the body.  A
    list that ends without an error is a body that has not ended: the loop
    has not returned. *)
Fixpoint copyBody (st : St) (f : cacheFill) (reads : list bodyRead) : option (St * cacheFill * option error) :=
  match reads with
  | [] => None
  | rd :: reads =>
      '(st, f) ← (if 0 <? blen (br_data rd) then fillWrite (br_ctx rd) st f (br_data rd) else Some (st, f));
      match (if 0 <? blen (br_data rd) then cf_err f else None) with
      | Some e => Some (st, f, Some e)
      | None =>
          match br_err rd with
          | None => copyBody st f reads
          | Some ErrEOF => Some (st, f, None)
          | Some e => Some (st, f, Some e)
          end
      end
  end.

(** [writeRangeObject]; [ctx] is [task.ctx.Err()] after the body, [cctx] the
    context at the commit. *)
Definition writeRangeObject (st : St) (f : cacheFill) (info : CacheHTTPInfo) (reads : list bodyRead) (limit : Z) (ctx cctx : option error)
    : option (St * cacheFill * option error) :=
  let '(st, f) := match cf_vc f with
                  | Some vc => let '(st, vc) := SetHTTPInfo st vc info in
                      (st, mkFill (Some vc) limit (cf_written f) (cf_skipped f) (cf_errors f) (cf_err f))
                  | None => (st, f)
                  end in
  '(st, f, e) ← copyBody st f reads;
  match e with
  | Some e => Some (st, f, Some e)
  | None =>
      if negb (cf_written f =? limit) then Some (st, f, Some ErrUnexpectedEOF)
      else match ctx with
      | Some e => Some (st, f, Some e)
      | None => commit cctx st f
      end
  end.

(** The end of [fetchFill]: [closed] is the outcome of closing the body,
    [trailer] whether the origin sent one. *)
Definition fetchBody (st : St) (f : cacheFill) (reads : list bodyRead) (closed : option error) (trailer : bool) (ctx cctx : option error)
    : option (St * cacheFill * option error) :=
  '(st, f, e) ← copyBody st f reads;
  match e, closed with
  | Some e, _ | None, Some e => Some (st, f, Some e)
  | None, None =>
      if trailer then Some (st, f, Some (Errorf "origin trailers cannot be shared"))
      else match ctx with
      | Some e => Some (st, f, Some e)
      | None => commit cctx st f
      end
  end.

(** With the deferred [fill.abort] of the callers. *)
Definition withAbort (e : error) (x : option (St * cacheFill * option error)) : option (St * cacheFill * option error) :=
  '(st, f, r) ← x; '(st, f) ← fillAbort st f e; Some (st, f, r).

Definition reserve (w : CacheWriter) (limit : Z) : cacheFill := mkFill (Some (mkVC w false None)) limit 0 0 0 None.

(** ** What is stored *)

(** The bytes of the body up to its first error. *)
Fixpoint bodyOf (reads : list bodyRead) : bytes :=
  match reads with [] => [] | rd :: reads => br_data rd ++ match br_err rd with None => bodyOf reads | Some _ => [] end end.
Fixpoint bodyEnd (reads : list bodyRead) : option error :=
  match reads with [] => None | rd :: reads => match br_err rd with None => bodyEnd reads | Some e => Some e end end.

(** Fragments are stored, but no head: nothing a reader can find. *)
Definition headless (st st' : St) : Prop := exists l, fs_trace st' = fs_trace st ++ l /\ Forall (fun c => fc_idx c <> 0) l.

Lemma headless_refl st : headless st st.
Proof. exists []. by rewrite app_nil_r. Qed.
Lemma headless_trans st1 st2 st3 : headless st1 st2 -> headless st2 st3 -> headless st1 st3.
Proof. intros (l1 & E1 & F1) (l2 & E2 & F2). exists (l1 ++ l2). rewrite E2, E1, app_assoc. split; [done|]. by apply Forall_app. Qed.
Lemma headless_same st st' : fs_trace st' = fs_trace st -> headless st st'.
Proof. intros E. exists []. by rewrite E, app_nil_r. Qed.

Lemma fs_write_headless st w idx data info st' w' r : fs_write st w idx data info = Some (st', w', r) -> idx <> 0 -> headless st st'.
Proof. intros E Hi. destruct (fs_write_law _ _ _ _ _ _ _ _ E) as [_ Ht]. destruct r; [eexists; split; [exact Ht|by repeat constructor]|by apply headless_same]. Qed.

Lemma processBuffer_headless fuel st w st' w' r :
  processBuffer fuel st w = Some (st', w', r) -> 0 <= w_nextFragIdx w -> headless st st' /\ 0 <= w_nextFragIdx w'.
Proof.
  revert st w. induction fuel as [|fuel IH]; intros st w; [done|]. cbn [processBuffer]. destruct (_ <? _); [intros [= <- <- <-]; split; [apply headless_refl|done]|].
  intros E Hn. destruct (w_nextFragIdx w =? 0) eqn:E0; b2p; [apply IH in E; [done|cbn; lia]|].
  destruct (fs_write _ _ _ _ _) as [[[st1 w1] [u|e]]|] eqn:Ew; [| |done]; cbn [mbind option_bind] in E;
    pose proof (fs_write_headless _ _ _ _ _ _ _ _ Ew E0) as Hh; destruct (fs_write_law _ _ _ _ _ _ _ _ Ew) as [(_ & _ & _ & Hx & _) _].
  - apply IH in E as [Hh2 ?]; [|cbn; lia]. split; [by eapply headless_trans|done].
  - injection E as <- <- <-. split; [done|lia].
Qed.

Lemma abort_headless st w e st' w' : fs_abort st w e = Some (st', w') -> headless st st' /\ w_closed w' = true.
Proof. intros E. destruct (fs_abort_law _ _ _ _ _ E) as (E1 & E2 & _). split; [by apply headless_same|done]. Qed.

(** A writer that has not stored its head: its counter is past fragment 0, or
    it is closed. *)
Definition unfinished (w : CacheWriter) : Prop := w_closed w = true \/ 0 <= w_nextFragIdx w.

Lemma expire_same e w : w_closed (expire e w) = w_closed w /\ w_nextFragIdx (expire e w) = w_nextFragIdx w.
Proof. unfold expire. by destruct (w_ctxErr w). Qed.
Lemma unfinished_expire e w : unfinished w -> unfinished (expire e w).
Proof. unfold unfinished. by destruct (expire_same e w) as [-> ->]. Qed.

Lemma writeLoop_headless fuel st w p n st' w' n' e :
  writeLoop fuel st w p n = Some (st', w', n', e) -> 0 <= w_nextFragIdx w -> headless st st' /\ unfinished w'.
Proof.
  revert st w p n. induction fuel as [|fuel IH]; intros st w p n E Hn; [done|]. cbn [writeLoop] in E.
  destruct (blen p =? 0); [injection E as <- <- <- <-; split; [apply headless_refl|by right]|].
  destruct (processBuffer _ _ _) as [[[st1 w1] [u|e1]]|] eqn:Ep; [| |done]; apply processBuffer_headless in Ep as [Hh Hx]; try done; cbn [mbind option_bind] in E.
  - apply IH in E as [Hh2 ?]; [|done]. split; [by eapply headless_trans|done].
  - destruct (fs_abort st1 w1 e1) as [[st2 w2]|] eqn:Ea; [|done]. injection E as <- <- <- <-. apply abort_headless in Ea as [Hh2 ?].
    split; [by eapply headless_trans|by left].
Qed.

Lemma Write_headless st w p st' w' n e : Write st w p = Some (st', w', n, e) -> unfinished w -> headless st st' /\ unfinished w'.
Proof.
  unfold Write. intros E Hu. destruct (w_closed w) eqn:Ec; [injection E as <- <- <- <-; split; [apply headless_refl|done]|].
  destruct (w_ctxErr w) as [e1|].
  { destruct (fs_abort st w e1) as [[st1 w1]|] eqn:Ea; [|done]. injection E as <- <- <- <-. apply abort_headless in Ea as [? ?]. split; [done|by left]. }
  destruct (_ <? blen p).
  { destruct (fs_abort st w tooBig) as [[st1 w1]|] eqn:Ea; [|done]. injection E as <- <- <- <-. apply abort_headless in Ea as [? ?]. split; [done|by left]. }
  eapply writeLoop_headless; [done|]. destruct Hu; [congruence|done].
Qed.

Lemma closePartial_headless st w st' w' r : closePartial st w = Some (st', w', r) -> 0 <= w_nextFragIdx w -> headless st st'.
Proof.
  unfold closePartial. intros E Hn. destruct (0 <? _); [|injection E as <- <- <-; apply headless_refl].
  destruct (w_nextFragIdx w =? 0) eqn:E0; b2p; [injection E as <- <- <-; apply headless_refl|].
  destruct (fs_write _ _ _ _ _) as [[[st1 w1] r1]|] eqn:Ew; [|done]. injection E as <- <- <-. by eapply fs_write_headless.
Qed.

Lemma Close_headless st w st' w' e : Close st w = Some (st', w', Some e) -> unfinished w -> headless st st'.
Proof.
  unfold Close. intros E Hu. destruct (w_closed w) eqn:Ec; [injection E as <- <- _; apply headless_refl|].
  assert (0 <= w_nextFragIdx w) as Hn by (destruct Hu; [congruence|done]).
  destruct (closeFragments st w) as [[[st1 w1] [e1|]]|] eqn:Ef; [|done|done]. cbn [mbind option_bind] in E.
  destruct (fs_abort st1 w1 e1) as [[st2 w2]|] eqn:Ea; [|done]. injection E as <- <- <-. apply abort_headless in Ea as [Ha _]. eapply headless_trans; [|exact Ha].
  clear Ha. unfold closeFragments in Ef. destruct (match w_info w with Some _ => _ | None => _ end); [|injection Ef as <- _ _; apply headless_refl].
  destruct (closePartial st w) as [[[st3 w3] r3]|] eqn:Ep; [|done]. apply closePartial_headless in Ep; [|done]. cbn [mbind option_bind] in Ef.
  destruct r3; [|by injection Ef as <- _ _]. destruct (w_frag0Data (emptyFrag0 w3)) as [d|]; [|done].
  destruct (fs_write _ _ _ _ _) as [[[st4 w4] [u|e4]]|] eqn:Ew; [done| |done]. cbn [mbind option_bind] in Ef. injection Ef as <- _ _.
  destruct (fs_write_law _ _ _ _ _ _ _ _ Ew) as [_ Ht]. eapply headless_trans; [exact Ep|by apply headless_same].
Qed.

Lemma vcAbort_headless st vc e st' vc' : vcAbort st vc e = Some (st', vc') -> headless st st'.
Proof.
  unfold vcAbort, writerAbort. destruct (vc_closed vc); [intros [= <- _]; apply headless_refl|]. set (w := expire _ (expire _ _)).
  destruct (if w_closed w then _ else _) as [[st1 w1]|] eqn:Ea; [|done]. cbn [mbind option_bind].
  assert (headless st st1 /\ w_closed w1 = true) as [Hh Hc] by (destruct (w_closed w) eqn:Ec; [injection Ea as <- <-; split; [apply headless_refl|done]|by eapply abort_headless]).
  unfold Close. rewrite Hc. cbn. intros [= <- _]. eapply headless_trans; [exact Hh|]. apply headless_same, fk_release_law.
Qed.

Lemma fillAbort_headless st f e st' f' : fillAbort st f e = Some (st', f') -> headless st st' /\ cf_vc f' = None /\ cf_err f' = Some e.
Proof.
  unfold fillAbort. destruct (cf_vc f) as [vc|]; [|intros [= <- <-]; split; [apply headless_refl|done]].
  destruct (vcAbort st vc e) as [[st1 vc1]|] eqn:Ea; [|done]. intros [= <- <-]. split; [by eapply vcAbort_headless|done].
Qed.

Definition fill_unfinished (f : cacheFill) : Prop := forall vc, cf_vc f = Some vc -> vc_closed vc = false /\ unfinished (vc_writer vc).

Lemma fillWrite_headless ctx st f p st' f' : fillWrite ctx st f p = Some (st', f') -> fill_unfinished f -> headless st st' /\ fill_unfinished f'.
Proof.
  unfold fillWrite. intros E Hu. destruct (cf_vc f) as [vc|] eqn:Ev; [|injection E as <- <-; split; [apply headless_refl|done]].
  destruct (Hu vc Ev) as [Hc Hw]. assert (forall f1 e st1 st2 f2, fillAbort st1 f1 e = Some (st2, f2) -> headless st1 st2 /\ fill_unfinished f2) as Habort.
  { intros f1 e1 st1 st2 f2 (? & Hx & _)%fillAbort_headless. split; [done|]. intros vc' Hvc. congruence. }
  destruct (_ <? _); [by apply Habort in E|]. unfold vcWrite in E. cbn [vc_closed vc_writer] in E. rewrite Hc in E.
  destruct (Write _ _ _) as [[[[st1 w1] n1] e1]|] eqn:Ew; [|done]. apply Write_headless in Ew as [Hh Hx]; [|by apply unfinished_expire]. cbn [mbind option_bind] in E.
  destruct e1 as [e1|].
  - apply Habort in E as [? ?]. split; [by eapply headless_trans|done].
  - injection E as <- <-. split; [done|]. by intros vc' [= <-].
Qed.

Lemma copyBody_headless st f reads st' f' e : copyBody st f reads = Some (st', f', e) -> fill_unfinished f -> headless st st' /\ fill_unfinished f'.
Proof.
  revert st f. induction reads as [|rd reads IH]; intros st f E Hu; [done|]. cbn [copyBody] in E.
  destruct (if 0 <? blen (br_data rd) then fillWrite _ _ _ _ else _) as [[st1 f1]|] eqn:Ew; [|done]. cbn [mbind option_bind] in E.
  assert (headless st st1 /\ fill_unfinished f1) as [Hh Hx].
  { destruct (0 <? _); [by eapply fillWrite_headless|]. injection Ew as <- <-. split; [apply headless_refl|done]. }
  destruct (if 0 <? blen (br_data rd) then cf_err f1 else None); [by injection E as <- <- _|].
  destruct (br_err rd) as [er|]; [|apply IH in E as [? ?]; [|done]; split; [by eapply headless_trans|done]].
  destruct er; injection E as <- <- _; done.
Qed.

Lemma commit_headless ctx st f st' f' e : commit ctx st f = Some (st', f', Some e) -> fill_unfinished f -> headless st st'.
Proof.
  unfold commit. intros E Hu. destruct (cf_vc f) as [vc|] eqn:Ev; [|injection E as <- _ _; apply headless_refl]. destruct (Hu vc Ev) as [Hc Hw].
  unfold vcClose in E. cbn [vc_closed vc_writer] in E. rewrite Hc in E. destruct (Close _ _) as [[[st1 w1] e1]|] eqn:Ec; [|done]. cbn [mbind option_bind] in E.
  injection E as <- _ ->. apply Close_headless in Ec; [|by apply unfinished_expire]. eapply headless_trans; [exact Ec|]. apply headless_same, fk_release_law.
Qed.

(** ** A committed fill *)

Lemma streaming_expire e D tr0 st w : streaming D tr0 st w -> streaming D tr0 st (expire e w).
Proof. intros [? ? ? ? ? ?]. unfold expire. destruct (w_ctxErr w); by split. Qed.
Lemma expire_head e w : w_info (expire e w) = w_info w /\ w_buffer (expire e w) = w_buffer w.
Proof. unfold expire. by destruct (w_ctxErr w). Qed.

(** The fill has received [D] and nothing has failed. *)
Record filling (D : bytes) (tr0 : list fragCall) (info : option CacheHTTPInfo) (st : St) (f : cacheFill) (vc : CacheVC) : Prop := {
  fl_vc : cf_vc f = Some vc /\ vc_closed vc = false;
  fl_stream : streaming D tr0 st (vc_writer vc) /\ blen (w_buffer (vc_writer vc)) < TargetFragmentSize;
  fl_info : w_info (vc_writer vc) = info;
  fl_written : cf_written f = blen D /\ cf_err f = None }.

Lemma fillWrite_filling D tr0 info ctx st f vc p st' f' :
  filling D tr0 info st f vc -> blen (D ++ p) < 2 ^ 63 -> fillWrite ctx st f p = Some (st', f') -> cf_err f' = None ->
  exists vc', filling (D ++ p) tr0 info st' f' vc'.
Proof.
  intros [[V1 V2] [S1 S2] Hi [W1 W2]] Hb E Hok. unfold fillWrite in E. rewrite V1 in E.
  destruct (_ <? _); [apply fillAbort_headless in E as (_ & _ & ?); congruence|]. unfold vcWrite in E. cbn [vc_closed vc_writer] in E. rewrite V2 in E.
  destruct (Write _ _ _) as [[[[st1 w1] n1] e1]|] eqn:Ew; [|done]. cbn [mbind option_bind] in E.
  destruct e1 as [e1|]; [apply fillAbort_headless in E as (_ & _ & ?); congruence|]. injection E as <- <-.
  destruct (Write_spec D tr0 st (expire ctx (vc_writer vc)) p st1 w1 n1 (streaming_expire _ _ _ _ _ S1) ltac:(by rewrite (proj2 (expire_head ctx _))) Ew) as (X1 & X2 & _ & (X3 & _)).
  exists (mkVC w1 false (vc_closeErr vc)). pose proof (blen_nonneg D). pose proof (blen_nonneg p). rewrite blen_app in Hb.
  split; cbn; try done; [rewrite X3, (proj1 (expire_head ctx _)); done|].
  rewrite W1, blen_app, i64_small by (unfold fits_i64; lia). done.
Qed.

Lemma copyBody_filling D tr0 info st f vc reads st' f' :
  filling D tr0 info st f vc -> blen (D ++ bodyOf reads) < 2 ^ 63 -> copyBody st f reads = Some (st', f', None) ->
  bodyEnd reads = Some ErrEOF /\ exists vc', filling (D ++ bodyOf reads) tr0 info st' f' vc'.
Proof.
  revert D st f vc. induction reads as [|rd reads IH]; intros D st f vc F Hb E; [done|]. cbn [copyBody bodyOf bodyEnd] in *. rewrite app_assoc, blen_app in Hb.
  destruct (if 0 <? blen (br_data rd) then fillWrite _ _ _ _ else _) as [[st1 f1]|] eqn:Ew; [|done]. cbn [mbind option_bind] in E.
  destruct (if 0 <? blen (br_data rd) then cf_err f1 else None) eqn:Ee; [done|].
  match type of Hb with _ + blen ?x < _ => pose proof (blen_nonneg x) end.
  assert (exists vc1, filling (D ++ br_data rd) tr0 info st1 f1 vc1) as [vc1 F1].
  { destruct (0 <? blen (br_data rd)) eqn:Ep; [eapply fillWrite_filling; try done; lia|]. injection Ew as <- <-. b2p.
    assert (br_data rd = []) as -> by (apply nil_length_inv; unfold blen in Ep; lia). rewrite app_nil_r. eauto. }
  destruct (br_err rd) as [er|].
  - assert (er = ErrEOF /\ st1 = st' /\ f1 = f') as (-> & <- & <-) by (destruct er; by simplify_eq). split; [done|]. rewrite app_nil_r. eauto.
  - rewrite app_assoc. eapply IH; [done| |done]. rewrite blen_app. lia.
Qed.

(** ** Fills return *)

(** Every call of the sink returns. *)
Definition sink_returns : Prop :=
  (forall st w idx data info, is_Some (fs_write st w idx data info)) /\ (forall st w e, is_Some (fs_abort st w e)).

(** A writer between two calls: at most a partial fragment is buffered. *)
Definition partial_buffer (w : CacheWriter) : Prop := w_closed w = true \/ blen (w_buffer w) < TargetFragmentSize.

Lemma processBuffer_returns fuel st w : sink_returns -> blen (w_buffer w) <= TargetFragmentSize -> (2 <= fuel)%nat ->
  exists st' w' r, processBuffer fuel st w = Some (st', w', r) /\ (r = Ok tt -> blen (w_buffer w') < TargetFragmentSize).
Proof.
  intros [HW _] Hb Hf. destruct fuel as [|[|fuel]]; [lia|lia|]. pose proof T_pos as HT. cbn [processBuffer].
  destruct (blen (w_buffer w) <? TargetFragmentSize) eqn:E; b2p; [eexists _, _, _; split; [done|by intros _]|].
  assert (forall b : bytes, blen b = blen (w_buffer w) -> blen (slice b TargetFragmentSize (blen b)) <? TargetFragmentSize = true) as Hs.
  { intros b Hl. unfold slice. rewrite Hl. replace (Z.to_nat (blen (w_buffer w) - TargetFragmentSize)) with 0%nat by lia. by apply Z.ltb_lt. }
  destruct (w_nextFragIdx w =? 0).
  - cbn [w_buffer set_w_nextFragIdx set_w_buffer set_w_frag0Data]. rewrite Hs by done. eexists _, _, _. split; [done|]. intros _. cbn. apply Z.ltb_lt. by apply Hs.
  - destruct (HW st w (w_nextFragIdx w) (slice (w_buffer w) 0 TargetFragmentSize) []) as [[[st1 w1] r1] Ew]. rewrite Ew. cbn [mbind option_bind].
    destruct (fs_write_law _ _ _ _ _ _ _ _ Ew) as [(_ & L & _) _]. destruct r1; [|by eexists _, _, _].
    cbn [w_buffer set_w_nextFragIdx set_w_buffer]. rewrite Hs by (by rewrite L). eexists _, _, _. split; [done|]. intros _. cbn. apply Z.ltb_lt. apply Hs. by rewrite L.
Qed.

Lemma processFuel_two w : blen (w_buffer w) = TargetFragmentSize -> (2 <= processFuel w)%nat.
Proof. intros E. unfold processFuel. rewrite E, Z.div_same by done. done. Qed.

Lemma processBuffer_full st w : sink_returns -> blen (w_buffer w) <= TargetFragmentSize ->
  exists st' w' r, processBuffer (processFuel w) st w = Some (st', w', r) /\ (r = Ok tt -> blen (w_buffer w') < TargetFragmentSize).
Proof.
  intros HS Hb. destruct (decide (blen (w_buffer w) = TargetFragmentSize)) as [E|E]; [apply processBuffer_returns; [done|done|by apply processFuel_two]|].
  unfold processFuel. cbn [processBuffer]. replace (_ <? _) with true by lia. eexists _, _, _. split; [done|]. intros _. lia.
Qed.

Lemma writeLoop_returns fuel st w p n : sink_returns -> blen (w_buffer w) < TargetFragmentSize -> (length p < fuel)%nat ->
  exists st' w' n' e, writeLoop fuel st w p n = Some (st', w', n', e) /\ partial_buffer w'.
Proof.
  intros HS. revert st w p n. induction fuel as [|fuel IH]; intros st w p n Hb Hf; [lia|]. cbn [writeLoop].
  destruct (blen p =? 0) eqn:E0; b2p; [eexists _, _, _, _; split; [done|by right]|]. pose proof (blen_nonneg p). pose proof (blen_nonneg (w_buffer w)).
  set (tk := Z.min (TargetFragmentSize - blen (w_buffer w)) (blen p)). set (w1 := set_w_totalWritten _ _).
  destruct (processBuffer_full st w1 HS) as (st2 & w2 & r & -> & Hr).
  { subst w1. cbn. rewrite blen_app, blen_slice by lia. lia. }
  cbn [mbind option_bind]. destruct r as [[]|e].
  - apply IH; [by apply Hr|]. pose proof (blen_slice p tk (blen p) ltac:(lia) ltac:(lia)) as Hl. unfold blen in *. lia.
  - destruct HS as [_ HA]. destruct (HA st2 w2 e) as [[st3 w3] Ea]. rewrite Ea. cbn. eexists _, _, _, _. split; [done|]. left. by destruct (fs_abort_law _ _ _ _ _ Ea) as (_ & -> & _).
Qed.

Lemma Write_returns st w p : sink_returns -> partial_buffer w -> exists st' w' n e, Write st w p = Some (st', w', n, e) /\ partial_buffer w'.
Proof.
  intros HS Hb. unfold Write. destruct (w_closed w) eqn:Ec; [by eexists _, _, _, _|].
  assert (forall e, exists st' w', fs_abort st w e = Some (st', w') /\ partial_buffer w') as Ha.
  { intros e. destruct HS as [_ HA]. destruct (HA st w e) as [[st3 w3] Ea]. eexists _, _. split; [done|]. left. by destruct (fs_abort_law _ _ _ _ _ Ea) as (_ & -> & _). }
  destruct (w_ctxErr w) as [e|]; [destruct (Ha e) as (st1 & w1 & -> & ?); by eexists _, _, _, _|].
  destruct (_ <? blen p); [destruct (Ha tooBig) as (st1 & w1 & -> & ?); by eexists _, _, _, _|].
  apply writeLoop_returns; [done| |lia]. destruct Hb; [congruence|done].
Qed.

Lemma Close_returns st w : sink_returns -> is_Some (Close st w).
Proof.
  intros [HW HA]. unfold Close. destruct (w_closed w); [by eexists|].
  assert (is_Some (closePartial st w)) as [[[st1 w1] r1] E1].
  { unfold closePartial. destruct (0 <? _); [|by eexists]. destruct (_ =? 0); [by eexists|].
    destruct (HW st w (w_nextFragIdx w) (w_buffer w) []) as [[[? ?] ?] ->]. by eexists. }
  assert (is_Some (closeFragments st w)) as [[[st2 w2] [e|]] E2]; [|rewrite E2; cbn; destruct (HA st2 w2 e) as [[? ?] ->]; by eexists|rewrite E2; by eexists].
  unfold closeFragments. destruct (match w_info w with Some _ => _ | None => _ end) as [ib|]; [|by eexists]. rewrite E1. cbn. destruct r1; [|by eexists].
  destruct (w_frag0Data (emptyFrag0 w1)) as [d|]; [destruct (HW st1 (emptyFrag0 w1) 0 d ib) as [[[? ?] [|]] ->]; by eexists|by eexists].
Qed.

Lemma fillAbort_returns st f e : sink_returns -> is_Some (fillAbort st f e).
Proof.
  intros HS. unfold fillAbort. destruct (cf_vc f) as [vc|]; [|by eexists]. unfold vcAbort, writerAbort. destruct (vc_closed vc); [by eexists|].
  set (w := expire _ (expire _ _)). assert (is_Some (if w_closed w then Some (st, w) else fs_abort st w e)) as [[st1 w1] ->].
  { destruct (w_closed w); [by eexists|]. apply HS. }
  cbn. destruct (Close_returns st1 w1 HS) as [[[st2 w2] e2] ->]. by eexists.
Qed.

Definition fill_partial (f : cacheFill) : Prop := forall vc, cf_vc f = Some vc -> partial_buffer (vc_writer vc).

Lemma partial_expire e w : partial_buffer w -> partial_buffer (expire e w).
Proof. unfold partial_buffer. rewrite (proj1 (expire_same e w)). by rewrite (proj2 (expire_head e w)). Qed.

Lemma fillWrite_returns ctx st f p : sink_returns -> fill_partial f -> exists st' f', fillWrite ctx st f p = Some (st', f') /\ fill_partial f'.
Proof.
  intros HS Hf. assert (forall st1 f1 e, exists st' f', fillAbort st1 f1 e = Some (st', f') /\ fill_partial f') as Ha.
  { intros st1 f1 e. destruct (fillAbort_returns st1 f1 e HS) as [[st2 f2] E]. eexists _, _. split; [exact E|]. apply fillAbort_headless in E as (_ & E & _). intros vc Hvc. congruence. }
  unfold fillWrite. destruct (cf_vc f) as [vc|] eqn:Ev; [|eexists _, _; split; [done|]; intros vc Hvc; congruence]. destruct (_ <? _); [apply Ha|].
  unfold vcWrite. cbn [vc_closed vc_writer]. destruct (vc_closed vc); [cbn [mbind option_bind]; apply Ha|].
  destruct (Write_returns st (expire ctx (vc_writer vc)) p HS (partial_expire _ _ (Hf vc Ev))) as (st1 & w1 & n1 & e1 & -> & Hp). cbn [mbind option_bind].
  destruct e1 as [e1|]; [apply Ha|]. eexists _, _. split; [done|]. by intros vc' [= <-].
Qed.

Lemma copyBody_returns st f reads : sink_returns -> fill_partial f -> bodyEnd reads <> None -> is_Some (copyBody st f reads).
Proof.
  intros HS. revert st f. induction reads as [|rd reads IH]; intros st f Hf He; [done|]. cbn [copyBody bodyEnd] in *.
  assert (exists st1 f1, (if 0 <? blen (br_data rd) then fillWrite (br_ctx rd) st f (br_data rd) else Some (st, f)) = Some (st1, f1) /\ fill_partial f1) as (st1 & f1 & -> & Hf1).
  { destruct (0 <? _); [by apply fillWrite_returns|eauto]. }
  cbn [mbind option_bind]. destruct (if 0 <? _ then cf_err f1 else None); [by eexists|]. destruct (br_err rd) as [e|]; [destruct e; by eexists|by apply IH].
Qed.

Lemma commit_returns ctx st f : sink_returns -> is_Some (commit ctx st f).
Proof.
  intros HS. unfold commit. destruct (cf_vc f) as [vc|]; [|by eexists]. unfold vcClose. cbn [vc_closed]. destruct (vc_closed vc); [by eexists|].
  cbn [vc_writer]. destruct (Close_returns st (expire ctx (vc_writer vc)) HS) as [[[? ?] ?] ->]. by eexists.
Qed.

(** ** Properties *)

(** A fill that reports success has stored the whole body, otherwise nothing a
    reader can find. *)
Definition stored_or_nothing (st st' : St) (info : option CacheHTTPInfo) (D : bytes) (complete : Prop) (r : option error) : Prop :=
  match r with
  | None => complete /\ exists infoBytes, (match info with Some i => HttpInfo.MarshalBinary i | None => Ok [] end) = Ok infoBytes /\
      fs_trace st' = fs_trace st ++ fragments D infoBytes
  | Some _ => headless st st'
  end.

Lemma commit_filling D tr0 info ctx st f vc st' f' :
  filling D tr0 info st f vc -> commit ctx st f = Some (st', f', None) ->
  cf_vc f' = None /\ exists infoBytes, (match info with Some i => HttpInfo.MarshalBinary i | None => Ok [] end) = Ok infoBytes /\
    fs_trace st' = tr0 ++ fragments D infoBytes.
Proof.
  intros [[V1 V2] [S1 S2] Hi _] E. unfold commit in E. rewrite V1 in E. unfold vcClose in E. cbn [vc_closed vc_writer] in E. rewrite V2 in E.
  destruct (Close _ _) as [[[st1 w1] e1]|] eqn:Ec; [|done]. cbn [mbind option_bind] in E. injection E as <- <- ->. split; [done|].
  destruct (Close_streaming D tr0 st (expire ctx (vc_writer vc)) st1 w1 (streaming_expire _ _ _ _ _ S1) ltac:(by rewrite (proj2 (expire_head ctx _))) Ec) as (ib & E1 & E2 & _).
  rewrite (proj1 (expire_head ctx _)), Hi in E1. exists ib. split; [done|]. by rewrite fk_release_law.
Qed.

(** Copying, then committing unless [stop] finds a reason not to. *)
Lemma copy_commit D0 info st f vc reads (stop : cacheFill -> option error) cctx e st' f' r :
  filling D0 (fs_trace st) info st f vc -> D0 = [] -> blen (bodyOf reads) < 2 ^ 63 ->
  withAbort e ('(st, f, x) ← copyBody st f reads;
               match x with
               | Some x => Some (st, f, Some x)
               | None => match stop f with Some x => Some (st, f, Some x) | None => commit cctx st f end
               end) = Some (st', f', r) ->
  stored_or_nothing st st' info (bodyOf reads) (bodyEnd reads = Some ErrEOF /\ exists f1, cf_written f1 = blen (bodyOf reads) /\ stop f1 = None) r.
Proof.
  intros F -> Hb E. assert (fill_unfinished f) as Hu.
  { destruct F as [[V1 V2] [S1 _] _ _]. intros vc' Hvc. rewrite V1 in Hvc. injection Hvc as <-. split; [done|]. right. apply (sm_next _ _ _ _ S1). }
  destruct (copyBody st f reads) as [[[st1 f1] x]|] eqn:Ec; [|done]. cbn [mbind option_bind] in E.
  destruct (copyBody_headless _ _ _ _ _ _ Ec Hu) as [Hh Hu1].
  assert (forall st2 f2 st3 f3, fillAbort st2 f2 e = Some (st3, f3) -> headless st2 st3) as Ha by (intros ? ? ? ? (? & _)%fillAbort_headless; done).
  assert (forall x1 P, withAbort e (Some (st1, f1, Some x1)) = Some (st', f', r) -> stored_or_nothing st st' info (bodyOf reads) P r) as Hfail.
  { intros x1 P Ex. unfold withAbort in Ex. cbn [mbind option_bind] in Ex. destruct (fillAbort st1 f1 e) as [[st2 f2]|] eqn:Ea; [|done].
    cbn in Ex. injection Ex as <- _ <-. cbn. eapply headless_trans; [exact Hh|by eapply Ha]. }
  destruct x as [x|]; [by apply (Hfail x)|]. destruct (stop f1) as [x|] eqn:Es; [by apply (Hfail x)|]. unfold withAbort in E.
  destruct (copyBody_filling [] (fs_trace st) info st f vc reads st1 f1 F Hb Ec) as (Hend & vc1 & F1). cbn [app] in F1.
  destruct (commit cctx st1 f1) as [[[st2 f2] r2]|] eqn:Ek; [|done]. cbn [mbind option_bind] in E.
  destruct (fillAbort st2 f2 e) as [[st3 f3]|] eqn:Ea; [|done]. cbn [mbind option_bind] in E. injection E as <- <- <-. destruct r2 as [r2|]; cbn.
  - eapply headless_trans; [exact Hh|]. eapply headless_trans; [by eapply commit_headless|by eapply Ha].
  - destruct (commit_filling _ _ _ _ _ _ _ _ _ F1 Ek) as (Hn & ib & E1 & E2). split; [split; [done|]; exists f1; split; [apply (fl_written _ _ _ _ _ _ F1)|done]|].
    exists ib. split; [done|]. unfold fillAbort in Ea. rewrite Hn in Ea. by injection Ea as <- _.
Qed.

Lemma filling_fresh w limit st tr : fresh_writer w -> tr = fs_trace st ->
  filling [] tr (w_info w) st (mkFill (Some (mkVC w false None)) limit 0 0 0 None) (mkVC w false None).
Proof. intros Hw ->. destruct (fresh_streaming st w Hw) as [S Hb]. by split. Qed.

Lemma copyBody_fresh_returns st w limit reads : sink_returns -> fresh_writer w -> bodyEnd reads <> None ->
  is_Some (copyBody st (mkFill (Some (mkVC w false None)) limit 0 0 0 None) reads).
Proof. intros HS (Hw & _) He. apply copyBody_returns; try done. intros vc [= <-]. right. cbn. by rewrite Hw. Qed.

Lemma withAbort_returns e x : sink_returns -> is_Some x -> is_Some (withAbort e x).
Proof. intros HS [[[st f] r] ->]. unfold withAbort. cbn [mbind option_bind]. destruct (fillAbort_returns st f e HS) as [[? ?] ->]. by eexists. Qed.

(** C7: a fill commits the complete body or nothing.  Both copying loops, with
    the deferred abort of their callers, for every way the origin cuts its
    body, every failure of the origin, the cache or a context: success means
    that the body ended cleanly, with exactly the announced length for a block,
    and that the fragments stored are those of the whole body with its
    metadata; after a failure no head was stored, so no reader finds the
    object.  The loops return when the body and the sink do. *)
Theorem fill_commits_complete st w info reads limit ctx cctx closed trailer e :
  fresh_writer w -> blen (bodyOf reads) < 2 ^ 63 ->
  let range := withAbort e (writeRangeObject st (reserve w 0) info reads limit ctx cctx) in
  let fetch := withAbort e (fetchBody st (reserve (set_w_info (Some info) w) limit) reads closed trailer ctx cctx) in
  (forall st' f' r, range = Some (st', f', r) ->
     stored_or_nothing st st' (Some info) (bodyOf reads) (bodyEnd reads = Some ErrEOF /\ blen (bodyOf reads) = limit /\ ctx = None) r) /\
  (forall st' f' r, fetch = Some (st', f', r) ->
     stored_or_nothing st st' (Some info) (bodyOf reads) (bodyEnd reads = Some ErrEOF /\ closed = None /\ trailer = false /\ ctx = None) r) /\
  (sink_returns -> bodyEnd reads <> None -> is_Some range /\ is_Some fetch).
Proof.
  intros Hw Hb. assert (fresh_writer (set_w_info (Some info) w)) as Hw' by exact Hw.
  assert (SetHTTPInfo st (mkVC w false None) info = (fs_ready st (set_w_info (Some info) w), mkVC (set_w_info (Some info) w) false None)) as Hset.
  { unfold SetHTTPInfo. cbn. destruct Hw as (_ & _ & _ & _ & -> & _). done. }
  unfold writeRangeObject, fetchBody, reserve. cbn [cf_vc]. rewrite Hset. cbn [cf_written cf_skipped cf_errors cf_err]. split_and!.
  - intros st' f' r E. assert (stored_or_nothing (fs_ready st (set_w_info (Some info) w)) st' (Some info) (bodyOf reads) (bodyEnd reads = Some ErrEOF /\ exists f1, cf_written f1 = blen (bodyOf reads) /\
      (if negb (cf_written f1 =? limit) then Some ErrUnexpectedEOF else ctx) = None) r) as X.
    { eapply (copy_commit [] (Some info) _ (mkFill (Some (mkVC (set_w_info (Some info) w) false None)) limit 0 0 0 None) _ reads (fun f1 => if negb (cf_written f1 =? limit) then Some ErrUnexpectedEOF else ctx) cctx e); [by apply (filling_fresh (set_w_info (Some info) w))|done|done|].
      rewrite <- E. f_equal. destruct (copyBody _ _ _) as [[[st1 f1] [x|]]|]; cbn; [done| |done]. destruct (_ =? _); done. }
    unfold stored_or_nothing in *. unfold headless in *. rewrite fs_ready_law in X. destruct r; [done|].
    destruct X as [(H1 & f1 & H2 & H3) X]. split; [|done]. split; [done|]. rewrite H2 in H3. destruct (_ =? limit) eqn:El; [|done]. b2p. done.
  - intros st' f' r E. assert (stored_or_nothing st st' (Some info) (bodyOf reads) (bodyEnd reads = Some ErrEOF /\ exists f1, cf_written f1 = blen (bodyOf reads) /\
      (match closed with Some x => Some x | None => if trailer then Some (Errorf "origin trailers cannot be shared") else ctx end) = None) r) as X.
    { eapply (copy_commit [] (Some info) _ (mkFill (Some (mkVC (set_w_info (Some info) w) false None)) limit 0 0 0 None) _ reads (fun _ => match closed with Some x => Some x | None => if trailer then Some (Errorf "origin trailers cannot be shared") else ctx end) cctx e);
        [by apply (filling_fresh (set_w_info (Some info) w))|done|done|].
      rewrite <- E. f_equal. destruct (copyBody _ _ _) as [[[st1 f1] [x|]]|]; cbn; [done| |done]. destruct closed; [done|]. by destruct trailer, ctx. }
    unfold stored_or_nothing in *. destruct r; [done|]. destruct X as [(H1 & f1 & _ & H3) X]. split; [|done]. destruct closed; [done|]. by destruct trailer.
  - intros HS He. split; apply withAbort_returns; try done.
    + destruct (copyBody_fresh_returns (fs_ready st (set_w_info (Some info) w)) (set_w_info (Some info) w) limit reads HS Hw' He) as [[[st1 f1] x] ->].
      cbn [mbind option_bind]. destruct x; [by eexists|]. destruct (negb _); [by eexists|]. destruct ctx; [by eexists|]. by apply commit_returns.
    + destruct (copyBody_fresh_returns st (set_w_info (Some info) w) limit reads HS Hw' He) as [[[st1 f1] x] ->].
      cbn [mbind option_bind]. destruct x; [by eexists|]. destruct closed; [by eexists|]. destruct trailer; [by eexists|]. destruct ctx; [by eexists|]. by apply commit_returns.
Qed.

End Fill.

(** ** The stripe as a sink of fills *)

Section StripeFill.
Context {R : Type} `{RamStore R} (rnd : nat -> nat).

#[export, refine] Instance stripe_fill_sink : FillSink (H := stripe_sink rnd) sink := {|
  fk_release k w := mkSink (set_s_open (OpenDir.Release (s_open (k_stripe k)) (w_key w) (w_od w)) (k_stripe k)) (k_sched k) (k_trace k) |}.
Proof. done. Defined.

End StripeFill.

(** ** A concrete fill *)

(** A body of three bytes in two reads, announced as such, into the stripe of
    [WriteRead]. *)
Definition reads3 : list bodyRead := [mkRead [1; 2] None None; mkRead [3] (Some ErrEOF) None].
Notation fill3 :=
  (withAbort (H0 := stripe_fill_sink noDraw) (Errorf "incomplete range object")
    (writeRangeObject (H0 := stripe_fill_sink noDraw) sink1 (reserve writer1 0) info1 reads3 3 None None)).

Lemma fill3_ok : exists k f, fill3 = Some (k, f, None).
Proof. eexists _, _. vm_compute. reflexivity. Qed.

Lemma fill_commits_complete_witness :
  exists k f, fill3 = Some (k, f, None) /\ k_trace k = fragments [1; 2; 3] infoBytes1.
Proof.
  destruct fill3_ok as (k & f & E). exists k, f. split; [exact E|].
  destruct (fill_commits_complete (H0 := stripe_fill_sink noDraw) sink1 writer1 info1 reads3 3 None None None false (Errorf "incomplete range object")) as (Hrange & _).
  - vm_compute. repeat split.
  - vm_compute. reflexivity.
  - destruct (Hrange k f None E) as (_ & ib & Hi & Ht).
    assert (ib = infoBytes1) as -> by (vm_compute in Hi; injection Hi as <-; reflexivity). exact Ht.
Defined.
