(* ===== verification/Store.v ===== *)
(** * Storage spans

    [cache/store.go]: the spans of the storage configuration, their sizes, and
    their division into stripes.  [None] stands for a loop that does not end
    within its fuel. *)

From S2P Require Import Prelude.

Record Span : Type := mkSpan { sp_path : bytes; sp_size : Z; sp_diskID : Z * Z }.

(** ** Sizes *)

Definition isSpace (c : Z) : bool := (c =? 32) || ((9 <=? c) && (c <=? 13)).
Fixpoint trimLeft (s : bytes) : bytes :=
  match s with [] => [] | c :: s' => if isSpace c then trimLeft s' else s end.
(** [strings.TrimSpace] on ASCII text. *)
Definition TrimSpace (s : bytes) : bytes := reverse (trimLeft (reverse (trimLeft s))).

Definition isDigit (c : Z) : bool := (48 <=? c) && (c <=? 57).

(** [strconv.ParseInt s 10 64]. *)
Fixpoint digits (acc : Z) (s : bytes) : option Z :=
  match s with [] => Some acc | c :: s => if isDigit c then digits (10 * acc + (c - 48)) s else None end.
Definition ParseInt (s : bytes) : result Z :=
  let '(neg, d) := match s with
                   | c :: s' => if c =? 45 then (true, s') else if c =? 43 then (false, s') else (false, s)
                   | [] => (false, [])
                   end in
  match d with
  | [] => Err (Errorf "invalid syntax")
  | _ => match digits 0 d with
         | None => Err (Errorf "invalid syntax")
         | Some v => let v := if neg : bool then - v else v in
                     if (v <? - 2 ^ 63) || (2 ^ 63 <=? v) then Err (Errorf "value out of range") else Ok v
         end
  end.

(** The multiplier of a suffix character. *)
Definition suffix (c : Z) : option Z :=
  if (c =? 75) || (c =? 107) then Some 1024
  else if (c =? 77) || (c =? 109) then Some (1024 * 1024)
  else if (c =? 71) || (c =? 103) then Some (1024 * 1024 * 1024)
  else if (c =? 84) || (c =? 116) then Some (1024 * 1024 * 1024 * 1024)
  else None.

Definition parseSize (s : bytes) : result Z :=
  let s := TrimSpace s in
  match reverse s with
  | [] => Err (Errorf "empty size")
  | lastChar :: _ =>
      if isDigit lastChar then v ← ParseInt s; Ok (i64 (v * 1))
      else match suffix lastChar with
      | None => Err (Errorf "unknown suffix")
      | Some m => v ← ParseInt (slice s 0 (blen s - 1)); Ok (i64 (v * m))
      end
  end.

(** ** Spans *)

(** What [os.Stat] reports about a path. *)
Inductive statResult : Type :=
  | NotExist
  | StatError
  | FileInfo (isDir : bool) (size dev ino : Z).

(** [InitSpan]; [abs] is what [filepath.Abs] returns. *)
Definition InitSpan (abs : result bytes) (stat : statResult) (size : Z) : result Span :=
  match abs with
  | Err _ => Err (Errorf "failed to resolve path")
  | Ok p =>
      match stat with
      | StatError => Err (Errorf "failed to stat")
      | NotExist => Ok (mkSpan p size (0, 0))
      | FileInfo true _ _ _ => Err (Errorf "directories not fully supported yet, specify a file path")
      | FileInfo false n dev ino => Ok (mkSpan p (if size <=? 0 then n else size) (u64 dev, u64 ino))
      end
  end.

(** [Store] and [AddSpan]. *)
Abbreviation Store := (list Span).
Definition AddSpan (s : Store) (sp : Span) : Store := s ++ [sp].

(** The arguments of one line of [ReadConfig] after the path: the first field
    without an equals sign is the size. *)
Fixpoint lineSize (fields : list bytes) (size : Z) : result Z :=
  match fields with
  | [] => Ok size
  | f :: fields =>
      if existsb (Z.eqb 61) f then lineSize fields size
      else if size =? -1 then
        match parseSize f with Err _ => Err (Errorf "invalid size") | Ok v => lineSize fields v end
      else lineSize fields size
  end.

(** ** The stripe layout *)

Record stripeSpec : Type := mkSpec { ss_path : bytes; ss_size : Z; ss_offset : Z }.

Definition totalSize (spans : Store) : Z := foldl (fun t sp => i64 (t + sp_size sp)) 0 spans.

(** The stripes a span gets at first: its share, at least one. *)
Definition portion (nStripes total : Z) (sp : Span) : Z :=
  let p := Z.quot (i64 (sp_size sp * nStripes)) total in if p =? 0 then 1 else p.

(** The first index with the greatest (with the least) size. *)
Fixpoint pick (better : Z -> Z -> bool) (l : list Span) (i best : nat) (size : Z) : nat :=
  match l with
  | [] => best
  | sp :: l => if better (sp_size sp) size then pick better l (S i) i (sp_size sp) else pick better l (S i) best size
  end.
Definition maxIdx (spans : Store) : nat :=
  match spans with [] => 0%nat | sp :: l => pick (fun a b => b <? a) l 1 0 (sp_size sp) end.
Definition smallIdx (spans : Store) : nat :=
  match spans with [] => 0%nat | sp :: l => pick Z.ltb l 1 0 (sp_size sp) end.

Definition bump (d : Z) (i : nat) (alloc : list Z) : list Z := alter (fun a => a + d) i alloc.

(** "Adjust to match exactly nStripes": the two loops. *)
Fixpoint growAlloc (fuel : nat) (spans : Store) (nStripes : Z) (alloc : list Z) (sum : Z) : option (list Z * Z) :=
  if sum <? nStripes then
    match fuel with
    | O => None
    | S fuel => growAlloc fuel spans nStripes (bump 1 (maxIdx spans) alloc) (sum + 1)
    end
  else Some (alloc, sum).

Fixpoint firstOver (alloc : list Z) (i : nat) : option nat :=
  match alloc with [] => None | a :: alloc => if 1 <? a then Some i else firstOver alloc (S i) end.

Fixpoint shrinkAlloc (fuel : nat) (spans : Store) (nStripes : Z) (alloc : list Z) (sum : Z) : option (list Z) :=
  if nStripes <? sum then
    match fuel with
    | O => None
    | S fuel =>
        match firstOver alloc 0 with
        | Some i => shrinkAlloc fuel spans nStripes (bump (-1) i alloc) (sum - 1)
        | None =>
            let i := smallIdx spans in
            if 0 <? nth i alloc 0 then shrinkAlloc fuel spans nStripes (bump (-1) i alloc) (sum - 1)
            else shrinkAlloc fuel spans nStripes alloc sum
        end
    end
  else Some alloc.

(** The stripes of one span; the flag says that [break outer] was taken. *)
Fixpoint emitSpan (nStripes : Z) (path : bytes) (base rem : Z) (js : list Z) (off : Z) (acc : list stripeSpec)
    : list stripeSpec * bool :=
  match js with
  | [] => (acc, false)
  | j :: js =>
      let chunk := if j <? rem then base + 1 else base in
      if chunk =? 0 then emitSpan nStripes path base rem js off acc
      else
        let acc := acc ++ [mkSpec path chunk off] in
        if Z.of_nat (length acc) =? nStripes then (acc, true)
        else emitSpan nStripes path base rem js (i64 (off + chunk)) acc
  end.

Fixpoint emit (nStripes : Z) (spans : Store) (alloc : list Z) (acc : list stripeSpec) : list stripeSpec :=
  match spans, alloc with
  | sp :: spans, k :: alloc =>
      if k <=? 0 then emit nStripes spans alloc acc
      else
        let '(acc, stop) := emitSpan nStripes (sp_path sp) (Z.quot (sp_size sp) k) (Z.rem (sp_size sp) k) (seqZ 0 k) 0 acc in
        if stop then acc else emit nStripes spans alloc acc
  | _, _ => acc
  end.

Definition sumAlloc (alloc : list Z) : Z := foldr Z.add 0 alloc.

Definition BuildStripeLayout (spans : Store) (nStripes : Z) : option (result (list stripeSpec)) :=
  if nStripes <=? 0 then Some (Err (Errorf "nStripes must be > 0"))
  else match spans with
  | [] => Some (Err (Errorf "no spans configured"))
  | _ =>
      if nStripes <? Z.of_nat (length spans) then Some (Err (Errorf "nStripes must be >= number of spans"))
      else
        let total := totalSize spans in
        if total =? 0 then Some (Err (Errorf "total span size is zero"))
        else
          let alloc := map (portion nStripes total) spans in
          let fuel := S (Z.to_nat (Z.abs (sumAlloc alloc) + nStripes)) in
          '(alloc, sum) ← growAlloc fuel spans nStripes alloc (sumAlloc alloc);
          alloc ← shrinkAlloc fuel spans nStripes alloc sum;
          let l := emit nStripes spans alloc [] in
          Some (if Z.of_nat (length l) <? nStripes then Err (Errorf "insufficient non-zero spans") else Ok l)
  end.

(** ** The layout tiles every span *)

(** [p] covers bytes [[off, stop)] of the file [path], in order, without gaps
    or overlaps. *)
Fixpoint contiguous (path : bytes) (off stop : Z) (p : list stripeSpec) : Prop :=
  match p with
  | [] => off = stop
  | x :: p => ss_path x = path /\ ss_offset x = off /\ 0 < ss_size x /\ contiguous path (off + ss_size x) stop p
  end.

(** The stripes of one span: they tile it and their sizes differ by at most
    one byte; a span that is not empty has some. *)
Definition tiles (sp : Span) (p : list stripeSpec) : Prop :=
  (0 < sp_size sp -> p <> []) /\ contiguous (sp_path sp) 0 (sp_size sp) p /\
  exists b, forall x, x ∈ p -> b <= ss_size x <= b + 1.

Lemma sumAlloc_bump d i alloc : (i < length alloc)%nat -> sumAlloc (bump d i alloc) = sumAlloc alloc + d.
Proof.
  revert i. induction alloc as [|a alloc IH]; intros i Hi; [cbn in Hi; lia|]. destruct i as [|i]; cbn; [lia|].
  cbn in Hi. specialize (IH i ltac:(lia)). unfold bump, sumAlloc in *. cbn. lia.
Qed.

Lemma length_bump d i alloc : length (bump d i alloc) = length alloc.
Proof. apply length_alter. Qed.

Lemma pick_lt better l i best size : (best < i)%nat -> (pick better l i best size < i + length l)%nat.
Proof.
  revert i best size. induction l as [|sp l IH]; intros i best size Hb; cbn; [lia|].
  destruct (better _ _); [pose proof (IH (S i) i (sp_size sp) ltac:(lia))|pose proof (IH (S i) best size ltac:(lia))]; lia.
Qed.

Lemma maxIdx_lt spans : spans <> [] -> (maxIdx spans < length spans)%nat.
Proof. destruct spans; [done|]. intros _. cbn. pose proof (pick_lt (fun a b => b <? a) spans 1 0 (sp_size s) ltac:(lia)). lia. Qed.

Lemma Forall_bump d i alloc : Forall (Z.le 1) alloc -> (forall a, alloc !! i = Some a -> 1 <= a + d) -> Forall (Z.le 1) (bump d i alloc).
Proof. intros H1 H2. unfold bump. apply Forall_alter; [done|]. intros a Ha _. by apply H2. Qed.

(** Growing ends with the exact count. *)
Lemma growAlloc_spec fuel spans n alloc sum :
  spans <> [] -> length alloc = length spans -> Forall (Z.le 1) alloc -> sum = sumAlloc alloc -> n - sum <= Z.of_nat fuel ->
  exists alloc' sum', growAlloc fuel spans n alloc sum = Some (alloc', sum') /\ length alloc' = length spans /\
    Forall (Z.le 1) alloc' /\ sum' = sumAlloc alloc' /\ sum' = Z.max n sum.
Proof.
  intros Hs. revert alloc sum. induction fuel as [|fuel IH]; intros alloc sum Hl Ha -> Hf; cbn [growAlloc].
  - destruct (_ <? n) eqn:E; b2p; [lia|]. exists alloc, (sumAlloc alloc). split_and!; try done. lia.
  - destruct (_ <? n) eqn:E; b2p; [|exists alloc, (sumAlloc alloc); split_and!; try done; lia].
    pose proof (maxIdx_lt spans Hs). assert (sumAlloc (bump 1 (maxIdx spans) alloc) = sumAlloc alloc + 1) as Hb by (apply sumAlloc_bump; lia).
    destruct (IH (bump 1 (maxIdx spans) alloc) (sumAlloc alloc + 1)) as (al & sm & -> & ? & ? & ? & ?); try lia.
    + by rewrite length_bump.
    + apply Forall_bump; [done|]. intros a Hi. rewrite Forall_lookup in Ha. specialize (Ha _ _ Hi). lia.
    + exists al, sm. split_and!; try done. lia.
Qed.

Lemma firstOver_spec alloc i :
  match firstOver alloc i with
  | Some k => exists a, (i <= k)%nat /\ alloc !! (k - i)%nat = Some a /\ 1 < a
  | None => Forall (fun a => a <= 1) alloc
  end.
Proof.
  revert i. induction alloc as [|a alloc IH]; intros i; cbn; [constructor|]. destruct (1 <? a) eqn:E; b2p.
  - exists a. split_and!; [lia| |done]. by rewrite Nat.sub_diag.
  - specialize (IH (S i)). destruct (firstOver alloc (S i)) as [k|].
    + destruct IH as (b & Hk & Hb & Hlt). exists b. split_and!; [lia| |done]. by replace (k - i)%nat with (S (k - S i)) by lia.
    + by constructor.
Qed.

Lemma sumAlloc_le alloc : Forall (fun a => a <= 1) alloc -> sumAlloc alloc <= Z.of_nat (length alloc).
Proof. unfold sumAlloc. induction 1; cbn [foldr length]; lia. Qed.

Lemma sumAlloc_ge alloc : Forall (Z.le 1) alloc -> Z.of_nat (length alloc) <= sumAlloc alloc.
Proof. unfold sumAlloc. induction 1; cbn [foldr length]; lia. Qed.

(** Shrinking ends with the exact count and leaves every span a stripe. *)
Lemma shrinkAlloc_spec fuel spans n alloc sum :
  length alloc = length spans -> Forall (Z.le 1) alloc -> sum = sumAlloc alloc -> Z.of_nat (length spans) <= n -> n <= sum ->
  sum - n <= Z.of_nat fuel ->
  exists alloc', shrinkAlloc fuel spans n alloc sum = Some alloc' /\ length alloc' = length spans /\ Forall (Z.le 1) alloc' /\ sumAlloc alloc' = n.
Proof.
  revert alloc sum. induction fuel as [|fuel IH]; intros alloc sum Hl Ha -> Hn Hge Hf; cbn [shrinkAlloc].
  - destruct (n <? _) eqn:E; b2p; [lia|]. exists alloc. split_and!; try done. lia.
  - destruct (n <? _) eqn:E; b2p; [|exists alloc; split_and!; try done; lia].
    pose proof (firstOver_spec alloc 0) as Hfo. destruct (firstOver alloc 0) as [k|].
    + destruct Hfo as (a & _ & Hk & Ha1). rewrite Nat.sub_0_r in Hk. pose proof (lookup_lt_Some _ _ _ Hk).
      assert (sumAlloc (bump (-1) k alloc) = sumAlloc alloc - 1) as Hb by (rewrite sumAlloc_bump; lia).
      apply IH; try lia; [by rewrite length_bump|]. apply Forall_bump; [done|]. intros a' Ha'. rewrite Hk in Ha'. injection Ha' as <-. lia.
    + apply sumAlloc_le in Hfo. lia.
Qed.

(** The inner loop emits the rest of the span; it stops only at the last
    stripe. *)
Lemma emitSpan_spec n path base rem m : forall k off stop acc,
  0 <= base -> 0 <= off -> stop < 2 ^ 63 -> stop = off + base * Z.of_nat m + Z.max 0 (Z.min (rem - k) (Z.of_nat m)) ->
  Z.of_nat (length acc) + Z.of_nat m <= n ->
  exists p, emitSpan n path base rem (seqZ k (Z.of_nat m)) off acc = (acc ++ p, negb (bool_decide (p = [])) && (Z.of_nat (length acc + length p) =? n)) /\
    (length p <= m)%nat /\ (0 < base -> length p = m) /\ contiguous path off stop p /\ forall x, x ∈ p -> base <= ss_size x <= base + 1.
Proof.
  induction m as [|m IH]; intros k off stop acc Hb Ho Hs Hstop Hacc.
  { exists []. cbn. rewrite app_nil_r. split_and!; [done|lia|done|lia|by intros x ?%elem_of_nil]. }
  rewrite seqZ_cons by lia. replace (Z.pred (Z.of_nat (S m))) with (Z.of_nat m) by lia. cbn [emitSpan]. set (chunk := if k <? rem then base + 1 else base).
  assert (base <= chunk <= base + 1 /\ chunk = base + Z.max 0 (Z.min (rem - k) 1)) as [Hc Hc'] by (unfold chunk; destruct (k <? rem) eqn:E; b2p; lia).
  clearbody chunk. rewrite Nat2Z.inj_succ, Z.mul_succ_r in Hstop. assert (0 <= base * Z.of_nat m) by nia. destruct (chunk =? 0) eqn:E0; b2p.
  { destruct (IH (Z.succ k) off stop acc) as (p & E & Hl & Hbl & Hct & Hsz); try done; [lia|lia|]. exists p. rewrite E. split_and!; [done|lia|lia|done|done]. }
  rewrite length_app. cbn [length]. destruct (Z.of_nat (length acc + 1) =? n) eqn:En; b2p.
  - assert (m = 0%nat) as -> by lia. exists [mkSpec path chunk off]. rewrite (bool_decide_eq_false_2 (_ = [])) by done. cbn [negb andb length].
    rewrite (proj2 (Z.eqb_eq _ _) En). split_and!; [done|lia|done|cbn; split_and!; try done; lia|]. intros x ->%list_elem_of_singleton. done.
  - rewrite i64_small by (unfold fits_i64; lia).
    destruct (IH (Z.succ k) (off + chunk) stop (acc ++ [mkSpec path chunk off])) as (p & E & Hl & Hbl & Hct & Hsz); try lia; [rewrite length_app; cbn; lia|].
    exists (mkSpec path chunk off :: p). rewrite E, <- app_assoc, length_app, (bool_decide_eq_false_2 (_ :: _ = [])) by done. cbn [app length negb andb]. split_and!.
    + f_equal. replace (length acc + 1 + length p)%nat with (length acc + S (length p))%nat by lia. case_bool_decide as Ep; [|done]. subst p. cbn [length negb andb]. symmetry. apply Z.eqb_neq. cbn [length]. lia.
    + lia.
    + intros H0. rewrite (Hbl H0). done.
    + cbn. split_and!; try done; lia.
    + intros x [->|Hx]%elem_of_cons; [cbn; lia|eauto].
Qed.

(** The outer loop emits every span. *)
Lemma emit_spec n spans alloc acc :
  length alloc = length spans -> Forall (Z.le 1) alloc -> Z.of_nat (length acc) + sumAlloc alloc <= n ->
  Forall (fun sp => 0 <= sp_size sp < 2 ^ 63) spans ->
  exists parts, emit n spans alloc acc = acc ++ mjoin parts /\ Forall2 tiles spans parts /\ Z.of_nat (length (acc ++ mjoin parts)) <= Z.of_nat (length acc) + sumAlloc alloc /\
    (Forall (fun sp => n <= sp_size sp) spans -> Z.of_nat (length (acc ++ mjoin parts)) = Z.of_nat (length acc) + sumAlloc alloc).
Proof.
  revert alloc acc. induction spans as [|sp spans IH]; intros [|k alloc] acc Hl Ha Hsum Hsp; try done.
  - exists []. cbn. rewrite app_nil_r. unfold sumAlloc. cbn. split_and!; [done|constructor|lia|lia].
  - apply Forall_cons in Ha as [Hk Ha]. apply Forall_cons in Hsp as [[Hn Hmax] Hsp]. cbn in Hl. injection Hl as Hl.
    change (sumAlloc (k :: alloc)) with (k + sumAlloc alloc) in *. pose proof (sumAlloc_ge alloc Ha).
    cbn [emit]. replace (k <=? 0) with false by lia. rewrite Z.quot_div_nonneg, Z.rem_mod_nonneg by lia.
    pose proof (Z.div_mod (sp_size sp) k ltac:(lia)) as Hdm. pose proof (Z.mod_pos_bound (sp_size sp) k ltac:(lia)) as Hmod.
    pose proof (Z.div_pos (sp_size sp) k Hn ltac:(lia)) as Hbase.
    destruct (emitSpan_spec n (sp_path sp) (sp_size sp / k) (sp_size sp mod k) (Z.to_nat k) 0 0 (sp_size sp) acc) as (p & E & Hp & Hpk & Hct & Hsz); try lia.
    rewrite Z2Nat.id in E by lia. rewrite E. assert (tiles sp p) as Ht.
    { split_and!; [|done|exists (sp_size sp / k); done]. intros H0 ->. cbn in Hct. lia. }
    assert (n <= sp_size sp -> length p = Z.to_nat k) as Hfull by (intros; apply Hpk, Z.div_str_pos; lia).
    destruct (negb _ && _) eqn:En; b2p.
    + assert (spans = [] /\ alloc = []) as [-> ->].
      { assert (length alloc = 0%nat) as Hz by lia. split; [|by destruct alloc]. destruct spans; [done|]. cbn in Hl. lia. }
      exists [p]. cbn. rewrite app_nil_r, length_app. split_and!; [done|constructor; [done|constructor]|lia|]. intros [Hf _]%Forall_cons. specialize (Hfull Hf). cbn in *. lia.
    + destruct (IH alloc (acc ++ p)) as (parts & -> & Hf & Hlen & Heq); try done.
      { rewrite length_app. lia. }
      exists (p :: parts). cbn [mjoin list_join]. rewrite app_assoc. split_and!; [done|by constructor|rewrite (length_app acc p) in Hlen; etransitivity; [exact Hlen|lia]|].
      intros [Hf1 Hf2]%Forall_cons. etransitivity; [exact (Heq Hf2)|]. rewrite length_app, (Hfull Hf1). lia.
Qed.

Lemma totalSize_spec spans t :
  Forall (fun sp => 0 <= sp_size sp) spans -> 0 <= t -> t + sumZ sp_size spans < 2 ^ 63 ->
  foldl (fun t sp => i64 (t + sp_size sp)) t spans = t + sumZ sp_size spans.
Proof.
  revert t. induction spans as [|sp spans IH]; intros t Hp Ht Hb; cbn; [lia|]. apply Forall_cons in Hp as [Hp Hps]. cbn in Hb.
  assert (0 <= sumZ sp_size spans) by (apply sumZ_nonneg; intros x Hx; rewrite Forall_forall in Hps; specialize (Hps x Hx); cbn in Hps; lia).
  rewrite i64_small by (unfold fits_i64; lia). rewrite IH by (done || lia). lia.
Qed.

(** C28: the stripe layout tiles the storage.  For spans of any sizes that are
    not negative and whose sum times the stripe count does not overflow, and a
    stripe count at least the number of spans, [BuildStripeLayout] ends.  When
    it succeeds it has made exactly [nStripes] stripes, and those of a span
    follow each other from its first byte to its last without gap or overlap,
    of positive sizes that differ by at most one byte; no stripe crosses a
    span boundary and no span that is not empty is left out.  It fails only
    when a span has fewer bytes than there are stripes. *)
Theorem stripe_layout_tiles spans nStripes :
  spans <> [] -> Z.of_nat (length spans) <= nStripes -> Forall (fun sp => 0 <= sp_size sp) spans ->
  sumZ sp_size spans * nStripes < 2 ^ 63 ->
  exists x, BuildStripeLayout spans nStripes = Some x /\
    match x with
    | Ok l => exists parts, l = mjoin parts /\ Forall2 tiles spans parts /\ Z.of_nat (length l) = nStripes
    | Err _ => exists sp, sp ∈ spans /\ sp_size sp < nStripes
    end.
Proof.
  intros Hne Hlen Hpos Hov. destruct spans as [|sp0 spans0]; [done|]. set (spans := sp0 :: spans0) in *.
  assert (0 < nStripes) as Hn by (cbn in Hlen; lia). rewrite Forall_forall in Hpos.
  assert (forall sp, sp ∈ spans -> sp_size sp <= sumZ sp_size spans) as Hle by (intros sp Hin; by apply sumZ_elem_le).
  assert (0 <= sumZ sp_size spans) as Htot0 by (by apply sumZ_nonneg).
  unfold BuildStripeLayout. replace (nStripes <=? 0) with false by lia. fold spans. replace (nStripes <? Z.of_nat (length spans)) with false by lia.
  unfold totalSize. rewrite totalSize_spec, Z.add_0_l by (by apply Forall_forall || nia).
  destruct (sumZ sp_size spans =? 0) eqn:E0; b2p.
  { eexists. split; [done|]. exists sp0. split; [set_solver|]. specialize (Hle sp0 ltac:(set_solver)). lia. }
  set (alloc := map (portion nStripes (sumZ sp_size spans)) spans).
  assert (Forall (Z.le 1) alloc) as Ha.
  { apply Forall_map, Forall_forall. intros sp Hin. unfold portion. specialize (Hle sp Hin). specialize (Hpos sp Hin). cbn in Hpos.
    rewrite i64_small by (unfold fits_i64; nia). rewrite Z.quot_div_nonneg by nia. pose proof (Z.div_pos (sp_size sp * nStripes) (sumZ sp_size spans) ltac:(nia) ltac:(lia)).
    destruct (_ =? 0) eqn:E; b2p; lia. }
  assert (length alloc = length spans) as Hl by apply length_map. pose proof (sumAlloc_ge alloc Ha) as Hge.
  set (fuel := S (Z.to_nat (Z.abs (sumAlloc alloc) + nStripes))).
  destruct (growAlloc_spec fuel spans nStripes alloc (sumAlloc alloc)) as (al & sm & -> & Hl1 & Ha1 & -> & Hs1); try done; [lia|]. cbn [mbind option_bind].
  destruct (shrinkAlloc_spec fuel spans nStripes al (sumAlloc al)) as (al2 & -> & Hl2 & Ha2 & Hs2); try done; [lia|lia|]. cbn [mbind option_bind].
  destruct (emit_spec nStripes spans al2 []) as (parts & -> & Hf & Hmost & Hfull); try done.
  { cbn [length]. lia. } { apply Forall_forall. intros sp Hin. specialize (Hle sp Hin). specialize (Hpos sp Hin). cbn in Hpos. nia. }
  cbn [app length] in *. eexists. split; [done|]. destruct (_ <? nStripes) eqn:Elast; b2p; [|exists parts; split_and!; [done|done|lia]].
  destruct (decide (Forall (fun sp => nStripes <= sp_size sp) spans)) as [Hall|Hex]; [specialize (Hfull Hall); lia|].
  apply not_Forall_Exists in Hex; [|apply _]. apply Exists_exists in Hex as (sp & Hin & Hsp). exists sp. split; [done|]. cbn in Hsp. lia.
Qed.

Definition spans2 : Store := [mkSpan [97] 1000 (0, 0); mkSpan [98] 10 (0, 0)].

Lemma stripe_layout_tiles_witness :
  BuildStripeLayout spans2 4 = Some (Ok [mkSpec [97] 334 0; mkSpec [97] 333 334; mkSpec [97] 333 667; mkSpec [98] 10 0]) /\
  exists parts, [mkSpec [97] 334 0; mkSpec [97] 333 334; mkSpec [97] 333 667; mkSpec [98] 10 0] = mjoin parts /\ Forall2 tiles spans2 parts.
Proof.
  destruct (stripe_layout_tiles spans2 4) as (x & E & Hx); [discriminate|vm_compute; congruence|repeat constructor; vm_compute; congruence|vm_compute; reflexivity|].
  assert (x = Ok [mkSpec [97] 334 0; mkSpec [97] 333 334; mkSpec [97] 333 667; mkSpec [98] 10 0]) as Ex by (vm_compute in E; injection E as <-; reflexivity).
  rewrite Ex in Hx. destruct Hx as (parts & E1 & H1 & _). split; [rewrite E, Ex; reflexivity|]. exists parts. split; [exact E1|exact H1].
Defined.

(** Without a size a path that does not exist gives a span of [-1] bytes, and
    the layout then has a stripe of [-1] bytes. *)
Lemma stripe_layout_negative :
  InitSpan (Ok [97]) NotExist (-1) = Ok (mkSpan [97] (-1) (0, 0)) /\
  BuildStripeLayout [mkSpan [97] (-1) (0, 0); mkSpan [98] 100 (0, 0)] 2 = Some (Ok [mkSpec [97] (-1) 0; mkSpec [98] 100 0]).
Proof. split; vm_compute; reflexivity. Qed.

(** Sizes above the range wrap around silently: 8388608 TiB is [- 2 ^ 63]. *)
Lemma parseSize_wraps : parseSize [56; 51; 56; 56; 54; 48; 56; 84] = Ok (- 2 ^ 63).
Proof. vm_compute. reflexivity. Qed.
