(* ===== verification/Budget.v ===== *)
(** * Work budgets

    [internal/budget/budget.go]: a limiter bounds the work in flight and the
    queue that waits for it with two buffered channels.  The atomic actions
    of [Acquire] and [TryAcquire] (one channel operation or context check
    each) are steps of a machine whose state is the two channels and the
    program counter of every caller; callers interleave freely. *)

From S2P Require Import Prelude.

(** A channel of empty structs: how many are buffered, and its capacity. *)
Record chan : Type := mkChan { c_len : Z; c_cap : Z }.

(** A send that would block is [None], and so is a receive. *)
Definition send (c : chan) : option chan := if c_len c <? c_cap c then Some (mkChan (c_len c + 1) (c_cap c)) else None.
Definition recv (c : chan) : option chan := if 0 <? c_len c then Some (mkChan (c_len c - 1) (c_cap c)) else None.

Record Limiter : Type := mkLimiter { l_slots : chan; l_queue : chan; l_rejected : Z }.

Definition New (active queued : Z) : Limiter := mkLimiter (mkChan 0 active) (mkChan 0 queued) 0.

Record Stats : Type := mkStats { InFlight : Z; Queued : Z; Rejected : Z }.
Definition stats (l : Limiter) : Stats := mkStats (c_len (l_slots l)) (c_len (l_queue l)) (l_rejected l).

Definition reject (l : Limiter) : Limiter := mkLimiter (l_slots l) (l_queue l) (u64 (l_rejected l + 1)).
Definition set_slots (c : chan) (l : Limiter) : Limiter := mkLimiter c (l_queue l) (l_rejected l).
Definition set_queue (c : chan) (l : Limiter) : Limiter := mkLimiter (l_slots l) c (l_rejected l).

(** Where a caller is. *)
Inductive pc : Type :=
  | AcquireEnter              (** at the first line of [Acquire] *)
  | AcquireTry                (** at the first [select] *)
  | AcquireQueue              (** at the [select] on the queue *)
  | AcquireWait               (** in the queue, at the last [select] *)
  | AcquireCheck              (** has taken a slot, re-checks the context *)
  | AcquireLeave (r : result unit)   (** returns [r], the deferred receive is due *)
  | TryEnter                  (** at the first line of [TryAcquire] *)
  | TrySlot                   (** at its [select] *)
  | Held                      (** has the release function, not yet called *)
  | Done (r : result unit).

(** The case the last [select] picks among those that are ready. *)
Inductive pick : Type := PickSlot | PickDone | PickTimer.

(** One action of a caller whose context reports [ctxErr]; [None] when the
    action blocks or the case is not ready. *)
Definition acquireStep (ctxErr : option error) (p : pick) (l : Limiter) (t : pc) : option (Limiter * pc) :=
  match t with
  | AcquireEnter => Some (l, match ctxErr with Some e => Done (Err e) | None => AcquireTry end)
  | AcquireTry =>
      match send (l_slots l) with
      | Some c => Some (set_slots c l, Held)
      | None => Some (l, AcquireQueue)
      end
  | AcquireQueue =>
      match send (l_queue l) with
      | Some c => Some (set_queue c l, AcquireWait)
      | None => Some (reject l, Done (Err ErrOverloaded))
      end
  | AcquireWait =>
      match p with
      | PickSlot => c ← send (l_slots l); Some (set_slots c l, AcquireCheck)
      | PickDone => e ← ctxErr; Some (l, AcquireLeave (Err e))
      | PickTimer => Some (reject l, AcquireLeave (Err ErrOverloaded))
      end
  | AcquireCheck =>
      match ctxErr with
      | Some e => c ← recv (l_slots l); Some (set_slots c l, AcquireLeave (Err e))
      | None => Some (l, AcquireLeave (Ok tt))
      end
  | AcquireLeave r => c ← recv (l_queue l); Some (set_queue c l, match r with Ok _ => Held | Err e => Done (Err e) end)
  | TryEnter => Some (l, match ctxErr with Some e => Done (Err e) | None => TrySlot end)
  | TrySlot =>
      match send (l_slots l) with
      | Some c => Some (set_slots c l, Held)
      | None => Some (l, Done (Err ErrOverloaded))
      end
  | Held => c ← recv (l_slots l); Some (set_slots c l, Done (Ok tt))
  | Done _ => None
  end.

(** ** The machine *)

Record system : Type := mkSystem { sys_l : Limiter; sys_callers : list pc }.

Inductive sys_step : system -> system -> Prop :=
  | sys_call l ts t : t = AcquireEnter \/ t = TryEnter -> sys_step (mkSystem l ts) (mkSystem l (ts ++ [t]))
  | sys_run l ts (i : nat) t ctxErr p l' t' :
      ts !! i = Some t -> acquireStep ctxErr p l t = Some (l', t') -> sys_step (mkSystem l ts) (mkSystem l' (<[i := t']> ts)).

Definition holdsSlot (t : pc) : Z :=
  match t with AcquireCheck | AcquireLeave (Ok _) | Held => 1 | _ => 0 end.
Definition holdsQueue (t : pc) : Z :=
  match t with AcquireWait | AcquireCheck | AcquireLeave _ => 1 | _ => 0 end.

(** The channels count their holders and stay within their capacities. *)
Definition inv (active queued : Z) (y : system) : Prop :=
  let l := sys_l y in
  c_cap (l_slots l) = active /\ c_cap (l_queue l) = queued /\
  c_len (l_slots l) = sumZ holdsSlot (sys_callers y) /\ c_len (l_queue l) = sumZ holdsQueue (sys_callers y) /\
  c_len (l_slots l) <= active /\ c_len (l_queue l) <= queued.

Lemma send_Some c c' : send c = Some c' -> c_len c < c_cap c /\ c' = mkChan (c_len c + 1) (c_cap c).
Proof. unfold send. destruct (_ <? _) eqn:E; [|done]. b2p. intros [= <-]. done. Qed.
Lemma recv_Some c c' : recv c = Some c' -> c' = mkChan (c_len c - 1) (c_cap c).
Proof. unfold recv. destruct (_ <? _); [|done]. intros [= <-]. done. Qed.

Lemma holds_range t : 0 <= holdsSlot t <= 1 /\ 0 <= holdsQueue t <= 1.
Proof. destruct t as [| | | | |[]| | | |]; cbn; lia. Qed.

(** What one action does to the channels matches what it does to the holder. *)
Lemma acquireStep_holds ctxErr p l t l' t' :
  acquireStep ctxErr p l t = Some (l', t') ->
  c_cap (l_slots l') = c_cap (l_slots l) /\ c_cap (l_queue l') = c_cap (l_queue l) /\
  c_len (l_slots l') = c_len (l_slots l) - holdsSlot t + holdsSlot t' /\
  c_len (l_queue l') = c_len (l_queue l) - holdsQueue t + holdsQueue t' /\
  (c_len (l_slots l) < c_len (l_slots l') -> c_len (l_slots l) < c_cap (l_slots l)) /\
  (c_len (l_queue l) < c_len (l_queue l') -> c_len (l_queue l) < c_cap (l_queue l)).
Proof.
  unfold acquireStep. intros E.
  destruct t as [| | | | |[[]|]| | | |]; repeat (case_match; simplify_option_eq); simplify_option_eq;
    repeat match goal with
    | H : send _ = Some _ |- _ => apply send_Some in H as [? ->]
    | H : recv _ = Some _ |- _ => apply recv_Some in H as ->
    end; cbn; split_and!; lia || done.
Qed.

Lemma sys_step_inv active queued y y' : inv active queued y -> sys_step y y' -> inv active queued y'.
Proof.
  intros I. destruct 1 as [l ts t Ht|l ts i t ctxErr p l' t' Hi E].
  - destruct I as (I1 & I2 & I3 & I4 & I5 & I6). cbn in *. unfold inv. cbn. rewrite !sumZ_app. cbn. destruct Ht as [-> | ->]; cbn; split_and!; lia.
  - destruct I as (I1 & I2 & I3 & I4 & I5 & I6). cbn in *. destruct (acquireStep_holds _ _ _ _ _ _ E) as (C1 & C2 & C3 & C4 & C5 & C6).
    pose proof (holds_range t). pose proof (holds_range t'). unfold inv. cbn. rewrite !(sumZ_list_insert _ _ _ _ _ Hi). split_and!; lia.
Qed.

Lemma sys_inv active queued y : 0 <= active -> 0 <= queued -> rtc sys_step (mkSystem (New active queued) []) y -> inv active queued y.
Proof.
  intros Ha Hq Hr. assert (inv active queued (mkSystem (New active queued) [])) as I by (unfold inv; cbn; lia).
  induction Hr as [|y1 y2 y3 Hs Hr IH]; [done|]. eauto using sys_step_inv.
Qed.

(** ** Properties *)

(** C19: in every interleaving of callers, the statistics of a limiter count
    exactly the callers that hold a slot and those that wait; neither exceeds
    its bound; giving a slot or a place in the queue back never blocks; and a
    caller that waits while fewer than [active] callers hold a slot can take
    one. *)
Theorem budget_bounds_work active queued y :
  0 <= active -> 0 <= queued -> rtc sys_step (mkSystem (New active queued) []) y ->
  let st := stats (sys_l y) in
  InFlight st = sumZ holdsSlot (sys_callers y) /\ Queued st = sumZ holdsQueue (sys_callers y) /\
  0 <= InFlight st <= active /\ 0 <= Queued st <= queued /\
  forall i t ctxErr, sys_callers y !! i = Some t ->
    (t = Held \/ t = AcquireCheck \/ (exists r, t = AcquireLeave r) -> is_Some (acquireStep ctxErr PickSlot (sys_l y) t)) /\
    (t = AcquireWait -> InFlight st < active -> exists l', acquireStep ctxErr PickSlot (sys_l y) t = Some (l', AcquireCheck)).
Proof.
  intros Ha Hq Hr. destruct (sys_inv _ _ _ Ha Hq Hr) as (I1 & I2 & I3 & I4 & I5 & I6). cbn zeta. unfold stats; cbn [InFlight Queued].
  assert (0 <= sumZ holdsSlot (sys_callers y) /\ 0 <= sumZ holdsQueue (sys_callers y)) as [N1 N2]
    by (split; apply sumZ_nonneg; intros t _; apply holds_range).
  split_and!; try lia. intros i t ctxErr Hi.
  pose proof (sumZ_holder holdsSlot _ _ _ (fun t => proj1 (proj1 (holds_range t))) Hi) as H1.
  pose proof (sumZ_holder holdsQueue _ _ _ (fun t => proj1 (proj2 (holds_range t))) Hi) as H2. split.
  - intros [-> | [-> | [r ->]]]; cbn in *; unfold recv.
    + replace (_ <? _) with true by lia. by eexists.
    + destruct ctxErr; [|by eexists]. replace (_ <? _) with true by lia. by eexists.
    + replace (_ <? _) with true by lia. by eexists.
  - intros -> Hlt. cbn. unfold send. replace (_ <? _) with true by lia. cbn. by eexists.
Qed.

(** A caller is admitted, one more waits for its slot, a third is turned
    away. *)
Definition busy : system :=
  mkSystem (mkLimiter (mkChan 1 1) (mkChan 1 1) 1) [Held; AcquireWait; Done (Err ErrOverloaded)].

Lemma busy_reachable : rtc sys_step (mkSystem (New 1 1) []) busy.
Proof.
  eapply rtc_l; [apply (sys_call _ _ AcquireEnter); by left|].
  eapply rtc_l; [apply (sys_run _ _ 0 AcquireEnter None PickSlot); reflexivity|].
  eapply rtc_l; [apply (sys_run _ _ 0 AcquireTry None PickSlot); reflexivity|].
  eapply rtc_l; [apply (sys_call _ _ AcquireEnter); by left|].
  eapply rtc_l; [apply (sys_run _ _ 1 AcquireEnter None PickSlot); reflexivity|].
  eapply rtc_l; [apply (sys_run _ _ 1 AcquireTry None PickSlot); reflexivity|].
  eapply rtc_l; [apply (sys_run _ _ 1 AcquireQueue None PickSlot); reflexivity|].
  eapply rtc_l; [apply (sys_call _ _ AcquireEnter); by left|].
  eapply rtc_l; [apply (sys_run _ _ 2 AcquireEnter None PickSlot); reflexivity|].
  eapply rtc_l; [apply (sys_run _ _ 2 AcquireTry None PickSlot); reflexivity|].
  eapply rtc_l; [apply (sys_run _ _ 2 AcquireQueue None PickSlot); reflexivity|]. apply rtc_refl.
Qed.

Lemma budget_bounds_work_witness : InFlight (stats (sys_l busy)) = 1 /\ Queued (stats (sys_l busy)) <= 1.
Proof.
  destruct (budget_bounds_work 1 1 busy ltac:(lia) ltac:(lia) busy_reachable) as (H1 & _ & _ & H2 & _).
  split; [exact H1|apply H2].
Defined.
