(* ===== verification/StripeLoop.v ===== *)
(** * The maintenance loop of a stripe

    [cache/stripe_sm.go]: a goroutine that flushes the write buffer and saves
    the stripe, periodically and on request.  A request puts a token into a
    channel of capacity one, and is dropped when one is pending.  The calls of
    [TriggerFlush], [TriggerSave] and [Stop] interleave freely with the loop. *)

From S2P Require Import Prelude Budget.

(** Where a loop is. *)
Inductive loopAt : Type := AtSelect | AtFlush | AtSave | Exited.

(** [sm_flushes] and [sm_saves] count the calls of [FlushAggBuffer] and
    [Save]; [sm_loops] are the loops started. *)
Record StripeSM : Type := mkSM { sm_flushCh : chan; sm_saveCh : chan; sm_cancelled : bool; sm_flushes : nat; sm_saves : nat; sm_loops : list loopAt }.

Definition NewStripeSM : StripeSM := mkSM (mkChan 0 1) (mkChan 0 1) false 0 0 [].

Definition Start (sm : StripeSM) : StripeSM := mkSM (sm_flushCh sm) (sm_saveCh sm) (sm_cancelled sm) (sm_flushes sm) (sm_saves sm) (sm_loops sm ++ [AtSelect]).

(** A [select] with a default case. *)
Definition offer (c : chan) : chan := default c (send c).
Definition TriggerFlush (sm : StripeSM) : StripeSM := mkSM (offer (sm_flushCh sm)) (sm_saveCh sm) (sm_cancelled sm) (sm_flushes sm) (sm_saves sm) (sm_loops sm).
Definition TriggerSave (sm : StripeSM) : StripeSM := mkSM (sm_flushCh sm) (offer (sm_saveCh sm)) (sm_cancelled sm) (sm_flushes sm) (sm_saves sm) (sm_loops sm).

(** [Stop] up to its wait, and what it waits for. *)
Definition stopCancel (sm : StripeSM) : StripeSM := mkSM (sm_flushCh sm) (sm_saveCh sm) true (sm_flushes sm) (sm_saves sm) (sm_loops sm).
Definition stopReturns (sm : StripeSM) : bool := sm_cancelled sm && forallb (fun l => match l with Exited => true | _ => false end) (sm_loops sm).

(** The case the [select] of [mainLoop] takes. *)
Inductive pick : Type := CtxDone | FlushTick | FlushRequest | SaveTick | SaveRequest.

(** One action of the loop [i]. *)
Definition loopStep (p : pick) (i : nat) (sm : StripeSM) : option StripeSM :=
  let goto l f s := mkSM f s (sm_cancelled sm) (sm_flushes sm) (sm_saves sm) (<[i := l]> (sm_loops sm)) in
  at_ ← sm_loops sm !! i;
  match at_ with
  | AtSelect =>
      match p with
      | CtxDone => if sm_cancelled sm then Some (goto Exited (sm_flushCh sm) (sm_saveCh sm)) else None
      | FlushTick => Some (goto AtFlush (sm_flushCh sm) (sm_saveCh sm))
      | FlushRequest => c ← recv (sm_flushCh sm); Some (goto AtFlush c (sm_saveCh sm))
      | SaveTick => Some (goto AtSave (sm_flushCh sm) (sm_saveCh sm))
      | SaveRequest => c ← recv (sm_saveCh sm); Some (goto AtSave (sm_flushCh sm) c)
      end
  | AtFlush => Some (mkSM (sm_flushCh sm) (sm_saveCh sm) (sm_cancelled sm) (S (sm_flushes sm)) (sm_saves sm) (<[i := AtSelect]> (sm_loops sm)))
  | AtSave => Some (mkSM (sm_flushCh sm) (sm_saveCh sm) (sm_cancelled sm) (sm_flushes sm) (S (sm_saves sm)) (<[i := AtSelect]> (sm_loops sm)))
  | Exited => None
  end.

Inductive sm_step : StripeSM -> StripeSM -> Prop :=
  | sm_flush sm : sm_step sm (TriggerFlush sm)
  | sm_save sm : sm_step sm (TriggerSave sm)
  | sm_stop sm : sm_step sm (stopCancel sm)
  | sm_loop p i sm sm' : loopStep p i sm = Some sm' -> sm_step sm sm'.

(** ** Lemmas *)

(** A request made after [n] calls is pending, being served, or was served. *)
Definition flushDue (n : nat) (sm : StripeSM) : Prop := (n <= sm_flushes sm)%nat /\ (0 < c_len (sm_flushCh sm) \/ AtFlush ∈ sm_loops sm \/ (n < sm_flushes sm)%nat).
Definition saveDue (n : nat) (sm : StripeSM) : Prop := (n <= sm_saves sm)%nat /\ (0 < c_len (sm_saveCh sm) \/ AtSave ∈ sm_loops sm \/ (n < sm_saves sm)%nat).

Lemma recv_inv c c' : recv c = Some c' -> 0 < c_len c /\ c' = mkChan (c_len c - 1) (c_cap c).
Proof. unfold recv. destruct (0 <? c_len c) eqn:E; [|done]. b2p. by intros [= <-]. Qed.

(** The channels are those of [NewStripeSM]. *)
Definition chans (sm : StripeSM) : Prop := (c_cap (sm_flushCh sm) = 1 /\ 0 <= c_len (sm_flushCh sm) <= 1) /\ (c_cap (sm_saveCh sm) = 1 /\ 0 <= c_len (sm_saveCh sm) <= 1).

Lemma offer_chan c : c_cap c = 1 -> 0 <= c_len c <= 1 -> c_cap (offer c) = 1 /\ c_len (offer c) = 1.
Proof. intros Hc Hl. unfold offer, send. rewrite Hc. destruct (c_len c <? 1) eqn:E; b2p; cbn; lia. Qed.

Lemma moved l l' (ls : list loopAt) (i : nat) : ls !! i = Some l -> l' ∈ ls -> l' <> l -> forall x, l' ∈ <[i := x]> ls.
Proof.
  intros Hi [j Hj]%list_elem_of_lookup Hne x. apply list_elem_of_lookup. exists j. rewrite list_lookup_insert_ne; [done|]. intros ->. congruence.
Qed.
Lemma arrived (ls : list loopAt) (i : nat) l x : ls !! i = Some l -> x ∈ <[i := x]> ls.
Proof. intros Hi. apply list_elem_of_lookup. exists i. apply list_lookup_insert_eq. by eapply lookup_lt_Some. Qed.

Lemma step_keeps n m sm sm' : sm_step sm sm' -> chans sm -> chans sm' /\ (flushDue n sm -> flushDue n sm') /\ (saveDue m sm -> saveDue m sm').
Proof.
  intros St (F & S). destruct F as [F1 F2], S as [S1 S2]. unfold flushDue, saveDue. destruct St as [sm|sm|sm|p i sm sm' E].
  - destruct (offer_chan _ F1 F2) as [O1 O2]. split_and!; [split; cbn; lia| |done]. intros [? _]. split; [done|]. left. cbn. lia.
  - destruct (offer_chan _ S1 S2) as [O1 O2]. split_and!; [split; cbn; lia|done|]. intros [? _]. split; [done|]. left. cbn. lia.
  - by split_and!.
  - unfold loopStep in E. destruct (sm_loops sm !! i) as [l|] eqn:Ei; [|done]. cbn [mbind option_bind] in E.
    pose proof (fun y x => moved _ y _ _ Ei x) as Hm.
    destruct l; [destruct p| | |done].
    + destruct (sm_cancelled sm); [|done]. injection E as <-. split_and!; [by split|..]; cbn; naive_solver.
    + injection E as <-. split_and!; [by split|..]; cbn; naive_solver.
    + destruct (recv (sm_flushCh sm)) as [c|] eqn:Er; [|done]. injection E as <-. apply recv_inv in Er as [Hr ->].
      pose proof (arrived _ _ _ AtFlush Ei). split_and!; [split; cbn; lia|cbn; naive_solver..].
    + injection E as <-. split_and!; [by split|..]; cbn; naive_solver.
    + destruct (recv (sm_saveCh sm)) as [c|] eqn:Er; [|done]. injection E as <-. apply recv_inv in Er as [Hr ->].
      pose proof (arrived _ _ _ AtSave Ei). split_and!; [split; cbn; lia|cbn; naive_solver..].
    + injection E as <-. split_and!; [by split|..]; cbn; [intros [? _]; split; [lia|]; right; right; lia|naive_solver].
    + injection E as <-. split_and!; [by split|..]; cbn; [naive_solver|intros [? _]; split; [lia|]; right; right; lia].
Qed.

Lemma run_keeps n m sm sm' : rtc sm_step sm sm' -> chans sm -> chans sm' /\ (flushDue n sm -> flushDue n sm') /\ (saveDue m sm -> saveDue m sm').
Proof.
  induction 1 as [|sm a sm' St _ IH]; [done|]. intros H. destruct (step_keeps n m _ _ St H) as (H1 & ? & ?). destruct (IH H1) as (? & ? & ?). naive_solver.
Qed.

(** What holds once [Stop] has returned. *)
Definition stopped (f s : nat) (sm : StripeSM) : Prop := stopReturns sm = true /\ sm_flushes sm = f /\ sm_saves sm = s.

Lemma step_stopped f s sm sm' : sm_step sm sm' -> stopped f s sm -> stopped f s sm'.
Proof.
  intros St (R & Hf & Hs). pose proof R as [C L]%andb_true_iff. destruct St as [sm|sm|sm|p i sm sm' E]; try by (split_and!; [|done..]; unfold stopReturns; cbn; rewrite ?C, L).
  unfold loopStep in E. destruct (sm_loops sm !! i) as [l|] eqn:Ei; [|done]. cbn [mbind option_bind] in E. rewrite forallb_forall in L.
  specialize (L l). destruct l; [..|done]; exfalso; cut (false = true); [done| |done| |done|]; apply L, list_elem_of_In; by eapply list_elem_of_lookup_2.
Qed.

(** A loop that a request waits for serves it: the loop [i] finishes what it
    does, takes the request and calls the operation. *)
Definition ready (l : loopAt) (i : nat) (sm : StripeSM) : Prop := sm_loops sm !! i = Some l.

Lemma at_select i sm l : ready l i sm -> l <> Exited -> exists sm', rtc sm_step sm sm' /\ ready AtSelect i sm' /\ sm_flushCh sm' = sm_flushCh sm /\ sm_saveCh sm' = sm_saveCh sm /\ sm_cancelled sm' = sm_cancelled sm /\ (sm_flushes sm <= sm_flushes sm')%nat /\ (sm_saves sm <= sm_saves sm')%nat.
Proof.
  intros H Hl. pose proof (lookup_lt_Some _ _ _ H). destruct l; [| | |done].
  - exists sm. split_and!; [constructor|done..].
  - eexists. split_and!; [eapply rtc_once, (sm_loop FlushTick i); unfold loopStep; rewrite H; reflexivity| |cbn; first [reflexivity|lia]..]; by apply list_lookup_insert_eq.
  - eexists. split_and!; [eapply rtc_once, (sm_loop FlushTick i); unfold loopStep; rewrite H; reflexivity| |cbn; first [reflexivity|lia]..]; by apply list_lookup_insert_eq.
Qed.

Lemma serves i sm l : ready l i sm -> l <> Exited ->
  (0 < c_len (sm_flushCh sm) -> exists sm', rtc sm_step sm sm' /\ (sm_flushes sm < sm_flushes sm')%nat) /\
  (0 < c_len (sm_saveCh sm) -> exists sm', rtc sm_step sm sm' /\ (sm_saves sm < sm_saves sm')%nat) /\
  (sm_cancelled sm = true -> exists sm', rtc sm_step sm sm' /\ ready Exited i sm').
Proof.
  intros H Hl. destruct (at_select i sm l H Hl) as (a & Ra & Ha & Ef & Es & Ec & Nf & Ns). pose proof (lookup_lt_Some _ _ _ Ha) as La.
  split_and!; intros Hp.
  - destruct (recv (sm_flushCh a)) as [c|] eqn:Er; [|unfold recv in Er; rewrite Ef in Er; destruct (0 <? c_len (sm_flushCh sm)) eqn:E; b2p; [done|lia]].
    eexists. split; [eapply rtc_r; [eapply rtc_r; [exact Ra|]|]|].
    + apply (sm_loop FlushRequest i). unfold loopStep. rewrite Ha. cbn [mbind option_bind]. rewrite Er. reflexivity.
    + apply (sm_loop FlushRequest i). unfold loopStep. cbn [sm_loops]. rewrite list_lookup_insert_eq by done. reflexivity.
    + cbn. lia.
  - destruct (recv (sm_saveCh a)) as [c|] eqn:Er; [|unfold recv in Er; rewrite Es in Er; destruct (0 <? c_len (sm_saveCh sm)) eqn:E; b2p; [done|lia]].
    eexists. split; [eapply rtc_r; [eapply rtc_r; [exact Ra|]|]|].
    + apply (sm_loop SaveRequest i). unfold loopStep. rewrite Ha. cbn [mbind option_bind]. rewrite Er. reflexivity.
    + apply (sm_loop SaveRequest i). unfold loopStep. cbn [sm_loops]. rewrite list_lookup_insert_eq by done. reflexivity.
    + cbn. lia.
  - eexists. split; [eapply rtc_r; [exact Ra|]|].
    + apply (sm_loop CtxDone i). unfold loopStep. rewrite Ha. cbn [mbind option_bind]. rewrite Ec, Hp. reflexivity.
    + by apply list_lookup_insert_eq.
Qed.

(** ** What the loop promises *)

(** For every state [sm] of a started stripe machine: each channel holds at
    most one request; a flush (a save) requested in [sm] is pending, running or
    done in every later state, so coalesced requests are never lost, and while
    the loop has not exited it can serve it; once [Stop] has returned no flush
    or save runs any more, and a loop that was cancelled can exit. *)
Theorem maintenance_requests_kept (sm sm' : StripeSM) (Reach : rtc sm_step (Start NewStripeSM) sm) :
  chans sm /\
  (rtc sm_step (TriggerFlush sm) sm' -> flushDue (sm_flushes sm) sm') /\
  (rtc sm_step (TriggerSave sm) sm' -> saveDue (sm_saves sm) sm') /\
  (stopReturns sm = true -> rtc sm_step sm sm' -> stopReturns sm' = true /\ sm_flushes sm' = sm_flushes sm /\ sm_saves sm' = sm_saves sm) /\
  (forall i l, sm_loops sm !! i = Some l -> l <> Exited ->
    (0 < c_len (sm_flushCh sm) -> exists z, rtc sm_step sm z /\ (sm_flushes sm < sm_flushes z)%nat) /\
    (0 < c_len (sm_saveCh sm) -> exists z, rtc sm_step sm z /\ (sm_saves sm < sm_saves z)%nat) /\
    (sm_cancelled sm = true -> exists z, rtc sm_step sm z /\ sm_loops z !! i = Some Exited)).
Proof.
  destruct (run_keeps 0 0 _ _ Reach ltac:(by vm_compute)) as (Hc & _). pose proof Hc as [[F1 F2] [S1 S2]]. split_and!; [done|..].
  - intros R. destruct (step_keeps 0 0 _ _ (sm_flush sm) Hc) as (Ha & _). apply (run_keeps _ 0 _ _ R Ha).
    destruct (offer_chan _ F1 F2). split; cbn; lia.
  - intros R. destruct (step_keeps 0 0 _ _ (sm_save sm) Hc) as (Ha & _). apply (run_keeps 0 _ _ _ R Ha).
    destruct (offer_chan _ S1 S2). split; cbn; lia.
  - intros Hs R. assert (stopped (sm_flushes sm) (sm_saves sm) sm) as H by done. revert H. generalize (sm_flushes sm) (sm_saves sm). clear -R.
    induction R as [|x y z St _ IH]; [done|]. intros f s H. by eapply IH, step_stopped.
  - intros i l Hi Hl. by apply (serves i sm l).
Qed.
