(* ===== verification/ResponseBuffers.v ===== *)
(** * The response buffer pool

    [server/response_buffers.go]: responses are streamed through buffers of
    256 KiB, and a request that finds the pool exhausted waits for a release.
    The counters are atomic variables and the wake-up is a channel that is
    closed and replaced under a mutex, so the model is a step relation: any
    number of callers, each at one of the atomic actions of [acquire] and
    [release], in any interleaving. *)

From S2P Require Import Prelude.

Definition responseBufferSize : Z := Z.shiftl 256 10.

(** [bp_changed] is the number of channels that [changed] held before the
    present one; a channel is closed when it is replaced.  The buffers
    themselves are interchangeable: [sync.Pool] returns one or makes one. *)
Record responseBufferPool : Type := mkPool {
  bp_capacity : Z; bp_totalAllocated : Z; bp_inUse : Z; bp_locked : bool; bp_changed : nat; bp_waiters : Z }.

Definition set_bp_totalAllocated (v : Z) (p : responseBufferPool) : responseBufferPool :=
  mkPool (bp_capacity p) v (bp_inUse p) (bp_locked p) (bp_changed p) (bp_waiters p).
Definition set_bp_inUse (v : Z) (p : responseBufferPool) : responseBufferPool :=
  mkPool (bp_capacity p) (bp_totalAllocated p) v (bp_locked p) (bp_changed p) (bp_waiters p).
Definition set_bp_locked (v : bool) (p : responseBufferPool) : responseBufferPool :=
  mkPool (bp_capacity p) (bp_totalAllocated p) (bp_inUse p) v (bp_changed p) (bp_waiters p).
Definition set_bp_changed (v : nat) (p : responseBufferPool) : responseBufferPool :=
  mkPool (bp_capacity p) (bp_totalAllocated p) (bp_inUse p) (bp_locked p) v (bp_waiters p).
Definition set_bp_waiters (v : Z) (p : responseBufferPool) : responseBufferPool :=
  mkPool (bp_capacity p) (bp_totalAllocated p) (bp_inUse p) (bp_locked p) (bp_changed p) v.

Definition newResponseBufferPool (requests : Z) : responseBufferPool :=
  mkPool (i64 (requests * responseBufferSize)) 0 0 false 0 0.

(** Where a caller is: the action it does next. *)
Inductive at_ : Type :=
  | ACheck                       (** [ctx.Err()], the top of the loop *)
  | ALoad                        (** [p.inUse.Load()] *)
  | ACas (active : Z)            (** [CompareAndSwap(active, ...)] *)
  | AGet                         (** [p.buffers.Get()] *)
  | ALock                        (** [p.mu.Lock()] *)
  | ARecheck                     (** [p.inUse.Load()] under the lock *)
  | AUnlock                      (** [p.mu.Unlock()], then the loop again *)
  | AChanged                     (** [changed := p.changed] *)
  | ARegister (ch : nat)         (** [p.waiters.Add(1)] *)
  | AUnlockWait (ch : nat)       (** [p.mu.Unlock()] *)
  | AWait (ch : nat)             (** the [select] *)
  | ALeave (e : option error)    (** [p.waiters.Add(-1)] *)
  | Holding                      (** has a buffer, [release] not yet called *)
  | RPut                         (** [p.buffers.Put(buffer)] *)
  | RSub                         (** [p.inUse.Add(-responseBufferSize)] *)
  | RLoad                        (** [p.waiters.Load()] *)
  | RLock                        (** [p.mu.Lock()] *)
  | RClose                       (** [close(p.changed)] and the new channel *)
  | RUnlock                      (** [p.mu.Unlock()] *)
  | Finished (r : result unit).

Definition lock (p : responseBufferPool) : option responseBufferPool :=
  if bp_locked p then None else Some (set_bp_locked true p).

(** [acquire]: one action of a caller whose context reports [ctxErr]; [fresh]
    is whether the pool makes a buffer, [done] whether the [select] takes the
    case of the context.  [None] when the action blocks. *)
Definition acquire (ctxErr : option error) (fresh done : bool) (p : responseBufferPool) (t : at_) : option (responseBufferPool * at_) :=
  match t with
  | ACheck => Some (p, match ctxErr with Some e => Finished (Err e) | None => ALoad end)
  | ALoad => Some (p, if bp_inUse p <? bp_capacity p then ACas (bp_inUse p) else ALock)
  | ACas active =>
      if bp_inUse p =? active then Some (set_bp_inUse (i64 (active + responseBufferSize)) p, AGet) else Some (p, ACheck)
  | AGet => Some (if fresh then set_bp_totalAllocated (i64 (bp_totalAllocated p + responseBufferSize)) p else p, Holding)
  | ALock => p ← lock p; Some (p, ARecheck)
  | ARecheck => Some (p, if bp_inUse p <? bp_capacity p then AUnlock else AChanged)
  | AUnlock => Some (set_bp_locked false p, ACheck)
  | AChanged => Some (p, ARegister (bp_changed p))
  | ARegister ch => Some (set_bp_waiters (i64 (bp_waiters p + 1)) p, AUnlockWait ch)
  | AUnlockWait ch => Some (set_bp_locked false p, AWait ch)
  | AWait ch =>
      if done then e ← ctxErr; Some (p, ALeave (Some e))
      else if (ch <? bp_changed p)%nat then Some (p, ALeave None) else None
  | ALeave e => Some (set_bp_waiters (i64 (bp_waiters p - 1)) p, match e with Some e => Finished (Err e) | None => ACheck end)
  | _ => None
  end.

(** [release] of a buffer that is held. *)
Definition release (p : responseBufferPool) (t : at_) : option (responseBufferPool * at_) :=
  match t with
  | Holding => Some (p, RPut)
  | RPut => Some (p, RSub)
  | RSub => Some (set_bp_inUse (i64 (bp_inUse p - responseBufferSize)) p, RLoad)
  | RLoad => Some (p, if 0 <? bp_waiters p then RLock else Finished (Ok tt))
  | RLock => p ← lock p; Some (p, RClose)
  | RClose => Some (set_bp_changed (S (bp_changed p)) p, RUnlock)
  | RUnlock => Some (set_bp_locked false p, Finished (Ok tt))
  | _ => None
  end.

Definition bufferStep (ctxErr : option error) (fresh done : bool) (p : responseBufferPool) (t : at_) : option (responseBufferPool * at_) :=
  match acquire ctxErr fresh done p t with Some x => Some x | None => release p t end.

Record pooled : Type := mkPooled { po_pool : responseBufferPool; po_callers : list at_ }.

Inductive po_step : pooled -> pooled -> Prop :=
  | po_call p ts : po_step (mkPooled p ts) (mkPooled p (ts ++ [ACheck]))
  | po_run p ts (i : nat) t ctxErr fresh done p' t' :
      ts !! i = Some t -> bufferStep ctxErr fresh done p t = Some (p', t') -> po_step (mkPooled p ts) (mkPooled p' (<[i := t']> ts)).

(** ** The invariant *)

(** The callers that count against the capacity, that are registered as
    waiters, and that hold the mutex. *)
Definition uses (t : at_) : Z := match t with AGet | Holding | RPut | RSub => 1 | _ => 0 end.
Definition waits (t : at_) : Z := match t with AUnlockWait _ | AWait _ | ALeave _ => 1 | _ => 0 end.
Definition locks (t : at_) : Z :=
  match t with ARecheck | AUnlock | AChanged | ARegister _ | AUnlockWait _ | RClose | RUnlock => 1 | _ => 0 end.

(** The channel a caller waits for. *)
Definition channelOf (t : at_) : option nat := match t with ARegister ch | AUnlockWait ch | AWait ch => Some ch | _ => None end.
Definition casOf (t : at_) : option Z := match t with ACas active => Some active | _ => None end.

Record pool_inv (requests : Z) (y : pooled) : Prop := {
  pi_capacity : bp_capacity (po_pool y) = requests * responseBufferSize;
  pi_uses : bp_inUse (po_pool y) = sumZ uses (po_callers y) * responseBufferSize;
  pi_bound : sumZ uses (po_callers y) <= requests;
  pi_waits : bp_waiters (po_pool y) = i64 (sumZ waits (po_callers y));
  pi_locks : sumZ locks (po_callers y) = if bp_locked (po_pool y) then 1 else 0;
  pi_cas : forall t active, t ∈ po_callers y -> casOf t = Some active -> active < bp_capacity (po_pool y);
  pi_channels : forall t ch, t ∈ po_callers y -> channelOf t = Some ch -> (ch <= bp_changed (po_pool y))%nat }.

Lemma uses_range t : 0 <= uses t <= 1 /\ 0 <= waits t <= 1 /\ 0 <= locks t <= 1.
Proof. destruct t; cbn; lia. Qed.

Lemma i64_add a b : i64 (i64 a + b) = i64 (a + b).
Proof. unfold i64. replace ((a + 2 ^ 63) mod 2 ^ 64 - 2 ^ 63 + b + 2 ^ 63) with ((a + 2 ^ 63) mod 2 ^ 64 + b) by lia. rewrite Zplus_mod_idemp_l. do 2 f_equal. lia. Qed.

(** What one action does to the counters and the mutex is what it does to the
    caller. *)
Lemma bufferStep_counts ctxErr fresh done p t p' t' :
  bufferStep ctxErr fresh done p t = Some (p', t') -> fits_i64 (bp_inUse p + responseBufferSize) -> fits_i64 (bp_inUse p - responseBufferSize) ->
  bp_capacity p' = bp_capacity p /\
  bp_inUse p' = bp_inUse p + (uses t' - uses t) * responseBufferSize /\
  bp_waiters p' = (if waits t' =? waits t then bp_waiters p else i64 (bp_waiters p + (waits t' - waits t))) /\
  (if bp_locked p' then 1 else 0) = (if bp_locked p then 1 else 0) + locks t' - locks t + (if (locks t =? 1) && (locks t' =? 0) && negb (bp_locked p) then 1 else 0) /\
  (bp_changed p <= bp_changed p')%nat /\
  (forall active, casOf t' = Some active -> active < bp_capacity p) /\
  (forall ch, channelOf t' = Some ch -> ch = bp_changed p \/ channelOf t = Some ch) /\
  (uses t' = 1 -> uses t = 0 -> casOf t = Some (bp_inUse p)).
Proof.
  unfold bufferStep. intros E F1 F2.
  destruct t; cbn [acquire release lock] in E; unfold lock in E; repeat case_match; simplify_option_eq; cbn; split_and!; intros; simplify_eq; b2p;
    rewrite ?i64_small by done; auto; try lia; try congruence.
  all: subst active; rewrite i64_small by done; lia.
Qed.

Lemma pool_step_inv requests y y' : 0 <= requests < 2 ^ 44 -> pool_inv requests y -> po_step y y' -> pool_inv requests y'.
Proof.
  intros Hq I. destruct 1 as [p ts|p ts i t ctxErr fresh done p' t' Hi E]; destruct I as [I1 I2 I3 I4 I5 I6 I7]; cbn [po_pool po_callers] in *.
  { split; cbn [po_pool po_callers]; rewrite ?sumZ_app; cbn [sumZ uses waits locks]; rewrite ?Z.add_0_r; try done.
    - intros t active Ht Hc. apply elem_of_app in Ht as [Ht|Ht%list_elem_of_singleton]; [eauto|by subst].
    - intros t ch Ht Hc. apply elem_of_app in Ht as [Ht|Ht%list_elem_of_singleton]; [eauto|by subst]. }
  assert (0 <= sumZ uses ts) as Hpos by (apply sumZ_nonneg; intros; apply uses_range).
  assert (fits_i64 (bp_inUse p + responseBufferSize) /\ fits_i64 (bp_inUse p - responseBufferSize)) as [F1 F2].
  { unfold fits_i64. rewrite I2. change responseBufferSize with 262144. lia. }
  destruct (bufferStep_counts _ _ _ _ _ _ _ E F1 F2) as (C1 & C2 & C3 & C4 & C5 & C6 & C7 & C8).
  pose proof (uses_range t) as Rt. pose proof (uses_range t') as Rt'. pose proof (list_elem_of_lookup_2 _ _ _ Hi) as Hin.
  pose proof (sumZ_holder locks ts i t (fun t => proj1 (proj2 (proj2 (uses_range t)))) Hi) as Hl.
  split; cbn [po_pool po_callers]; rewrite ?(sumZ_list_insert _ _ _ _ _ Hi).
  - by rewrite C1.
  - rewrite C2, I2. lia.
  - destruct (decide (uses t' = 1 /\ uses t = 0)) as [[U1 U2]|]; [|lia]. pose proof (I6 t _ Hin (C8 U1 U2)) as Hc. rewrite I1, I2 in Hc.
    change responseBufferSize with 262144 in Hc. lia.
  - rewrite C3. destruct (waits t' =? waits t) eqn:Ew; b2p; rewrite I4, ?i64_add; f_equal; lia.
  - rewrite C4. destruct (bp_locked p); cbn [negb]; [rewrite andb_false_r; lia|]. rewrite andb_true_r.
    replace (locks t =? 1) with false by lia. cbn [andb]. lia.
  - intros u active Hu Hc. rewrite C1. apply elem_of_list_insert in Hu as [->|Hu]; eauto.
  - intros u ch Hu Hc. etransitivity; [|exact C5]. apply elem_of_list_insert in Hu as [->|Hu]; [|eauto].
    destruct (C7 _ Hc) as [->|Hc']; [done|eauto].
Qed.

Lemma pool_reach_inv requests y : 0 <= requests < 2 ^ 44 -> rtc po_step (mkPooled (newResponseBufferPool requests) []) y -> pool_inv requests y.
Proof.
  intros Hq Hr. assert (pool_inv requests (mkPooled (newResponseBufferPool requests) [])) as I.
  { split; cbn; try done; try lia; try set_solver. apply i64_small. unfold fits_i64. change responseBufferSize with 262144. lia. }
  induction Hr as [|y1 y2 y3 Hs Hr IH]; [done|]. eauto using pool_step_inv.
Qed.

(** ** Properties *)

(** C25: in every interleaving, at most [requests] buffers are leased at a time
    and the counter of the pool is exactly their size; the waiters are
    counted; at most one caller is in the critical section; the release of a
    buffer waits for nothing but the mutex; and the notification of a release
    lets every caller that waits on a channel go on. *)
Theorem response_buffers_bounded requests y :
  0 <= requests < 2 ^ 44 -> rtc po_step (mkPooled (newResponseBufferPool requests) []) y ->
  let p := po_pool y in
  bp_inUse p = sumZ uses (po_callers y) * responseBufferSize /\ sumZ uses (po_callers y) <= requests /\
  bp_waiters p = i64 (sumZ waits (po_callers y)) /\ sumZ locks (po_callers y) <= 1 /\
  (forall t, t ∈ [Holding; RPut; RSub; RLoad; RLock; RClose; RUnlock] -> t ∈ po_callers y ->
     is_Some (release p t) \/ (t = RLock /\ bp_locked p = true)) /\
  (forall p', release p RClose = Some (p', RUnlock) -> forall ch, AWait ch ∈ po_callers y ->
     forall ctxErr fresh, acquire ctxErr fresh false p' (AWait ch) = Some (p', ALeave None)).
Proof.
  intros Hq Hr. destruct (pool_reach_inv requests y Hq Hr) as [I1 I2 I3 I4 I5 I6 I7]. cbn zeta. split_and!; try done.
  - destruct (bp_locked (po_pool y)); lia.
  - intros t Ht _. rewrite !elem_of_cons in Ht. destruct Ht as [->|[->|[->|[->|[->|[->|[->|Ht]]]]]]]; cbn; eauto; [|set_solver].
    unfold lock. destruct (bp_locked _); cbn; eauto.
  - intros p' [= <-] ch Hch ctxErr fresh. specialize (I7 _ _ Hch eq_refl). unfold acquire.
    cbn [set_bp_changed bp_changed]. by rewrite (proj2 (Nat.ltb_lt ch (S (bp_changed (po_pool y))))) by lia.
Qed.

Definition one_leased : pooled := mkPooled (mkPool 262144 262144 262144 false 0 0) [Holding].

Lemma one_leased_reachable : rtc po_step (mkPooled (newResponseBufferPool 1) []) one_leased.
Proof.
  eapply rtc_l; [apply po_call|].
  eapply rtc_l; [apply (po_run _ _ 0 ACheck None false false); reflexivity|].
  eapply rtc_l; [apply (po_run _ _ 0 ALoad None false false); reflexivity|].
  eapply rtc_l; [apply (po_run _ _ 0 (ACas 0) None false false); reflexivity|].
  eapply rtc_l; [apply (po_run _ _ 0 AGet None true false); reflexivity|]. apply rtc_refl.
Qed.

Lemma response_buffers_bounded_witness : bp_inUse (po_pool one_leased) = 1 * responseBufferSize /\ sumZ uses (po_callers one_leased) <= 1.
Proof.
  destruct (response_buffers_bounded 1 one_leased ltac:(lia) one_leased_reachable) as (H1 & H2 & _). split; [exact H1|exact H2].
Defined.

(** The caller is parked, every buffer is free, and no notification is due. *)
Definition parked : pooled := mkPooled (mkPool 262144 262144 0 false 0 1) [Finished (Ok tt); AWait 0].

(** C40: a release can be missed.  [acquire] re-checks the counter before it
    registers as a waiter, and [release] looks for waiters without the mutex:
    when the last lease is returned between the two, nobody is notified.  In
    the state reached every buffer is free and every other caller has
    returned, yet the caller stays parked: no action of any caller is
    possible until its context ends or another response is streamed. *)
Theorem response_buffers_lost_wakeup :
  rtc po_step (mkPooled (newResponseBufferPool 1) []) parked /\
  bp_inUse (po_pool parked) = 0 /\ bp_inUse (po_pool parked) < bp_capacity (po_pool parked) /\
  forall t fresh done, t ∈ po_callers parked -> bufferStep None fresh done (po_pool parked) t = None.
Proof.
  split; [|split_and!; [done|done|]].
  - etrans; [apply one_leased_reachable|].
    eapply rtc_l; [apply po_call|].
    eapply rtc_l; [apply (po_run _ _ 1 ACheck None false false); reflexivity|].
    eapply rtc_l; [apply (po_run _ _ 1 ALoad None false false); reflexivity|].
    eapply rtc_l; [apply (po_run _ _ 1 ALock None false false); reflexivity|].
    eapply rtc_l; [apply (po_run _ _ 1 ARecheck None false false); reflexivity|].
    eapply rtc_l; [apply (po_run _ _ 0 Holding None false false); reflexivity|].
    eapply rtc_l; [apply (po_run _ _ 0 RPut None false false); reflexivity|].
    eapply rtc_l; [apply (po_run _ _ 0 RSub None false false); reflexivity|].
    eapply rtc_l; [apply (po_run _ _ 0 RLoad None false false); reflexivity|].
    eapply rtc_l; [apply (po_run _ _ 1 AChanged None false false); reflexivity|].
    eapply rtc_l; [apply (po_run _ _ 1 (ARegister 0) None false false); reflexivity|].
    eapply rtc_l; [apply (po_run _ _ 1 (AUnlockWait 0) None false false); reflexivity|]. apply rtc_refl.
  - intros t fresh done Ht. apply elem_of_cons in Ht as [->|Ht%list_elem_of_singleton]; [done|]. subst. by destruct done.
Qed.
