(* ===== verification/FillGroup.v ===== *)
(** * The fill coordinator

    [server/fill_group.go]: requests that miss the same representation share
    one producer.  [join] finds or creates the task of an identity, [leave]
    gives a reference back and cancels a task nobody waits for, [publish] and
    [finish] end a producer.  Every function is one critical section of the
    mutex of the group; tasks are shared objects, so they are addresses of a
    heap.  Closing a closed channel panics: [None]. *)

From S2P Require Import Prelude.

Definition errUnshareable : error := Errorf "origin response is not shareable".
(** [context.Canceled] and [context.DeadlineExceeded]. *)
Definition Canceled : error := ErrContext 1.
Definition DeadlineExceeded : error := ErrContext 2.

Record fillResult : Type := mkResult { fr_key : bytes; fr_err : option error; fr_status : bytes }.

(** [ft_ctxErr] is what [task.ctx.Err()] returns; the token is represented by
    the answers of [CheckFill]. *)
Record fillTask : Type := mkTask {
  ft_id : bytes; ft_ctxErr : option error; ft_refs : Z;
  ft_done : bool; ft_creatorGone : bool; ft_exited : bool; ft_result : fillResult }.

Definition set_ft_ctxErr (v : option error) (t : fillTask) : fillTask :=
  mkTask (ft_id t) v (ft_refs t) (ft_done t) (ft_creatorGone t) (ft_exited t) (ft_result t).
Definition set_ft_refs (v : Z) (t : fillTask) : fillTask :=
  mkTask (ft_id t) (ft_ctxErr t) v (ft_done t) (ft_creatorGone t) (ft_exited t) (ft_result t).
Definition set_ft_creatorGone (v : bool) (t : fillTask) : fillTask :=
  mkTask (ft_id t) (ft_ctxErr t) (ft_refs t) (ft_done t) v (ft_exited t) (ft_result t).
Definition set_ft_exited (v : bool) (t : fillTask) : fillTask :=
  mkTask (ft_id t) (ft_ctxErr t) (ft_refs t) (ft_done t) (ft_creatorGone t) v (ft_result t).

Record fillGroup : Type := mkGroup {
  fg_ctxErr : option error; fg_tasks : gmap bytes nat; fg_heap : list fillTask; fg_producers : Z;
  fg_active : Z; fg_waiters : Z;
  fg_joined : Z; fg_completed : Z; fg_unshareable : Z; fg_failed : Z; fg_cancelled : Z }.

Definition set_fg_tasks (v : gmap bytes nat) (g : fillGroup) : fillGroup :=
  mkGroup (fg_ctxErr g) v (fg_heap g) (fg_producers g) (fg_active g) (fg_waiters g) (fg_joined g) (fg_completed g) (fg_unshareable g) (fg_failed g) (fg_cancelled g).
Definition set_fg_heap (v : list fillTask) (g : fillGroup) : fillGroup :=
  mkGroup (fg_ctxErr g) (fg_tasks g) v (fg_producers g) (fg_active g) (fg_waiters g) (fg_joined g) (fg_completed g) (fg_unshareable g) (fg_failed g) (fg_cancelled g).
Definition set_fg_waiters (v : Z) (g : fillGroup) : fillGroup :=
  mkGroup (fg_ctxErr g) (fg_tasks g) (fg_heap g) (fg_producers g) (fg_active g) v (fg_joined g) (fg_completed g) (fg_unshareable g) (fg_failed g) (fg_cancelled g).
Definition set_fg_joined (v : Z) (g : fillGroup) : fillGroup :=
  mkGroup (fg_ctxErr g) (fg_tasks g) (fg_heap g) (fg_producers g) (fg_active g) (fg_waiters g) v (fg_completed g) (fg_unshareable g) (fg_failed g) (fg_cancelled g).

Definition newFillGroup : fillGroup := mkGroup None ∅ [] 0 0 0 0 0 0 0 0.

(** A [CancelFunc]: the first error stays. *)
Definition cancel (e : error) (t : fillTask) : fillTask :=
  match ft_ctxErr t with None => set_ft_ctxErr (Some e) t | Some _ => t end.

(** The part of [join] for a new task; [check] is [CheckFill] of its token. *)
Definition joinNew (check : option error) (maxTasks : Z) (id : bytes) (g : fillGroup) : fillGroup * result (nat * bool) :=
  if maxTasks <=? fg_active g then (g, Err ErrOverloaded)
  else match check with
  | Some e => (g, Err e)
  | None =>
      let a := length (fg_heap g) in
      let t := mkTask id None 1 false false false (mkResult [] None []) in
      (mkGroup (fg_ctxErr g) (<[id := a]> (fg_tasks g)) (fg_heap g ++ [t]) (fg_producers g + 1) (fg_active g + 1) (fg_waiters g + 1)
         (fg_joined g) (fg_completed g) (fg_unshareable g) (fg_failed g) (fg_cancelled g), Ok (a, true))
  end.

(** [join]; [checkOld] is [CheckFill] of the token of the registered task.
    The second component of the result says whether the caller created the
    task. *)
Definition join (checkOld check : option error) (maxWaiters maxTasks : Z) (id : bytes) (g : fillGroup) : fillGroup * result (nat * bool) :=
  match fg_ctxErr g with
  | Some e => (g, Err e)
  | None =>
      match fg_tasks g !! id with
      | None => joinNew check maxTasks id g
      | Some a =>
          match fg_heap g !! a with
          | None => (g, Err (Errorf "dangling task"))
          | Some t =>
              if bool_decide (checkOld = None) && bool_decide (ft_ctxErr t = None) then
                if maxWaiters <=? ft_refs t then (g, Err ErrOverloaded)
                else
                  (set_fg_joined (u64 (fg_joined g + 1)) (set_fg_waiters (fg_waiters g + 1)
                     (set_fg_heap (<[a := set_ft_refs (ft_refs t + 1) t]> (fg_heap g)) g)), Ok (a, false))
              else joinNew check maxTasks id (set_fg_tasks (delete id (fg_tasks g)) g)
          end
      end
  end.

Definition leave (a : nat) (creator : bool) (g : fillGroup) : option fillGroup :=
  t ← fg_heap g !! a;
  if creator && ft_creatorGone t then None
  else
    let t := if creator then set_ft_creatorGone true t else t in
    let t := set_ft_refs (ft_refs t - 1) t in
    let g := set_fg_waiters (fg_waiters g - 1) g in
    let t := if ft_refs t =? 0 then cancel Canceled t else t in
    Some (set_fg_heap (<[a := t]> (fg_heap g)) g).

Definition publish (a : nat) (r : fillResult) (g : fillGroup) : option fillGroup :=
  t ← fg_heap g !! a;
  if ft_done t then None
  else Some (set_fg_heap (<[a := mkTask (ft_id t) (ft_ctxErr t) (ft_refs t) true (ft_creatorGone t) (ft_exited t) r]> (fg_heap g)) g).

(** [task.cancel()], the first line of [finish]. *)
Definition finishCancel (a : nat) (e : error) (g : fillGroup) : option fillGroup :=
  t ← fg_heap g !! a; Some (set_fg_heap (<[a := cancel e t]> (fg_heap g)) g).

(** The counters of [finish]. *)
Definition countResult (r : fillResult) (g : fillGroup) : fillGroup :=
  let '(c, u, k, f) :=
    match fr_err r with
    | None => (1, 0, 0, 0)
    | Some e => if bool_decide (e = errUnshareable) then (0, 1, 0, 0) else if bool_decide (e = Canceled) then (0, 0, 1, 0) else (0, 0, 0, 1)
    end in
  mkGroup (fg_ctxErr g) (fg_tasks g) (fg_heap g) (fg_producers g) (fg_active g) (fg_waiters g) (fg_joined g)
    (u64 (fg_completed g + c)) (u64 (fg_unshareable g + u)) (u64 (fg_failed g + f)) (u64 (fg_cancelled g + k)).

(** The rest of [finish]: the critical section, the channel [exited] and the
    wait group, which panics below zero. *)
Definition finish (a : nat) (g : fillGroup) : option fillGroup :=
  t ← fg_heap g !! a;
  let tasks := if bool_decide (fg_tasks g !! ft_id t = Some a) then delete (ft_id t) (fg_tasks g) else fg_tasks g in
  let g := mkGroup (fg_ctxErr g) tasks (fg_heap g) (fg_producers g) (fg_active g - 1) (fg_waiters g) (fg_joined g)
             (fg_completed g) (fg_unshareable g) (fg_failed g) (fg_cancelled g) in
  let g := countResult (ft_result t) g in
  if ft_exited t || (fg_producers g <=? 0) then None
  else Some (mkGroup (fg_ctxErr g) (fg_tasks g) (<[a := set_ft_exited true t]> (fg_heap g)) (fg_producers g - 1) (fg_active g) (fg_waiters g)
               (fg_joined g) (fg_completed g) (fg_unshareable g) (fg_failed g) (fg_cancelled g)).

(** The server shuts down: the contexts of the tasks derive from the group's. *)
Definition shutdown (g : fillGroup) : fillGroup :=
  let e := match fg_ctxErr g with Some e => e | None => Canceled end in
  mkGroup (Some e) (fg_tasks g) (cancel e <$> fg_heap g) (fg_producers g) (fg_active g) (fg_waiters g) (fg_joined g)
    (fg_completed g) (fg_unshareable g) (fg_failed g) (fg_cancelled g).

(** ** The machine *)

(** A request that joined, and the producer of a task: [serveSharedMiss] and
    [rangeFill] call [leave] once for every [join], and the goroutine of the
    creator publishes once and then runs [finish]. *)
Record member : Type := mkMember { mb_task : nat; mb_creator : bool; mb_left : bool }.
Inductive producer : Type := Producing | Published | Cancelled | Exited.

(** [fs_stale] lists the tasks that a join has replaced because [CheckFill]
    rejected their token. *)
Record fills : Type := mkFills { fs_group : fillGroup; fs_members : list member; fs_producers : list producer; fs_stale : list nat }.

Definition staleAfter (checkOld : option error) (id : bytes) (g : fillGroup) (stale : list nat) : list nat :=
  match fg_ctxErr g, fg_tasks g !! id, checkOld with None, Some a, Some _ => a :: stale | _, _, _ => stale end.

Section Machine.
Context (W T : Z).

Inductive fill_step : fills -> fills -> Prop :=
  | fs_join g ms ps st checkOld check maxWaiters maxTasks id g' r :
      maxWaiters <= W -> maxTasks <= T -> join checkOld check maxWaiters maxTasks id g = (g', r) ->
      fill_step (mkFills g ms ps st)
        (match r with
         | Ok (a, creator) => mkFills g' (ms ++ [mkMember a creator false]) (if creator then ps ++ [Producing] else ps) (staleAfter checkOld id g st)
         | Err _ => mkFills g' ms ps (staleAfter checkOld id g st)
         end)
  | fs_leave g ms ps st (i : nat) a creator g' :
      ms !! i = Some (mkMember a creator false) -> leave a creator g = Some g' ->
      fill_step (mkFills g ms ps st) (mkFills g' (<[i := mkMember a creator true]> ms) ps st)
  | fs_publish g ms ps st a r g' :
      ps !! a = Some Producing -> publish a r g = Some g' -> fill_step (mkFills g ms ps st) (mkFills g' ms (<[a := Published]> ps) st)
  | fs_cancel g ms ps st a g' :
      ps !! a = Some Published -> finishCancel a Canceled g = Some g' -> fill_step (mkFills g ms ps st) (mkFills g' ms (<[a := Cancelled]> ps) st)
  | fs_finish g ms ps st a g' :
      ps !! a = Some Cancelled -> finish a g = Some g' -> fill_step (mkFills g ms ps st) (mkFills g' ms (<[a := Exited]> ps) st)
  | fs_expire g ms ps st a g' :
      finishCancel a DeadlineExceeded g = Some g' -> fill_step (mkFills g ms ps st) (mkFills g' ms ps st)
  | fs_shutdown g ms ps st : fill_step (mkFills g ms ps st) (mkFills (shutdown g) ms ps st).

End Machine.

(** ** The invariant *)

Definition refsAt (a : nat) (m : member) : Z := if bool_decide (mb_task m = a) && negb (mb_left m) then 1 else 0.
Definition creatorAt (a : nat) (m : member) : Z := if bool_decide (mb_task m = a) && mb_creator m then 1 else 0.
Definition goneAt (a : nat) (m : member) : Z := if bool_decide (mb_task m = a) && mb_creator m && mb_left m then 1 else 0.
Definition here (m : member) : Z := if mb_left m then 0 else 1.
Definition follower (m : member) : Z := if mb_creator m then 0 else 1.
Definition running (p : producer) : Z := match p with Exited => 0 | _ => 1 end.
Definition exited (p : producer) : Z := match p with Exited => 1 | _ => 0 end.

(** What holds of the task at [a] whose producer is at [p]. *)
Record task_ok (W : Z) (ms : list member) (stale : list nat) (tasks : gmap bytes nat) (a : nat) (t : fillTask) (p : producer) : Prop := {
  tk_refs : ft_refs t = sumZ (refsAt a) ms;
  tk_limit : ft_refs t <= Z.max 1 W;
  tk_creator : sumZ (creatorAt a) ms = 1;
  tk_gone : sumZ (goneAt a) ms = if ft_creatorGone t then 1 else 0;
  tk_done : ft_done t = match p with Producing => false | _ => true end;
  tk_exited : ft_exited t = match p with Exited => true | _ => false end;
  tk_abandoned : ft_refs t = 0 -> ft_ctxErr t <> None;
  tk_ended : p = Cancelled \/ p = Exited -> ft_ctxErr t <> None;
  tk_registered : p <> Exited -> ft_ctxErr t = None -> a ∉ stale -> tasks !! ft_id t = Some a }.

Record fills_ok (W T : Z) (y : fills) : Prop := {
  fo_len : length (fg_heap (fs_group y)) = length (fs_producers y);
  fo_members : forall m, m ∈ fs_members y -> (mb_task m < length (fg_heap (fs_group y)))%nat;
  fo_tasks : forall a t p, fg_heap (fs_group y) !! a = Some t -> fs_producers y !! a = Some p ->
    task_ok W (fs_members y) (fs_stale y) (fg_tasks (fs_group y)) a t p;
  fo_map : forall id a, fg_tasks (fs_group y) !! id = Some a ->
    exists t p, fg_heap (fs_group y) !! a = Some t /\ ft_id t = id /\ fs_producers y !! a = Some p /\ p <> Exited;
  fo_active : fg_active (fs_group y) = sumZ running (fs_producers y) /\ fg_producers (fs_group y) = sumZ running (fs_producers y);
  fo_max : sumZ running (fs_producers y) <= Z.max 0 T;
  fo_waiters : fg_waiters (fs_group y) = sumZ here (fs_members y);
  fo_joined : fg_joined (fs_group y) = u64 (sumZ follower (fs_members y));
  fo_results : u64 (fg_completed (fs_group y) + fg_unshareable (fs_group y) + fg_failed (fs_group y) + fg_cancelled (fs_group y)) = u64 (sumZ exited (fs_producers y)) }.

Lemma u64_add a b : u64 (u64 a + b) = u64 (a + b).
Proof. unfold u64. by rewrite Zplus_mod_idemp_l. Qed.

(** The sums of an address no member refers to. *)
Lemma sums_unused a ms : (forall m, m ∈ ms -> (mb_task m < a)%nat) ->
  sumZ (refsAt a) ms = 0 /\ sumZ (creatorAt a) ms = 0 /\ sumZ (goneAt a) ms = 0.
Proof.
  intros Hm. assert (forall f, (forall m, mb_task m <> a -> f m = 0) -> sumZ f ms = 0) as X.
  { intros f Hf. rewrite (sumZ_ext f (fun _ => 0)); [clear; by induction ms|]. intros m Hin. apply Hf. specialize (Hm m Hin). lia. }
  split_and!; apply X; intros m Hne; unfold refsAt, creatorAt, goneAt; by rewrite bool_decide_eq_false_2.
Qed.

(** A task the step does not touch. *)
Lemma task_ok_frame W ms ms' st st' tasks tasks' b t p :
  task_ok W ms st tasks b t p ->
  sumZ (refsAt b) ms' = sumZ (refsAt b) ms -> sumZ (creatorAt b) ms' = sumZ (creatorAt b) ms -> sumZ (goneAt b) ms' = sumZ (goneAt b) ms ->
  (b ∉ st' -> b ∉ st) ->
  (p <> Exited -> ft_ctxErr t = None -> b ∉ st' -> tasks !! ft_id t = Some b -> tasks' !! ft_id t = Some b) ->
  task_ok W ms' st' tasks' b t p.
Proof. intros [K1 K2 K3 K4 K5 K6 K7 K8 K9] E1 E2 E3 Hs Ht. split; try done; try congruence. intros. auto. Qed.

(** A new member of another task does not count here. *)
Lemma sums_snoc_other b ms m : mb_task m <> b ->
  sumZ (refsAt b) (ms ++ [m]) = sumZ (refsAt b) ms /\ sumZ (creatorAt b) (ms ++ [m]) = sumZ (creatorAt b) ms /\ sumZ (goneAt b) (ms ++ [m]) = sumZ (goneAt b) ms.
Proof. intros Hne. rewrite !sumZ_app. cbn. unfold refsAt, creatorAt, goneAt. rewrite (bool_decide_eq_false_2 (mb_task m = b)) by done. cbn. lia. Qed.
Lemma sums_insert_other b ms i m m' : ms !! i = Some m -> mb_task m <> b -> mb_task m' <> b ->
  sumZ (refsAt b) (<[i := m']> ms) = sumZ (refsAt b) ms /\ sumZ (creatorAt b) (<[i := m']> ms) = sumZ (creatorAt b) ms /\ sumZ (goneAt b) (<[i := m']> ms) = sumZ (goneAt b) ms.
Proof.
  intros Hi H1 H2. rewrite !(sumZ_list_insert _ _ _ _ _ Hi). unfold refsAt, creatorAt, goneAt.
  rewrite (bool_decide_eq_false_2 (mb_task m = b)), (bool_decide_eq_false_2 (mb_task m' = b)) by done. cbn. lia.
Qed.

(** What a member of [a] itself counts. *)
Lemma refsAt_eq a c l : refsAt a (mkMember a c l) = if l then 0 else 1.
Proof. unfold refsAt. cbn. rewrite bool_decide_eq_true_2 by done. by destruct l. Qed.
Lemma creatorAt_eq a c l : creatorAt a (mkMember a c l) = if c then 1 else 0.
Proof. unfold creatorAt. cbn. rewrite bool_decide_eq_true_2 by done. by destruct c. Qed.
Lemma goneAt_eq a c l : goneAt a (mkMember a c l) = if c && l then 1 else 0.
Proof. unfold goneAt. cbn. by rewrite bool_decide_eq_true_2. Qed.

(** The member that leaves is the one counted. *)
Lemma sums_leave a ms i creator : ms !! i = Some (mkMember a creator false) ->
  sumZ (refsAt a) (<[i := mkMember a creator true]> ms) = sumZ (refsAt a) ms - 1 /\
  sumZ (creatorAt a) (<[i := mkMember a creator true]> ms) = sumZ (creatorAt a) ms /\
  sumZ (goneAt a) (<[i := mkMember a creator true]> ms) = sumZ (goneAt a) ms + (if creator then 1 else 0).
Proof.
  intros Hi. rewrite !(sumZ_list_insert _ _ _ _ _ Hi), !refsAt_eq, !creatorAt_eq, !goneAt_eq. destruct creator; cbn [andb]; lia.
Qed.

Lemma gone_le_creator a ms : sumZ (goneAt a) ms <= sumZ (creatorAt a) ms.
Proof.
  induction ms as [|m l IH]; cbn [sumZ]; [lia|]. assert (goneAt a m <= creatorAt a m); [|lia].
  unfold goneAt, creatorAt. destruct (bool_decide _), (mb_creator m), (mb_left m); cbn; lia.
Qed.

Lemma cancel_fields e t : ft_id (cancel e t) = ft_id t /\ ft_refs (cancel e t) = ft_refs t /\ ft_done (cancel e t) = ft_done t /\
  ft_creatorGone (cancel e t) = ft_creatorGone t /\ ft_exited (cancel e t) = ft_exited t /\ ft_ctxErr (cancel e t) <> None.
Proof. unfold cancel. destruct (ft_ctxErr t) eqn:E; cbn; split_and!; congruence. Qed.

Lemma task_ok_cancel W ms st tasks a t p e : task_ok W ms st tasks a t p -> task_ok W ms st tasks a (cancel e t) p.
Proof.
  intros [K1 K2 K3 K4 K5 K6 K7 K8 K9]. destruct (cancel_fields e t) as (E1 & E2 & E3 & E4 & E5 & E6). split; rewrite ?E1, ?E2, ?E3, ?E4, ?E5; try done.
Qed.

Section FillsOk.
Context (W T : Z).

(** One task and its producer change, its counts do not. *)
Lemma fills_ok_task g ms ps st a t p t' p' :
  fills_ok W T (mkFills g ms ps st) -> fg_heap g !! a = Some t -> ps !! a = Some p ->
  ft_id t' = ft_id t -> running p' = running p -> exited p' = exited p ->
  task_ok W ms st (fg_tasks g) a t' p' ->
  fills_ok W T (mkFills (set_fg_heap (<[a := t']> (fg_heap g)) g) ms (<[a := p']> ps) st).
Proof.
  intros [F1 F2 F3 F4 [F5 F5'] F6 F7 F8 F9] Ha Hp Hid Hr He K. pose proof (lookup_lt_Some _ _ _ Ha) as Hl. pose proof (lookup_lt_Some _ _ _ Hp) as Hlp.
  split; cbn in *; rewrite ?length_insert, ?(sumZ_list_insert _ _ _ _ _ Hp), ?Hr, ?He; try (rewrite ?Z.sub_add; done); try lia.
  - intros b u q Hb Hq. destruct (decide (a = b)) as [<-|Hne].
    + rewrite list_lookup_insert_eq in Hb by done. rewrite list_lookup_insert_eq in Hq by done. by simplify_eq.
    + rewrite list_lookup_insert_ne in Hb by done. rewrite list_lookup_insert_ne in Hq by done. eauto.
  - intros id b Hb. destruct (F4 id b Hb) as (u & q & Hu & Hi & Hq & Hne). destruct (decide (a = b)) as [<-|].
    + rewrite !list_lookup_insert_eq by done. simplify_eq. exists t', p'. split_and!; try done. intros ->. by destruct p.
    + rewrite !list_lookup_insert_ne by done. eauto 8.
Qed.

(** A registration is dropped. *)
Lemma fills_ok_drop g ms ps st st' id a t :
  fills_ok W T (mkFills g ms ps st) -> fg_tasks g !! id = Some a -> fg_heap g !! a = Some t ->
  (ft_ctxErr t = None -> a ∈ st') -> (forall b, b ∈ st -> b ∈ st') ->
  fills_ok W T (mkFills (set_fg_tasks (delete id (fg_tasks g)) g) ms ps st').
Proof.
  intros [F1 F2 F3 F4 F5 F6 F7 F8 F9] Hid Ha Hs Hst. split; cbn in *; try done.
  - intros b u q Hb Hq. apply (task_ok_frame _ ms ms st st' (fg_tasks g)); try done; [eauto|auto|].
    intros Hne Hctx Hb' Hreg. destruct (decide (ft_id u = id)) as [Hi|]; [|by rewrite lookup_delete_ne]. subst id.
    exfalso. apply Hb'. assert (b = a) as -> by congruence. apply Hs. congruence.
  - intros id' b [_ Hb]%lookup_delete_Some. eauto.
Qed.

(** A member joins, for a new task or the registered one. *)
Lemma joinNew_ok g ms ps st check maxTasks id g' a c :
  fills_ok W T (mkFills g ms ps st) -> fg_tasks g !! id = None -> maxTasks <= T -> joinNew check maxTasks id g = (g', Ok (a, c)) ->
  c = true /\ fills_ok W T (mkFills g' (ms ++ [mkMember a c false]) (ps ++ [Producing]) st).
Proof.
  intros [F1 F2 F3 F4 [F5 F5'] F6 F7 F8 F9] Hid Hmt. unfold joinNew. destruct (maxTasks <=? fg_active g) eqn:Em; [done|]. destruct check; [done|].
  intros [= <- <- <-]. b2p. split; [done|]. destruct (sums_unused (length (fg_heap g)) ms F2) as (Z1 & Z2 & Z3).
  split; cbn in *; rewrite ?length_app, ?sumZ_app; cbn; try lia.
  - intros m Hm. apply elem_of_app in Hm as [Hm|Hm%list_elem_of_singleton]; [specialize (F2 m Hm); lia|]. subst. cbn. lia.
  - intros b u q Hb Hq. destruct (decide (b = length (fg_heap g))) as [->|Hne].
    + rewrite lookup_app_r, Nat.sub_diag in Hb by lia. rewrite F1, lookup_app_r, Nat.sub_diag in Hq by lia. cbn in Hb, Hq. simplify_eq.
      split; cbn; rewrite ?sumZ_app, ?Z1, ?Z2, ?Z3; cbn [sumZ]; rewrite ?refsAt_eq, ?creatorAt_eq, ?goneAt_eq; try done; try lia.
      { by intros [|]. }
      intros _ _ _. by rewrite lookup_insert_eq.
    + assert (b < length (fg_heap g))%nat as Hlt by (apply lookup_lt_Some in Hb; rewrite length_app in Hb; cbn in Hb; lia).
      rewrite lookup_app_l in Hb by lia. rewrite lookup_app_l in Hq by lia. destruct (sums_snoc_other b ms (mkMember (length (fg_heap g)) true false)) as (S1 & S2 & S3); [cbn; lia|].
      apply (task_ok_frame _ ms _ st st (fg_tasks g)); try done; [eauto|]. intros _ _ _ Hreg. rewrite lookup_insert_ne; [done|]. congruence.
  - intros id' b. rewrite lookup_insert_Some. intros [[<- <-]|[Hne Hb]].
    + eexists _, Producing. rewrite F1, !lookup_app_r, !Nat.sub_diag by lia. rewrite F1, Nat.sub_diag. cbn. by split_and!.
    + destruct (F4 id' b Hb) as (u & q & Hu & Hi & Hq & Hx). exists u, q. rewrite !lookup_app_l by eauto using lookup_lt_Some. done.
  - rewrite F8. f_equal. lia.
  - rewrite F9. f_equal. lia.
Qed.

(** A member joins the registered task. *)
Lemma joinOld_ok g ms ps st id a t maxWaiters :
  fills_ok W T (mkFills g ms ps st) -> fg_heap g !! a = Some t -> ft_ctxErr t = None -> ft_refs t < maxWaiters -> maxWaiters <= W -> ft_id t = id ->
  fills_ok W T (mkFills (set_fg_joined (u64 (fg_joined g + 1)) (set_fg_waiters (fg_waiters g + 1)
    (set_fg_heap (<[a := set_ft_refs (ft_refs t + 1) t]> (fg_heap g)) g))) (ms ++ [mkMember a false false]) ps st).
Proof.
  intros [F1 F2 F3 F4 F5 F6 F7 F8 F9] Ha Hctx Hr Hw Hid. pose proof (lookup_lt_Some _ _ _ Ha) as Hl.
  split; cbn in *; rewrite ?length_insert, ?sumZ_app; cbn; try done; try lia.
  - intros m Hm. apply elem_of_app in Hm as [Hm|Hm%list_elem_of_singleton]; [eauto|]. by subst.
  - intros b u q Hb Hq. destruct (decide (a = b)) as [<-|Hne].
    + rewrite list_lookup_insert_eq in Hb by done. injection Hb as <-. destruct (F3 a t q Ha Hq) as [K1 K2 K3 K4 K5 K6 K7 K8 K9].
      assert (0 <= sumZ (refsAt a) ms) by (apply sumZ_nonneg; intros; unfold refsAt; destruct (_ && _); lia).
      assert (sumZ (refsAt a) (ms ++ [mkMember a false false]) = sumZ (refsAt a) ms + 1 /\ sumZ (creatorAt a) (ms ++ [mkMember a false false]) = sumZ (creatorAt a) ms /\
        sumZ (goneAt a) (ms ++ [mkMember a false false]) = sumZ (goneAt a) ms) as (R1 & R2 & R3).
      { rewrite !sumZ_app. cbn [sumZ]. rewrite refsAt_eq, creatorAt_eq, goneAt_eq. cbn. lia. }
      split; cbn; rewrite ?R1, ?R2, ?R3; try done; lia.
    + rewrite list_lookup_insert_ne in Hb by done. destruct (sums_snoc_other b ms (mkMember a false false) Hne) as (S1 & S2 & S3).
      apply (task_ok_frame _ ms _ st st (fg_tasks g)); try done. eauto.
  - intros id' b Hb. destruct (F4 id' b Hb) as (u & q & Hu & Hi & Hq & Hx). destruct (decide (a = b)) as [<-|].
    + rewrite list_lookup_insert_eq by done. simplify_eq. eexists _, q. by split_and!.
    + rewrite list_lookup_insert_ne by done. eauto 8.
  - rewrite F8, u64_add. done.
Qed.

Lemma join_ok g ms ps st checkOld check maxWaiters maxTasks id g' r :
  fills_ok W T (mkFills g ms ps st) -> maxWaiters <= W -> maxTasks <= T -> join checkOld check maxWaiters maxTasks id g = (g', r) ->
  fills_ok W T (match r with
    | Ok (a, creator) => mkFills g' (ms ++ [mkMember a creator false]) (if creator then ps ++ [Producing] else ps) (staleAfter checkOld id g st)
    | Err _ => mkFills g' ms ps (staleAfter checkOld id g st)
    end).
Proof.
  intros F HW HT E. unfold join, staleAfter in *. destruct (fg_ctxErr g); [by simplify_eq|]. destruct (fg_tasks g !! id) as [a|] eqn:Eid.
  - destruct (fo_map _ _ _ F id a Eid) as (t & p & Ha & Hid & Hp & Hne). cbn in Ha, Hp. rewrite Ha in E. destruct (_ && _) eqn:Ec.
    + apply andb_true_iff in Ec as [->%bool_decide_eq_true Ec%bool_decide_eq_true]. destruct (maxWaiters <=? ft_refs t) eqn:Em; simplify_eq; [done|].
      b2p. by eapply joinOld_ok.
    + assert (fills_ok W T (mkFills (set_fg_tasks (delete id (fg_tasks g)) g) ms ps (match checkOld with Some _ => a :: st | None => st end))) as F'.
      { eapply fills_ok_drop; [done..| |].
        - intros Hctx. destruct checkOld; [by left|]. rewrite !bool_decide_eq_true_2 in Ec by done. done.
        - intros b Hb. destruct checkOld; [by right|done]. }
      destruct (joinNew check maxTasks id _) as [g1 [[a1 c]|e]] eqn:Ej; injection E as <- <-.
      * destruct (joinNew_ok _ _ _ _ _ _ _ _ _ _ F' ltac:(cbn; apply lookup_delete_eq) HT Ej) as [-> ?]. done.
      * unfold joinNew in Ej. repeat case_match; simplify_eq; done.
  - destruct (joinNew check maxTasks id g) as [g1 [[a1 c]|e]] eqn:Ej; injection E as <- <-.
    + destruct (joinNew_ok _ _ _ _ _ _ _ _ _ _ F Eid HT Ej) as [-> ?]. done.
    + unfold joinNew in Ej. repeat case_match; simplify_eq; done.
Qed.

(** A member leaves. *)
Lemma leave_ok g ms ps st i a creator :
  fills_ok W T (mkFills g ms ps st) -> ms !! i = Some (mkMember a creator false) ->
  exists g', leave a creator g = Some g' /\ fills_ok W T (mkFills g' (<[i := mkMember a creator true]> ms) ps st).
Proof.
  intros [F1 F2 F3 F4 F5 F6 F7 F8 F9] Hi. cbn in *. specialize (F2 _ (list_elem_of_lookup_2 _ _ _ Hi)) as Hl. cbn in Hl.
  destruct (lookup_lt_is_Some_2 _ _ Hl) as [t Ha]. destruct (lookup_lt_is_Some_2 ps a ltac:(lia)) as [p Hp].
  destruct (F3 a t p Ha Hp) as [K1 K2 K3 K4 K5 K6 K7 K8 K9].
  destruct (sums_leave a ms i creator Hi) as (R1 & R2 & R3). rewrite <- K1 in R1. rewrite K3 in R2.
  assert (creator && ft_creatorGone t = false) as Hc.
  { destruct creator; [|done]. destruct (ft_creatorGone t); [|done]. exfalso.
    pose proof (gone_le_creator a (<[i := mkMember a true true]> ms)) as X. rewrite R2, R3, K4 in X. lia. }
  set (t1 := if creator then set_ft_creatorGone true t else t). set (t2 := set_ft_refs (ft_refs t1 - 1) t1).
  set (t' := if ft_refs t2 =? 0 then cancel Canceled t2 else t2).
  exists (set_fg_heap (<[a := t']> (fg_heap g)) (set_fg_waiters (fg_waiters g - 1) g)). split; [unfold leave; by rewrite Ha; cbn; rewrite Hc|].
  assert (ft_id t2 = ft_id t /\ ft_refs t2 = ft_refs t - 1 /\ ft_done t2 = ft_done t /\ ft_creatorGone t2 = (if creator then true else ft_creatorGone t) /\
    ft_exited t2 = ft_exited t /\ ft_ctxErr t2 = ft_ctxErr t) as (T1 & T2 & T3 & T4 & T5 & T6) by (subst t2 t1; by destruct creator).
  assert (task_ok W (<[i := mkMember a creator true]> ms) st (fg_tasks g) a t' p) as K'.
  { assert (ft_refs t2 <> 0 -> task_ok W (<[i := mkMember a creator true]> ms) st (fg_tasks g) a t2 p) as Hk.
    { intros Hz. split; rewrite ?T1, ?T2, ?T3, ?T4, ?T5, ?T6, ?R1, ?R2, ?R3; try done; try lia. rewrite K4. destruct creator; [|lia]. cbn in Hc. by rewrite Hc. }
    subst t'. destruct (ft_refs t2 =? 0) eqn:Ez; b2p; [|by apply Hk]. destruct (cancel_fields Canceled t2) as (E1 & E2 & E3 & E4 & E5 & E6).
    split; rewrite ?E1, ?E2, ?E3, ?E4, ?E5, ?T1, ?T2, ?T3, ?T4, ?T5, ?R1, ?R2, ?R3; try done; try lia.
    rewrite K4. destruct creator; [|lia]. cbn in Hc. by rewrite Hc. }
  assert (ft_id t' = ft_id t) as Hid by (subst t'; destruct (_ =? 0); [rewrite (proj1 (cancel_fields Canceled t2))|]; exact T1).
  split; cbn; rewrite ?length_insert, ?(sumZ_list_insert _ _ _ _ _ Hi); cbn; try done; try lia.
  - intros m [->|Hm]%elem_of_list_insert; [done|eauto].
  - intros b u q Hb Hq. destruct (decide (a = b)) as [<-|Hne].
    + rewrite list_lookup_insert_eq in Hb by done. by simplify_eq.
    + rewrite list_lookup_insert_ne in Hb by done. destruct (sums_insert_other b ms i _ (mkMember a creator true) Hi Hne Hne) as (S1 & S2 & S3).
      apply (task_ok_frame _ ms _ st st (fg_tasks g)); try done. eauto.
  - intros id' b Hb. destruct (F4 id' b Hb) as (u & q & Hu & Hx & Hq & Hy). destruct (decide (a = b)) as [<-|].
    + rewrite list_lookup_insert_eq by done. exists t', q. simplify_eq. by split_and!.
    + rewrite list_lookup_insert_ne by done. eauto 8.
  - rewrite F8. f_equal. destruct creator; cbn; lia.
Qed.

(** The steps of a producer. *)
Lemma publish_ok g ms ps st a r :
  fills_ok W T (mkFills g ms ps st) -> ps !! a = Some Producing ->
  exists g', publish a r g = Some g' /\ fills_ok W T (mkFills g' ms (<[a := Published]> ps) st).
Proof.
  intros F Hp. pose proof (lookup_lt_Some _ _ _ Hp) as Hl. pose proof (fo_len _ _ _ F) as Hlen. cbn in Hlen.
  destruct (lookup_lt_is_Some_2 (fg_heap g) a ltac:(lia)) as [t Ha].
  destruct (fo_tasks _ _ _ F a t Producing Ha Hp) as [K1 K2 K3 K4 K5 K6 K7 K8 K9]. unfold publish. rewrite Ha. cbn. rewrite K5. eexists. split; [done|].
  eapply fills_ok_task; try done. split; try done; [by intros [|]|]. intros _. by apply K9.
Qed.

Lemma finishCancel_ok g ms ps st a e t p p' :
  fills_ok W T (mkFills g ms ps st) -> fg_heap g !! a = Some t -> ps !! a = Some p -> p' = p \/ p = Published /\ p' = Cancelled ->
  exists g', finishCancel a e g = Some g' /\ fills_ok W T (mkFills g' ms (<[a := p']> ps) st).
Proof.
  intros F Ha Hp Hpp. unfold finishCancel. rewrite Ha. cbn. eexists. split; [done|]. destruct (cancel_fields e t) as (E1 & E2 & E3 & E4 & E5 & E6).
  pose proof (task_ok_cancel _ _ _ _ _ _ _ e (fo_tasks _ _ _ F a t p Ha Hp)) as K.
  eapply fills_ok_task; try done; [by destruct Hpp as [->|[-> ->]]..|].
  destruct Hpp as [->|[-> ->]]; [done|]. destruct K as [K1 K2 K3 K4 K5 K6 K7 K8 K9]. split; try done.
Qed.

Lemma u64_sum4 a b c d : u64 (u64 a + u64 b + u64 c + u64 d) = u64 (a + b + c + d).
Proof.
  unfold u64. rewrite (Z.mod_eq a), (Z.mod_eq b), (Z.mod_eq c), (Z.mod_eq d) by done.
  replace (_ + _) with (a + b + c + d + - (a / 2 ^ 64 + b / 2 ^ 64 + c / 2 ^ 64 + d / 2 ^ 64) * 2 ^ 64) by lia. apply Z_mod_plus_full.
Qed.

Lemma countResult_sum r g :
  u64 (fg_completed (countResult r g) + fg_unshareable (countResult r g) + fg_failed (countResult r g) + fg_cancelled (countResult r g)) =
  u64 (fg_completed g + fg_unshareable g + fg_failed g + fg_cancelled g + 1).
Proof.
  unfold countResult. destruct (fr_err r) as [e|]; [repeat case_bool_decide|]; cbn; rewrite u64_sum4; f_equal; lia.
Qed.

Lemma countResult_frame r g : fg_ctxErr (countResult r g) = fg_ctxErr g /\ fg_tasks (countResult r g) = fg_tasks g /\ fg_heap (countResult r g) = fg_heap g /\
  fg_producers (countResult r g) = fg_producers g /\ fg_active (countResult r g) = fg_active g /\ fg_waiters (countResult r g) = fg_waiters g /\ fg_joined (countResult r g) = fg_joined g.
Proof. unfold countResult. by destruct (match fr_err r with None => _ | Some _ => _ end) as [[[? ?] ?] ?]. Qed.

Lemma finish_ok g ms ps st a :
  fills_ok W T (mkFills g ms ps st) -> ps !! a = Some Cancelled ->
  exists g', finish a g = Some g' /\ fills_ok W T (mkFills g' ms (<[a := Exited]> ps) st).
Proof.
  intros F Hp. destruct F as [F1 F2 F3 F4 [F5 F5'] F6 F7 F8 F9]. cbn in *. pose proof (lookup_lt_Some _ _ _ Hp) as Hl.
  destruct (lookup_lt_is_Some_2 (fg_heap g) a ltac:(lia)) as [t Ha]. destruct (F3 a t Cancelled Ha Hp) as [K1 K2 K3 K4 K5 K6 K7 K8 K9].
  pose proof (sumZ_holder running ps a Cancelled ltac:(by intros []) Hp) as Hr. cbn in Hr. unfold finish. rewrite Ha. cbn [mbind option_bind].
  set (g1 := mkGroup _ _ _ _ _ _ _ _ _ _ _). destruct (countResult_frame (ft_result t) g1) as (C1 & C2 & C3 & C4 & C5 & C6 & C7).
  pose proof (countResult_sum (ft_result t) g1) as C8. set (g2 := countResult (ft_result t) g1) in *. clearbody g2. rewrite K6, C4. cbn [fg_producers g1]. rewrite F5'. replace (_ <=? 0) with false by lia. cbn [orb].
  eexists. split; [reflexivity|]. rewrite C1, C2, C3, C5, C6, C7. subst g1. cbn in *.
  set (tasks := if bool_decide _ then _ else _).
  assert (forall id b, tasks !! id = Some b <-> fg_tasks g !! id = Some b /\ b <> a) as Ht.
  { intros id b. subst tasks. case_bool_decide as Hreg.
    - rewrite lookup_delete_Some. split; [intros [H1 H2]|intros [H1 H2]; split; [congruence|done]]. split; [done|]. intros ->.
      destruct (F4 id a H2) as (u & q & Hu & Hi & _). congruence.
    - split; [|tauto]. intros Hb. split; [done|]. intros ->. destruct (F4 id a Hb) as (u & q & Hu & Hi & _). congruence. }
  split; cbn; rewrite ?length_insert, ?(sumZ_list_insert _ _ _ _ _ Hp); cbn; try done; try lia.
  - intros b u q Hb Hq. destruct (decide (a = b)) as [<-|Hne].
    + rewrite list_lookup_insert_eq in Hb by lia. rewrite list_lookup_insert_eq in Hq by lia. simplify_eq. split; cbn; try done. intros _. apply K8. by left.
    + rewrite list_lookup_insert_ne in Hb by done. rewrite list_lookup_insert_ne in Hq by done.
      apply (task_ok_frame _ ms _ st st (fg_tasks g)); try done; [eauto|]. intros _ _ _ Hreg. apply Ht. split; [done|congruence].
  - intros id b [Hb Hne]%Ht. destruct (F4 id b Hb) as (u & q & Hu & Hi & Hq & Hx). rewrite !list_lookup_insert_ne by done. eauto 8.
  - rewrite C8. rewrite <- (u64_add (_ + _ + _ + _)), F9, u64_add. f_equal. lia.
Qed.

Lemma shutdown_ok g ms ps st : fills_ok W T (mkFills g ms ps st) -> fills_ok W T (mkFills (shutdown g) ms ps st).
Proof.
  intros [F1 F2 F3 F4 F5 F6 F7 F8 F9]. split; cbn in *; rewrite ?length_fmap; try done.
  - intros a t p Ha Hp. apply list_lookup_fmap_Some in Ha as (t0 & -> & Ha). apply task_ok_cancel. eauto.
  - intros id a Hid. destruct (F4 id a Hid) as (t & p & Ha & Hi & Hp & Hne). eexists _, p. rewrite list_lookup_fmap, Ha. cbn. split; [done|].
    by rewrite (proj1 (cancel_fields _ t)).
Qed.

Lemma fill_step_ok y y' : fills_ok W T y -> fill_step W T y y' -> fills_ok W T y'.
Proof.
  intros F. destruct 1 as [g ms ps st checkOld check mw mt id g' r H1 H2 E|g ms ps st i a creator g' Hi E|g ms ps st a r g' Hp E|g ms ps st a g' Hp E|g ms ps st a g' Hp E|g ms ps st a g' E|g ms ps st].
  - by eapply join_ok.
  - destruct (leave_ok _ _ _ _ _ _ _ F Hi) as (g1 & E1 & F1). congruence.
  - destruct (publish_ok _ _ _ _ _ r F Hp) as (g1 & E1 & F1). congruence.
  - assert (exists t, fg_heap g !! a = Some t) as [t Ha] by (unfold finishCancel in E; destruct (fg_heap g !! a); [eauto|done]).
    destruct (finishCancel_ok _ _ _ _ a Canceled t Published Cancelled F Ha Hp) as (g1 & E1 & F1); [by right|]. congruence.
  - destruct (finish_ok _ _ _ _ _ F Hp) as (g1 & E1 & F1). congruence.
  - assert (exists t, fg_heap g !! a = Some t) as [t Ha] by (unfold finishCancel in E; destruct (fg_heap g !! a); [eauto|done]).
    pose proof (fo_len _ _ _ F) as Hlen. cbn in Hlen. pose proof (lookup_lt_Some _ _ _ Ha). destruct (lookup_lt_is_Some_2 ps a ltac:(lia)) as [p Hp].
    destruct (finishCancel_ok _ _ _ _ a DeadlineExceeded t p p F Ha Hp (or_introl eq_refl)) as (g1 & E1 & F1). rewrite list_insert_id in F1 by done. congruence.
  - by apply shutdown_ok.
Qed.

Lemma fills_reach_ok y : rtc (fill_step W T) (mkFills newFillGroup [] [] []) y -> fills_ok W T y.
Proof.
  intros Hr. assert (fills_ok W T (mkFills newFillGroup [] [] [])) as F by (split; cbn; try done; lia || set_solver).
  induction Hr as [|y1 y2 y3 Hs Hr IH]; [done|]. eauto using fill_step_ok.
Qed.

End FillsOk.

(** ** Properties *)

(** C15: the coordinator of fills is exact.  In every interleaving of joins,
    departures, producers, timeouts and shutdown: the group counts exactly the
    producers that have not exited and the requests that have not left, within
    their limits; the references of a task are its requests, within their
    limit, and a task that nobody waits for has been cancelled; departures,
    publications and exits never close a channel twice; and an identity has
    one live producer at most, unless a join found the token of the other
    invalidated. *)
Theorem fill_group_exact W T y :
  rtc (fill_step W T) (mkFills newFillGroup [] [] []) y ->
  let g := fs_group y in
  fg_active g = sumZ running (fs_producers y) /\ fg_active g <= Z.max 0 T /\ fg_waiters g = sumZ here (fs_members y) /\
  (forall a t, fg_heap g !! a = Some t -> ft_refs t = sumZ (refsAt a) (fs_members y) /\ ft_refs t <= Z.max 1 W /\ (ft_refs t = 0 -> ft_ctxErr t <> None)) /\
  (forall i a creator, fs_members y !! i = Some (mkMember a creator false) -> is_Some (leave a creator g)) /\
  (forall a r, fs_producers y !! a = Some Producing -> is_Some (publish a r g)) /\
  (forall a, fs_producers y !! a = Some Cancelled -> is_Some (finish a g)) /\
  (forall a b ta tb, fg_heap g !! a = Some ta -> fg_heap g !! b = Some tb -> ft_id ta = ft_id tb ->
     Forall (fun c => c ∉ fs_stale y /\ fs_producers y !! c <> Some Exited) [a; b] -> ft_ctxErr ta = None -> ft_ctxErr tb = None -> a = b).
Proof.
  intros Hr. pose proof (fills_reach_ok W T y Hr) as F. destruct y as [g ms ps st]. cbn. pose proof F as [F1 F2 F3 F4 [F5 F5'] F6 F7 F8 F9]. cbn in *.
  assert (forall a t, fg_heap g !! a = Some t -> exists p, ps !! a = Some p) as Hps.
  { intros a t Ha. apply lookup_lt_Some in Ha. apply lookup_lt_is_Some_2. lia. }
  split_and!; try done; try lia.
  - intros a t Ha. destruct (Hps a t Ha) as [p Hp]. destruct (F3 a t p Ha Hp). done.
  - intros i a creator Hi. destruct (leave_ok _ _ _ _ _ _ _ _ _ F Hi) as (g' & -> & _). by eexists.
  - intros a r Hp. destruct (publish_ok _ _ _ _ _ _ _ r F Hp) as (g' & -> & _). by eexists.
  - intros a Hp. destruct (finish_ok _ _ _ _ _ _ _ F Hp) as (g' & -> & _). by eexists.
  - intros a b ta tb Ha Hb Hid Hrun Ca Cb. rewrite !Forall_cons in Hrun. destruct Hrun as ([Sa Ra] & [Sb Rb] & _).
    destruct (Hps a ta Ha) as [pa Hpa]. destruct (Hps b tb Hb) as [pb Hpb].
    pose proof (tk_registered _ _ _ _ _ _ _ (F3 a ta pa Ha Hpa) ltac:(congruence) Ca Sa) as Xa.
    pose proof (tk_registered _ _ _ _ _ _ _ (F3 b tb pb Hb Hpb) ltac:(congruence) Cb Sb) as Xb. congruence.
Qed.

(** Two requests share a task; the creator leaves first. *)
Definition shared : fills :=
  mkFills (mkGroup None {[ [105] := 0%nat ]} [mkTask [105] None 1 false true false (mkResult [] None [])] 1 1 1 1 0 0 0 0)
    [mkMember 0 true true; mkMember 0 false false] [Producing] [].

Lemma shared_reachable : rtc (fill_step 2 1) (mkFills newFillGroup [] [] []) shared.
Proof.
  eapply rtc_l; [eapply (fs_join _ _ newFillGroup [] [] [] None None 2 1 [105]); [lia|lia|reflexivity]|].
  eapply rtc_l; [eapply (fs_join _ _ _ _ _ _ None None 2 1 [105]); [lia|lia|reflexivity]|].
  eapply rtc_l; [eapply (fs_leave _ _ _ _ _ _ 0%nat 0%nat true); reflexivity|]. apply rtc_refl.
Qed.

Lemma fill_group_exact_witness : fg_active (fs_group shared) <= 1 /\ is_Some (leave 0 false (fs_group shared)).
Proof.
  destruct (fill_group_exact 2 1 shared shared_reachable) as (_ & H1 & _ & _ & H2 & _).
  split; [exact H1|]. exact (H2 1%nat 0%nat false eq_refl).
Defined.
