(* ===== verification/HttpText.v ===== *)
(** * Text of HTTP messages

    The string functions of the Go standard library that [server/] applies to
    header text, on strings as bytes: [EqualFold], [TrimSpace], [ToLower],
    [Split], [Cut], [Join], the accessors of [http.Header] and the decimal
    parsers.  Non-ASCII text is covered where it can change an outcome:
    [EqualFold] and [ToLower] relate a few non-ASCII letters to ASCII ones,
    and [TrimSpace] removes the Unicode spaces. *)

From S2P Require Import Prelude HttpInfo.
From Stdlib Require Import Ascii.
From Stdlib Require String.

(** A literal. *)
Definition str (s : string) : bytes := map (fun c => Z.of_N (N_of_ascii c)) (String.list_ascii_of_string s).

(** ** Letters *)

Definition lower (c : Z) : Z := if isUpper c then c + 32 else c.

(** [strings.EqualFold s t] for an ASCII [t].  U+212A folds to [k] and U+017F
    to [s]; no other non-ASCII letter folds to an ASCII one. *)
Fixpoint EqualFold (s t : bytes) : bool :=
  match t with
  | [] => bool_decide (s = [])
  | c :: t' =>
      match s with
      | 0xE2 :: 0x84 :: 0xAA :: s' => if lower c =? 107 then EqualFold s' t' else false
      | 0xC5 :: 0xBF :: s' => if lower c =? 115 then EqualFold s' t' else false
      | x :: s' => (lower x =? lower c) && EqualFold s' t'
      | [] => false
      end
  end.

(** [strings.ToLower], up to non-ASCII letters whose lower case is not ASCII:
    U+0130 and U+212A have the ASCII lower cases [i] and [k]. *)
Fixpoint ToLower (s : bytes) : bytes :=
  match s with
  | 0xC4 :: 0xB0 :: s' => 105 :: ToLower s'
  | 0xE2 :: 0x84 :: 0xAA :: s' => 107 :: ToLower s'
  | c :: s' => lower c :: ToLower s'
  | [] => []
  end.

(** ** Spaces *)

(** The UTF-8 encodings of the characters [unicode.IsSpace] accepts. *)
Definition spaces : list bytes :=
  map (fun c => [c]) [9; 10; 11; 12; 13; 32] ++ [[0xC2; 0x85]; [0xC2; 0xA0]; [0xE1; 0x9A; 0x80]] ++
  map (fun c => [0xE2; 0x80; c]) (seqZ 0x80 11 ++ [0xA8; 0xA9; 0xAF]) ++ [[0xE2; 0x81; 0x9F]; [0xE3; 0x80; 0x80]].

Fixpoint trimLeft (fuel : nat) (sps : list bytes) (s : bytes) : bytes :=
  match fuel with
  | O => s
  | S fuel =>
      match find (HasPrefix s) sps with
      | Some p => trimLeft fuel sps (drop (length p) s)
      | None => s
      end
  end.

(** [strings.TrimSpace]; a string has no more spaces than bytes. *)
Definition TrimSpace (s : bytes) : bytes :=
  let s := trimLeft (length s) spaces s in
  rev (trimLeft (length s) (map (fun p => rev p) spaces) (rev s)).

(** ** Cutting and joining *)

(** [strings.Split] at one character. *)
Fixpoint splitAt (sep : Z) (acc s : bytes) : list bytes :=
  match s with
  | [] => [rev acc]
  | c :: s' => if c =? sep then rev acc :: splitAt sep [] s' else splitAt sep (c :: acc) s'
  end.
Definition Split (s : bytes) (sep : Z) : list bytes := splitAt sep [] s.

(** [strings.Cut] at one character. *)
Fixpoint cutAt (sep : Z) (acc s : bytes) : bytes * bytes * bool :=
  match s with
  | [] => (rev acc, [], false)
  | c :: s' => if c =? sep then (rev acc, s', true) else cutAt sep (c :: acc) s'
  end.
Definition Cut (s : bytes) (sep : Z) : bytes * bytes * bool := cutAt sep [] s.

Fixpoint Join (l : list bytes) (sep : bytes) : bytes :=
  match l with [] => [] | [x] => x | x :: l' => x ++ sep ++ Join l' sep end.

Definition TrimPrefix (s p : bytes) : bytes := if HasPrefix s p then drop (length p) s else s.

(** ** Headers *)

Definition Values (h : Header) (name : bytes) : list bytes := default [] (h !! CanonicalHeaderKey name).
Definition GetHeader (h : Header) (name : bytes) : bytes := default [] (head (Values h name)).
Definition DelHeader (h : Header) (name : bytes) : Header := delete (CanonicalHeaderKey name) h.
Definition SetHeader (h : Header) (name v : bytes) : Header := <[CanonicalHeaderKey name := [v]]> h.

(** [hasHeader] of [server/cache_policy.go]; the order of the range does not
    matter. *)
Definition hasHeader (h : Header) (name : bytes) : bool := existsb (fun kv : bytes * list bytes => EqualFold kv.1 name) (map_to_list h).

(** ** Decimal numbers *)

Definition isDigit (c : Z) : bool := (48 <=? c) && (c <=? 57).

(** The value of a string of digits. *)
Definition decimalValue (s : bytes) : Z := foldl (fun acc c => 10 * acc + (c - 48)) 0 s.

(** [strconv.ParseInt s 10 64] and [strconv.ParseUint s 10 63] on a nonempty
    string of digits: [None] above the range. *)
Definition parseDigits (s : bytes) : option Z :=
  let v := decimalValue s in if v <? 2 ^ 63 then Some v else None.

Lemma decimalValue_nonneg s acc : 0 <= acc -> forallb isDigit s = true -> 0 <= foldl (fun acc c => 10 * acc + (c - 48)) acc s.
Proof.
  revert acc. induction s as [|c s IH]; intros acc Ha Hs; [done|]. cbn in Hs |- *. b2p. unfold isDigit in *. b2p. apply IH; [lia|done].
Qed.

(** [strconv.FormatInt v 10]. *)
Fixpoint formatLoop (fuel : nat) (v : Z) (acc : bytes) : bytes :=
  match fuel with
  | O => acc
  | S fuel => let acc := (48 + v mod 10) :: acc in if v <? 10 then acc else formatLoop fuel (v / 10) acc
  end.
Definition FormatInt (v : Z) : bytes :=
  if v <? 0 then 45 :: formatLoop 20 (- v) [] else formatLoop 20 v [].

Lemma formatLoop_digits fuel v acc : 0 <= v -> forallb isDigit acc = true -> forallb isDigit (formatLoop fuel v acc) = true.
Proof.
  revert v acc. induction fuel as [|fuel IH]; intros v acc Hv Ha; [done|]. cbn [formatLoop].
  pose proof (Z.mod_pos_bound v 10 ltac:(lia)).
  assert (forallb isDigit (48 + v mod 10 :: acc) = true) as Hd.
  { cbn. rewrite Ha, andb_true_r. unfold isDigit. apply andb_true_iff. split; apply Z.leb_le; lia. }
  destruct (_ <? _); [done|]. apply IH; [apply Z.div_pos; lia|done].
Qed.

Lemma formatLoop_nonempty fuel v acc : fuel <> O \/ acc <> [] -> formatLoop fuel v acc <> [].
Proof.
  revert v acc. induction fuel as [|fuel IH]; intros v acc Hf; [by destruct Hf|]. cbn [formatLoop].
  destruct (_ <? _); [done|]. apply IH. by right.
Qed.

Lemma formatLoop_decimal fuel v acc : 0 <= v < 10 ^ Z.of_nat fuel ->
  decimalValue (formatLoop fuel v acc) = foldl (fun acc c => 10 * acc + (c - 48)) v acc.
Proof.
  unfold decimalValue. revert v acc. induction fuel as [|fuel IH]; intros v acc Hv.
  { assert (v = 0) as -> by (cbn in Hv; lia). done. }
  cbn [formatLoop]. rewrite Nat2Z.inj_succ, Z.pow_succ_r in Hv by lia. destruct (v <? 10) eqn:E; b2p.
  - cbn [foldl]. f_equal. rewrite Z.mod_small by lia. lia.
  - rewrite IH. { cbn [foldl]. f_equal. pose proof (Z.div_mod v 10 ltac:(lia)). lia. }
    split; [apply Z.div_pos; lia|]. apply Z.div_lt_upper_bound; lia.
Qed.

(** What [FormatInt] prints, [ParseInt] reads. *)
Lemma FormatInt_decimal v : 0 <= v < 2 ^ 63 ->
  forallb isDigit (FormatInt v) = true /\ FormatInt v <> [] /\ parseDigits (FormatInt v) = Some v.
Proof.
  intros Hv. unfold FormatInt. replace (v <? 0) with false by lia. split; [apply formatLoop_digits; [lia|done]|]. split; [apply formatLoop_nonempty; by left|].
  unfold parseDigits. rewrite formatLoop_decimal by (change (10 ^ Z.of_nat 20) with 100000000000000000000; lia). cbn [foldl]. by replace (v <? 2 ^ 63) with true by lia.
Qed.

Lemma cutAt_app sep acc a b : Forall (fun c => c <> sep) a -> cutAt sep acc (a ++ sep :: b) = (rev acc ++ a, b, true).
Proof.
  intros F. revert acc. induction F as [|c a Hc F IH]; intros acc; cbn; [by rewrite Z.eqb_refl, app_nil_r|].
  apply Z.eqb_neq in Hc. rewrite Hc, IH. cbn. by rewrite <- app_assoc.
Qed.

Lemma TrimPrefix_app p s : TrimPrefix (p ++ s) p = s.
Proof.
  unfold TrimPrefix. assert (HasPrefix (p ++ s) p = true) as -> by (apply HasPrefix_spec; eauto). by rewrite drop_app_length.
Qed.
