(* ===== verification/HttpPolicy.v ===== *)
(** * The HTTP cache policy

    [server/cache_policy.go], [server/cache_variant.go] and
    [server/cache_validation.go]: which requests and responses a shared cache
    may use, how long a stored response is fresh, which fields vary, and how
    validators are compared.  Times and durations are nanoseconds;
    [http.ParseTime] is a parameter. *)

From S2P Require Import Prelude HttpInfo HttpText.

(** A [time.Duration] is an [int64]; [Time.Sub] saturates. *)
Definition maxDuration : Z := 2 ^ 63 - 1.
Definition timeSub (t u : Z) : Z := Z.max (- 2 ^ 63) (Z.min maxDuration (t - u)).

(** The parts of an [http.Request] the policy reads; [rq_body] says whether
    there is a body other than [http.NoBody]. *)
Record Request : Type := mkRequest {
  rq_Method : bytes; rq_ContentLength : Z; rq_TransferEncoding : list bytes; rq_body : bool; rq_Header : Header }.

(** ** Directives *)

Definition deltaSeconds (value : bytes) : option Z :=
  if bool_decide (value = []) || negb (forallb isDigit value) then None
  else match parseDigits value with
  | None => None
  | Some seconds => if maxDuration / 10 ^ 9 <? seconds then None else Some (seconds * 10 ^ 9)
  end.

Definition connectionNominates (h : Header) (names : list bytes) : bool :=
  existsb (fun line => existsb (fun field => existsb (EqualFold (TrimSpace field)) names) (Split line 44)) (Values h (str "Connection")).

Definition numericDirective (request : bool) (name : bytes) : bool :=
  bool_decide (name = str "max-age") || (negb request && bool_decide (name = str "s-maxage")) ||
  (request && bool_decide (name = str "min-fresh")).

Definition flagDirective (request : bool) (name : bytes) : bool :=
  bool_decide (name = str "no-cache") ||
  (negb request && existsb (fun x => bool_decide (name = x))
     [str "public"; str "must-revalidate"; str "proxy-revalidate"; str "immutable"; str "no-transform"]).

(** A value within double quotes. *)
Definition unquote (value : bytes) : bytes :=
  if (2 <=? blen value) && bool_decide (head value = Some 34) && bool_decide (last value = Some 34)
  then slice value 1 (blen value - 1) else value.

(** One member of a [Cache-Control] line: its name, value, and whether it has
    one. *)
Definition parseDirective (raw : bytes) : bytes * bytes * bool :=
  let '(name, value, valued) := Cut (TrimSpace raw) 61 in
  (ToLower (TrimSpace name), TrimSpace value, valued).

Abbreviation Directives := (gmap bytes bytes).

Definition addDirective (request : bool) (directives : Directives) (raw : bytes) : option Directives :=
  let '(name, value, valued) := parseDirective raw in
  if bool_decide (is_Some (directives !! name)) then None
  else if numericDirective request name then
    if negb valued then None
    else
      let value := unquote value in
      match deltaSeconds value with None => None | Some _ => Some (<[name := value]> directives) end
  else if negb (flagDirective request name) || valued then None
  else Some (<[name := value]> directives).

Fixpoint addDirectives (request : bool) (directives : Directives) (raws : list bytes) : option Directives :=
  match raws with
  | [] => Some directives
  | raw :: raws => d ← addDirective request directives raw; addDirectives request d raws
  end.

(** The members of all [Cache-Control] lines, in order. *)
Definition members (h : Header) : list bytes := Values h (str "Cache-Control") ≫= (fun line => Split line 44).

Definition cacheDirectives (h : Header) (request : bool) : option Directives := addDirectives request ∅ (members h).

Definition requestCacheable (r : Request) : bool :=
  let h := rq_Header r in
  if (negb (bool_decide (rq_Method r = str "GET")) && negb (bool_decide (rq_Method r = str "HEAD"))) ||
     negb (rq_ContentLength r =? 0) || negb (bool_decide (rq_TransferEncoding r = [])) || rq_body r then false
  else if existsb (hasHeader h) [str "Authorization"; str "Proxy-Authorization"; str "Cookie"; str "Range"; str "If-Range"; str "If-Match"; str "If-Unmodified-Since"]
  then false
  else if connectionNominates h [str "Cache-Control"; str "Pragma"; str "If-None-Match"; str "If-Modified-Since"; str "Accept-Encoding"; str "Accept-Language"]
  then false
  else if hasHeader h (str "Pragma") && negb (EqualFold (GetHeader h (str "Pragma")) (str "no-cache")) then false
  else bool_decide (is_Some (cacheDirectives h true)).

(** ** Vary *)

Definition containsField (fields : list bytes) (field : bytes) : bool := existsb (fun f => bool_decide (f = field)) fields.

Fixpoint varyLoop (fields : list bytes) (l : list bytes) : option (list bytes) :=
  match l with
  | [] => Some fields
  | raw :: l =>
      let field := CanonicalHeaderKey (TrimSpace raw) in
      if negb (bool_decide (field = str "Accept-Encoding")) && negb (bool_decide (field = str "Accept-Language")) then None
      else varyLoop (if containsField fields field then fields else fields ++ [field]) l
  end.

Definition varyFields (h : Header) : option (list bytes) :=
  fields ← varyLoop [] (Values h (str "Vary") ≫= (fun line => Split line 44)); Some (sortStrings fields).

Definition sameVary (a b : Header) : bool :=
  match varyFields a with
  | None => false
  | Some first =>
      match varyFields b with
      | None => false
      | Some second => bool_decide (Join first (str ",") = Join second (str ","))
      end
  end.

(** [strings.LastIndexByte] of a colon, and the key up to it. *)
Fixpoint dropLast (s : bytes) : option bytes :=
  match s with [] => None | c :: s' => if c =? 58 then Some s' else dropLast s' end.
Definition schemaPrefix (selector key : bytes) : bytes :=
  if bool_decide (key = selector) then selector
  else match dropLast (rev key) with None => key | Some p => rev p end.
Definition sameRepresentationSchema (selector a b : bytes) : bool := bool_decide (schemaPrefix selector a = schemaPrefix selector b).

(** ** Freshness *)

Record freshness : Type := mkFreshness { p_age : Z; p_lifetime : Z; p_validate : bool; p_evaluated : Z }.

Definition addAge (a b : Z) : Z := if i64 (maxDuration - b) <? a then maxDuration else i64 (a + b).

Section Policy.
Context (parseTime : bytes -> option Z).

(** The age the headers and the clock give, once the directives are known. *)
Definition responseAge (info : CacheHTTPInfo) (now : Z) : option Z :=
  let h := ResponseHeaders info in
  age ← match Values h (str "Age") with
        | [] => Some 0
        | [v] => deltaSeconds v
        | _ => None
        end;
  let delay := timeSub (ResponseTime info) (RequestTime info) in
  let resident := timeSub now (ResponseTime info) in
  if (delay <? 0) || (resident <? 0) then None
  else
    let age := addAge age delay in
    age ← match Values h (str "Date") with
          | [] => Some age
          | [v] => date ← parseTime v; Some (Z.max age (timeSub (ResponseTime info) date))
          | _ => None
          end;
    Some (addAge age resident).

Definition responsePolicy (info : CacheHTTPInfo) (now : Z) : option freshness :=
  let h := ResponseHeaders info in
  if negb (Status info =? 200) || negb (bool_decide (RequestMethod info = str "GET")) then None
  else
    _ ← varyFields h;
    if connectionNominates h [str "Cache-Control"; str "Age"; str "Date"; str "Set-Cookie"; str "Vary"; str "Content-Range"; str "Trailer"; str "ETag"; str "Last-Modified"]
    then None
    else if existsb (hasHeader h) [str "Set-Cookie"; str "Content-Range"; str "Trailer"] then None
    else
      directives ← cacheDirectives h false;
      let public := bool_decide (is_Some (directives !! str "public")) in
      let shared := directives !! str "s-maxage" in
      if negb public && bool_decide (shared = None) then None
      else
        let lifetime := match shared with Some v => v | None => default [] (directives !! str "max-age") end in
        lt ← deltaSeconds lifetime;
        age ← responseAge info now;
        Some (mkFreshness age lt (bool_decide (is_Some (directives !! str "no-cache"))) now).

Definition currentAge (p : freshness) (now : Z) : option Z :=
  let elapsed := timeSub now (p_evaluated p) in
  if elapsed <? 0 then None else Some (addAge (p_age p) elapsed).

Definition requestPolicyFresh (r : Request) (p : freshness) (now : Z) : bool :=
  match currentAge p now with
  | None => false
  | Some age =>
      if p_validate p || (p_lifetime p <=? age) || hasHeader (rq_Header r) (str "Pragma") then false
      else match cacheDirectives (rq_Header r) true with
      | None => false
      | Some d =>
          if bool_decide (is_Some (d !! str "no-cache")) then false
          else if match d !! str "max-age" with Some v => default 0 (deltaSeconds v) <? age | None => false end then false
          else if match d !! str "min-fresh" with Some v => i64 (p_lifetime p - age) <=? default 0 (deltaSeconds v) | None => false end then false
          else true
      end
  end.

Definition requestFresh (r : Request) (info : CacheHTTPInfo) (now : Z) : bool :=
  match responsePolicy info now with Some p => requestPolicyFresh r p now | None => false end.

(** ** Validators *)

Definition validETag (tag : bytes) : bool :=
  let tag := TrimPrefix tag (str "W/") in
  if (blen tag <? 2) || negb (bool_decide (head tag = Some 34)) || negb (bool_decide (last tag = Some 34)) then false
  else forallb (fun c => negb ((c =? 34) || (c <? 0x21) || (c =? 0x7f))) (slice tag 1 (blen tag - 1)).

(** [mergeResponseHeaders]; the header names of a parsed message are distinct
    and each is set once, so the order of the range does not matter. *)
Definition keptField (name : bytes) : bool :=
  existsb (fun x => bool_decide (CanonicalHeaderKey name = x))
    [str "Content-Length"; str "Content-Range"; str "Transfer-Encoding"; str "Trailer"].
Definition mergeResponseHeaders (old updated : Header) : Header :=
  let merged := filter (fun kv : bytes * list bytes => keptField kv.1 = false) updated ∪ old in
  if hasHeader updated (str "Age") then merged else DelHeader merged (str "Age").

(** The validators of [mergeValidation] agree. *)
Definition tagsAgree (storedTag : bytes) (h : Header) : bool :=
  let received := GetHeader h (str "ETag") in
  if bool_decide (received = []) then true
  else if negb (bool_decide (length (Values h (str "ETag")) = 1%nat)) || negb (validETag received) || negb (validETag storedTag) then false
  else if HasPrefix received (str "W/") then bool_decide (TrimPrefix received (str "W/") = TrimPrefix storedTag (str "W/"))
  else bool_decide (received = storedTag).

(** The request that was validated is about the stored response. *)
Definition requestAgrees (request : Header) (previous validation : Header) : bool :=
  let storedTag := GetHeader previous (str "ETag") in
  let tag := GetHeader request (str "If-None-Match") in
  if negb (bool_decide (tag = [])) then validETag tag && bool_decide (tag = storedTag)
  else match parseTime (GetHeader request (str "If-Modified-Since")), parseTime (GetHeader previous (str "Last-Modified")) with
  | Some sent, Some stored =>
      if negb (sent =? stored) then false
      else
        let received := GetHeader validation (str "Last-Modified") in
        if bool_decide (received = []) then true
        else match parseTime received with Some modified => modified =? stored | None => false end
  | _, _ => false
  end.

Definition mergeValidation (previous validation : CacheHTTPInfo) (request : Header) : option (CacheHTTPInfo * bool) :=
  let hp := ResponseHeaders previous in
  let hv := ResponseHeaders validation in
  if existsb (hasHeader hv) [str "Content-Range"; str "Trailer"] then None
  else if hasHeader hv (str "Content-Encoding") &&
          negb (bool_decide (Join (Values hv (str "Content-Encoding")) (str ",") = Join (Values hp (str "Content-Encoding")) (str ","))) then None
  else if negb (tagsAgree (GetHeader hp (str "ETag")) hv) then None
  else if negb (requestAgrees request hp hv) then None
  else
    let merged := mkInfo (RequestTime validation) (ResponseTime validation) (RequestMethod previous) (RequestURL previous)
                    (Status previous) (mergeResponseHeaders hp hv) in
    Some (merged, bool_decide (is_Some (responsePolicy merged (ResponseTime merged)))).

(** [strings.IndexByte] of a double quote. *)
Fixpoint indexQuote (s : bytes) : option nat :=
  match s with [] => None | c :: s' => if c =? 34 then Some O else S <$> indexQuote s' end.

(** The loop of [clientNotModified] over the entity tags of a list; each turn
    removes at least a quoted string. *)
Fixpoint matchTags (fuel : nat) (stored value : bytes) (matched : bool) : bool :=
  match fuel with
  | O => matched
  | S fuel =>
      if bool_decide (value = []) then matched
      else
        let start := (if HasPrefix value (str "W/") then 2 else 0)%nat in
        if negb (bool_decide (value !! start = Some 34)) then false
        else match indexQuote (drop (start + 1) value) with
        | None => false
        | Some e =>
            let stop := (e + start + 2)%nat in
            let tag := take stop value in
            if negb (validETag tag) then false
            else
              let matched := matched || bool_decide (TrimPrefix tag (str "W/") = TrimPrefix stored (str "W/")) in
              let value := TrimSpace (drop stop value) in
              match value with
              | [] => matched
              | c :: rest =>
                  if negb (c =? 44) then false
                  else let value := TrimSpace rest in
                       if bool_decide (value = []) then false else matchTags fuel stored value matched
              end
        end
  end.

Definition clientNotModified (request : Header) (h : Header) : bool :=
  if hasHeader request (str "If-None-Match") then
    let value := TrimSpace (Join (Values request (str "If-None-Match")) (str ",")) in
    if bool_decide (value = str "*") then true
    else
      let stored := GetHeader h (str "ETag") in
      if negb (validETag stored) then false else matchTags (S (length value)) stored value false
  else match parseTime (GetHeader h (str "Last-Modified")) with
  | None => false
  | Some modified =>
      match parseTime (GetHeader request (str "If-Modified-Since")) with
      | None => false
      | Some since => negb (since <? modified)
      end
  end.

End Policy.

(** ** Ages *)

Lemma deltaSeconds_range v d : deltaSeconds v = Some d -> 0 <= d <= maxDuration.
Proof.
  unfold deltaSeconds, parseDigits. destruct (_ || _) eqn:E; [done|]. b2p. destruct (_ <? 2 ^ 63); [|done].
  destruct (_ <? decimalValue v) eqn:E2; [done|]. b2p. intros [= <-].
  pose proof (decimalValue_nonneg v 0 ltac:(lia) ltac:(done)). unfold decimalValue in *. unfold maxDuration in *.
  assert (10 ^ 9 * ((2 ^ 63 - 1) / 10 ^ 9) <= 2 ^ 63 - 1) by (apply Z.mul_div_le; lia). lia.
Qed.

Lemma timeSub_nonneg t u : 0 <= timeSub t u -> 0 <= t - u /\ timeSub t u = Z.min maxDuration (t - u).
Proof. unfold timeSub, maxDuration. lia. Qed.

Lemma addAge_eq a b : 0 <= b <= maxDuration -> a <= maxDuration -> - 2 ^ 63 <= a -> addAge a b = Z.min maxDuration (a + b).
Proof.
  intros Hb Ha Hl. unfold addAge. rewrite (i64_small (maxDuration - b)) by (unfold fits_i64, maxDuration in *; lia).
  destruct (_ <? a) eqn:E; b2p; [unfold maxDuration in *; lia|]. rewrite i64_small by (unfold fits_i64, maxDuration in *; lia). lia.
Qed.

(** The age the headers give at the time of the response. *)
Definition headerAge (h : Header) : option Z :=
  match Values h (str "Age") with [] => Some 0 | [v] => deltaSeconds v | _ => None end.

Lemma headerAge_range h a : headerAge h = Some a -> 0 <= a <= maxDuration.
Proof.
  unfold headerAge. destruct (Values h _) as [|v [|]]; [intros [= <-]; unfold maxDuration; lia|apply deltaSeconds_range|done].
Qed.

(** The age grows with the clock and covers the delay, the [Age] field and the
    [Date] field. *)
Lemma responseAge_bounds parseTime info now age :
  responseAge parseTime info now = Some age ->
  exists a, headerAge (ResponseHeaders info) = Some a /\ RequestTime info <= ResponseTime info <= now /\ 0 <= age <= maxDuration /\
    (age < maxDuration -> now - RequestTime info + a <= age) /\
    (age < maxDuration -> forall v t, Values (ResponseHeaders info) (str "Date") = [v] -> parseTime v = Some t -> now - t <= age) /\
    forall now', ResponseTime info <= now' <= now -> exists age', responseAge parseTime info now' = Some age' /\ age' <= age.
Proof.
  unfold responseAge. fold (headerAge (ResponseHeaders info)). destruct (headerAge _) as [a|] eqn:Ea; [|done]. cbn [mbind option_bind].
  pose proof (headerAge_range _ _ Ea) as Ha. destruct ((timeSub (ResponseTime info) _ <? 0) || _) eqn:E; [done|]. b2p.
  apply timeSub_nonneg in H as [D1 D2]. apply timeSub_nonneg in H0 as [R1 R2]. rewrite D2, R2, (addAge_eq a) by (unfold maxDuration in *; lia).
  set (date := match Values _ (str "Date") with [] => _ | _ => _ end). intros Hd.
  assert (exists b, date = Some b /\ 0 <= b <= maxDuration /\ Z.min maxDuration (a + Z.min maxDuration (ResponseTime info - RequestTime info)) <= b /\
    (b < maxDuration -> forall v t, Values (ResponseHeaders info) (str "Date") = [v] -> parseTime v = Some t -> ResponseTime info - t <= b)) as (b & Eb & Hb & Hb1 & Hb2).
  { unfold date in *. destruct (Values _ (str "Date")) as [|v [|]]; [| |done].
    - eexists. split; [done|]. split_and!; [unfold maxDuration; lia|unfold maxDuration; lia|lia|]. by intros.
    - destruct (parseTime v) as [t|] eqn:Et; [|done]. cbn [mbind option_bind]. eexists. split; [done|]. unfold timeSub, maxDuration in *.
      split_and!; [lia|lia|lia|]. intros Hlt v' t' [= <-] Et'. rewrite Et in Et'. injection Et' as <-. lia. }
  rewrite Eb in Hd. cbn [mbind option_bind] in Hd. rewrite addAge_eq in Hd by (unfold maxDuration in *; lia). injection Hd as <-.
  exists a. split_and!; [done|lia|lia|unfold maxDuration in *; lia|lia|lia| |].
  - intros Hlt v t Hv Ht. specialize (Hb2 ltac:(lia) v t Hv Ht). unfold maxDuration in *. lia.
  - intros now' Hn. assert (0 <= timeSub now' (ResponseTime info)) as Hr by (unfold timeSub, maxDuration; lia).
    apply timeSub_nonneg in Hr as [S1 S2]. rewrite S2. replace ((Z.min maxDuration (ResponseTime info - RequestTime info) <? 0) || _) with false by (unfold maxDuration in *; lia).
    rewrite Eb. cbn [mbind option_bind]. rewrite addAge_eq by (unfold maxDuration in *; lia). eexists. split; [done|]. lia.
Qed.

(** ** Directives *)

(** The directives the policy understands in responses. *)
Definition supported (raw : bytes) : bool :=
  let name := (parseDirective raw).1.1 in numericDirective false name || flagDirective false name.

Lemma addDirectives_supported d raws d' : addDirectives false d raws = Some d' -> Forall (fun raw => supported raw = true) raws.
Proof.
  revert d. induction raws as [|raw raws IH]; intros d; [constructor|]. cbn [addDirectives].
  destruct (addDirective false d raw) as [d1|] eqn:E; [|done]. cbn [mbind option_bind]. intros Hr. constructor; [|by eapply IH].
  unfold addDirective, supported in *. destruct (parseDirective raw) as [[name value] valued]. cbn [fst].
  destruct (bool_decide _); [done|]. destruct (numericDirective false name); [done|]. destruct (flagDirective false name); [done|]. done.
Qed.

(** The lifetime the directives of a response give a shared cache. *)
Definition sharedLifetime (d : Directives) : option Z :=
  match d !! str "s-maxage" with
  | Some v => deltaSeconds v
  | None => if bool_decide (is_Some (d !! str "public")) then deltaSeconds (default [] (d !! str "max-age")) else None
  end.

Lemma responsePolicy_Some parseTime info now p :
  responsePolicy parseTime info now = Some p ->
  exists d, cacheDirectives (ResponseHeaders info) false = Some d /\ sharedLifetime d = Some (p_lifetime p) /\
    p_validate p = bool_decide (is_Some (d !! str "no-cache")) /\ p_evaluated p = now /\ responseAge parseTime info now = Some (p_age p) /\
    Status info = 200 /\ RequestMethod info = str "GET" /\ hasHeader (ResponseHeaders info) (str "Set-Cookie") = false /\
    forall now' age', responseAge parseTime info now' = Some age' ->
      responsePolicy parseTime info now' = Some (mkFreshness age' (p_lifetime p) (p_validate p) now').
Proof.
  unfold responsePolicy. destruct (negb (Status info =? 200) || _) eqn:E1; [done|]. b2p.
  destruct (varyFields _); cbn [mbind option_bind]; [|done]. destruct (connectionNominates _ _); [done|].
  destruct (existsb (hasHeader _) _) eqn:E2; [done|]. cbn [existsb] in E2. b2p. destruct (cacheDirectives _ false) as [d|]; cbn [mbind option_bind]; [|done].
  destruct (negb _ && _) eqn:E3; [done|]. destruct (deltaSeconds _) as [lt|] eqn:E4; cbn [mbind option_bind]; [|done].
  destruct (responseAge parseTime info now) as [age|]; cbn [mbind option_bind]; [|done]. intros [= <-]. cbn [p_lifetime p_validate p_evaluated p_age].
  exists d. split_and!; try done.
  - unfold sharedLifetime. destruct (d !! str "s-maxage"); [done|]. rewrite (bool_decide_eq_true_2 (None = None)), andb_true_r in E3 by done. b2p.
    by rewrite bool_decide_eq_true_2.
  - intros now' age' ->. done.
Qed.

Lemma requestPolicyFresh_younger r p age' now now' :
  p_evaluated p = now -> 0 <= p_age p -> p_age p <= maxDuration -> 0 <= age' <= p_age p -> p_lifetime p <= maxDuration ->
  requestPolicyFresh r p now = true ->
  p_age p < p_lifetime p /\ p_validate p = false /\ requestPolicyFresh r (mkFreshness age' (p_lifetime p) (p_validate p) now') now' = true.
Proof.
  intros He Ha Hm Hy Hl. unfold requestPolicyFresh, currentAge. rewrite He. cbn [p_evaluated p_age p_validate p_lifetime].
  assert (forall x, timeSub x x = 0) as Hz by (intros x; unfold timeSub, maxDuration; lia). rewrite !Hz. cbn [Z.ltb Z.compare].
  rewrite !addAge_eq by (unfold maxDuration in *; lia). rewrite !Z.add_0_r, !Z.min_r by (unfold maxDuration in *; lia).
  destruct (_ || _ || _) eqn:E; [done|]. b2p. destruct (cacheDirectives _ true) as [d|]; [|done]. intros Hf. split; [lia|]. split; [done|].
  rewrite H. replace (p_lifetime p <=? age') with false by lia. rewrite H0. cbn [orb].
  destruct (bool_decide _); [done|]. destruct (match d !! str "max-age" with Some _ => _ | None => _ end) eqn:E1; [done|].
  replace (match d !! str "max-age" with Some v => default 0 (deltaSeconds v) <? age' | None => false end) with false.
  2: { destruct (d !! str "max-age"); [|done]. b2p. symmetry. apply Z.ltb_ge. lia. }
  destruct (match d !! str "min-fresh" with Some _ => _ | None => _ end) eqn:E2; [done|].
  destruct (d !! str "min-fresh") as [v|]; [|done]. b2p. rewrite i64_small in E2 |- * by (unfold fits_i64, maxDuration in *; lia).
  by replace (_ <=? _) with false by lia.
Qed.

(** What the request has accepted: the directives it was checked against. *)
Lemma requestPolicyFresh_accepts r p now :
  p_evaluated p = now -> 0 <= p_age p <= maxDuration -> p_lifetime p <= maxDuration -> requestPolicyFresh r p now = true ->
  exists d, cacheDirectives (rq_Header r) true = Some d /\ hasHeader (rq_Header r) (str "Pragma") = false /\ d !! str "no-cache" = None /\
    (forall v, d !! str "max-age" = Some v -> p_age p <= default 0 (deltaSeconds v)) /\
    (forall v, d !! str "min-fresh" = Some v -> default 0 (deltaSeconds v) < p_lifetime p - p_age p).
Proof.
  intros He Ha Hl. unfold requestPolicyFresh, currentAge. rewrite He. replace (timeSub now now) with 0 by (unfold timeSub, maxDuration; lia). cbn [Z.ltb Z.compare].
  rewrite addAge_eq, Z.add_0_r, Z.min_r by (unfold maxDuration in *; lia). destruct (_ || _ || _) eqn:E; [done|]. b2p.
  destruct (cacheDirectives _ true) as [d|]; [|done]. case_bool_decide as En; [done|].
  destruct (match d !! str "max-age" with Some _ => _ | None => _ end) eqn:E1; [done|].
  destruct (match d !! str "min-fresh" with Some _ => _ | None => _ end) eqn:E2; [done|]. intros _. exists d. split_and!; [done|done|by apply eq_None_not_Some|..].
  - intros v Hv. rewrite Hv in E1. b2p. lia.
  - intros v Hv. rewrite Hv in E2. b2p. rewrite i64_small in E2 by (unfold fits_i64, maxDuration in *; lia). lia.
Qed.

(** ** Properties *)

(** C14: a response served as fresh may be used by a shared cache and has not
    expired: it is a 200 response to a GET without [Set-Cookie]; every
    directive of its [Cache-Control] lines is one the policy understands (so
    neither [private] nor [no-store]) and none demands validation; the time
    since the request was sent, plus any [Age] it came with, and the time
    since its [Date], are below the lifetime that [s-maxage], or [max-age] of
    a public response, grants.  The request accepts it: it has no [Pragma] and
    no [no-cache], that age is within its [max-age], and its [min-fresh] is
    left of the lifetime.  And freshness is lost only once: it was fresh
    for the same request at every earlier moment since it was received. *)
Theorem fresh_response_usable parseTime r info now :
  requestFresh parseTime r info now = true ->
  exists d lt a, cacheDirectives (ResponseHeaders info) false = Some d /\ Forall (fun raw => supported raw = true) (members (ResponseHeaders info)) /\
    d !! str "no-cache" = None /\ sharedLifetime d = Some lt /\ headerAge (ResponseHeaders info) = Some a /\
    Status info = 200 /\ RequestMethod info = str "GET" /\ hasHeader (ResponseHeaders info) (str "Set-Cookie") = false /\
    RequestTime info <= ResponseTime info <= now /\ now - RequestTime info + a < lt /\
    (forall v t, Values (ResponseHeaders info) (str "Date") = [v] -> parseTime v = Some t -> now - t < lt) /\
    (exists rd, cacheDirectives (rq_Header r) true = Some rd /\ hasHeader (rq_Header r) (str "Pragma") = false /\ rd !! str "no-cache" = None /\
      (forall v, rd !! str "max-age" = Some v -> now - RequestTime info + a <= default 0 (deltaSeconds v)) /\
      (forall v, rd !! str "min-fresh" = Some v -> default 0 (deltaSeconds v) < lt - (now - RequestTime info + a))) /\
    forall now', ResponseTime info <= now' <= now -> requestFresh parseTime r info now' = true.
Proof.
  unfold requestFresh. destruct (responsePolicy parseTime info now) as [p|] eqn:Ep; [|done]. intros Hf.
  destruct (responsePolicy_Some _ _ _ _ Ep) as (d & Hd & Hlt & Hv & He & Hage & Hs & Hm & Hc & Hlater).
  destruct (responseAge_bounds _ _ _ _ Hage) as (a & Ha & Ht & Hr & B1 & B2 & B3).
  assert (p_lifetime p <= maxDuration) as Hlm.
  { unfold sharedLifetime in Hlt. destruct (d !! str "s-maxage"); [apply deltaSeconds_range in Hlt; lia|]. destruct (bool_decide _); [apply deltaSeconds_range in Hlt; lia|done]. }
  destruct (requestPolicyFresh_younger r p (p_age p) now now He ltac:(lia) ltac:(lia) ltac:(lia) Hlm Hf) as (Hlife & Hval & _).
  exists d, (p_lifetime p), a. split_and!; try done; try lia.
  - by eapply addDirectives_supported.
  - rewrite Hv in Hval. apply bool_decide_eq_false in Hval. by apply eq_None_not_Some.
  - intros v t H1 H2. specialize (B2 ltac:(lia) v t H1 H2). lia.
  - destruct (requestPolicyFresh_accepts r p now He ltac:(lia) Hlm Hf) as (rd & Hrd & Hp & Hn & Hma & Hmf). exists rd. split_and!; [done..|intros v Hr'; specialize (Hma v Hr'); lia|intros v Hr'; specialize (Hmf v Hr'); lia].
  - intros now' Hn. destruct (B3 now' Hn) as (age' & Ha' & Hle). rewrite (Hlater _ _ Ha').
    destruct (responseAge_bounds _ _ _ _ Ha') as (_ & _ & _ & Hr' & _).
    destruct (requestPolicyFresh_younger r p age' now now' He ltac:(lia) ltac:(lia) ltac:(lia) Hlm Hf) as (_ & _ & ?). done.
Qed.

(** A public response with a minute to live, ten seconds after the request. *)
Definition info60 : CacheHTTPInfo :=
  mkInfo 0 (10 ^ 9) (str "GET") (str "/a") 200 {[ str "Cache-Control" := [str "public, max-age=60"] ]}.
Definition get_request : Request := mkRequest (str "GET") 0 [] false ∅.

Lemma fresh_response_usable_witness :
  requestFresh (fun _ => None) get_request info60 (10 * 10 ^ 9) = true /\
  requestFresh (fun _ => None) get_request info60 (5 * 10 ^ 9) = true.
Proof.
  assert (requestFresh (fun _ => None) get_request info60 (10 * 10 ^ 9) = true) as Hf by (vm_compute; reflexivity). split; [exact Hf|].
  destruct (fresh_response_usable (fun _ => None) get_request info60 (10 * 10 ^ 9) Hf) as (d & lt & a & _ & _ & _ & _ & _ & _ & _ & _ & _ & _ & _ & _ & Hlater).
  apply Hlater. vm_compute. split; congruence.
Defined.
