(* ===== verification/RangeCache.v ===== *)
(** * Range requests served from blocks

    [server/range_cache.go]: which requests are served from cached blocks, the
    bounds of a [Range] field, the manifest and block keys, the request and
    the acceptance check for one block of the origin, the exact read of a
    cached block and the assembly of the response.  The origin and the
    coordination of fills are outside of this file: a block is what reading
    it returns. *)

From S2P Require Import Prelude Hash Dir Doc HttpInfo RamCache CacheWriter WriterSpec FragmentWriter CacheReader ReaderSpec ReaderTotal ReaderIsolation HttpText HttpPolicy.

Definition errRangeBypass : error := Errorf "range representation unsupported".
Definition errRangeChanged : error := Errorf "range representation changed".

Record rangeManifest : Type := mkManifest {
  m_Version : Z; m_BlockSize : Z; m_Total : Z; m_ETag : bytes; m_Origin : bytes; m_Variant : bytes; m_Incarnation : bytes }.

Definition rangeLayoutVersion : Z := 2.

(** ** Eligible requests *)

Definition set_rq_Header (h : Header) (r : Request) : Request :=
  mkRequest (rq_Method r) (rq_ContentLength r) (rq_TransferEncoding r) (rq_body r) h.

Definition rangeEligible (r : Request) : bool :=
  let h := rq_Header r in
  if negb (bool_decide (rq_Method r = str "GET")) || negb (bool_decide (length (Values h (str "Range")) = 1%nat)) ||
     negb (HasPrefix (GetHeader h (str "Range")) (str "bytes=")) || existsb (Z.eqb 44) (GetHeader h (str "Range")) then false
  else if existsb (hasHeader h) [str "If-Match"; str "If-Unmodified-Since"; str "If-None-Match"; str "If-Modified-Since"] then false
  else if negb (bool_decide (GetHeader h (str "Accept-Encoding") = [])) && negb (bool_decide (GetHeader h (str "Accept-Encoding") = str "identity")) then false
  else if connectionNominates h [str "Range"; str "If-Range"; str "Accept-Encoding"] then false
  else requestCacheable (set_rq_Header (DelHeader (DelHeader h (str "Range")) (str "If-Range")) r).

Definition blockGETEligible (r : Request) : bool :=
  let h := rq_Header r in
  if hasHeader h (str "Range") || hasHeader h (str "If-Range") then false
  else rangeEligible (set_rq_Header (SetHeader h (str "Range") (str "bytes=0-")) r).

Definition strongRangeTag (tag : bytes) : bool := validETag tag && negb (HasPrefix tag (str "W/")).

Definition identityEncoding (h : Header) : bool :=
  bool_decide (Values h (str "Content-Encoding") = []) ||
  (bool_decide (length (Values h (str "Content-Encoding")) = 1%nat) && bool_decide (GetHeader h (str "Content-Encoding") = str "identity")).

(** ** Keys *)

(** The [%x] verb. *)
Definition hexDigit (n : Z) : Z := if n <? 10 then 48 + n else 87 + n.
Definition hex (l : bytes) : bytes := l ≫= (fun b => [hexDigit (b / 16); hexDigit (b mod 16)]).

Definition rangeManifestKey (root origin variant : bytes) (size : Z) : bytes :=
  root ++ 10 :: str "range:manifest:v" ++ FormatInt rangeLayoutVersion ++ 58 :: FormatInt size ++ 58 :: hex (sha256 (origin ++ 0 :: variant)).

Definition rangeBlockKey (root : bytes) (m : rangeManifest) (index : Z) : bytes :=
  let hash := sha256 (m_Origin m ++ 0 :: m_Variant m ++ 0 :: m_ETag m ++ 0 :: m_Incarnation m ++ 58 :: FormatInt (m_Version m) ++ 58 :: FormatInt (m_BlockSize m)) in
  root ++ 10 :: str "range:block:" ++ hex hash ++ 58 :: FormatInt index.

(** The checks of [readRangeManifestData] on a decoded manifest. *)
Definition manifestValid (origin variant : bytes) (size : Z) (m : rangeManifest) : bool :=
  (m_Version m =? rangeLayoutVersion) && (m_BlockSize m =? size) && (0 <=? m_Total m) && strongRangeTag (m_ETag m) &&
  bool_decide (m_Origin m = origin) && bool_decide (m_Variant m = variant) && (blen (m_Incarnation m) =? 32).

(** ** Bounds *)

(** The closure [decimal]. *)
Definition decimal (value : bytes) : result Z :=
  if bool_decide (value = []) || negb (forallb isDigit value) then Err errRangeBypass
  else match parseDigits value with Some v => Ok v | None => Err (Errorf "value out of range") end.

Definition rangeBounds (value : bytes) (total : Z) : result (Z * Z) :=
  let value := TrimPrefix value (str "bytes=") in
  let '(lo, hi, ok) := Cut value 45 in
  if negb ok then Err errRangeBypass
  else if bool_decide (lo = []) then
    match decimal hi with
    | Err _ => Err errRangeBypass
    | Ok suffix => if (suffix <=? 0) || (total =? 0) then Err errRangeBypass else Ok (Z.max 0 (total - suffix), total - 1)
    end
  else match decimal lo with
  | Err _ => Err errRangeBypass
  | Ok start =>
      if total <=? start then Err errRangeBypass
      else if bool_decide (hi = []) then Ok (start, total - 1)
      else match decimal hi with
      | Err _ => Err errRangeBypass
      | Ok stop => if stop <? start then Err errRangeBypass else Ok (start, Z.min stop (total - 1))
      end
  end.

Definition requestedBlockBounds (h : Header) (total : Z) (full : bool) : result (Z * Z) :=
  if full && (0 <? total) then Ok (0, total - 1) else rangeBounds (GetHeader h (str "Range")) total.

(** ** One block *)

(** The first and last byte of a block. *)
Definition blockStart (m : rangeManifest) (index : Z) : Z := i64 (index * m_BlockSize m).
Definition blockEnd (m : rangeManifest) (index : Z) : Z := Z.min (i64 (blockStart m index + m_BlockSize m)) (m_Total m) - 1.

Definition blockRange (m : rangeManifest) (index : Z) : bytes :=
  str "bytes=" ++ FormatInt (blockStart m index) ++ 45 :: FormatInt (blockEnd m index).

(** What the origin answered. *)
Record originResponse : Type := mkOrigin { o_status : Z; o_header : Header; o_length : Z; o_trailer : list bytes }.

(** The response is exactly the block of this version. *)
Definition blockAccepted (m : rangeManifest) (index : Z) (o : originResponse) : bool :=
  let h := o_header o in
  (o_status o =? 206) &&
  bool_decide (GetHeader h (str "Content-Range") = str "bytes " ++ FormatInt (blockStart m index) ++ 45 :: FormatInt (blockEnd m index) ++ 47 :: FormatInt (m_Total m)) &&
  bool_decide (length (Values h (str "Content-Range")) = 1%nat) && bool_decide (GetHeader h (str "ETag") = m_ETag m) &&
  bool_decide (length (Values h (str "ETag")) = 1%nat) && (o_length o =? blockEnd m index - blockStart m index + 1) &&
  identityEncoding h && bool_decide (o_trailer o = []).

(** A refused response: whether the whole request is passed on instead. *)
Definition blockRefusal (o : originResponse) : error := if o_status o =? 200 then errRangeBypass else errRangeChanged.

(** [io.ReadFull] and [readExactRange] over any [io.Reader]: [rd n] reads into
    a buffer of [n] bytes.  A reader that keeps returning nothing without an
    error runs out of fuel. *)
Section ReadExact.
Context {St : Type} (rd : St -> Z -> option (St * bytes * option error)).

Fixpoint ReadFull (fuel : nat) (st : St) (n : Z) (got : bytes) : option (St * bytes * option error) :=
  if n <=? 0 then Some (st, got, None)
  else match fuel with
  | O => None
  | S fuel =>
      '(st, p, e) ← rd st n;
      match e with
      | None => ReadFull fuel st (n - blen p) (got ++ p)
      | Some e =>
          if n <=? blen p then Some (st, got ++ p, None)
          else Some (st, got ++ p, Some (if (0 <? blen (got ++ p)) && bool_decide (e = ErrEOF) then ErrUnexpectedEOF else e))
      end
  end.

Definition readExactRange (st : St) (size : Z) : option (St * result bytes) :=
  if size <? 0 then None
  else
    '(st, data, e) ← ReadFull (S (Z.to_nat size)) st size [];
    match e with
    | Some e => Some (st, Err e)
    | None =>
        '(st, extra, e) ← rd st 1;
        if negb (blen extra =? 0) then Some (st, Err (Errorf "range body exceeds expected length"))
        else Some (st, match e with
                       | Some ErrEOF => Ok data
                       | Some e => Err e
                       | None => Err (Errorf "multiple Read calls return no data or error")
                       end)
    end.

End ReadExact.

(** [Read] of a [CacheVC] opened by [OpenReadCommitted]. *)
Section BlockData.
Context {St : Type} `{FragmentSource St}.

Definition vcRead (x : St * CacheReader) (n : Z) : option ((St * CacheReader) * bytes * option error) :=
  '(st, r, p, e) ← Read x.1 x.2 n; Some ((st, r), p, e).

Definition blockSize (m : rangeManifest) (index : Z) : Z := Z.min (m_BlockSize m) (i64 (m_Total m - i64 (index * m_BlockSize m))).

Definition readRangeBlockData (st : St) (r : CacheReader) (m : rangeManifest) (index : Z)
    : option (St * result (bytes * CacheHTTPInfo)) :=
  '(st, r, info, e) ← LoadHTTPInfo st r None;
  match e, info with
  | Some e, _ => Some (st, Err e)
  | None, None => None
  | None, Some info =>
      let size := blockSize m index in
      if negb (Status info =? 206) || negb (bool_decide (GetHeader (ResponseHeaders info) (str "ETag") = m_ETag m))
      then Some (st, Err errRangeChanged)
      else
        '(x, d) ← readExactRange vcRead (st, r) size;
        Some (x.1, match d with
                   | Err e => Err e
                   | Ok data => if negb (blen data =? size) then Err ErrUnexpectedEOF else Ok (data, info)
                   end)
  end.

End BlockData.

(** ** The response *)

(** The part [data[low:high]] of a block that the response contains. *)
Definition partLow (m : rangeManifest) (start index : Z) : Z := Z.max (i64 (start - i64 (index * m_BlockSize m))) 0.
Definition partHigh (m : rangeManifest) (stop index : Z) (data : bytes) : Z :=
  Z.min (i64 (stop - i64 (index * m_BlockSize m) + 1)) (blen data).

(** The blocks a response needs at a time fit their stripes; [room] gives, for
    a block, the address and the data area of the stripe of its key. *)
Fixpoint rangeFitsLoop (m : rangeManifest) (room : Z -> option (nat * Z)) (required : gmap nat Z) (idxs : list Z) : bool :=
  match idxs with
  | [] => true
  | index :: idxs =>
      match room index with
      | None => false
      | Some (a, area) =>
          let need := i64 (default 0 (required !! a) + i64 (blockSize m index + Z.shiftl 64 10)) in
          if area <? i64 (need + Z.shiftl 1 20) then false else rangeFitsLoop m room (<[a := need]> required) idxs
      end
  end.
Definition rangeFits (m : rangeManifest) (room : Z -> option (nat * Z)) (start stop : Z) : bool :=
  let first := Z.quot start (m_BlockSize m) in
  let last := Z.min (first + 1) (Z.quot stop (m_BlockSize m)) in
  rangeFitsLoop m room ∅ (seqZ first (last - first + 1)).

(** What the rest of the server answers to this request, block by block: the
    reads of [readRangeBlock] (the first, and the one after a recovery), the
    reservation of a reader, [checkRangeVersion], [ensureRangeBlock], and how
    [streamResponse] ends ([Some n]: it failed after [n] bytes).  Other
    requests run at the same time, so nothing relates one answer to the
    next. *)
Inductive ensureFor : Type := Prepare | Prefetch | Recover.
Inductive checkFor : Type := BeforeRecovery | BeforeHead | BeforePart.

Record answers : Type := mkAnswers {
  an_read : bool -> Z -> result bytes;
  an_acquire : Z -> result unit;
  an_check : checkFor -> Z -> result unit;
  an_ensure : ensureFor -> Z -> result bool;
  an_send : Z -> option nat }.

Definition readPreparedRangeBlock (a : answers) (index : Z) (reused : bool) : result (bytes * bool) :=
  match an_read a false index with
  | Ok data => Ok (data, reused)
  | Err e =>
      if bool_decide (e = ErrNotResident) || bool_decide (e = ErrWriteInProgress) then
        _ ← an_acquire a index; _ ← an_check a BeforeRecovery index; _ ← an_ensure a Recover index;
        data ← an_read a true index; Ok (data, false)
      else Err e
  end.

Record rangeCounters : Type := mkRangeCounters { rangeHits : Z; rangeHitBytes : Z; rangeMisses : Z; rangeMissBytes : Z }.

Definition countPart (reused : bool) (n : Z) (c : rangeCounters) : rangeCounters :=
  if reused then mkRangeCounters (u64 (rangeHits c + 1)) (u64 (rangeHitBytes c + u64 n)) (rangeMisses c) (rangeMissBytes c)
  else mkRangeCounters (rangeHits c) (rangeHitBytes c) (u64 (rangeMisses c + 1)) (u64 (rangeMissBytes c + u64 n)).

Section Serve.
Context (a : answers) (m : rangeManifest) (room : Z -> option (nat * Z)) (start stop : Z) (cachedReady : bool).

(** The head of the loop, for a block other than the first: its data, whether
    the request still counts as a hit and whether the block was reused.  The
    prefetch of the block was started when the one before it was sent. *)
Definition nextBlock (index : Z) (blockReused hit : bool) : result (bytes * bool * bool) :=
  _ ← guarde (rangeFits m room (i64 (index * m_BlockSize m)) stop) (Errorf "abort");
  '(reused, hit) ←
    (if cachedReady then Ok (blockReused, hit)
     else
       reused ← match an_ensure a Prefetch index with
                | Err e => if bool_decide (e = ErrOverloaded) then an_ensure a Prepare index else Err e
                | Ok reused => Ok reused
                end;
       Ok (reused, hit && reused));
  '(data, reused) ← readPreparedRangeBlock a index reused;
  Ok (data, hit, reused).

(** What the response carries, whether it is complete (the handler aborts
    otherwise), whether it counts as a hit, and the counters. *)
Record streamed : Type := mkStreamed { s_body : bytes; s_complete : bool; s_hit : bool; s_counters : rangeCounters }.

(** The loop of [serveBlocks]; [ready] is the data of the first block. *)
Fixpoint streamBlocks (idxs : list Z) (ready : option bytes) (blockReused hit : bool) (c : rangeCounters) : streamed :=
  match idxs with
  | [] => mkStreamed [] true hit c
  | index :: idxs =>
      match (match ready with Some data => Ok (data, hit, blockReused) | None => nextBlock index blockReused hit end) with
      | Err _ => mkStreamed [] false hit c
      | Ok (data, hit, blockReused) =>
          let hit := hit && blockReused in
          match an_check a BeforePart index with
          | Err _ => mkStreamed [] false hit c
          | Ok _ =>
              let low := partLow m start index in
              let high := partHigh m stop index data in
              let c := countPart blockReused (high - low) c in
              if high <? low then mkStreamed [] false hit c
              else match an_send a index with
              | Some n => mkStreamed (take n (slice data low high)) false hit c
              | None =>
                  let rest := streamBlocks idxs None blockReused hit c in
                  mkStreamed (slice data low high ++ s_body rest) (s_complete rest) (s_hit rest) (s_counters rest)
              end
          end
      end
  end.
End Serve.

(** [copyHeaders] of [server/handler.go]; header names of a parsed message are
    distinct, so the order of the range does not matter. *)
Definition AddHeader (h : Header) (k v : bytes) : Header := <[CanonicalHeaderKey k := Values h k ++ [v]]> h.
Definition copyHeaders (dst src : Header) : Header :=
  foldl (fun h (kv : bytes * list bytes) => foldl (fun h v => AddHeader h kv.1 v) h kv.2) dst (map_to_list src).

Definition contentRange (m : rangeManifest) (start stop : Z) : bytes :=
  str "bytes " ++ FormatInt start ++ 45 :: FormatInt stop ++ 47 :: FormatInt (m_Total m).

(** What the client gets: [PassOn] is the return value [false], after which the
    caller serves the request as a whole object. *)
Inductive rangeResponse : Type :=
  | PassOn
  | Bypass (withoutRange : bool)
  | UpstreamError (e : error)
  | Unsatisfiable (total : Z)
  | Unavailable (reason : string)
  | Streamed (status : Z) (h : Header) (s : streamed).

(** The head of the response. *)
Definition rangeHead (parseTime : bytes -> option Z) (w : Header) (info : CacheHTTPInfo) (now : Z) (m : rangeManifest) (full : bool) (start stop : Z) : Header :=
  let h := copyHeaders w (ResponseHeaders info) in
  let h := if full then DelHeader h (str "Content-Range") else SetHeader h (str "Content-Range") (contentRange m start stop) in
  let h := SetHeader h (str "Content-Length") (FormatInt (i64 (stop - start + 1))) in
  let h := SetHeader h (str "Accept-Ranges") (str "bytes") in
  let h := SetHeader h (str "Cache-Control") (str "no-cache") in
  match responsePolicy parseTime info now with
  | Some policy => SetHeader h (str "Age") (FormatInt (Z.quot (p_age policy) 1000000000))
  | None => h
  end.

(** [serveBlocks] once the source and its manifest are chosen. *)
Definition serveManifest (parseTime : bytes -> option Z) (a : answers) (room : Z -> option (nat * Z)) (request w : Header)
    (info : CacheHTTPInfo) (now : Z) (m : rangeManifest) (full hit cachedReady : bool) (c : rangeCounters) : rangeResponse :=
  let value := GetHeader request (str "If-Range") in
  if full && (m_Total m <=? Z.max (Z.shiftl 1 20) (m_BlockSize m)) then PassOn
  else if negb (bool_decide (value = [])) && (negb (strongRangeTag value) || negb (bool_decide (value = m_ETag m))) then Bypass true
  else match requestedBlockBounds request (m_Total m) full with
  | Err _ => Unsatisfiable (m_Total m)
  | Ok (start, stop) =>
      if negb (rangeFits m room start stop) then Unavailable "Range exceeds cache capacity"
      else
        let first := Z.quot start (m_BlockSize m) in
        match (if cachedReady then Ok (cachedReady, hit) else reused ← an_ensure a Prepare first; Ok (reused, hit && reused)) with
        | Err e => if bool_decide (e = errRangeBypass) then Bypass false else UpstreamError e
        | Ok (blockReused, hit) =>
            match readPreparedRangeBlock a first blockReused with
            | Err e => UpstreamError e
            | Ok (data, blockReused) =>
                let hit := hit && blockReused in
                match an_check a BeforeHead first with
                | Err _ => Unavailable "Range invalidated"
                | Ok _ =>
                    Streamed (if full then 200 else 206) (rangeHead parseTime w info now m full start stop)
                      (streamBlocks a m room start stop cachedReady (seqZ first (Z.quot stop (m_BlockSize m) - first + 1)) (Some data) blockReused hit c)
                end
            end
        end
  end.

(** ** Bounds *)

Lemma decimal_nonneg v n : decimal v = Ok n -> 0 <= n.
Proof.
  unfold decimal, parseDigits. destruct (_ || _) eqn:E; [done|]. b2p. destruct (_ <? _); [|done]. intros [= <-].
  by apply decimalValue_nonneg.
Qed.

Lemma rangeBounds_sound value total start stop : rangeBounds value total = Ok (start, stop) -> 0 <= total -> 0 <= start <= stop /\ stop < total.
Proof.
  unfold rangeBounds. destruct (Cut _ _) as [[lo hi] ok]. destruct (negb ok); [done|]. intros E Ht. case_bool_decide.
  - destruct (decimal hi) as [n|] eqn:En; [|done]. apply decimal_nonneg in En. destruct (_ || _) eqn:E2; [done|]. b2p. injection E as <- <-. lia.
  - destruct (decimal lo) as [a|] eqn:Ea; [|done]. apply decimal_nonneg in Ea. destruct (total <=? a) eqn:E2; [done|]. b2p.
    case_bool_decide; [injection E as <- <-; lia|]. destruct (decimal hi) as [b|] eqn:Eb; [|done]. destruct (b <? a) eqn:E3; [done|]. b2p. injection E as <- <-. lia.
Qed.

Lemma decimal_FormatInt v : 0 <= v < 2 ^ 63 -> decimal (FormatInt v) = Ok v.
Proof.
  intros Hv. destruct (FormatInt_decimal v Hv) as (H1 & H2 & H3). unfold decimal. rewrite H1, H3, bool_decide_eq_false_2 by done. done.
Qed.

(** The range two numbers print to. *)
Lemma rangeBounds_format a b total :
  0 <= a <= b -> b < 2 ^ 63 -> a < total ->
  rangeBounds (str "bytes=" ++ FormatInt a ++ 45 :: FormatInt b) total = Ok (a, Z.min b (total - 1)).
Proof.
  intros Ha Hb Ht. unfold rangeBounds. rewrite TrimPrefix_app. unfold Cut.
  destruct (FormatInt_decimal a ltac:(lia)) as (D1 & D2 & _). destruct (FormatInt_decimal b ltac:(lia)) as (_ & D3 & _).
  rewrite cutAt_app. 2: { apply Forall_forall. intros c Hc%list_elem_of_In. rewrite forallb_forall in D1. specialize (D1 c Hc). unfold isDigit in D1. b2p. lia. }
  cbn [rev app negb]. rewrite !bool_decide_eq_false_2 by done. rewrite !decimal_FormatInt by lia.
  replace (total <=? a) with false by lia. by replace (b <? a) with false by lia.
Qed.

(** ** Blocks *)

(** Manifests whose arithmetic stays within [int64]. *)
Definition manifest_ok (m : rangeManifest) (O : bytes) : Prop := 0 < m_BlockSize m < 2 ^ 61 /\ m_Total m = blen O /\ blen O < 2 ^ 61.

(** Block [i] of the representation [O]. *)
Definition blockOf (m : rangeManifest) (O : bytes) (i : Z) : bytes := slice O (i * m_BlockSize m) (Z.min ((i + 1) * m_BlockSize m) (blen O)).

Lemma block_bounds m O i :
  manifest_ok m O -> 0 <= i -> i * m_BlockSize m < blen O ->
  blockStart m i = i * m_BlockSize m /\ blockEnd m i = Z.min ((i + 1) * m_BlockSize m) (blen O) - 1 /\
  blockSize m i = blen (blockOf m O i) /\ blen (blockOf m O i) = Z.min ((i + 1) * m_BlockSize m) (blen O) - i * m_BlockSize m.
Proof.
  intros (M1 & M2 & M3) Hi Hlt. unfold blockStart, blockEnd, blockSize, blockStart, blockOf. rewrite M2, blen_slice by lia.
  rewrite (i64_small (i * _)) by (unfold fits_i64; lia). rewrite !i64_small by (unfold fits_i64; lia). lia.
Qed.

(** ** One cached block *)

Section StoredBlock.
Context {St : Type} `{FragmentSource St}.

Lemma vcRead_object st key ver D info pos r n :
  object st key ver D info -> at_pos key ver D info pos r -> 0 <= pos <= blen D -> 0 <= n ->
  exists st' r', vcRead (st, r) n = Some ((st', r'), slice D pos (readStop D pos n), readEnd D [] pos n) /\
    object st' key ver D info /\ at_pos key ver D info (readStop D pos n) r'.
Proof.
  intros O A Hp Hn. destruct (Read_spec st key ver D info pos r n O (or_introl A) Hn) as (st1 & r1 & E & O1 & A1).
  exists st1, r1. unfold vcRead. cbn [fst snd]. rewrite E. rewrite Z.max_r in A1 by (unfold readStop; lia). done.
Qed.

(** [io.ReadFull] of the bytes left of a stored object: one [Read] fills the
    buffer, or the object ends first. *)
Lemma ReadFull_object st key ver D info pos r n fuel :
  object st key ver D info -> at_pos key ver D info pos r -> 0 <= pos <= blen D -> (Z.to_nat n < fuel)%nat ->
  exists x e, ReadFull vcRead fuel (st, r) n [] = Some (x, slice D pos (readStop D pos (Z.max 0 n)), e) /\
    (e = None <-> pos + n <= blen D) /\
    object x.1 key ver D info /\ at_pos key ver D info (readStop D pos (Z.max 0 n)) x.2.
Proof.
  intros O A Hp Hf. destruct fuel as [|fuel]; [lia|]. cbn [ReadFull]. destruct (n <=? 0) eqn:En; b2p.
  { exists (st, r), None. rewrite Z.max_l by lia. unfold readStop. rewrite Z.add_0_r, Z.min_l by lia. unfold slice. rewrite Z.sub_diag.
    split_and!; try done. split; [lia|done]. }
  rewrite Z.max_r by lia.
  destruct (vcRead_object st key ver D info pos r n O A Hp ltac:(lia)) as (st1 & r1 & -> & O1 & A1). cbn [mbind option_bind app].
  assert (blen (slice D pos (readStop D pos n)) = readStop D pos n - pos) as Hl by (apply blen_slice; unfold readStop; lia).
  unfold readEnd at 1. rewrite (bool_decide_eq_true_2 ([] = [])), andb_true_r by done. replace (0 <? n) with true by lia. cbn [andb].
  destruct (blen D <=? pos) eqn:Eb; b2p.
  { rewrite Hl. replace (n <=? _) with false by (unfold readStop; lia). eexists (st1, r1), _. split; [done|]. split; [|done]. split; [done|lia]. }
  rewrite Hl. destruct fuel as [|fuel]; [lia|]. cbn [ReadFull]. destruct (n - _ <=? 0) eqn:E2; b2p.
  { exists (st1, r1), None. split; [done|]. split; [|done]. unfold readStop in E2. split; [lia|done]. }
  assert (readStop D pos n = blen D) as Hs by (unfold readStop in *; lia). rewrite Hs in *.
  destruct (vcRead_object st1 key ver D info (blen D) r1 (n - (blen D - pos)) O1 A1 ltac:(lia) ltac:(lia)) as (st2 & r2 & -> & O2 & A2). cbn [mbind option_bind].
  unfold readEnd. rewrite Z.leb_refl, (bool_decide_eq_true_2 ([] = [])) by done. replace (0 <? _) with true by lia. cbn [andb].
  assert (readStop D (blen D) (n - (blen D - pos)) = blen D) as Hs2 by (unfold readStop; lia). rewrite Hs2 in *.
  replace (slice D (blen D) (blen D)) with ([] : bytes) by (unfold slice; by rewrite Z.sub_diag). rewrite app_nil_r.
  change (blen []) with 0. replace (_ <=? 0) with false by lia. eexists (st2, r2), _. split; [done|]. split; [|done]. split; [done|].
  unfold readStop in Hs. lia.
Qed.

(** [readRangeBlockData] of a stored object: the object's own bytes and
    metadata, or an error; and no error when the metadata and the length are
    the block's. *)
Lemma readRangeBlockData_object st key ver D info i m index :
  object st key ver D info -> HttpInfo.UnmarshalBinary info = Ok i -> 0 < blen info -> 0 <= blockSize m index ->
  exists st' d, readRangeBlockData st (NewCacheReader key) m index = Some (st', d) /\
    (forall data i', d = Ok (data, i') -> data = D /\ i' = i /\ Status i = 206 /\ GetHeader (ResponseHeaders i) (str "ETag") = m_ETag m) /\
    (Status i = 206 -> GetHeader (ResponseHeaders i) (str "ETag") = m_ETag m -> blen D = blockSize m index -> d = Ok (D, i)).
Proof.
  intros O Hi Hpos Hsz. unfold readRangeBlockData. destruct (LoadHTTPInfo_object st key ver D info i O Hi Hpos) as (st1 & r1 & -> & O1 & A1). cbn [mbind option_bind].
  pose proof (blen_nonneg D). destruct (_ || _) eqn:E.
  { eexists _, _. split; [done|]. split; [done|]. intros E1 E2. rewrite E1, bool_decide_eq_true_2 in E by done. done. }
  b2p. unfold readExactRange. replace (blockSize m index <? 0) with false by lia.
  destruct (ReadFull_object st1 key ver D info 0 r1 (blockSize m index) (S (Z.to_nat (blockSize m index))) O1 A1 ltac:(lia) ltac:(lia)) as ([st2 r2] & e & -> & He & O2 & A2).
  cbn [mbind option_bind fst snd] in *. rewrite Z.max_r in * by lia. destruct e as [e|].
  { eexists _, _. split; [done|]. split; [done|]. intros _ _ Hb. exfalso. assert (Some e = None) by (apply He; lia). done. }
  assert (0 + blockSize m index <= blen D) as Hle by (by apply He).
  assert (readStop D 0 (blockSize m index) = blockSize m index) as Hs by (unfold readStop; lia). rewrite Hs in *.
  destruct (vcRead_object st2 key ver D info _ r2 1 O2 A2 ltac:(lia) ltac:(lia)) as (st3 & r3 & -> & O3 & _). cbn [mbind option_bind].
  rewrite blen_slice by (unfold readStop; lia). destruct (decide (blen D = blockSize m index)) as [Hb|Hb].
  - replace (readStop D (blockSize m index) 1 - blockSize m index =? 0) with true by (unfold readStop; lia). cbn [negb].
    unfold readEnd. rewrite (bool_decide_eq_true_2 ([] = [])) by done. replace (blen D <=? _) with true by lia. cbn [andb Z.ltb]. cbn.
    assert (slice D 0 (blockSize m index) = D) as ->. { rewrite <- Hb. unfold slice. rewrite drop_0. apply take_ge. unfold blen. lia. }
    eexists _, _. split; [done|]. rewrite Hb, Z.eqb_refl. cbn. split; [|done]. by intros ? ? [= <- <-].
  - replace (readStop D (blockSize m index) 1 - blockSize m index =? 0) with false by (unfold readStop; lia). cbn. eexists _, _. split; [done|]. split; [done|]. done.
Qed.

End StoredBlock.

(** ** The response *)

(** The answers deliver the blocks of [O]. *)
Definition delivers (a : answers) (m : rangeManifest) (O : bytes) : Prop := forall again i data,
  an_read a again i = Ok data -> 0 <= i -> i * m_BlockSize m < blen O -> data = blockOf m O i.

Lemma part_slice m O start stop i :
  manifest_ok m O -> 0 <= i -> i * m_BlockSize m <= stop -> 0 <= start <= stop -> start < (i + 1) * m_BlockSize m -> stop < blen O ->
  partLow m start i <= partHigh m stop i (blockOf m O i) /\
  slice (blockOf m O i) (partLow m start i) (partHigh m stop i (blockOf m O i))
    = slice O (Z.max start (i * m_BlockSize m)) (Z.min (stop + 1) ((i + 1) * m_BlockSize m)).
Proof.
  intros M Hi Hlt Hs Hst Hend. destruct (block_bounds m O i M Hi ltac:(lia)) as (_ & _ & _ & Hb). destruct M as (M1 & M2 & M3).
  unfold partLow, partHigh. rewrite !(i64_small (i * _)) by (unfold fits_i64; lia). rewrite !i64_small by (unfold fits_i64; lia). rewrite Hb. split; [lia|].
  unfold blockOf. rewrite slice_slice by lia. f_equal; lia.
Qed.

Lemma readPrepared_data a m O i reused data reused' :
  delivers a m O -> 0 <= i -> i * m_BlockSize m < blen O -> readPreparedRangeBlock a i reused = Ok (data, reused') -> data = blockOf m O i.
Proof.
  intros D Hi Hl. unfold readPreparedRangeBlock. destruct (an_read a false i) as [d|e] eqn:E; [intros [= <- <-]; by eapply D|].
  destruct (_ || _); [|done]. destruct (an_acquire a i); [|done]. destruct (an_check a _ i); [|done]. destruct (an_ensure a _ i); [|done].
  cbn. destruct (an_read a true i) as [d|] eqn:E2; [|done]. cbn. intros [= <- <-]. by eapply D.
Qed.

Lemma nextBlock_data a m room stop cr O i reused hit data hit' reused' :
  delivers a m O -> 0 <= i -> i * m_BlockSize m < blen O -> nextBlock a m room stop cr i reused hit = Ok (data, hit', reused') -> data = blockOf m O i.
Proof.
  intros D Hi Hl. unfold nextBlock. intros (_ & _ & E)%result_bind_Ok. apply result_bind_Ok in E as ([r h] & _ & E).
  apply result_bind_Ok in E as ([d r'] & E & [= <- _ _]). by eapply readPrepared_data.
Qed.

(** The blocks of an interval in turn: from block [i] on, what is sent is a
    prefix of the rest of the interval, and all of it when nothing fails. *)
Lemma streamBlocks_sound a m room start stop cr O n i ready reused hit c :
  manifest_ok m O -> delivers a m O -> 0 <= start <= stop -> stop < blen O -> start / m_BlockSize m <= i ->
  stop / m_BlockSize m - i + 1 = Z.of_nat n -> (forall data, ready = Some data -> data = blockOf m O i) ->
  let s := streamBlocks a m room start stop cr (seqZ i (Z.of_nat n)) ready reused hit c in
  let rest := slice O (Z.max start (i * m_BlockSize m)) (stop + 1) in
  s_body s `prefix_of` rest /\ (s_complete s = true -> s_body s = rest).
Proof.
  intros M D Hs Hst. revert i ready reused hit c. assert (0 < m_BlockSize m) as HB by (destruct M; lia).
  pose proof (Z.mul_succ_div_gt stop (m_BlockSize m) HB) as Hgt. pose proof (Z.mul_div_le stop (m_BlockSize m) HB) as Hle.
  pose proof (Z.mul_succ_div_gt start (m_BlockSize m) HB) as Hsgt. pose proof (Z.div_pos start _ ltac:(lia) HB) as Hspos.
  induction n as [|n IH]; intros i ready reused hit c Hi Hn Hr.
  { cbn. assert (i = stop / m_BlockSize m + 1) as -> by lia. unfold slice. replace (Z.to_nat (stop + 1 - _)) with 0%nat by lia. done. }
  rewrite Nat2Z.inj_succ, seqZ_cons, Z.pred_succ by lia. cbn [streamBlocks].
  assert (i * m_BlockSize m <= stop) as Hin by nia.
  assert (start < (i + 1) * m_BlockSize m) as Hlo by nia.
  set (got := match ready with Some _ => _ | None => _ end).
  assert (forall d h r, got = Ok (d, h, r) -> d = blockOf m O i) as Hgot.
  { subst got. destruct ready as [d0|]; [intros ? ? ? [= -> _ _]; by apply Hr|]. intros d h r E. eapply nextBlock_data; [done| |lia|done]. lia. }
  destruct got as [[[data hit'] reused']|e]; [|cbn; split; [apply prefix_nil|done]].
  rewrite (Hgot _ _ _ eq_refl). destruct (part_slice m O start stop i M ltac:(lia) Hin Hs Hlo Hst) as [Hlh Hsl].
  destruct (an_check a BeforePart i); [|cbn; split; [apply prefix_nil|done]]. replace (_ <? _) with false by lia. rewrite Hsl.
  assert (slice O (Z.max start (i * m_BlockSize m)) (stop + 1) = slice O (Z.max start (i * m_BlockSize m)) (Z.min (stop + 1) ((i + 1) * m_BlockSize m)) ++
    slice O (Z.min (stop + 1) ((i + 1) * m_BlockSize m)) (stop + 1)) as Hsplit by (symmetry; apply slice_split; lia).
  destruct (an_send a i) as [k|].
  { cbn. split; [|done]. rewrite Hsplit. apply prefix_app_r. exists (drop k (slice O (Z.max start (i * m_BlockSize m)) (Z.min (stop + 1) ((i + 1) * m_BlockSize m)))). by rewrite take_drop. }
  cbn [s_body s_complete]. destruct (IH (Z.succ i) None reused' (hit' && reused') (countPart reused' (partHigh m stop i (blockOf m O i) - partLow m start i) c)
    ltac:(lia) ltac:(lia) ltac:(done)) as [I1 I2].
  assert (slice O (Z.max start (Z.succ i * m_BlockSize m)) (stop + 1) = slice O (Z.min (stop + 1) ((i + 1) * m_BlockSize m)) (stop + 1)) as Hr2.
  { replace (Z.succ i) with (i + 1) by lia. destruct (decide ((i + 1) * m_BlockSize m <= stop)); [f_equal; lia|].
    unfold slice. replace (Z.to_nat (stop + 1 - Z.max _ _)) with 0%nat by lia. by replace (Z.to_nat (stop + 1 - Z.min _ _)) with 0%nat by lia. }
  rewrite Hr2 in I1, I2. rewrite Hsplit. split; [by apply prefix_app|]. intros Hc. f_equal. by apply I2.
Qed.

(** Nothing stands in the way of the interval. *)
Record available (a : answers) (m : rangeManifest) (room : Z -> option (nat * Z)) (start stop : Z) : Prop := {
  av_fits : forall from, start <= from <= stop -> rangeFits m room from stop = true;
  av_ensure : forall f i, is_ok (an_ensure a f i) = true;
  av_read : forall i, start / m_BlockSize m <= i <= stop / m_BlockSize m -> is_ok (an_read a false i) = true;
  av_check : forall f i, is_ok (an_check a f i) = true;
  av_send : forall i, an_send a i = None }.

Lemma readPrepared_ok a i reused : is_ok (an_read a false i) = true -> exists data, readPreparedRangeBlock a i reused = Ok (data, reused).
Proof. unfold readPreparedRangeBlock. destruct (an_read a false i); [eauto|done]. Qed.

Lemma nextBlock_ok a m room start stop cr O i reused hit :
  manifest_ok m O -> available a m room start stop -> 0 <= start <= stop -> stop < blen O -> start / m_BlockSize m < i <= stop / m_BlockSize m ->
  exists x, nextBlock a m room stop cr i reused hit = Ok x.
Proof.
  intros M V Hs Hst Hi. assert (0 < m_BlockSize m) as HB by (destruct M; lia). pose proof (Z.mul_div_le stop (m_BlockSize m) HB).
  pose proof (Z.mul_succ_div_gt start (m_BlockSize m) HB). pose proof (Z.div_pos start _ ltac:(lia) HB). assert (start <= i * m_BlockSize m <= stop) as Hin by nia.
  unfold nextBlock. rewrite i64_small by (destruct M as (? & ? & ?); unfold fits_i64; lia). rewrite (av_fits _ _ _ _ _ V) by done. cbn [guarde mbind result_bind].
  pose proof (av_ensure _ _ _ _ _ V Prefetch i) as He. destruct (an_ensure a Prefetch i) as [r|]; [|done].
  destruct cr; cbn [mbind result_bind].
  - destruct (readPrepared_ok a i reused (av_read _ _ _ _ _ V i ltac:(lia))) as [d ->]. cbn. eauto.
  - destruct (readPrepared_ok a i r (av_read _ _ _ _ _ V i ltac:(lia))) as [d ->]. cbn. eauto.
Qed.

Lemma streamBlocks_complete a m room start stop cr O n i ready reused hit c :
  manifest_ok m O -> delivers a m O -> available a m room start stop -> 0 <= start <= stop -> stop < blen O -> start / m_BlockSize m <= i ->
  stop / m_BlockSize m - i + 1 = Z.of_nat n -> (ready = None -> start / m_BlockSize m < i) -> (forall data, ready = Some data -> data = blockOf m O i) ->
  s_complete (streamBlocks a m room start stop cr (seqZ i (Z.of_nat n)) ready reused hit c) = true.
Proof.
  intros M D V Hs Hst. assert (0 < m_BlockSize m) as HB by (destruct M; lia). revert i ready reused hit c.
  pose proof (Z.mul_div_le stop (m_BlockSize m) HB) as Hle. pose proof (Z.mul_succ_div_gt start (m_BlockSize m) HB) as Hsgt. pose proof (Z.div_pos start _ ltac:(lia) HB) as Hspos.
  induction n as [|n IH]; intros i ready reused hit c Hi Hn Hnone Hr; [done|].
  rewrite Nat2Z.inj_succ, seqZ_cons, Z.pred_succ by lia. cbn [streamBlocks]. assert (i * m_BlockSize m <= stop) as Hin by nia.
  set (got := match ready with Some _ => _ | None => _ end).
  assert (exists h r, got = Ok (blockOf m O i, h, r)) as (h & r & ->).
  { subst got. destruct ready as [d0|]; [rewrite (Hr d0) by done; eauto|].
    destruct (nextBlock_ok a m room start stop cr O i reused hit M V Hs Hst) as [[[d h] r] E]; [specialize (Hnone eq_refl); lia|].
    rewrite E. apply (nextBlock_data _ _ _ _ _ O) in E; [|done|lia|lia]. subst. eauto. }
  pose proof (av_check _ _ _ _ _ V BeforePart i) as Hc. destruct (an_check a BeforePart i); [|done].
  destruct (part_slice m O start stop i M ltac:(lia) Hin Hs ltac:(nia) Hst) as [Hlh _]. replace (_ <? _) with false by lia.
  rewrite (av_send _ _ _ _ _ V). cbn [s_complete]. apply IH; [lia|lia|lia|done].
Qed.

(** The fields of the head the interval decides. *)
Lemma rangeHead_fields parseTime w info now m full start stop :
  let h := rangeHead parseTime w info now m full start stop in
  GetHeader h (str "Content-Length") = FormatInt (i64 (stop - start + 1)) /\
  (full = false -> GetHeader h (str "Content-Range") = contentRange m start stop) /\
  (full = true -> Values h (str "Content-Range") = []) /\ GetHeader h (str "Cache-Control") = str "no-cache".
Proof.
  unfold rangeHead, GetHeader, Values, SetHeader, DelHeader. set (h0 := copyHeaders _ _).
  destruct (responsePolicy parseTime info now), full; cbn zeta;
    repeat split; intros; try done; repeat (rewrite lookup_insert_eq || rewrite lookup_insert_ne by (vm_compute; congruence)); try done; by rewrite lookup_delete_eq.
Qed.

(** What the response to an interval is, whatever the rest of the server
    answers: the bounds are inside the representation, the length announced is
    that of the interval, and what is sent is a prefix of it, the whole of it
    when the response is complete. *)
Definition exactResponse (request : Header) (m : rangeManifest) (O : bytes) (full : bool) (resp : rangeResponse) : Prop :=
  match resp with
  | PassOn => full = true
  | Unsatisfiable total => total = blen O /\ is_ok (requestedBlockBounds request (blen O) full) = false
  | Streamed status h s => exists start stop,
      requestedBlockBounds request (blen O) full = Ok (start, stop) /\ 0 <= start <= stop /\ stop < blen O /\
      status = (if full then 200 else 206) /\
      GetHeader h (str "Content-Length") = FormatInt (blen (slice O start (stop + 1))) /\
      (full = false -> GetHeader h (str "Content-Range") = contentRange m start stop) /\
      (full = true -> Values h (str "Content-Range") = [] /\ slice O start (stop + 1) = O) /\
      s_body s `prefix_of` slice O start (stop + 1) /\ (s_complete s = true -> s_body s = slice O start (stop + 1))
  | _ => True
  end.

Lemma requestedBlockBounds_sound h total full start stop :
  requestedBlockBounds h total full = Ok (start, stop) -> 0 <= total ->
  0 <= start <= stop /\ stop < total /\ (full = true -> 0 < total -> start = 0 /\ stop = total - 1).
Proof.
  unfold requestedBlockBounds. intros E Ht. destruct (full && (0 <? total)) eqn:F; b2p; [injection E as <- <-; lia|].
  destruct (rangeBounds_sound _ _ _ _ E Ht). split_and!; try lia; intros -> Hp; cbn in F; lia.
Qed.

Lemma serveManifest_exact parseTime a room request w info now m O full hit cr c :
  manifest_ok m O -> delivers a m O ->
  exactResponse request m O full (serveManifest parseTime a room request w info now m full hit cr c).
Proof.
  intros M D. unfold serveManifest. pose proof M as (M1 & M2 & M3). rewrite M2. pose proof (blen_nonneg O) as HO.
  set (small := full && _). set (stale := negb (bool_decide _) && _).
  destruct small eqn:F; [subst small; b2p; tauto|]. destruct stale; [done|].
  destruct (requestedBlockBounds request (blen O) full) as [[start stop]|e] eqn:Eb; [|cbn [exactResponse]; by rewrite Eb].
  destruct (requestedBlockBounds_sound _ _ _ _ _ Eb HO) as (B1 & B2 & B3). destruct (negb (rangeFits m room start stop)); [done|].
  destruct (if cr then _ else _) as [[reused hit']|e]; [|by case_bool_decide].
  rewrite !Z.quot_div_nonneg by lia. pose proof (Z.mul_div_le start (m_BlockSize m) ltac:(lia)).
  pose proof (Z.div_le_mono start stop (m_BlockSize m) ltac:(lia) ltac:(lia)). pose proof (Z.div_pos start (m_BlockSize m) ltac:(lia) ltac:(lia)).
  destruct (readPreparedRangeBlock a (start / m_BlockSize m) reused) as [[data reused']|e] eqn:Er; [|done].
  apply (readPrepared_data a m O) in Er; [|done|lia|lia]. subst data. destruct (an_check a BeforeHead _); [|done].
  destruct (rangeHead_fields parseTime w info now m full start stop) as (R1 & R2 & R3 & _).
  destruct (streamBlocks_sound a m room start stop cr O (Z.to_nat (stop / m_BlockSize m - start / m_BlockSize m + 1)) (start / m_BlockSize m)
    (Some (blockOf m O (start / m_BlockSize m))) reused' (hit' && reused') c M D B1 B2 ltac:(lia) ltac:(lia)) as [S1 S2]; [by intros ? [= <-]|].
  rewrite Z2Nat.id in S1, S2 by lia. rewrite Z.max_l in S1, S2 by lia.
  exists start, stop. rewrite R1, blen_slice, i64_small by (unfold fits_i64; lia). split; [exact Eb|]. split; [lia|]. split; [lia|]. split; [reflexivity|].
  split; [by replace (stop + 1 - start) with (stop - start + 1) by lia|]. split; [exact R2|]. split; [|exact (conj S1 S2)].
  intros ->. split; [by apply R3|]. destruct B3 as [-> ->]; [done|lia|]. unfold slice. rewrite drop_0. apply take_ge. unfold blen. lia.
Qed.

Lemma serveManifest_complete parseTime a room request w info now m O full hit cachedReady c start stop :
  manifest_ok m O -> delivers a m O -> requestedBlockBounds request (blen O) full = Ok (start, stop) -> available a m room start stop ->
  (full = true -> Z.max (2 ^ 20) (m_BlockSize m) < blen O) ->
  (GetHeader request (str "If-Range") = [] \/ GetHeader request (str "If-Range") = m_ETag m /\ strongRangeTag (m_ETag m) = true) ->
  exists h s, serveManifest parseTime a room request w info now m full hit cachedReady c = Streamed (if full then 200 else 206) h s /\ s_complete s = true.
Proof.
  intros M D Eb V Hfull Hif. pose proof M as (M1 & M2 & M3). pose proof (blen_nonneg O) as HO.
  destruct (requestedBlockBounds_sound _ _ _ _ _ Eb HO) as (B1 & B2 & _).
  unfold serveManifest. rewrite M2. replace (full && _) with false.
  2: { destruct full; [|done]. specialize (Hfull eq_refl). change (Z.shiftl 1 20) with (2 ^ 20). cbn [andb]. lia. }
  replace (negb _ && _) with false. 2: { destruct Hif as [->|[-> ->]]; [done|]. rewrite (bool_decide_eq_true_2 (m_ETag m = m_ETag m)) by done. by rewrite andb_false_r. }
  rewrite Eb, (av_fits _ _ _ _ _ V) by lia. cbn [negb]. rewrite !Z.quot_div_nonneg by lia.
  pose proof (av_ensure _ _ _ _ _ V Prepare (start / m_BlockSize m)) as He. destruct (an_ensure a Prepare _) as [r|]; [|done].
  assert (forall b h, (if cachedReady then Ok (cachedReady, b) else reused ← Ok r; Ok (reused, h reused)) = Ok (if cachedReady then (true, b) else (r, h r))) as -> by (by destruct cachedReady).
  pose proof (Z.div_le_mono start stop (m_BlockSize m) ltac:(lia) ltac:(lia)). pose proof (Z.mul_div_le start (m_BlockSize m) ltac:(lia)). pose proof (Z.div_pos start (m_BlockSize m) ltac:(lia) ltac:(lia)).
  destruct (if cachedReady then _ else _) as [reused hit'].
  destruct (readPrepared_ok a (start / m_BlockSize m) reused) as [data Ed]; [apply (av_read _ _ _ _ _ V); lia|]. rewrite Ed.
  apply (readPrepared_data a m O) in Ed; [|done|lia|lia]. subst data.
  pose proof (av_check _ _ _ _ _ V BeforeHead (start / m_BlockSize m)) as Hck. destruct (an_check a BeforeHead _); [|done].
  eexists _, _. split; [reflexivity|]. rewrite <- (Z2Nat.id (stop / _ - _ + 1)) by lia.
  eapply streamBlocks_complete; try done; [lia|]. by intros ? [= <-].
Qed.

Section Response.
Context {St : Type} `{FragmentSource St}.

(** Every read of a block that the server answers with data is a
    [readRangeBlockData] in some state of the cache, in which the object of
    the block's key is that block of [O] with metadata of its own. *)
Definition readsFrom (a : answers) (root : bytes) (m : rangeManifest) (O : bytes) : Prop :=
  forall again i data, an_read a again i = Ok data -> 0 <= i -> i * m_BlockSize m < blen O ->
  exists (st : St) ver info hi st' hi', object st (rangeBlockKey root m i) ver (blockOf m O i) info /\
    HttpInfo.UnmarshalBinary info = Ok hi /\ 0 < blen info /\
    readRangeBlockData st (NewCacheReader (rangeBlockKey root m i)) m i = Some (st', Ok (data, hi')).

Lemma readsFrom_delivers a root m O : manifest_ok m O -> readsFrom a root m O -> delivers a m O.
Proof.
  intros M R again i data E Hi Hlt. destruct (R again i data E Hi Hlt) as (st & ver & info & hi & st' & hi' & Ob & Hinfo & Hpos & Er).
  destruct (block_bounds m O i M Hi Hlt) as (_ & _ & Hs & _).
  destruct (readRangeBlockData_object st _ ver _ info hi m i Ob Hinfo Hpos) as (st2 & d & E2 & Hd & _); [rewrite Hs; apply blen_nonneg|].
  rewrite Er in E2. injection E2 as <- <-. by destruct (Hd data hi' eq_refl).
Qed.

End Response.

(** ** A concrete range *)

Module RangeExample.

Import RecordList.

Definition tag : bytes := [34; 118; 34].
Definition manifest : rangeManifest := mkManifest 2 4 10 tag (str "o") (str "v") (str "0123456789abcdef0123456789abcdef").
Definition whole : bytes := seqZ 0 10.
Definition blockInfo : CacheHTTPInfo := mkInfo 0 (10 ^ 9) (str "GET") (str "/a") 206 {[ str "Etag" := [tag] ]}.
Definition blockMeta : bytes := Eval vm_compute in match HttpInfo.MarshalBinary blockInfo with Ok b => b | Err _ => [] end.
Definition key (i : Z) : bytes := rangeBlockKey (str "u") manifest i.
Definition store : list (bytes * bytes) := Eval vm_compute in
  map (fun i => (FragmentKey (key i) 0, fragmentRecord (key i) 7 (blen (blockOf manifest whole i)) 0 (blockOf manifest whole i) blockMeta)) [0; 1; 2].
Definition readBlock (i : Z) : result bytes :=
  match readRangeBlockData store (NewCacheReader (key i)) manifest i with Some (_, Ok (d, _)) => Ok d | Some (_, Err e) => Err e | None => Err ErrEOF end.
Definition answer : answers := mkAnswers (fun _ => readBlock) (fun _ => Ok tt) (fun _ _ => Ok tt) (fun _ _ => Ok true) (fun _ => None).
Definition rangeRequest : Header := {[ str "Range" := [str "bytes=3-8"] ]}.
Definition stripeRoom : Z -> option (nat * Z) := fun _ => Some (0%nat, 2 ^ 30).

Lemma blocks_of i : 0 <= i -> i * 4 < blen whole -> i = 0 \/ i = 1 \/ i = 2.
Proof. change (blen whole) with 10. lia. Qed.

Lemma store_object i : i = 0 \/ i = 1 \/ i = 2 -> object store (key i) 7 (blockOf manifest whole i) blockMeta.
Proof.
  intros Hi. split; [done|split| | | |].
  - destruct Hi as [->|[->| ->]]; repeat constructor; vm_compute; congruence.
  - repeat constructor; vm_compute; congruence.
  - vm_compute. congruence.
  - destruct Hi as [->|[->| ->]]; vm_compute; split; congruence.
  - vm_compute. split; congruence.
  - intros c Hc. assert (fragments (blockOf manifest whole i) blockMeta = [mkCall 0 (blockOf manifest whole i) blockMeta (blen (blockOf manifest whole i))]) as Ef.
    { destruct Hi as [->|[->| ->]]; vm_compute; reflexivity. }
    rewrite Ef in Hc. apply list_elem_of_singleton in Hc as ->.
    destruct Hi as [->|[->| ->]]; vm_compute; reflexivity.
Qed.

Lemma store_read i : i = 0 \/ i = 1 \/ i = 2 ->
  readRangeBlockData store (NewCacheReader (key i)) manifest i = Some (store, Ok (blockOf manifest whole i, blockInfo)).
Proof. intros [->|[->| ->]]; vm_compute; reflexivity. Qed.

Lemma readBlock_from : readsFrom answer (str "u") manifest whole.
Proof.
  intros again i data E H0 Hlt. pose proof (blocks_of i H0 Hlt) as Hi.
  exists store, 7, blockMeta, blockInfo, store, blockInfo. split; [by apply store_object|]. split; [vm_compute; reflexivity|]. split; [vm_compute; reflexivity|].
  change (readBlock i = Ok data) in E. unfold readBlock in E. rewrite (store_read i Hi) in E. injection E as <-. exact (store_read i Hi).
Qed.


End RangeExample.
