(* ===== verification/Serving.v ===== *)
(** * Requests served from the cache

    [server/handler.go] with the end of [serveSharedMiss] in
    [server/fill_group.go] and [representationKey] of
    [server/cache_variant.go]: which stored variant answers a request, when it
    may, and what the client receives.  What the cache answers is a [view]: the
    keys of a selector and, for each, a connection with its source, which other
    goroutines may change while the response is sent. *)

From S2P Require Import Prelude Hash Dir Doc DirTrie DirManager DirSpec Directory HttpInfo RamCache File OpenDir Evacuation Stripe Ring CacheWriter WriterSpec FragmentWriter CacheReader ReaderSpec ReaderTotal ReaderIsolation FragmentReader Invalidation MetadataRefresh WriteRead ReadConnection ResponseBuffers HttpText HttpPolicy RangeCache.

(** ** Keys of variants *)

(** The encoding of a string by [encoding/json]: HTML characters are escaped,
    as are U+2028 and U+2029, and invalid UTF-8 becomes U+FFFD. *)
Definition jsonByte (c : Z) : bytes :=
  if (c =? 34) || (c =? 92) then [92; c]
  else if c =? 8 then str "\b" else if c =? 12 then str "\f" else if c =? 10 then str "\n" else if c =? 13 then str "\r" else if c =? 9 then str "\t"
  else if (c <? 32) || (c =? 60) || (c =? 62) || (c =? 38) then str "\u00" ++ hex [c]
  else [c].

(** The length of the rune of several bytes at the front, 0 when it is not
    valid UTF-8. *)
Definition runeLen (s : bytes) : nat :=
  let b i := default 0 (s !! i) in
  let within lo hi c := (lo <=? c) && (c <=? hi) in
  let cont i := within 128 191 (b i) in
  if within 194 223 (b 0%nat) && cont 1%nat then 2
  else if (((b 0%nat =? 224) && within 160 191 (b 1%nat)) || ((within 225 236 (b 0%nat) || within 238 239 (b 0%nat)) && cont 1%nat) || ((b 0%nat =? 237) && within 128 159 (b 1%nat))) && cont 2%nat then 3
  else if (((b 0%nat =? 240) && within 144 191 (b 1%nat)) || (within 241 243 (b 0%nat) && cont 1%nat) || ((b 0%nat =? 244) && within 128 143 (b 1%nat))) && cont 2%nat && cont 3%nat then 4
  else 0.

Fixpoint jsonBody (fuel : nat) (s : bytes) : bytes :=
  match fuel, s with
  | S fuel, c :: rest =>
      if c <? 128 then jsonByte c ++ jsonBody fuel rest
      else match runeLen s with
      | O => str "\ufffd" ++ jsonBody fuel rest
      | n => (if bool_decide (take n s = [226; 128; 168]) then str "\u2028" else if bool_decide (take n s = [226; 128; 169]) then str "\u2029" else take n s) ++ jsonBody fuel (drop n s)
      end
  | _, _ => []
  end.

Definition jsonString (s : bytes) : bytes := 34 :: jsonBody (length s) s ++ [34].
Definition jsonArray (l : list bytes) : bytes := 91 :: Join l [44] ++ [93].

(** [representationKey]; a header without the field has a nil slice. *)
Definition representationKey (selector : bytes) (h : Header) (fields : list bytes) : bytes :=
  match fields with
  | [] => selector
  | _ =>
      let values := map (fun field => match h !! CanonicalHeaderKey field with Some vs => jsonArray (map jsonString vs) | None => str "null" end) fields in
      selector ++ 10 :: str "variant:" ++ hex (sha256 (jsonArray (map jsonString fields))) ++ 58 :: hex (sha256 (jsonArray values))
  end.

(** ** What the cache answers *)

Record view (St : Type) : Type := mkView { v_keys : result (list bytes); v_open : bytes -> result (St * readVC) }.
Arguments mkView {St} _ _.
Arguments v_keys {St} _.
Arguments v_open {St} _ _.

(** The result of a lookup: the connection and what was learnt about it. *)
Record selection (St : Type) : Type := mkSelection { se_state : St; se_vc : readVC; se_info : CacheHTTPInfo; se_policy : freshness }.
Arguments mkSelection {St} _ _ _ _.
Arguments se_state {St} _.
Arguments se_vc {St} _.
Arguments se_info {St} _.
Arguments se_policy {St} _.

(** What the client does with one chunk: the state of its context, how much
    of the chunk [Write] takes, and the flush. *)
Record clientTurn : Type := mkTurn { t_ctx : option error; t_write : Z -> Z * option error; t_flush : option error }.

(** [rp_aborted]: the handler panics with [http.ErrAbortHandler], which drops
    the connection. *)
Record reply : Type := mkReply { rp_status : Z; rp_header : Header; rp_body : bytes; rp_aborted : bool }.

Inductive handled : Type := HRange | HBypass | HHit (rp : reply) | HBlocks | HMiss.

#[export] Instance churning_generational {St : Type} `{Generational St} : Generational (St * list St) := fun x => generation x.1.

(** ** The view of a cache *)

Section CacheView.
Context {R : Type} `{RamStore R}.
Abbreviation Cache := (list (nat * Stripe R)).

(** [Cache.KeysForSelectorLimit] *)
Fixpoint keysLoop (c : Cache) (selector : bytes) (limit : Z) (keys : list bytes) : result (list bytes) :=
  match c with
  | [] => Ok (sortStrings keys)
  | (_, s) :: c => next ← DirTrie.KeysForSelectorLimit (Trie (s_dir s)) selector (limit - Z.of_nat (length keys)); keysLoop c selector limit (keys ++ next)
  end.

Definition maxHTTPVariants : Z := 16.

(** The answers of the cache [c] for a selector; [states k] are the states
    the stripe of [k] takes while a response is sent. *)
Definition cacheView (c : Cache) (states : bytes -> list (Stripe R)) (selector : bytes) : view (Stripe R * list (Stripe R)) :=
  mkView (keysLoop c selector maxHTTPVariants [])
    (fun k => match KeyToStripe c k ≫= (fun i => c !! i), openCommitted c k with
              | Some (_, s), Some (Ok vc) => Ok ((s, states k), vc)
              | _, Some (Err e) => Err e
              | _, _ => Err (Errorf "no stripe found")
              end).

(** [handlePurge]: the new cache and the status of the reply. *)
Definition handlePurge (purgeToken authorization path query : bytes) (c : Cache) (key : bytes) : option (Cache * Z) :=
  if bool_decide (purgeToken = []) || negb (bool_decide (authorization = str "Bearer " ++ purgeToken)) then Some (c, 403)
  else
    '(c, x, _) ← PurgeSelector c key (bool_decide (last path = Some 47) && bool_decide (query = []));
    Some (c, match x with Ok _ => 200 | Err _ => 503 end).
End CacheView.

Section Serving.
Context {St : Type} `{FragmentSource St} `{Generational St} (parseTime : bytes -> option Z).

(** The loop of [lookupCached]; [clock] gives the time at which a candidate
    is examined. *)
Fixpoint lookupLoop (clock : bytes -> Z) (v : view St) (key : bytes) (h : Header) (keys : list bytes) : option (option (selection St)) :=
  match keys with
  | [] => Some None
  | candidate :: keys =>
      match v_open v candidate with
      | Err _ => lookupLoop clock v key h keys
      | Ok (st, vc) =>
          '(st, vc, i, e) ← vcLoadHTTPInfo st vc;
          match e with
          | Some _ => lookupLoop clock v key h keys
          | None =>
              info ← i;
              match varyFields (ResponseHeaders info), responsePolicy parseTime info (clock candidate) with
              | Some fields, Some policy =>
                  if bool_decide (representationKey key h fields = candidate) then Some (Some (mkSelection st vc info policy)) else lookupLoop clock v key h keys
              | _, _ => lookupLoop clock v key h keys
              end
          end
      end
  end.

Definition lookupCached (clock : bytes -> Z) (v : view St) (key : bytes) (h : Header) : option (result (option (selection St))) :=
  match v_keys v with
  | Err e => Some (Err e)
  | Ok keys => x ← lookupLoop clock v key h keys; Some (Ok x)
  end.

(** The loop of [streamResponse]: iteration [k], with [out] sent so far. *)
Fixpoint streamLoop (fuel : nat) (client : nat -> clientTurn) (k : nat) (st : St) (vc : readVC) (out : bytes) : option (bytes * option error) :=
  match fuel with
  | O => None
  | S fuel =>
      '(st, vc, p, readErr) ← ReadConnection.vcRead st vc responseBufferSize;
      let finish out := match readErr with
                        | Some e => Some (out, if decide (e = ErrEOF) then None else Some e)
                        | None => streamLoop fuel client (S k) st vc out
                        end in
      if 0 <? blen p then
        let turn := client k in
        match t_ctx turn with
        | Some e => Some (out, Some e)
        | None =>
            let '(written, e) := t_write turn (blen p) in
            match e with
            | Some e => Some (out ++ slice p 0 written, Some e)
            | None =>
                if negb (written =? blen p) then Some (out ++ slice p 0 written, Some ErrShortWrite)
                else match t_flush turn with
                | Some e => Some (out ++ p, Some e)
                | None => finish (out ++ p)
                end
            end
        end
      else finish out
  end.

(** [streamResponse]; [acquired] is the outcome of the buffer lease. *)
Definition streamResponse (fuel : nat) (acquired : option error) (client : nat -> clientTurn) (st : St) (vc : readVC) : option (bytes * option error) :=
  match acquired with
  | Some e => Some ([], Some e)
  | None => streamLoop fuel client 0 st vc []
  end.

(** The header of a hit. *)
Definition hitHeader (w : Header) (info : CacheHTTPInfo) (policy : freshness) (now : Z) : Header :=
  let h := copyHeaders w (ResponseHeaders info) in
  let age := match currentAge policy now with Some age => Some age | None => p_age <$> responsePolicy parseTime info now end in
  match age with Some age => SetHeader h (str "Age") (FormatInt (Z.quot age 1000000000)) | None => h end.

Definition serveCacheHit (fuel : nat) (acquired : option error) (client : nat -> clientTurn) (w : Header) (r : Request) (s : selection St) (now : Z) : option reply :=
  let h := hitHeader w (se_info s) (se_policy s) now in
  if clientNotModified parseTime (rq_Header r) (ResponseHeaders (se_info s)) then Some (mkReply 304 h [] false)
  else if bool_decide (rq_Method r = str "HEAD") then Some (mkReply (Status (se_info s)) h [] false)
  else '(out, e) ← streamResponse fuel acquired client (se_state s) (se_vc s); Some (mkReply (Status (se_info s)) h out (bool_decide (e <> None))).

(** [handleGet]; [blocks] is what [serveBlocks] answers for a whole object. *)
Definition handleGet (fuel : nat) (acquired : option error) (client : nat -> clientTurn) (clock : bytes -> Z) (now sending : Z) (publicStatic blocks : bool)
    (v : view St) (key : bytes) (w : Header) (r : Request) : option handled :=
  let miss := if bool_decide (rq_Method r = str "HEAD") then HBypass
              else if publicStatic && blockGETEligible r && blocks then HBlocks else HMiss in
  if rangeEligible r then Some HRange
  else if negb (requestCacheable r) then Some HBypass
  else
    selected ← lookupCached clock v key (rq_Header r);
    match selected with
    | Err _ => Some HBypass
    | Ok (Some s) => if requestPolicyFresh r (se_policy s) now then rp ← serveCacheHit fuel acquired client w r s sending; Some (HHit rp) else Some miss
    | Ok None => Some miss
    end.

(** The end of [serveSharedMiss], when the producer has stored [filled]:
    [checked] is the outcome of [CheckFill].  An error is its status. *)
Definition serveFilled (fuel : nat) (acquired : option error) (client : nat -> clientTurn) (checked : result unit) (now sending : Z)
    (v : view St) (key filled : bytes) (w : Header) (r : Request) : option (Z + reply) :=
  match checked with
  | Err _ => Some (inl 503)
  | Ok _ =>
      match v_open v filled with
      | Err _ => Some (inl 502)
      | Ok (st, vc) =>
          '(st, vc, i, e) ← vcLoadHTTPInfo st vc;
          match e with
          | Some _ => Some (inl 502)
          | None =>
              info ← i;
              match varyFields (ResponseHeaders info), responsePolicy parseTime info now with
              | Some fields, Some policy =>
                  if bool_decide (representationKey key (rq_Header r) fields = filled)
                  then rp ← serveCacheHit fuel acquired client w r (mkSelection st vc info policy) sending; Some (inr rp)
                  else Some (inl 502)
              | _, _ => Some (inl 502)
              end
          end
      end
  end.
End Serving.

(** The encoder on the cases of [encoding/json]. *)
Lemma json_cases :
  jsonArray (map jsonString [str "Accept-Encoding"; str "a<b"]) = [91; 34] ++ str "Accept-Encoding" ++ [34; 44; 34] ++ str "a\u003cb" ++ [34; 93] /\
  jsonString [34; 92; 10; 1] = [34; 92; 34; 92; 92; 92; 110] ++ str "\u0001" ++ [34] /\
  jsonString [195; 169; 255; 226; 128; 168; 240; 159; 152; 128] = [34; 195; 169] ++ str "\ufffd\u2028" ++ [240; 159; 152; 128; 34] /\
  jsonArray [] = [91; 93].
Proof. vm_compute. split_and!; reflexivity. Qed.

(** ** What is streamed *)

(** The client takes everything. *)
Definition takesAll (client : nat -> clientTurn) : Prop := forall k, t_ctx (client k) = None /\ (forall n, t_write (client k) n = (n, None)) /\ t_flush (client k) = None.

(** [Write] never takes more than it is given. *)
Definition writesSome (client : nat -> clientTurn) : Prop := forall k n, 0 <= n -> 0 <= (t_write (client k) n).1 <= n.

Section Stream.
Context {St : Type} `{FragmentSource St} `{Generational St}.

(** What is streamed is known as far as it has been read: [bodyOf w] are the
    bytes behind what [w] says, and a read may learn more.  [good] is what holds
    of everything learnt. *)
Context {W : Type} (bodyOf : W -> bytes) (good : W -> Prop) (total : Z) (standing : W -> Z -> St -> readVC -> Prop) (fails : error -> Prop).

Definition grows (w w' : W) : Prop := exists D, bodyOf w' = bodyOf w ++ D.

(** One [Read] of a connection that stands at byte [pos] of [total]. *)
Definition steps : Prop := forall w pos st vc, standing w pos st vc -> 0 <= pos <= total ->
  exists st' vc' p e w' q, ReadConnection.vcRead st vc responseBufferSize = Some (st', vc', p, e) /\ good w' /\ grows w w' /\ p = slice (bodyOf w') pos q /\
    pos <= q <= Z.min (pos + responseBufferSize) total /\ q <= blen (bodyOf w') /\
    ((q = Z.min (pos + responseBufferSize) total /\ e = (if total <=? pos then Some ErrEOF else None) /\ standing w' q st' vc') \/ (exists err, e = Some err /\ fails err)).
Hypothesis Hsteps : steps.

(** What a response has sent: a prefix, all of it when it ended well, unless a
    read failed with [io.EOF]; for a client that takes everything it ends badly
    only when a read fails. *)
Definition streamed (client : nat -> clientTurn) (w : W) (pos : Z) (out : bytes) (x : bytes * option error) : Prop :=
  exists w' q, good w' /\ grows w w' /\ x.1 = out ++ slice (bodyOf w') pos q /\ pos <= q <= total /\ q <= blen (bodyOf w') /\ (x.2 = None -> q = total \/ fails ErrEOF) /\
    (forall err, x.2 = Some err -> takesAll client -> fails err).

Lemma grows_trans w1 w2 w3 : grows w1 w2 -> grows w2 w3 -> grows w1 w3.
Proof. intros [D1 E1] [D2 E2]. exists (D1 ++ D2). by rewrite E2, E1, app_assoc. Qed.

(** The part of an iteration after [Read]. *)
Lemma streamed_more client w w' pos q out x : 0 <= pos <= q -> q <= blen (bodyOf w') -> grows w w' -> streamed client w' q (out ++ slice (bodyOf w') pos q) x -> streamed client w pos out x.
Proof.
  intros Hq Hb Hg (w2 & q' & G2 & Hg2 & Hx & H1 & H2 & H3). exists w2, q'. split; [done|]. split; [by eapply grows_trans|]. split.
  - rewrite Hx, <- app_assoc. f_equal. rewrite <- (slice_split (bodyOf w2) pos q q') by lia. f_equal. destruct Hg2 as [D ->]. symmetry. apply slice_app_l; unfold blen in Hb; lia.
  - split; [lia|done].
Qed.

Lemma streamed_stops client w w' pos q out : good w' -> grows w w' -> 0 <= pos <= q -> q <= total -> q <= blen (bodyOf w') ->
  forall err, (takesAll client -> fails err) -> streamed client w pos out (out ++ slice (bodyOf w') pos q, Some err).
Proof. intros G Hg Hp Hq Hb err Hf. exists w', q. cbn. split_and!; [done|done|done|lia|lia|done|done|]. by intros ? [= <-]. Qed.

Lemma streamLoop_spec client (Hw : writesSome client) fuel : forall k st vc w pos out,
  standing w pos st vc -> 0 <= pos <= total -> (Z.to_nat (total - pos) + 2 <= fuel)%nat ->
  exists x, streamLoop fuel client k st vc out = Some x /\ streamed client w pos out x.
Proof.
  induction fuel as [|fuel IH]; intros k st vc w pos out Hat Hp Hf; [lia|]. cbn [streamLoop].
  destruct (Hsteps w pos st vc Hat Hp) as (st' & vc' & p & e & w' & q & -> & Hgd & Hg & Hpq & Hq & Hqb & Ho). cbn [mbind option_bind].
  assert (blen p = q - pos) as Hl by (rewrite Hpq; apply blen_slice; lia).
  set (finish := fun out : bytes => match e with Some e => Some (out, if decide (e = ErrEOF) then None else Some e) | None => streamLoop fuel client (S k) st' vc' out end).
  assert (exists x, finish (out ++ p) = Some x /\ streamed client w pos out x) as Hfin.
  { subst finish. cbn beta. rewrite Hpq. destruct Ho as [(Hqe & -> & Hat')|(err & -> & Hfl)].
    - destruct (total <=? pos) eqn:Ed; b2p.
      + case_decide; [|done]. eexists. split; [done|]. exists w', q. split_and!; try done; try lia.
      + change responseBufferSize with 262144 in *. destruct (IH (S k) st' vc' w' q (out ++ slice (bodyOf w') pos q) Hat' ltac:(lia) ltac:(lia)) as (x & E & Hx). exists x. split; [done|].
        eapply streamed_more; [| |exact Hg|exact Hx]; lia.
    - case_decide as He; (eexists; split; [done|]).
      + subst err. exists w', q. split_and!; try done; try lia. intros _. by right.
      + apply streamed_stops; try done; lia. }
  assert (forall written err, 0 <= written <= blen p -> (takesAll client -> fails err) -> streamed client w pos out (out ++ slice p 0 written, Some err)) as Hstop.
  { intros written err Hwr Hfl. assert (slice p 0 written = slice (bodyOf w') pos (pos + written)) as -> by (rewrite Hpq, slice_slice by lia; f_equal; lia). apply streamed_stops; try done; lia. }
  destruct (0 <? blen p) eqn:Ep; b2p.
  2: { assert (p = []) as Hnil by (destruct p; [done|]; unfold blen in Ep; cbn [length] in Ep; lia). rewrite Hnil, app_nil_r in Hfin. exact Hfin. }
  destruct (t_ctx (client k)) as [ec|] eqn:Ec.
  { eexists. split; [done|]. rewrite <- (app_nil_r out) at 2. rewrite <- (slice_none p 0). apply Hstop; [lia|]. intros Ht. destruct (Ht k) as (X & _). congruence. }
  pose proof (Hw k (blen p) ltac:(lia)) as Hwk. destruct (t_write (client k) (blen p)) as [written ew] eqn:Ew. cbn in Hwk.
  destruct ew as [ew|].
  { eexists. split; [done|]. apply Hstop; [lia|]. intros Ht. destruct (Ht k) as (_ & X & _). rewrite X in Ew. done. }
  destruct (written =? blen p) eqn:Ewn; cbn [negb]; b2p.
  2: { eexists. split; [done|]. apply Hstop; [lia|]. intros Ht. destruct (Ht k) as (_ & X & _). rewrite X in Ew. congruence. }
  destruct (t_flush (client k)) as [ef|] eqn:Ef; [|exact Hfin].
  eexists. split; [done|]. rewrite <- (slice_full p) at 1. apply (Hstop (blen p)); [lia|]. intros Ht. destruct (Ht k) as (_ & _ & X). congruence.
Qed.
End Stream.

(** ** Hits *)

(** The connection [OpenReadCommitted] returns. *)
Definition connection (a : nat) (g : Z) (k : bytes) : readVC := mkReadVC true false k a g None (Some (NewCacheReader k)) None.

Section Hits.
Context {R : Type} `{RamStore R} (parseTime : bytes -> option Z).
#[local] Instance stripe_churning : FragmentSource (Stripe R * list (Stripe R)) := churning.

(** [S k]: the states the stripe of [k] takes. *)
Context (S : bytes -> list (Stripe R)).
Hypothesis states_sane : forall k, Forall sane (S k).

Lemma states_live k : fetchesLive (St := Stripe R * list (Stripe R)) (among (S k)) k (storedIn (S k) k) (endsEarly (S k) k).
Proof. exact (among_live (S k) k (states_sane k)). Qed.

(** The fragments of the version [ver] of [k] that were fetched. *)
Definition fetchedChain (k : bytes) (ver total : Z) (fs : list fetched) : Prop := chain k (storedIn (S k) k) ver total fs.

(** The connection stands at byte [pos] of the chain [fs] of [k]. *)
Definition stands (k : bytes) (ver total : Z) (fs : list fetched) (pos : Z) (st : Stripe R * list (Stripe R)) (vc : readVC) : Prop :=
  among (S k) st /\ rv_reading vc = true /\ rv_closed vc = false /\ exists r, rv_reader vc = Some r /\ standsAt k (storedIn (S k) k) ver total fs pos r.

(** A read of a connection to [k] has reported [err], which is [io.EOF] before
    the end of the object only when a fetch was. *)
Definition readFails (k : bytes) (err : error) : Prop := (err = ErrEOF -> endsEarly (S k) k) /\
  exists st vc st' vc' p, among (S k) st /\ ReadConnection.vcRead st vc responseBufferSize = Some (st', vc', p, Some err).

Lemma isolated_steps k ver total f :
  steps (St := Stripe R * list (Stripe R)) body (fun fs => fetchedChain k ver total fs /\ fs !! 0%nat = Some f) total (fun fs pos st vc => stands k ver total fs pos st vc /\ fs !! 0%nat = Some f) (readFails k).
Proof.
  intros fs pos st vc [(L & Hr & Hc & r & Hrd & St) Hhd] Hp. pose proof (sa_chain _ _ _ _ _ _ _ St) as C.
  destruct (stands_fragment _ _ _ _ _ _ _ St) as (_ & _ & _ & _ & _ & Hpb & _).
  assert (grows body fs fs) as Hrefl by (exists []; by rewrite app_nil_r).
  destruct (rv_generation vc =? generation st) eqn:Eg.
  - destruct (Read_stands _ k _ _ (states_live k) st r ver total fs pos responseBufferSize L St ltac:(done)) as ([[[st' r'] p] e] & E & L' & gs & q & C' & -> & Hq & Hqb & Ho).
    assert (ReadConnection.vcRead st vc responseBufferSize = Some (st', setReader r' (rv_info vc) vc, slice (body (fs ++ gs)) pos q, e)) as Ev.
    { unfold ReadConnection.vcRead. rewrite Hr, Hc, Hrd, Eg. cbn [negb orb mbind option_bind]. rewrite E. reflexivity. }
    exists st', (setReader r' (rv_info vc) vc), (slice (body (fs ++ gs)) pos q), e, (fs ++ gs), q. split; [done|].
    assert ((fs ++ gs) !! 0%nat = Some f) as Hhd' by (by destruct fs). split; [done|]. split; [exists (body gs); by rewrite body_app|]. split; [done|].
    split; [lia|]. split; [done|]. destruct Ho as [(-> & -> & St')|(err & -> & _ & Hee)]; [left|right].
    + split; [done|]. split; [by rewrite (bool_decide_eq_true_2 ([] = [])), andb_true_r by done|]. split; [|done]. split; [done|]. split; [done|]. split; [done|]. by exists r'.
    + exists err. split; [done|]. split; [done|]. eexists st, vc, _, _, _. split; [exact L|exact Ev].
  - assert (ReadConnection.vcRead st vc responseBufferSize = Some (st, vc, [], Some ErrInvalidated)) as Ev by (unfold ReadConnection.vcRead; rewrite Hr, Hc, Eg; reflexivity).
    exists st, vc, [], (Some ErrInvalidated), fs, pos. split; [done|]. split; [done|]. split; [done|]. split; [by rewrite slice_none|]. split; [change responseBufferSize with 262144; lia|]. split; [lia|].
    right. exists ErrInvalidated. split; [done|]. split; [done|]. by exists st, vc, st, vc, [].
Qed.

(** [LoadHTTPInfo] of a new connection. *)
Lemma connection_info k a g st : among (S k) st ->
  exists st' vc' i e, vcLoadHTTPInfo st (connection a g k) = Some (st', vc', i, e) /\
    (e = None -> exists ver total f info, i = Some info /\ stands k ver total [f] 0 st' vc' /\ metaOf (headMeta (f_buf f)) info /\ exists s, s ∈ S k /\ total <= u64 (src_bound s)).
Proof.
  intros L. unfold vcLoadHTTPInfo. cbn [rv_generation rv_reading connection rv_reader]. destruct (g =? generation st); cbn [negb]; [|by eexists _, _, _, _].
  destruct (LoadHTTPInfo_chain _ k _ _ (states_live k) st L) as (st' & r' & i & e & E & L' & Hx). cbn [mbind option_bind]. rewrite E. cbn [mbind option_bind].
  eexists _, _, _, _. split; [reflexivity|]. intros He. destruct (Hx He) as (ver & total & f & info & Hi & St & Hof & st1 & [(s & Hs & (ram & ev & E1 & _)) _] & Hb). exists ver, total, f, info. split; [done|]. split; [|split; [done|]].
  - split; [done|]. split; [done|]. split; [done|]. by exists r'.
  - exists s. split; [done|]. cbn [src_bound churning stripe_churning] in Hb. rewrite E1 in Hb. exact Hb.
Qed.

(** The view opens new connections to the stripes of the keys. *)
Definition opensFresh (v : view (Stripe R * list (Stripe R))) : Prop := forall k st vc, v_open v k = Ok (st, vc) -> among (S k) st /\ exists a g, vc = connection a g k.

(** The variant [k] of the selector [key] was selected at the time [at_]; [f]
    is the record of its head. *)
Definition selects (key : bytes) (h : Header) (at_ : Z) (k : bytes) (ver total : Z) (f : fetched) (s : selection (Stripe R * list (Stripe R))) : Prop :=
  stands k ver total [f] 0 (se_state s) (se_vc s) /\ metaOf (headMeta (f_buf f)) (se_info s) /\
  (exists fields, varyFields (ResponseHeaders (se_info s)) = Some fields /\ representationKey key h fields = k) /\
  responsePolicy parseTime (se_info s) at_ = Some (se_policy s).

(** The announced length is one a stripe of the key can hold. *)
Definition bounded (k : bytes) (total : Z) : Prop := exists s, s ∈ S k /\ total <= u64 (src_bound s).

Lemma lookupLoop_spec clock v key h keys : opensFresh v ->
  exists x, lookupLoop parseTime clock v key h keys = Some x /\
    forall s, x = Some s -> exists k ver total f, k ∈ keys /\ bounded k total /\ selects key h (clock k) k ver total f s.
Proof.
  intros Hv. induction keys as [|k keys IH]; [by eexists|]. cbn [lookupLoop].
  assert (exists x, lookupLoop parseTime clock v key h keys = Some x /\ forall s, x = Some s -> exists k0 ver total f, k0 ∈ k :: keys /\ bounded k0 total /\ selects key h (clock k0) k0 ver total f s) as Hnext.
  { destruct IH as (x & E & Hx). exists x. split; [done|]. intros s Hs. destruct (Hx s Hs) as (k0 & ver & total & f & Hin & ?). exists k0, ver, total, f. split; [set_solver|done]. }
  destruct (v_open v k) as [[st vc]|] eqn:Eo; [|exact Hnext]. destruct (Hv _ _ _ Eo) as (L & a & g & ->).
  destruct (connection_info k a g st L) as (st' & vc' & i & e & -> & Hi). cbn [mbind option_bind]. destruct e as [e|]; [exact Hnext|].
  destruct (Hi eq_refl) as (ver & total & f & info & -> & Hs & Hof & Hb). cbn [mbind option_bind].
  destruct (varyFields (ResponseHeaders info)) as [fields|] eqn:Ef; [|exact Hnext]. destruct (responsePolicy parseTime info (clock k)) as [policy|] eqn:Ep; [|exact Hnext].
  destruct (bool_decide_reflect (representationKey key h fields = k)) as [Hk|]; [|exact Hnext].
  eexists. split; [reflexivity|]. intros s [= <-]. exists k, ver, total, f. split; [set_solver|]. split; [done|].
  split; [done|]. split; [done|]. split; [by exists fields|done].
Qed.

(** The reply to [r] from the selected version, whose head is [f]: the fetched
    fragments that follow it are [gs]. *)
Definition exactReply (acquired : option error) (client : nat -> clientTurn) (w : Header) (r : Request) (s : selection (Stripe R * list (Stripe R))) (now : Z)
    (k : bytes) (ver total : Z) (f : fetched) (rp : reply) : Prop :=
  rp_header rp = hitHeader parseTime w (se_info s) (se_policy s) now /\
  if clientNotModified parseTime (rq_Header r) (ResponseHeaders (se_info s)) then rp_status rp = 304 /\ rp_body rp = [] /\ rp_aborted rp = false
  else rp_status rp = Status (se_info s) /\
    if bool_decide (rq_Method r = str "HEAD") then rp_body rp = [] /\ rp_aborted rp = false
    else exists gs, fetchedChain k ver total (f :: gs) /\ (exists q, 0 <= q <= total /\ q <= blen (body (f :: gs)) /\ rp_body rp = slice (body (f :: gs)) 0 q) /\
      (rp_aborted rp = false -> (blen (body (f :: gs)) = total /\ rp_body rp = body (f :: gs)) \/ endsEarly (S k) k) /\
      (rp_aborted rp = true -> acquired = None -> takesAll client -> exists err, readFails k err).

Lemma serveCacheHit_spec fuel acquired client w r s now k ver total f :
  writesSome client -> stands k ver total [f] 0 (se_state s) (se_vc s) -> (Z.to_nat total + 2 <= fuel)%nat ->
  exists rp, serveCacheHit parseTime fuel acquired client w r s now = Some rp /\ exactReply acquired client w r s now k ver total f rp.
Proof.
  intros Hw Hs Hf. unfold serveCacheHit, exactReply. destruct (clientNotModified _ _ _); [by eexists|]. destruct (bool_decide (rq_Method r = _)); [by eexists|].
  assert (fetchedChain k ver total [f]) as C by (destruct Hs as (_ & _ & _ & r0 & _ & St); apply St). pose proof (proj1 C) as Ht.
  assert (exists x, streamResponse fuel acquired client (se_state s) (se_vc s) = Some x /\ exists gs, fetchedChain k ver total (f :: gs) /\
    (exists q, 0 <= q <= total /\ q <= blen (body (f :: gs)) /\ x.1 = slice (body (f :: gs)) 0 q) /\ (x.2 = None -> (blen (body (f :: gs)) = total /\ x.1 = body (f :: gs)) \/ endsEarly (S k) k) /\
    (x.2 <> None -> acquired = None -> takesAll client -> exists err, readFails k err)) as ([out e] & -> & gs & Cg & Hq & Hd & Hc).
  { unfold streamResponse. destruct acquired as [e|].
    { eexists. split; [done|]. exists []. split; [done|]. split; [exists 0; split; [lia|]; split; [apply blen_nonneg|by rewrite slice_none]|by split]. }
    destruct (streamLoop_spec _ _ _ _ _ (isolated_steps k ver total f) client Hw fuel 0 (se_state s) (se_vc s) [f] 0 [] (conj Hs eq_refl) ltac:(lia) ltac:(by rewrite Z.sub_0_r)) as (x & -> & fs & q & [Cf Hhd] & _ & Hx & Hq & Hqb & Hn & He).
    exists x. split; [done|]. destruct fs as [|f' gs]; [done|]. injection Hhd as ->. exists gs. split; [done|]. split; [by exists q|]. split.
    - intros Hnone. destruct (Hn Hnone) as [->|[Hee _]]; [left|right; by apply Hee]. pose proof (blen_body _ _ _ _ _ Cf) as Hbl. assert (blen (body (f :: gs)) = total) as Hb by lia. split; [done|].
      rewrite Hx, <- Hb. apply slice_full.
    - intros Hsome _ Htk. destruct x as [out [err|]]; [|done]. exists err. by apply He. }
  cbn [mbind option_bind]. eexists. split; [reflexivity|]. cbn [rp_header rp_status rp_body rp_aborted fst snd] in *. split; [done|]. split; [done|]. exists gs. split; [done|]. split; [done|]. split.
  - intros Hb. apply bool_decide_eq_false in Hb. apply Hd. destruct e; [exfalso; apply Hb; done|done].
  - intros Hb. apply bool_decide_eq_true in Hb. by apply Hc.
Qed.

(** What [handleGet] answers for a view of these stripes. *)
Definition servedOr (acquired : option error) (client : nat -> clientTurn) (clock : bytes -> Z) (now sending : Z) (blocks : bool) (v : view (Stripe R * list (Stripe R)))
    (key : bytes) (w : Header) (r : Request) (x : handled) : Prop :=
  match x with
  | HRange => rangeEligible r = true
  | HHit rp => rangeEligible r = false /\ requestCacheable r = true /\ exists keys k ver total f s, v_keys v = Ok keys /\ k ∈ keys /\
      selects key (rq_Header r) (clock k) k ver total f s /\ requestPolicyFresh r (se_policy s) now = true /\ exactReply acquired client w r s sending k ver total f rp
  | HBypass => rangeEligible r = false /\ (requestCacheable r = false \/ (exists e, v_keys v = Err e) \/ rq_Method r = str "HEAD")
  | HBlocks | HMiss => rangeEligible r = false /\ requestCacheable r = true /\ rq_Method r <> str "HEAD" /\ (exists keys, v_keys v = Ok keys) /\ (x = HBlocks -> blocks = true /\ blockGETEligible r = true)
  end.

Lemma handleGet_served fuel acquired client clock now sending publicStatic blocks v key w r :
  opensFresh v -> writesSome client -> (forall k s, s ∈ S k -> (Z.to_nat (u64 (src_bound s)) + 2 <= fuel)%nat) ->
  exists x, handleGet parseTime fuel acquired client clock now sending publicStatic blocks v key w r = Some x /\ servedOr acquired client clock now sending blocks v key w r x.
Proof.
  intros Hv Hw Hfuel. unfold handleGet, lookupCached, servedOr. destruct (rangeEligible r) eqn:Er; [by eexists|]. destruct (requestCacheable r) eqn:Ec; cbn [negb]; [|exists HBypass; split; [reflexivity|]; split; [done|by left]].
  destruct (v_keys v) as [keys|e] eqn:Ek; [|exists HBypass; split; [reflexivity|]; split; [done|]; right; left; by eexists].
  destruct (lookupLoop_spec clock v key (rq_Header r) keys Hv) as (x & -> & Hx). cbn [mbind option_bind].
  set (miss := if bool_decide _ then HBypass else _).
  assert (match miss with HBypass => rangeEligible r = false /\ (requestCacheable r = false \/ (exists e, @Ok (list bytes) keys = Err e) \/ rq_Method r = str "HEAD")
    | HBlocks | HMiss => rangeEligible r = false /\ requestCacheable r = true /\ rq_Method r <> str "HEAD" /\ (exists keys', @Ok (list bytes) keys = Ok keys') /\ (miss = HBlocks -> blocks = true /\ blockGETEligible r = true) | _ => False end) as Hmiss.
  { subst miss. destruct (bool_decide_reflect (rq_Method r = str "HEAD")); [by auto|].
    destruct (publicStatic && blockGETEligible r && blocks) eqn:Eb; (split_and!; [done|done|done|by eexists|]); [|done]. intros _. b2p. done. }
  rewrite Er, Ec in Hmiss. clearbody miss. destruct x as [s|]; [|exists miss; split; [done|]; by destruct miss].
  destruct (requestPolicyFresh r (se_policy s) now) eqn:Ef; [|exists miss; split; [done|]; by destruct miss].
  destruct (Hx s eq_refl) as (k & ver & total & f & Hin & (s0 & Hs0 & Hb) & Hsel).
  destruct (serveCacheHit_spec fuel acquired client w r s sending k ver total f Hw (proj1 Hsel)) as (rp & -> & Hrp); [specialize (Hfuel k s0 Hs0); lia|].
  cbn [mbind option_bind]. eexists. split; [reflexivity|]. split; [done|]. split; [done|]. by exists keys, k, ver, total, f, s.
Qed.

Lemma serveFilled_served fuel acquired client checked now sending v key filled w r :
  opensFresh v -> writesSome client -> (forall k s, s ∈ S k -> (Z.to_nat (u64 (src_bound s)) + 2 <= fuel)%nat) ->
  exists y, serveFilled parseTime fuel acquired client checked now sending v key filled w r = Some y /\
    match y with
    | inr rp => checked = Ok tt /\ exists ver total f s, selects key (rq_Header r) now filled ver total f s /\ exactReply acquired client w r s sending filled ver total f rp
    | inl code => code = if is_ok checked then 502 else 503
    end.
Proof.
  intros Hv Hw Hfuel. unfold serveFilled. destruct checked as [[]|e]; [|by eexists]. destruct (v_open v filled) as [[st vc]|] eqn:Eo; [|by eexists]. destruct (Hv _ _ _ Eo) as (L & a & g & ->).
  destruct (connection_info filled a g st L) as (st' & vc' & i & e & -> & Hi). cbn [mbind option_bind]. destruct e as [e|]; [by eexists|].
  destruct (Hi eq_refl) as (ver & total & f & info & -> & Hs & Hof & s0 & Hs0 & Hb). cbn [mbind option_bind].
  destruct (varyFields (ResponseHeaders info)) as [fields|] eqn:Ef; [|by eexists]. destruct (responsePolicy parseTime info now) as [policy|] eqn:Ep; [|by eexists].
  destruct (bool_decide_reflect (representationKey key (rq_Header r) fields = filled)) as [Hk|]; [|by eexists].
  destruct (serveCacheHit_spec fuel acquired client w r (mkSelection st' vc' info policy) sending filled ver total f Hw Hs) as (rp & -> & Hrp); [specialize (Hfuel filled s0 Hs0); lia|]. cbn [mbind option_bind].
  eexists. split; [reflexivity|]. split; [done|]. exists ver, total, f, (mkSelection st' vc' info policy). split; [|done]. split; [done|]. split; [done|]. split; [by exists fields|done].
Qed.
End Hits.

(** ** The cache behind the view *)

Section Cached.
Context {R : Type} `{RamStore R}.
Abbreviation Cache := (list (nat * Stripe R)).

(** A view of a cache opens new connections on the stripe of the key. *)
Lemma cacheView_opens (c : Cache) states selector k st vc : v_open (cacheView c states selector) k = Ok (st, vc) ->
  exists i a s, KeyToStripe c k = Some i /\ c !! i = Some (a, s) /\ st = (s, states k) /\ vc = connection a (Generation (s_open s)) k.
Proof.
  cbn. destruct (KeyToStripe c k) as [i|] eqn:Ek; cbn [mbind option_bind]; [|by destruct (openCommitted c k) as [[]|]].
  destruct (c !! i) as [[a s]|] eqn:Ei; [|by destruct (openCommitted c k) as [[]|]]. destruct (openCommitted c k) as [[vc'|]|] eqn:Eo; [|done..]. intros [= <- <-].
  exists i, a, s. destruct (openCommitted_Ok c k vc' i a s Eo Ek Ei) as (_ & _ & ->). done.
Qed.

(** The states the stripe of a key takes: as it is in the cache, then those
    other goroutines bring about. *)
Definition stripesOf (c : Cache) (states : bytes -> list (Stripe R)) (k : bytes) : list (Stripe R) :=
  match KeyToStripe c k ≫= (fun i => c !! i) with Some (_, s) => s :: states k | None => [] end.

Lemma stripesOf_sane c states k : Forall (fun x => sane x.2) c -> (forall k, Forall sane (states k)) -> Forall sane (stripesOf c states k).
Proof.
  intros Hc Hs. unfold stripesOf. destruct (KeyToStripe c k) as [i|]; [|done]. cbn [mbind option_bind]. destruct (c !! i) as [[a s]|] eqn:E; [|done].
  constructor; [|done]. exact (Forall_lookup_1 _ _ _ _ Hc E).
Qed.

Lemma stripesOf_elem (c : Cache) states k s : s ∈ stripesOf c states k -> s ∈ map snd c \/ s ∈ states k.
Proof.
  unfold stripesOf. destruct (KeyToStripe c k) as [i|]; [|by intros ?%elem_of_nil]. cbn [mbind option_bind]. destruct (c !! i) as [[a s0]|] eqn:E; [|by intros ?%elem_of_nil].
  intros [->|?]%elem_of_cons; [left|by right]. exact (list_elem_of_fmap_2 snd _ _ (list_elem_of_lookup_2 _ _ _ E)).
Qed.

Lemma cacheView_fresh c states selector : Forall (fun x => sane x.2) c -> (forall k, Forall sane (states k)) -> opensFresh (stripesOf c states) (cacheView c states selector).
Proof.
  intros Hc Hs k st vc E. destruct (cacheView_opens c states selector k st vc E) as (i & a & s & Ek & Ei & -> & ->). split; [|by eexists _, _].
  unfold stripesOf. rewrite Ek. cbn [mbind option_bind]. rewrite Ei. split; [exists s; split; [by left|apply fetchedFrom_refl; exact (Forall_lookup_1 _ _ _ _ Hc Ei)]|].
  intros s' Hin. by right.
Qed.


(** The reads of a response from an object at rest. *)
Definition atRest (k : bytes) (ver : Z) (D info : bytes) (pos : Z) (s : Stripe R) (vc : readVC) : Prop :=
  object s k ver D info /\ rv_reading vc = true /\ rv_closed vc = false /\ rv_generation vc = Generation (s_open s) /\ exists r, rv_reader vc = Some r /\ at_pos k ver D info pos r.

Lemma rest_steps k ver D info : steps (fun _ : unit => D) (fun _ => True) (blen D) (fun _ => atRest k ver D info) (fun _ => False).
Proof.
  intros [] pos s vc (O & Hr & Hc & Hg & r & Hrd & A) Hp. destruct (Read_spec s k ver D info pos r responseBufferSize O (or_introl A) ltac:(done)) as (s' & r' & E & O' & A').
  pose proof (Read_open _ _ _ _ _ _ _ E) as Ho. unfold ReadConnection.vcRead. change (generation s) with (Generation (s_open s)). rewrite Hr, Hc, Hrd, Hg, Z.eqb_refl. cbn [negb orb mbind option_bind]. rewrite E. cbn [mbind option_bind].
  assert (Z.max pos (readStop D pos responseBufferSize) = Z.min (pos + responseBufferSize) (blen D)) as Hs by (unfold readStop; change responseBufferSize with 262144; lia). rewrite Hs in A'.
  eexists _, _, _, _, tt, (Z.min (pos + responseBufferSize) (blen D)). split; [reflexivity|]. split; [done|]. split; [exists []; by rewrite app_nil_r|]. split; [done|]. change responseBufferSize with 262144 in *.
  split; [lia|]. split; [lia|]. left. split; [done|]. split; [unfold readEnd; change (0 <? 262144) with true; rewrite bool_decide_eq_true_2 by done; cbn [andb]; by rewrite andb_true_r|].
  split; [done|]. split; [done|]. split; [done|]. split; [by rewrite Ho|]. by exists r'.
Qed.

(** A response from an object at rest is complete for a client that takes
    everything. *)
Theorem rest_response_complete k ver D info s vc client fuel :
  atRest k ver D info 0 s vc -> writesSome client -> takesAll client -> (Z.to_nat (blen D) + 2 <= fuel)%nat ->
  streamResponse fuel None client s vc = Some (D, None).
Proof.
  intros A Hw Ht Hf. pose proof (blen_nonneg D). unfold streamResponse.
  destruct (streamLoop_spec _ _ _ _ _ (rest_steps k ver D info) client Hw fuel 0 s vc tt 0 [] A ltac:(lia) ltac:(by rewrite Z.sub_0_r)) as ([out e] & -> & [] & q & _ & _ & Hx & Hq & _ & Hn & He).
  cbn in Hx, Hn, He. destruct e as [e|]; [exfalso; by eapply He|]. destruct (Hn eq_refl) as [->|[]]. rewrite Hx. do 2 f_equal. apply slice_full.
Qed.

(** A PURGE is refused without the token and then changes nothing; once it is
    answered with 200 every response that was being sent from the cache stops
    at its next read. *)
Theorem purge_stops_responses purgeToken authorization path query (c c' : Cache) key code :
  handlePurge purgeToken authorization path query c key = Some (c', code) ->
  Forall (fun x => DirTrie.wf (Trie (s_dir x.2)) /\ fits 64 (Generation (s_open x.2))) c ->
  (code <> 200 -> c' = c) /\
  (code = 200 -> purgeToken <> [] /\ authorization = str "Bearer " ++ purgeToken /\
    forall (i : nat) a s k n, c !! i = Some (a, s) -> exists s', c' !! i = Some (a, s') /\ let vc := connection a (Generation (s_open s)) k in ReadConnection.vcRead s' vc n = Some (s', vc, [], Some ErrInvalidated)).
Proof.
  unfold handlePurge. intros E F. destruct (_ || _) eqn:Ea; [injection E as <- <-; by split|]. apply orb_false_iff in Ea as [Ha%bool_decide_eq_false Hb%negb_false_iff%bool_decide_eq_true].
  destruct (PurgeSelector c key _) as [[[c1 x] ws]|] eqn:Ep; [|done]. cbn [mbind option_bind] in E. injection E as <- <-. unfold PurgeSelector in Ep.
  destruct (blen key =? 0); [injection Ep as <- <- _; by split|]. destruct (existsb _ c); [injection Ep as <- <- _; by split|].
  destruct (purgeLoop c key _) as [[[c2 keys] w2]|] eqn:El; [|done]. injection Ep as <- <- _. split; [done|]. intros _.
  split; [done|]. split; [done|]. intros i a s k n Hi. destruct (Forall2_lookup_l _ _ _ _ _ (purgeLoop_generations _ _ _ _ _ _ F El) Hi) as ([a' s'] & Hi' & Haa & Hg). cbn in Haa, Hg. subst a'.
  exists s'. split; [done|]. apply vc_stale; [done|done|exact Hg].
Qed.
End Cached.

(** ** A concrete hit

    An object is written through a [CacheWriter] and purged right after its head
    was read by the response: the client gets the version whose metadata it was
    sent. *)
Module ServingExample.

Definition key : bytes := str "http:/a".
Definition writerA : CacheWriter := set_w_info (Some info60) (NewCacheWriter NewOpenDir key (Ok [0; 0; 0; 1; 0; 0; 0; 2])).
Definition storedA : option (sink (R := Ram) * CacheWriter * option error) :=
  match writes (H := stripe_sink noDraw) sink1 writerA [[1; 2]; [3]] with Some (k, w) => Close (H := stripe_sink noDraw) k w | None => None end.
Definition stripeA : Stripe Ram := Eval vm_compute in match storedA with Some (k, _, None) => k_stripe k | _ => stripe1 end.
Definition sizeA : Z := Eval vm_compute in match HttpInfo.MarshalBinary info60 with Ok b => approxRecordSize [1; 2; 3] b | Err _ => 0 end.
Definition eager (k : nat) : clientTurn := mkTurn None (fun n => (n, None)) None.
Definition cacheA : list (nat * Stripe Ram) := [(0%nat, stripeA)].
Definition later (k : bytes) : list (Stripe Ram) := [stripe1; stripe1].

Lemma stripeA_dir : exists dm g, DirManager.Set_ noDraw dm8 key 1024 sizeA false = Some (dm, g) /\ setTrie dm (Trie (s_dir stripeA)) = s_dir stripeA.
Proof. eexists _, _. vm_compute. split; reflexivity. Qed.

Lemma stripeA_sane : sane stripeA.
Proof.
  split; [|intros f [= <-]; apply bytes_ok_forallb; vm_compute; reflexivity|by intros ram [=]]. destruct stripeA_dir as (dm & g & E & <-).
  destruct (Set_abs noDraw dm8 [[[]; []]] key 1024 sizeA false dm8_abs ltac:(concrete) ltac:(vm_compute; split; congruence) (dm8_fits key)) as (dm' & g' & A' & d & E' & HA & _).
  rewrite E in E'. injection E' as <- <-. by exists A'.
Qed.

Definition replyA : reply := mkReply 200 (hitHeader (fun _ => None) ∅ info60 (mkFreshness (5 * 10 ^ 9) (60 * 10 ^ 9) false (5 * 10 ^ 9)) (7 * 10 ^ 9)) [1; 2; 3] false.

End ServingExample.
