(* ===== verification/Runtime.v ===== *)
(** * Runtimes of the server: requests, reloads and shutdown

    [server/runtime.go] and the life cycle of [server/server.go] and
    [server/http.go].  Every request and every detached producer holds a
    lease on one immutable runtime; a reload publishes a new runtime and
    retires the old one, whose proxy is closed with its last lease; a
    shutdown waits for requests and producers before it closes the proxies
    and the cache.  Each critical section of [Server.mu] is a function on the
    server, the mutex [reloadMu] is a field, and requests, producers, reloads
    and shutdowns interleave freely. *)

From S2P Require Import Prelude.

Definition ErrReloadBusy : error := Errorf "reload busy: retired runtime still has active requests".
Definition errUnavailable : error := Errorf "server unavailable".

(** A runtime with its proxy: how often the proxy was closed, and its counter
    of requests to the origin ([proxy.Stats.Requests]). *)
Record runtimeSnapshot : Type := mkRuntime { rt_version : Z; rt_refs : Z; rt_closes : Z; rt_requests : Z }.

(** Runtimes are addresses into [sv_runtimes].  [sv_closedOrigin] is the
    [Requests] component of [closedOrigin]; the components are added alike. *)
Record Server : Type := mkServer {
  sv_runtimes : list runtimeSnapshot; sv_current : option nat; sv_retired : option nat; sv_closedOrigin : Z;
  sv_reloadMu : bool; sv_draining : bool; sv_initErr : option error; sv_handlers : Z; sv_producers : Z;
  sv_shutdown : bool; sv_cacheClosed : bool }.

Definition set_sv_runtimes (v : list runtimeSnapshot) (s : Server) : Server :=
  mkServer v (sv_current s) (sv_retired s) (sv_closedOrigin s) (sv_reloadMu s) (sv_draining s) (sv_initErr s) (sv_handlers s) (sv_producers s) (sv_shutdown s) (sv_cacheClosed s).
Definition set_sv_published (c r : option nat) (s : Server) : Server :=
  mkServer (sv_runtimes s) c r (sv_closedOrigin s) (sv_reloadMu s) (sv_draining s) (sv_initErr s) (sv_handlers s) (sv_producers s) (sv_shutdown s) (sv_cacheClosed s).
Definition set_sv_closedOrigin (v : Z) (s : Server) : Server :=
  mkServer (sv_runtimes s) (sv_current s) (sv_retired s) v (sv_reloadMu s) (sv_draining s) (sv_initErr s) (sv_handlers s) (sv_producers s) (sv_shutdown s) (sv_cacheClosed s).
Definition set_sv_reloadMu (v : bool) (s : Server) : Server :=
  mkServer (sv_runtimes s) (sv_current s) (sv_retired s) (sv_closedOrigin s) v (sv_draining s) (sv_initErr s) (sv_handlers s) (sv_producers s) (sv_shutdown s) (sv_cacheClosed s).
Definition set_sv_handlers (v : Z) (s : Server) : Server :=
  mkServer (sv_runtimes s) (sv_current s) (sv_retired s) (sv_closedOrigin s) (sv_reloadMu s) (sv_draining s) (sv_initErr s) v (sv_producers s) (sv_shutdown s) (sv_cacheClosed s).
Definition set_sv_producers (v : Z) (s : Server) : Server :=
  mkServer (sv_runtimes s) (sv_current s) (sv_retired s) (sv_closedOrigin s) (sv_reloadMu s) (sv_draining s) (sv_initErr s) (sv_handlers s) v (sv_shutdown s) (sv_cacheClosed s).

Definition adjust (f : runtimeSnapshot -> runtimeSnapshot) (i : nat) (s : Server) : Server := set_sv_runtimes (alter f i (sv_runtimes s)) s.
Definition addRefs (d : Z) (rt : runtimeSnapshot) : runtimeSnapshot := mkRuntime (rt_version rt) (rt_refs rt + d) (rt_closes rt) (rt_requests rt).
Definition closeProxy (rt : runtimeSnapshot) : runtimeSnapshot := mkRuntime (rt_version rt) (rt_refs rt) (rt_closes rt + 1) (rt_requests rt).
Definition countRequest (rt : runtimeSnapshot) : runtimeSnapshot := mkRuntime (rt_version rt) (rt_refs rt) (rt_closes rt) (u64 (rt_requests rt + 1)).

(** ** Operations *)

(** [New]: the outcomes of [runtimeFiles], [newRuntime], [configureNetwork]
    and [startHealth] in order; any error closes the proxy. *)
Definition newServer (files runtime network health : option error) : Server :=
  match files with
  | Some e => mkServer [] None None 0 false false (Some e) 0 0 false false
  | None =>
      match runtime with
      | Some e => mkServer [] None None 0 false false (Some e) 0 0 false false
      | None =>
          let initErr := match network with Some e => Some e | None => health end in
          let rt := mkRuntime 1 0 (match initErr with Some _ => 1 | None => 0 end) 0 in
          mkServer [rt] (Some 0%nat) None 0 false false initErr 0 0 false false
      end
  end.

(** The critical section at the start of [ServeHTTP]: the runtime of the
    request, or [None] when it is rejected.  A server without a current
    runtime has an [initErr]. *)
Definition admitRequest (s : Server) : Server * option nat :=
  if sv_draining s || bool_decide (sv_initErr s <> None) then (s, None)
  else match sv_current s with
  | None => (s, None)
  | Some i => (set_sv_handlers (sv_handlers s + 1) (adjust (addRefs 1) i s), Some i)
  end.

Definition retainRuntime (i : nat) (s : Server) : Server := adjust (addRefs 1) i s.

Definition closeRetiredLocked (s : Server) : Server :=
  match sv_retired s with
  | None => s
  | Some i =>
      match sv_runtimes s !! i with
      | None => s
      | Some rt =>
          if rt_refs rt =? 0 then
            set_sv_published (sv_current s) None (set_sv_closedOrigin (u64 (sv_closedOrigin s + rt_requests rt)) (adjust closeProxy i s))
          else s
      end
  end.

Definition releaseRuntime (i : nat) (s : Server) : Server := closeRetiredLocked (adjust (addRefs (-1)) i s).

(** The first critical section of [Reload]: the runtime to replace. *)
Definition reloadCheck (s : Server) : result nat :=
  if sv_draining s || bool_decide (sv_initErr s <> None) then Err errUnavailable
  else if bool_decide (sv_retired s <> None) then Err ErrReloadBusy
  else match sv_current s with Some i => Ok i | None => Err errUnavailable end.

(** The construction of the candidate: [reject] is the error of a check or
    of [NewHTTPProxy], [build] that of [newRuntime] or [startHealth], after
    which the new proxy is closed. *)
Definition reloadBuild (reject build : option error) (old : nat) (s : Server) : Server * result nat :=
  match reject with
  | Some e => (s, Err e)
  | None =>
      let version := u64 (match sv_runtimes s !! old with Some rt => rt_version rt | None => 0 end + 1) in
      let add closes := set_sv_runtimes (sv_runtimes s ++ [mkRuntime version 0 closes 0]) s in
      match build with
      | Some e => (add 1, Err e)
      | None => (add 0, Ok (length (sv_runtimes s)))
      end
  end.

(** The publication of a reload. *)
Definition reloadPublish (candidate old : nat) (s : Server) : Server := set_sv_published (Some candidate) (Some old) s.

(** The first section of [ShutdownContext], which needs [reloadMu]. *)
Definition drain (s : Server) : option Server :=
  if sv_reloadMu s then None
  else Some (mkServer (sv_runtimes s) (sv_current s) (sv_retired s) (sv_closedOrigin s) false true (sv_initErr s) (sv_handlers s) (sv_producers s) true (sv_cacheClosed s)).

(** Its last section: the proxies are closed. *)
Definition closeProxies (s : Server) : Server :=
  let s := closeRetiredLocked s in
  match sv_current s with Some i => adjust closeProxy i s | None => s end.

Definition closeCache (s : Server) : Server :=
  mkServer (sv_runtimes s) (sv_current s) (sv_retired s) (sv_closedOrigin s) (sv_reloadMu s) (sv_draining s) (sv_initErr s) (sv_handlers s) (sv_producers s) (sv_shutdown s) true.

(** The origin part of [Stats]. *)
Definition requestsOf (s : Server) (i : option nat) : Z :=
  match i ≫= (fun i => sv_runtimes s !! i) with Some rt => rt_requests rt | None => 0 end.
Definition statsOrigin (s : Server) : Z := u64 (u64 (sv_closedOrigin s + requestsOf s (sv_current s)) + requestsOf s (sv_retired s)).

(** ** The machine *)

Inductive pc : Type :=
  | HEnter                         (** a request arrives *)
  | HRun (i : nat) (extra : nat)   (** it runs on runtime [i], with [extra] captured leases *)
  | HReleased                      (** has released its runtime *)
  | HDone
  | PRun (i : nat)                 (** a producer with its lease *)
  | PReleased | PDone
  | REnter                         (** [Reload] waits for [reloadMu] *)
  | RLocked | RBuild (old : nat) | RPublish (candidate old : nat)
  | RStop                          (** stops the health checks of the old proxy *)
  | RClose | RUnlock (r : result unit) | RDone (r : result unit)
  | SEnter                         (** [ShutdownContext] *)
  | SHandlers | SProducers | SClose | SCache | SDone.

(** What a process may do next where the code has a choice. *)
Inductive move : Type :=
  | Leave                                     (** the normal next action *)
  | Capture | Discard | Spawn                 (** leases of a fill *)
  | Request                                   (** a request to the origin *)
  | Fails (reject build : option error).      (** the outcomes of a reload *)

(** One action: the new server, the process, and a producer it started. *)
Definition step (m : move) (s : Server) (t : pc) : option (Server * pc * option pc) :=
  match t with
  | HEnter => let '(s, r) := admitRequest s in Some (s, match r with Some i => HRun i 0 | None => HDone end, None)
  | HRun i extra =>
      match m, extra with
      | Capture, _ => Some (retainRuntime i s, HRun i (S extra), None)
      | Discard, S extra => Some (releaseRuntime i s, HRun i extra, None)
      | Spawn, S extra => Some (set_sv_producers (sv_producers s + 1) s, HRun i extra, Some (PRun i))
      | Request, _ => Some (adjust countRequest i s, t, None)
      | Leave, O => Some (releaseRuntime i s, HReleased, None)
      | _, _ => None
      end
  | HReleased => Some (set_sv_handlers (sv_handlers s - 1) s, HDone, None)
  | PRun i =>
      match m with
      | Request => Some (adjust countRequest i s, t, None)
      | _ => Some (releaseRuntime i s, PReleased, None)
      end
  | PReleased => Some (set_sv_producers (sv_producers s - 1) s, PDone, None)
  | REnter =>
      if sv_reloadMu s then None
      else Some (set_sv_reloadMu true s, match m with Fails (Some e) _ => RUnlock (Err e) | _ => RLocked end, None)
  | RLocked => Some (s, match reloadCheck s with Ok i => RBuild i | Err e => RUnlock (Err e) end, None)
  | RBuild old =>
      let '(reject, build) := match m with Fails a b => (a, b) | _ => (None, None) end in
      let '(s, r) := reloadBuild reject build old s in
      Some (s, match r with Ok c => RPublish c old | Err e => RUnlock (Err e) end, None)
  | RPublish c old => Some (reloadPublish c old s, RStop, None)
  | RStop => Some (s, RClose, None)
  | RClose => Some (closeRetiredLocked s, RUnlock (Ok tt), None)
  | RUnlock r => Some (set_sv_reloadMu false s, RDone r, None)
  | SEnter =>
      if sv_shutdown s then (if sv_cacheClosed s then Some (s, SDone, None) else None)
      else s ← drain s; Some (s, SHandlers, None)
  | SHandlers => if sv_handlers s =? 0 then Some (s, SProducers, None) else None
  | SProducers => if sv_producers s =? 0 then Some (s, SClose, None) else None
  | SClose => Some (closeProxies s, SCache, None)
  | SCache => Some (closeCache s, SDone, None)
  | HDone | PDone | RDone _ | SDone => None
  end.

Record system : Type := mkSystem { sys_s : Server; sys_ts : list pc }.

Definition enters (t : pc) : Prop := t = HEnter \/ t = REnter \/ t = SEnter.

Inductive sys_step : system -> system -> Prop :=
  | sys_call s ts t : enters t -> sys_step (mkSystem s ts) (mkSystem s (ts ++ [t]))
  | sys_run s ts (k : nat) t m s' t' spawn :
      ts !! k = Some t -> step m s t = Some (s', t', spawn) ->
      sys_step (mkSystem s ts) (mkSystem s' (<[k := t']> ts ++ match spawn with Some p => [p] | None => [] end)).

(** ** The invariant *)

Definition leases (i : nat) (t : pc) : Z :=
  match t with
  | HRun j extra => if decide (i = j) then 1 + Z.of_nat extra else 0
  | PRun j => if decide (i = j) then 1 else 0
  | _ => 0
  end.
Definition isHandler (t : pc) : Z := match t with HRun _ _ | HReleased => 1 | _ => 0 end.
Definition isProducer (t : pc) : Z := match t with PRun _ | PReleased => 1 | _ => 0 end.
Definition holdsReload (t : pc) : Z := match t with RLocked | RBuild _ | RPublish _ _ | RStop | RClose | RUnlock _ => 1 | _ => 0 end.
Definition reloading (t : pc) : Z := match t with RBuild _ | RPublish _ _ | RStop | RClose => 1 | _ => 0 end.
Definition retiring (t : pc) : Z := match t with RStop | RClose => 1 | _ => 0 end.
Definition isCandidate (i : nat) (t : pc) : Z := match t with RPublish c _ => if decide (i = c) then 1 else 0 | _ => 0 end.
Definition inShutdown (t : pc) : Z := match t with SHandlers | SProducers | SClose | SCache => 1 | _ => 0 end.
Definition pastHandlers (t : pc) : Z := match t with SProducers | SClose | SCache => 1 | _ => 0 end.
Definition pastProducers (t : pc) : Z := match t with SClose | SCache => 1 | _ => 0 end.
Definition pastClose (t : pc) : Z := match t with SCache => 1 | _ => 0 end.
Definition published (t : pc) : Z := match t with RStop | RClose | RUnlock (Ok _) | RDone (Ok _) => 1 | _ => 0 end.

Definition field (f : runtimeSnapshot -> Z) (s : Server) (i : nat) : Z := match sv_runtimes s !! i with Some rt => f rt | None => 0 end.
Definition base (s : Server) : Z := match sv_initErr s with Some _ => 1 | None => 0 end.

(** The runtimes whose proxy is in service. *)
Definition isOpen (s : Server) (ts : list pc) (i : nat) : bool :=
  (bool_decide (sv_current s = Some i) || bool_decide (sv_retired s = Some i) || (0 <? sumZ (isCandidate i) ts)) &&
  (sumZ pastClose ts + Z.b2z (sv_cacheClosed s) =? 0).

Definition reloadOk (s : Server) (t : pc) : Prop :=
  match t with
  | RBuild old => sv_current s = Some old /\ sv_retired s = None /\ sv_initErr s = None
  | RPublish c old =>
      sv_current s = Some old /\ sv_retired s = None /\ sv_initErr s = None /\ c <> old /\
      sv_runtimes s !! c = Some (mkRuntime (u64 (field rt_version s old + 1)) 0 0 0)
  | _ => True
  end.

(** The counters and the stages of a shutdown. *)
Record flags (s : Server) (ts : list pc) : Prop := mkFlags {
  v_lock : Z.b2z (sv_reloadMu s) = sumZ holdsReload ts;
  v_handlers : sv_handlers s = sumZ isHandler ts;
  v_producers : sv_producers s = sumZ isProducer ts;
  v_shutdown : Z.b2z (sv_shutdown s) = sumZ inShutdown ts + Z.b2z (sv_cacheClosed s);
  v_draining : sv_draining s = sv_shutdown s;
  v_stageH : 0 < sumZ pastHandlers ts + Z.b2z (sv_cacheClosed s) -> sv_handlers s = 0;
  v_stageP : 0 < sumZ pastProducers ts + Z.b2z (sv_cacheClosed s) -> sv_producers s = 0;
  v_drain : sv_draining s = true -> sumZ reloading ts = 0;
  v_final : 0 < sumZ pastClose ts + Z.b2z (sv_cacheClosed s) -> sv_retired s = None }.

Record inv0 (s : Server) (ts : list pc) : Prop := mkInv0 {
  v_refs : forall i, field rt_refs s i = sumZ (leases i) ts;
  v_lease : forall i, 0 < sumZ (leases i) ts -> sv_initErr s = None /\ (sv_current s = Some i \/ sv_retired s = Some i);
  v_cur : forall i, sv_current s = Some i -> (i < length (sv_runtimes s))%nat;
  v_ret : forall i, sv_retired s = Some i -> (i < length (sv_runtimes s))%nat /\ sv_current s <> Some i /\ sv_initErr s = None;
  v_none : sv_current s = None -> sv_initErr s <> None;
  v_flags : flags s ts;
  v_reload : forall t, t ∈ ts -> reloadOk s t;
  v_closes : forall i, (i < length (sv_runtimes s))%nat -> field rt_closes s i = base s + (if isOpen s ts i then 0 else 1);
  v_origin : u64 (sv_closedOrigin s + requestsOf s (sv_current s) + requestsOf s (sv_retired s)) = u64 (sumZ rt_requests (sv_runtimes s));
  v_version : (forall i, sv_current s = Some i -> field rt_version s i = u64 (1 + sumZ published ts)) /\
              (forall i, sv_retired s = Some i -> field rt_version s i = u64 (sumZ published ts)) }.

(** A retired runtime is held, or its reload is about to look at it. *)
Definition lingers (s : Server) (ts : list pc) : Prop :=
  forall i, sv_retired s = Some i -> 0 < sumZ (leases i) ts + sumZ retiring ts.

Definition inv (y : system) : Prop := inv0 (sys_s y) (sys_ts y) /\ lingers (sys_s y) (sys_ts y).

(** *** Lemmas *)

Lemma sumZ_move {A} (f : A -> Z) ts k t t' sp : ts !! k = Some t -> sumZ f (<[k := t']> ts ++ sp) = sumZ f ts - f t + f t' + sumZ f sp.
Proof. intros Hk. by rewrite sumZ_app, (sumZ_list_insert _ _ _ _ _ Hk). Qed.

Lemma sumZ_others {A} (f : A -> Z) ts k t k' u : (forall y, 0 <= f y) -> ts !! k = Some t -> ts !! k' = Some u -> k <> k' -> f t + f u <= sumZ f ts.
Proof.
  intros Hf Hk Hu Hne. pose proof (sumZ_list_insert f ts k t t Hk) as E. rewrite list_insert_id in E by done.
  assert (f u <= sumZ f (delete k ts)) as H1.
  { apply sumZ_elem_le; [auto|]. destruct (decide (k' < k)%nat).
    - eapply list_elem_of_lookup_2. rewrite list_lookup_delete_lt by done. exact Hu.
    - eapply list_elem_of_lookup_2 with (i := pred k'). rewrite list_lookup_delete_ge by lia. by replace (S (pred k')) with k' by lia. }
  enough (sumZ f ts = f t + sumZ f (delete k ts)) by lia.
  rewrite <- (take_drop_middle ts k t Hk) at 1. rewrite delete_take_drop, !sumZ_app. cbn [sumZ]. lia.
Qed.

Lemma field_adjust f g i s j : (i < length (sv_runtimes s))%nat ->
  field f (adjust g i s) j = if decide (i = j) then match sv_runtimes s !! i with Some rt => f (g rt) | None => 0 end else field f s j.
Proof.
  intros Hi. unfold field, adjust. cbn. case_decide as E; [subst j; rewrite list_lookup_alter_eq; by destruct (_ !! _)|by rewrite list_lookup_alter_ne].
Qed.

Lemma length_adjust g i s : length (sv_runtimes (adjust g i s)) = length (sv_runtimes s).
Proof. apply length_alter. Qed.

Lemma sumZ_alter {A} (f : A -> Z) g l i x : l !! i = Some x -> sumZ f (alter g i l) = sumZ f l - f x + f (g x).
Proof. intros Hi. rewrite <- (sumZ_list_insert f l i x (g x) Hi). f_equal. apply list_eq. intros j. destruct (decide (i = j)) as [<-|].
  - rewrite list_lookup_alter_eq, list_lookup_insert_eq by (by eapply lookup_lt_Some). by rewrite Hi.
  - by rewrite list_lookup_alter_ne, list_lookup_insert_ne. Qed.

Lemma leases_nonneg i t : 0 <= leases i t.
Proof. destruct t; cbn; try lia; case_decide; lia. Qed.
Lemma counts_nonneg t : 0 <= isHandler t /\ 0 <= isProducer t /\ 0 <= holdsReload t /\ 0 <= reloading t /\ 0 <= retiring t /\ 0 <= inShutdown t /\
  0 <= pastHandlers t /\ 0 <= pastProducers t /\ 0 <= pastClose t /\ pastClose t <= pastProducers t /\ pastProducers t <= pastHandlers t /\ pastHandlers t <= inShutdown t /\ reloading t <= holdsReload t /\ retiring t <= reloading t.
Proof. destruct t as [| | | | | | | | | | | | |[]|[]| | | | | |]; cbn; lia. Qed.
Lemma isCandidate_nonneg i t : 0 <= isCandidate i t /\ isCandidate i t <= reloading t.
Proof. destruct t; cbn; try lia; case_decide; lia. Qed.

Lemma sumZ_le {A} (f g : A -> Z) l : (forall x, f x <= g x) -> sumZ f l <= sumZ g l.
Proof. intros H. induction l as [|x l IH]; cbn; [lia|]. specialize (H x). lia. Qed.

(** All the sums are nonnegative and ordered. *)
Lemma sums_order ts : 0 <= sumZ isHandler ts /\ 0 <= sumZ isProducer ts /\ 0 <= sumZ reloading ts <= sumZ holdsReload ts /\ 0 <= sumZ retiring ts <= sumZ reloading ts /\
  0 <= sumZ pastClose ts <= sumZ pastProducers ts /\ sumZ pastProducers ts <= sumZ pastHandlers ts <= sumZ inShutdown ts.
Proof.
  split_and!; first [apply sumZ_nonneg; intros t _; pose proof (counts_nonneg t); lia | apply sumZ_le; intros t; pose proof (counts_nonneg t); lia].
Qed.
Lemma leases_sum_nonneg i ts : 0 <= sumZ (leases i) ts.
Proof. apply sumZ_nonneg. intros; apply leases_nonneg. Qed.
Lemma candidate_sum i ts : 0 <= sumZ (isCandidate i) ts <= sumZ reloading ts.
Proof. split; [apply sumZ_nonneg|apply sumZ_le]; intros; apply isCandidate_nonneg. Qed.

Lemma no_leases i ts : sumZ isHandler ts = 0 -> sumZ isProducer ts = 0 -> sumZ (leases i) ts = 0.
Proof.
  intros H1 H2. rewrite (sumZ_ext _ (fun _ => 0)); [clear; by induction ts|]. intros t Ht.
  pose proof (sumZ_elem_le isHandler ts t (fun y _ => proj1 (counts_nonneg y)) Ht).
  pose proof (sumZ_elem_le isProducer ts t (fun y _ => proj1 (proj2 (counts_nonneg y))) Ht).
  destruct t; cbn in *; lia.
Qed.

Lemma field_same f s s' : sv_runtimes s' = sv_runtimes s -> field f s' = field f s.
Proof. unfold field. by intros ->. Qed.

(** A reload that another process is not part of. *)
Lemma reload_alone s ts k t u : inv0 s ts -> ts !! k = Some t -> holdsReload t = 1 -> u ∈ ts -> reloading u = 1 -> u = t.
Proof.
  intros I Hk Ht [k' Hu]%list_elem_of_lookup Hr. destruct (decide (k = k')) as [<-|Hne]; [congruence|].
  pose proof (sumZ_others holdsReload ts k t k' u (fun y => proj1 (proj2 (proj2 (counts_nonneg y)))) Hk Hu Hne).
  pose proof (v_lock _ _ (v_flags _ _ I)). pose proof (counts_nonneg u). destruct (sv_reloadMu s); cbn in *; lia.
Qed.

(** A move that leaves the server alone. *)
Ltac sums Hk := repeat rewrite (sumZ_move _ _ _ _ _ _ Hk); cbn [sumZ leases isHandler isProducer holdsReload reloading retiring isCandidate inShutdown pastHandlers pastProducers pastClose published].

Lemma closeRetiredLocked_inv s ts : inv0 s ts ->
  inv0 (closeRetiredLocked s) ts /\ (forall i, sv_retired (closeRetiredLocked s) = Some i -> 0 < sumZ (leases i) ts).
Proof.
  intros I. unfold closeRetiredLocked. destruct (sv_retired s) as [i|] eqn:Er; [|split; [done|congruence]].
  destruct (v_ret _ _ I i Er) as (Hi & Hc & He). destruct (lookup_lt_is_Some_2 _ _ Hi) as [rt Hrt]. rewrite Hrt.
  pose proof (v_refs _ _ I i) as Hr. unfold field in Hr. rewrite Hrt in Hr. pose proof (leases_sum_nonneg i ts).
  destruct (rt_refs rt =? 0) eqn:E0; b2p; [|split; [done|]; intros j [= <-] %(eq_trans (eq_sym Er)); lia]. split; [|done].
  assert (forall f j, field f (adjust closeProxy i s) j = if decide (i = j) then f (closeProxy rt) else field f s j) as Hf
    by (intros; rewrite field_adjust, Hrt; done).
  set (s' := set_sv_published _ _ _).
  assert (forall f j, field f s' j = if decide (i = j) then f (closeProxy rt) else field f s j) as Hs by (intros; rewrite <- Hf; done).
  destruct I; constructor; cbn; rewrite ?length_alter; try done.
  - intros j. rewrite Hs. case_decide; [subst j; exact Hr|done].
  - intros j Hj. destruct (v_lease0 j Hj) as [? [?|?]]; [auto|]. assert (j = i) as -> by congruence. lia.
  - by destruct v_flags0.
  - intros t Ht. specialize (v_reload0 t Ht). destruct t; try done; cbn in *; destruct v_reload0 as (_ & ? & _); congruence.
  - intros j Hj. rewrite Hs. pose proof (v_closes0 j Hj) as Hcl. unfold isOpen in *.
    change (sv_current s') with (sv_current s). change (sv_retired s') with (@None nat).
    assert (sumZ pastClose ts + Z.b2z (sv_cacheClosed s) = 0) as Hz.
    { pose proof (sums_order ts). destruct (decide (0 < sumZ pastClose ts + Z.b2z (sv_cacheClosed s))) as [Hp|]; [specialize (v_final _ _ v_flags0 Hp); congruence|]. destruct (sv_cacheClosed s); cbn in *; lia. }
    change (sv_cacheClosed s') with (sv_cacheClosed s). change (base s') with (base s). rewrite Hz in *. cbn [Z.eqb] in *. rewrite ?andb_true_r in *.
    destruct (decide (i = j)) as [Eij|Eij]; [subst j|].
    + rewrite (bool_decide_eq_true_2 (sv_retired s = Some i)), orb_true_r in Hcl by done. cbn in Hcl.
      rewrite (bool_decide_eq_false_2 (sv_current s = Some i)) by done. rewrite (bool_decide_eq_false_2 (None = Some i)) by done. cbn.
      assert (sumZ (isCandidate i) ts = 0) as ->.
      { rewrite (sumZ_ext _ (fun _ => 0)); [clear; by induction ts|]. intros t Ht. specialize (v_reload0 t Ht). destruct t; try done; cbn in *. case_decide; [|done]. destruct v_reload0 as (_ & ? & _); congruence. }
      unfold field in Hcl. rewrite Hrt in Hcl. cbn. lia.
    + rewrite Hcl, (bool_decide_eq_false_2 (sv_retired s = Some j)), (bool_decide_eq_false_2 (None = Some j)) by congruence. done.
  - rewrite (sumZ_alter _ _ _ _ _ Hrt). cbn. rewrite Z.sub_add, <- v_origin0, Er.
    unfold requestsOf. cbn. rewrite Hrt. destruct (sv_current s) as [c|] eqn:Ec; cbn.
    + rewrite list_lookup_alter_ne by congruence. unfold u64. rewrite Z.add_0_r, Zplus_mod_idemp_l. f_equal. lia.
    + unfold u64. rewrite !Z.add_0_r, Zmod_mod. done.
  - split; [|done]. intros j Hj. rewrite Hs, decide_False by congruence. by apply v_version0.
Qed.

(** What an action must establish when it neither publishes nor closes. *)
Lemma frame s ts s' ts' : inv0 s ts ->
  length (sv_runtimes s') = length (sv_runtimes s) ->
  (forall i, field rt_version s' i = field rt_version s i /\ field rt_closes s' i = field rt_closes s i) ->
  sv_current s' = sv_current s -> sv_retired s' = sv_retired s -> sv_initErr s' = sv_initErr s ->
  (forall i, field rt_refs s' i = sumZ (leases i) ts') ->
  (forall i, 0 < sumZ (leases i) ts' -> 0 < sumZ (leases i) ts \/ sv_initErr s = None /\ sv_current s = Some i) ->
  (forall i, sumZ (isCandidate i) ts' = sumZ (isCandidate i) ts) -> sumZ published ts' = sumZ published ts ->
  sumZ pastClose ts' + Z.b2z (sv_cacheClosed s') = sumZ pastClose ts + Z.b2z (sv_cacheClosed s) ->
  flags s' ts' -> (forall t, t ∈ ts' -> reloadOk s' t) ->
  u64 (sv_closedOrigin s' + requestsOf s' (sv_current s') + requestsOf s' (sv_retired s')) = u64 (sumZ rt_requests (sv_runtimes s')) ->
  inv0 s' ts'.
Proof.
  intros I Hlen Hf Hc Hr He Href Hl Hcand Hpub Hfin Hfl Hre Ho. destruct I. constructor; rewrite ?Hlen, ?Hc, ?Hr, ?He; try done.
  - intros i Hi. destruct (Hl i Hi) as [Hi'|[? ?]]; [by apply v_lease0|auto].
  - intros i Hi. rewrite (proj2 (Hf i)), v_closes0 by done. unfold isOpen, base. by rewrite Hc, Hr, He, Hcand, Hfin.
  - by rewrite <- Hc, <- Hr at 1.
  - rewrite Hpub. split; intros i Hi; rewrite (proj1 (Hf i)); by apply v_version0.
Qed.

(** The same when the runtimes and what is published stay. *)
Lemma frame_same s ts s' ts' : inv0 s ts ->
  sv_runtimes s' = sv_runtimes s -> sv_current s' = sv_current s -> sv_retired s' = sv_retired s -> sv_initErr s' = sv_initErr s -> sv_closedOrigin s' = sv_closedOrigin s ->
  (forall i, sumZ (leases i) ts' = sumZ (leases i) ts) ->
  (forall i, sumZ (isCandidate i) ts' = sumZ (isCandidate i) ts) -> sumZ published ts' = sumZ published ts ->
  sumZ pastClose ts' + Z.b2z (sv_cacheClosed s') = sumZ pastClose ts + Z.b2z (sv_cacheClosed s) ->
  flags s' ts' -> (forall t, t ∈ ts' -> t ∈ ts \/ reloadOk s t) -> inv0 s' ts'.
Proof.
  intros I Hs Hc Hr He Hco Hl Hcand Hpub Hfin Hfl Hre. apply (frame s ts); try done.
  - by rewrite Hs.
  - intros i. by rewrite !(field_same _ s s' Hs).
  - intros i. rewrite (field_same _ s s' Hs), Hl. apply (v_refs _ _ I).
  - intros i. rewrite Hl. auto.
  - intros t Ht. assert (reloadOk s t) as Hok by (destruct (Hre t Ht); [by apply (v_reload _ _ I)|done]).
    destruct t; try done; unfold reloadOk in *; by rewrite ?(field_same _ s s' Hs), ?Hs, ?Hc, ?Hr, ?He.
  - unfold requestsOf. rewrite Hs, Hc, Hr, Hco. apply (v_origin _ _ I).
Qed.

Lemma elem_of_move {A} (ts : list A) k t' sp u : u ∈ <[k := t']> ts ++ sp -> u = t' \/ u ∈ ts \/ u ∈ sp.
Proof. intros [[->|H]%elem_of_list_insert|H]%elem_of_app; auto. Qed.

(** Runtimes that are not candidates may change without a reload noticing. *)
Lemma reloadOk_adjust s g i t : (forall rt, rt_version (g rt) = rt_version rt) -> (i < length (sv_runtimes s))%nat ->
  sv_current s = Some i \/ sv_retired s = Some i -> reloadOk s t -> reloadOk (adjust g i s) t.
Proof.
  intros Hg Hi Hc Hok. destruct t; try done. cbn in *. destruct Hok as (H1 & H2 & H3 & H4 & H5). assert (i = old) as -> by (destruct Hc; congruence).
  split_and!; try done. rewrite list_lookup_alter_ne, H5 by done. rewrite field_adjust, decide_True by done. unfold field. destruct (lookup_lt_is_Some_2 _ _ Hi) as [rt ->]. by rewrite Hg.
Qed.

(** Requests and producers take no part in reloads and shutdowns. *)
Definition worker (t : pc) : bool := match t with HEnter | HRun _ _ | HReleased | HDone | PRun _ | PReleased | PDone => true | _ => false end.

Lemma worker_control t : worker t = true ->
  holdsReload t = 0 /\ reloading t = 0 /\ retiring t = 0 /\ (forall i, isCandidate i t = 0) /\ inShutdown t = 0 /\ pastHandlers t = 0 /\ pastProducers t = 0 /\ pastClose t = 0 /\ published t = 0 /\
  (forall s, reloadOk s t).
Proof. by destruct t. Qed.

Lemma worker_move (f : pc -> Z) (ts : list pc) k t t' (p : option pc) : ts !! k = Some t -> f t = 0 -> f t' = 0 -> (forall u, p = Some u -> f u = 0) ->
  sumZ f (<[k := t']> ts ++ match p with Some u => [u] | None => [] end) = sumZ f ts.
Proof. intros Hk Ht Ht' Hp. rewrite (sumZ_move _ _ _ _ _ _ Hk), Ht, Ht'. destruct p as [u|]; cbn; [rewrite (Hp u eq_refl)|]; lia. Qed.

Lemma flags_worker s ts (k : nat) t t' (p : option pc) s' : flags s ts -> ts !! k = Some t -> worker t = true -> worker t' = true -> (forall u, p = Some u -> worker u = true /\ isHandler u = 0) ->
  let ts' := <[k := t']> ts ++ match p with Some u => [u] | None => [] end in
  sv_reloadMu s' = sv_reloadMu s -> sv_draining s' = sv_draining s -> sv_shutdown s' = sv_shutdown s -> sv_cacheClosed s' = sv_cacheClosed s -> sv_retired s' = sv_retired s ->
  sv_handlers s' = sumZ isHandler ts' -> sv_producers s' = sumZ isProducer ts' ->
  (sv_draining s = true -> isHandler t' <= isHandler t) ->
  isProducer t' + match p with Some u => isProducer u | None => 0 end <= isProducer t + isHandler t -> flags s' ts'.
Proof.
  intros F Hk Ht Ht' Hp ts' E1 E2 E3 E4 E5 Hh Hpr Hd Hs. destruct (worker_control t Ht) as (A1 & A2 & A3 & A4 & A5 & A6 & A7 & A8 & A9 & A10).
  destruct (worker_control t' Ht') as (B1 & B2 & B3 & B4 & B5 & B6 & B7 & B8 & B9 & B10).
  assert (forall f, f t = 0 -> f t' = 0 -> (forall u, worker u = true -> f u = 0) -> sumZ f ts' = sumZ f ts) as W
    by (intros f H1 H2 H3; apply (worker_move f ts k t t' p Hk H1 H2); intros u Hu; apply H3, (Hp u Hu)).
  pose proof (sumZ_holder isHandler ts k t (fun y => proj1 (counts_nonneg y)) Hk) as HH.
  pose proof (sumZ_holder isProducer ts k t (fun y => proj1 (proj2 (counts_nonneg y))) Hk) as HP.
  destruct F. pose proof (sums_order ts) as So. pose proof (counts_nonneg t). pose proof (counts_nonneg t').
  constructor; rewrite ?E1, ?E2, ?E3, ?E4, ?E5; rewrite ?(W holdsReload), ?(W inShutdown), ?(W pastHandlers), ?(W pastProducers), ?(W pastClose), ?(W reloading) by (done || (intros u Hu; apply (worker_control u Hu))); try done.
  - intros Hst. specialize (v_stageH0 Hst). rewrite Hh. unfold ts'. rewrite (sumZ_move _ _ _ _ _ _ Hk).
    assert (sv_draining s = true) as Hdr by (rewrite v_draining0; destruct (sv_shutdown s), (sv_cacheClosed s); cbn in *; lia || done).
    specialize (Hd Hdr). destruct p as [u|]; cbn; [rewrite (proj2 (Hp u eq_refl))|]; lia.
  - intros Hst. specialize (v_stageP0 Hst). assert (sv_handlers s = 0) by (apply v_stageH0; lia). rewrite Hpr. unfold ts'. rewrite (sumZ_move _ _ _ _ _ _ Hk).
    destruct p as [u|]; cbn; [pose proof (counts_nonneg u)|]; lia.
Qed.

(** The leases of a runtime follow the process that moves. *)
Lemma frame_refs s ts (k : nat) t t' d i s' : inv0 s ts -> ts !! k = Some t -> worker t = true -> worker t' = true ->
  (forall j, leases j t' = leases j t + if decide (i = j) then d else 0) ->
  sv_initErr s = None -> sv_current s = Some i \/ sv_retired s = Some i -> (0 < leases i t' -> 0 < leases i t \/ sv_current s = Some i) ->
  s' = set_sv_handlers (sv_handlers s - isHandler t + isHandler t') (adjust (addRefs d) i s) ->
  (sv_draining s = true -> isHandler t' <= isHandler t) -> isProducer t' = isProducer t ->
  inv0 s' (<[k := t']> ts ++ []).
Proof.
  intros I Hk Ht Ht' Hl He Hcr Hpos -> Hd Hp.
  assert (i < length (sv_runtimes s))%nat as Hi by (destruct Hcr; [by apply (v_cur _ _ I)|by apply (v_ret _ _ I)]).
  destruct (lookup_lt_is_Some_2 _ _ Hi) as [rt Hrt].
  destruct (worker_control t Ht) as (A1 & A2 & A3 & A4 & A5 & A6 & A7 & A8 & A9 & A10).
  destruct (worker_control t' Ht') as (B1 & B2 & B3 & B4 & B5 & B6 & B7 & B8 & B9 & B10).
  assert (forall f j, (forall rt, f (addRefs d rt) = f rt) -> field f (adjust (addRefs d) i s) j = field f s j) as Hf
    by (intros f j Hg; rewrite field_adjust by done; destruct (decide (i = j)) as [<-|]; [unfold field; by rewrite Hrt, Hg|done]).
  pose proof (sumZ_holder isHandler ts k t (fun y => proj1 (counts_nonneg y)) Hk).
  apply (frame s ts); cbn [sv_current sv_retired sv_initErr sv_closedOrigin sv_cacheClosed set_sv_handlers]; try done.
  - apply length_adjust.
  - intros j. split; by apply Hf.
  - intros j. change (field rt_refs (adjust (addRefs d) i s) j = sumZ (leases j) (<[k := t']> ts ++ [])).
    rewrite field_adjust, (sumZ_move _ _ _ _ _ _ Hk), Hl by done. cbn [sumZ]. pose proof (v_refs _ _ I j) as Hr.
    destruct (decide (i = j)) as [<-|]; [|lia]. unfold field in Hr. rewrite Hrt in *. cbn. lia.
  - intros j. rewrite (sumZ_move _ _ _ _ _ _ Hk). cbn [sumZ]. pose proof (sumZ_holder (leases j) ts k t (leases_nonneg j) Hk). pose proof (leases_nonneg j t). rewrite Hl.
    destruct (decide (i = j)) as [<-|]; [|lia]. intros Hgt. destruct (decide (0 < sumZ (leases i) ts)); [by left|]. rewrite Hl, decide_True in Hpos by done.
    destruct Hpos as [?|?]; [lia|lia|auto].
  - intros j. by apply (worker_move _ ts k t t' None Hk).
  - by apply (worker_move _ ts k t t' None Hk).
  - f_equal. by apply (worker_move _ ts k t t' None Hk).
  - apply (flags_worker s ts k t t' None); cbn; try done; [apply (v_flags _ _ I)| | |pose proof (counts_nonneg t); lia].
    + rewrite (sumZ_move _ _ _ _ _ _ Hk), (v_handlers _ _ (v_flags _ _ I)). cbn. lia.
    + rewrite (sumZ_move _ _ _ _ _ _ Hk), (v_producers _ _ (v_flags _ _ I)). cbn. lia.
  - intros u Hu. apply elem_of_move in Hu as [->|[Hu|Hu]]; [done| |set_solver].
    apply (reloadOk_adjust s (addRefs d) i u) in Hcr; try done. by apply (v_reload _ _ I).
  - change (sv_runtimes (set_sv_handlers _ ?x)) with (sv_runtimes x). cbn. rewrite (sumZ_alter _ _ _ _ _ Hrt). cbn. rewrite Z.sub_add, <- (v_origin _ _ I).
    f_equal. assert (forall o, requestsOf (set_sv_handlers (sv_handlers s - isHandler t + isHandler t') (adjust (addRefs d) i s)) o = requestsOf s o) as Hq; [|by rewrite !Hq].
    intros [j|]; [|done]. apply (Hf rt_requests j). done.
Qed.

Lemma set_sv_handlers_id s : set_sv_handlers (sv_handlers s) s = s.
Proof. by destruct s. Qed.
Lemma adjust_handlers g i s h : sv_handlers s = h -> set_sv_handlers h (adjust g i s) = adjust g i s.
Proof. by intros <-. Qed.

(** A process that holds a lease holds it on a published runtime. *)
Lemma leased s ts (k : nat) t i : inv0 s ts -> ts !! k = Some t -> 0 < leases i t ->
  (i < length (sv_runtimes s))%nat /\ sv_initErr s = None /\ (sv_current s = Some i \/ sv_retired s = Some i).
Proof.
  intros I Hk Hl. pose proof (sumZ_holder (leases i) ts k t (leases_nonneg i) Hk). destruct (v_lease _ _ I i ltac:(lia)) as [He Hcr].
  split_and!; try done. destruct Hcr; [by apply (v_cur _ _ I)|by apply (v_ret _ _ I)].
Qed.

(** Giving a lease back. *)
Lemma release_inv s ts (k : nat) t t' i : inv0 s ts -> ts !! k = Some t -> worker t = true -> worker t' = true -> 0 < leases i t ->
  (forall j, leases j t' = leases j t + if decide (i = j) then -1 else 0) -> isHandler t' = isHandler t -> isProducer t' = isProducer t ->
  inv (mkSystem (releaseRuntime i s) (<[k := t']> ts ++ [])).
Proof.
  intros I Hk Ht Ht' Hpos Hl Hh Hp. destruct (leased _ _ _ _ _ I Hk Hpos) as (Hi & He & Hcr).
  assert (inv0 (adjust (addRefs (-1)) i s) (<[k := t']> ts ++ [])) as I1.
  { apply (frame_refs s ts k t t' (-1) i); try done; [auto| |lia]. rewrite adjust_handlers; [done|lia]. }
  destruct (closeRetiredLocked_inv _ _ I1) as [I2 L]. split; [exact I2|]. intros j Hj. specialize (L j Hj). cbn.
  pose proof (sums_order (<[k := t']> ts ++ [])). lia.
Qed.

(** A request to the origin is counted by the runtime that makes it. *)
Lemma countRequest_inv s ts (k : nat) t i : inv (mkSystem s ts) -> ts !! k = Some t -> worker t = true -> 0 < leases i t -> inv (mkSystem (adjust countRequest i s) (<[k := t]> ts ++ [])).
Proof.
  intros [I L] Hk Ht Hpos. cbn in I, L. rewrite list_insert_id, app_nil_r by done. destruct (leased _ _ _ _ _ I Hk Hpos) as (Hi & He & Hcr).
  destruct (lookup_lt_is_Some_2 _ _ Hi) as [rt Hrt]. split; [|done]. cbn.
  assert (forall f j, (forall rt, f (countRequest rt) = f rt) -> field f (adjust countRequest i s) j = field f s j) as Hf
    by (intros f j Hg; rewrite field_adjust by done; destruct (decide (i = j)) as [<-|]; [unfold field; by rewrite Hrt, Hg|done]).
  apply (frame s ts); try done; [apply length_adjust|intros j; split; by apply Hf|intros j; rewrite Hf by done; apply (v_refs _ _ I)|auto|by destruct (v_flags _ _ I)| |].
  - intros u Hu. apply reloadOk_adjust; try done. by apply (v_reload _ _ I).
  - pose proof (v_origin _ _ I) as Ho. cbn in *. rewrite (sumZ_alter _ _ _ _ _ Hrt). cbn.
    assert (forall o, requestsOf (adjust countRequest i s) o = if decide (o = Some i) then u64 (rt_requests rt + 1) else requestsOf s o) as Hq.
    { intros [j|]; [|done]. change (field rt_requests (adjust countRequest i s) j = if decide (Some j = Some i) then u64 (rt_requests rt + 1) else field rt_requests s j).
      rewrite field_adjust, Hrt by done. destruct (decide (i = j)) as [<-|]; [by rewrite decide_True|by rewrite decide_False by congruence]. }
    rewrite !Hq. assert (requestsOf s (Some i) = rt_requests rt) as Hq1 by (change (field rt_requests s i = rt_requests rt); unfold field; by rewrite Hrt). unfold u64 in *.
    destruct Hcr as [Hc|Hr].
    + rewrite Hc in *. rewrite decide_True, decide_False by (done || (intros E; by destruct (v_ret _ _ I i E) as (_ & ? & _))). rewrite Hq1 in Ho.
      rewrite <- Zplus_mod_idemp_l, Zplus_mod_idemp_r, Zplus_mod_idemp_l. symmetry. rewrite Zplus_mod_idemp_r.
      replace (sumZ rt_requests (sv_runtimes s) - rt_requests rt + (rt_requests rt + 1)) with (sumZ rt_requests (sv_runtimes s) + 1) by lia.
      rewrite <- Zplus_mod_idemp_l, <- Ho, Zplus_mod_idemp_l. f_equal. lia.
    + rewrite Hr in *. rewrite (decide_True (P := Some i = Some i)), decide_False by (done || (intros E; by destruct (v_ret _ _ I i Hr) as (_ & ? & _))). rewrite Hq1 in Ho.
      rewrite Zplus_mod_idemp_r. symmetry. rewrite Zplus_mod_idemp_r.
      replace (sumZ rt_requests (sv_runtimes s) - rt_requests rt + (rt_requests rt + 1)) with (sumZ rt_requests (sv_runtimes s) + 1) by lia.
      rewrite <- Zplus_mod_idemp_l, <- Ho, Zplus_mod_idemp_l. f_equal. lia.
Qed.

(** A worker that leaves the runtimes alone. *)
Lemma worker_same s ts (k : nat) t t' p s' : inv (mkSystem s ts) -> ts !! k = Some t -> worker t = true -> worker t' = true ->
  (forall u, p = Some u -> worker u = true /\ isHandler u = 0) ->
  (forall j, leases j t' + match p with Some u => leases j u | None => 0 end = leases j t) ->
  s' = set_sv_producers (sv_producers s - isProducer t + isProducer t' + match p with Some u => isProducer u | None => 0 end) (set_sv_handlers (sv_handlers s - isHandler t + isHandler t') s) ->
  (sv_draining s = true -> isHandler t' <= isHandler t) -> isProducer t' + match p with Some u => isProducer u | None => 0 end <= isProducer t + isHandler t ->
  inv (mkSystem s' (<[k := t']> ts ++ match p with Some u => [u] | None => [] end)).
Proof.
  intros [I L] Hk Ht Ht' Hp Hl -> Hd Hpr. cbn in I, L. set (ts' := _ ++ _). unfold inv. cbn [sys_s sys_ts].
  destruct (worker_control t Ht) as (A1 & A2 & A3 & A4 & A5 & A6 & A7 & A8 & A9 & A10).
  destruct (worker_control t' Ht') as (B1 & B2 & B3 & B4 & B5 & B6 & B7 & B8 & B9 & B10).
  assert (forall f, f t = 0 -> f t' = 0 -> (forall u, worker u = true -> f u = 0) -> sumZ f ts' = sumZ f ts) as W
    by (intros f H1 H2 H3; apply (worker_move f ts k t t' p Hk H1 H2); intros u Hu; apply H3, (Hp u Hu)).
  assert (forall j, sumZ (leases j) ts' = sumZ (leases j) ts) as Hls.
  { intros j. unfold ts'. rewrite (sumZ_move _ _ _ _ _ _ Hk). specialize (Hl j). destruct p; cbn [sumZ]; lia. }
  split.
  - apply (frame_same s ts); cbn [sv_runtimes sv_current sv_retired sv_initErr sv_closedOrigin sv_cacheClosed set_sv_producers set_sv_handlers]; try done.
    + intros j. apply W; auto. intros u Hu. apply (worker_control u Hu).
    + apply W; auto. intros u Hu. apply (worker_control u Hu).
    + f_equal. apply W; auto. intros u Hu. apply (worker_control u Hu).
    + apply (flags_worker s ts k t t' p); cbn; try done; [apply (v_flags _ _ I)| |].
      * rewrite (sumZ_move _ _ _ _ _ _ Hk), (v_handlers _ _ (v_flags _ _ I)). destruct p as [u|]; cbn; [rewrite (proj2 (Hp u eq_refl))|]; lia.
      * rewrite (sumZ_move _ _ _ _ _ _ Hk), (v_producers _ _ (v_flags _ _ I)). destruct p; cbn; lia.
    + intros u Hu. apply elem_of_move in Hu as [->|[Hu|Hu]]; [auto|auto|]. right. destruct p as [v|]; [|set_solver]. apply list_elem_of_singleton in Hu as ->. by apply worker_control, (Hp v).
  - intros j Hj. cbn in Hj. specialize (L j Hj). rewrite Hls, (W retiring); auto. intros u Hu. apply (worker_control u Hu).
Qed.

Lemma worker_id s : set_sv_producers (sv_producers s) (set_sv_handlers (sv_handlers s) s) = s.
Proof. by destruct s. Qed.

(** Every action of a request or a producer keeps the invariant. *)
Lemma step_worker s ts (k : nat) t m s' t' p : inv (mkSystem s ts) -> ts !! k = Some t -> worker t = true -> step m s t = Some (s', t', p) ->
  inv (mkSystem s' (<[k := t']> ts ++ match p with Some u => [u] | None => [] end)).
Proof.
  intros I Hk Hw E. destruct t as [|i extra| | |i| | | | | | | | | | | | | | | |]; try done; cbn in E.
  - unfold admitRequest in E. destruct (sv_draining s || _) eqn:Hd; [|destruct (sv_current s) as [i|] eqn:Hc]; injection E as <- <- <-; cbn.
    1, 3: apply (worker_same s ts k HEnter HDone None); try done; cbn; rewrite !Z.sub_0_r, ?Z.add_0_r; by rewrite worker_id.
    b2p. match goal with H : ~ _ |- _ => apply dec_stable in H end. destruct I as [I L]. cbn in *. split.
    + apply (frame_refs s ts k HEnter (HRun i 0) 1 i); try done; cbn; [|auto|auto|f_equal; lia|congruence].
      intros j. destruct (decide (j = i)), (decide (i = j)); congruence || lia.
    + intros j Hj. cbn in *. specialize (L j Hj). rewrite !(sumZ_move _ _ _ _ _ _ Hk). cbn. destruct (decide (j = i)); lia.
  - assert (0 < leases i (HRun i extra)) as Hpos by (cbn; rewrite decide_True by done; lia).
    assert (forall j x d, Z.of_nat x = Z.of_nat extra + d -> leases j (HRun i x) = leases j (HRun i extra) + if decide (i = j) then d else 0) as Hls
      by (intros j x d Hx; cbn; destruct (decide (j = i)), (decide (i = j)); congruence || lia).
    destruct m, extra as [|extra]; try done; injection E as <- <- <-; cbn [app].
    + apply (release_inv s ts k (HRun i 0)); try done; [apply I|]. intros j. cbn. destruct (decide (j = i)), (decide (i = j)); congruence || lia.
    + destruct I as [I L]. cbn in *. destruct (leased _ _ _ _ _ I Hk Hpos) as (Hi & He & Hcr). split.
      * apply (frame_refs s ts k (HRun i 0) (HRun i 1) 1 i); try done; [intros j; apply Hls; lia|auto|]. symmetry. apply adjust_handlers. cbn. lia.
      * intros j Hj. cbn in *. specialize (L j Hj). rewrite !(sumZ_move _ _ _ _ _ _ Hk). cbn. destruct (decide (j = i)); lia.
    + destruct I as [I L]. cbn in *. destruct (leased _ _ _ _ _ I Hk Hpos) as (Hi & He & Hcr). split.
      * apply (frame_refs s ts k (HRun i (S extra)) (HRun i (S (S extra))) 1 i); try done; [intros j; apply Hls; lia|auto|]. symmetry. apply adjust_handlers. cbn. lia.
      * intros j Hj. cbn in *. specialize (L j Hj). rewrite !(sumZ_move _ _ _ _ _ _ Hk). cbn. destruct (decide (j = i)); lia.
    + apply (release_inv s ts k (HRun i (S extra))); try done; [apply I|]. intros j. apply Hls. lia.
    + apply (worker_same s ts k (HRun i (S extra)) (HRun i extra) (Some (PRun i))); try done; [by intros u [= <-]| |].
      * intros j. cbn. destruct (decide (j = i)); lia.
      * cbn. replace (sv_handlers s - 1 + 1) with (sv_handlers s) by lia. rewrite set_sv_handlers_id. f_equal. lia.
    + by apply (countRequest_inv s ts k (HRun i 0)).
    + by apply (countRequest_inv s ts k (HRun i (S extra))).
  - injection E as <- <- <-. apply (worker_same s ts k HReleased HDone None); try done. cbn. rewrite !Z.add_0_r, Z.sub_0_r. by destruct s.
  - assert (0 < leases i (PRun i)) as Hpos by (cbn; rewrite decide_True by done; lia).
    destruct m; injection E as <- <- <-; cbn [app]; try (apply (release_inv s ts k (PRun i)); try done; [apply I|]; intros j; cbn; destruct (decide (j = i)), (decide (i = j)); congruence || lia).
    by apply (countRequest_inv s ts k (PRun i)).
  - injection E as <- <- <-. apply (worker_same s ts k PReleased PDone None); try done. cbn. rewrite !Z.add_0_r, Z.sub_0_r, set_sv_handlers_id. done.
Qed.

(** *** Reloads and shutdowns *)

Lemma control_zero t : worker t = false -> (forall j, leases j t = 0) /\ isHandler t = 0 /\ isProducer t = 0.
Proof. by destruct t. Qed.

(** A reload or shutdown that leaves the runtimes alone. *)
Lemma control_same s ts (k : nat) t t' s' : inv (mkSystem s ts) -> ts !! k = Some t -> worker t = false -> worker t' = false ->
  sv_runtimes s' = sv_runtimes s -> sv_current s' = sv_current s -> sv_retired s' = sv_retired s -> sv_initErr s' = sv_initErr s -> sv_closedOrigin s' = sv_closedOrigin s ->
  (forall j, isCandidate j t' = isCandidate j t) -> published t' = published t -> retiring t' = retiring t ->
  pastClose t' + Z.b2z (sv_cacheClosed s') = pastClose t + Z.b2z (sv_cacheClosed s) ->
  flags s' (<[k := t']> ts ++ []) -> reloadOk s t' -> inv (mkSystem s' (<[k := t']> ts ++ [])).
Proof.
  intros [I L] Hk Ht Ht' E1 E2 E3 E4 E5 Hc Hp Hr Hfin Hfl Hok. cbn in I, L. destruct (control_zero t Ht) as (A1 & A2 & A3). destruct (control_zero t' Ht') as (B1 & B2 & B3).
  unfold inv; cbn [sys_s sys_ts]. split.
  - apply (frame_same s ts); try done.
    + intros j. rewrite (sumZ_move _ _ _ _ _ _ Hk), A1, B1. cbn. lia.
    + intros j. rewrite (sumZ_move _ _ _ _ _ _ Hk), Hc. cbn. lia.
    + rewrite (sumZ_move _ _ _ _ _ _ Hk), Hp. cbn. lia.
    + rewrite (sumZ_move _ _ _ _ _ _ Hk). cbn. lia.
    + intros u Hu. apply elem_of_move in Hu as [->|[Hu|Hu]]; [auto|auto|set_solver].
  - intros j Hj. rewrite E3 in Hj. specialize (L j Hj). rewrite !(sumZ_move _ _ _ _ _ _ Hk), A1, B1, Hr. cbn. lia.
Qed.

(** [flags] after a move of a reload or a shutdown, by arithmetic. *)
Ltac flags_tac Hk I :=
  let F := fresh "F" in pose proof (v_flags _ _ I) as F; destruct F; cbn [sys_s sys_ts] in *;
  constructor; sums Hk; cbn [sv_reloadMu sv_handlers sv_producers sv_shutdown sv_cacheClosed sv_draining sv_retired set_sv_reloadMu closeCache] in *.

Lemma holder_bounds ts (k : nat) t : ts !! k = Some t ->
  holdsReload t <= sumZ holdsReload ts /\ reloading t <= sumZ reloading ts /\ inShutdown t <= sumZ inShutdown ts /\ pastHandlers t <= sumZ pastHandlers ts /\
  pastProducers t <= sumZ pastProducers ts /\ pastClose t <= sumZ pastClose ts.
Proof. intros Hk. split_and!; (eapply sumZ_holder; [intros y; pose proof (counts_nonneg y); lia|exact Hk]). Qed.

Ltac flags_lia := repeat match goal with
  | |- context [Z.b2z ?b] => is_var b; destruct b
  | |- context [Z.b2z (?f ?s)] => destruct (f s) eqn:?
  | H : context [Z.b2z (?f ?s)] |- _ => destruct (f s) eqn:?
  end; cbn [Z.b2z] in *; try done; try lia; try (intros; match goal with H : _ -> sv_retired _ = None |- sv_retired _ = None => apply H; lia end);
  try (let Hdr := fresh in intros Hdr; match goal with H : sv_draining _ = true -> _ |- _ => specialize (H Hdr) end; first [congruence | lia]); try (intros; congruence).

(** The steps that only move a flag. *)
Lemma step_flag s ts (k : nat) t m s' t' p : inv (mkSystem s ts) -> ts !! k = Some t ->
  match t with REnter | RLocked | RStop | RUnlock _ | SEnter | SHandlers | SProducers | SCache => True | _ => False end ->
  step m s t = Some (s', t', p) -> inv (mkSystem s' (<[k := t']> ts ++ match p with Some u => [u] | None => [] end)).
Proof.
  intros I Hk Hm E. pose proof (holder_bounds _ _ _ Hk) as Hb. pose proof (sums_order ts) as So.
  destruct t as [| | | | | | | | | | | | |r|r| | | | | |]; try done; cbn in E, Hb.
  - destruct (sv_reloadMu s) eqn:El; [done|]. injection E as <- <- <-.
    assert (forall t', holdsReload t' = 1 -> reloading t' = 0 -> published t' = 0 -> worker t' = false -> inv (mkSystem (set_sv_reloadMu true s) (<[k := t']> ts ++ []))) as X.
    { intros t' H1 H2 H3 H4. apply (control_same s ts k REnter t'); try done; try by destruct t' as [| | | | | | | | | | | | |[]|[]| | | | | |].
      flags_tac Hk (proj1 I); rewrite ?H1, ?H2; destruct t' as [| | | | | | | | | | | | |[]|[]| | | | | |]; try done; cbn in *; rewrite ?El in *; flags_lia. }
    destruct m as [| | | | |[]]; by apply X.
  - injection E as <- <- <-. cbn [app]. unfold reloadCheck. destruct (sv_draining s || _) eqn:Hd; [|destruct (bool_decide (sv_retired s <> None)) eqn:Hr; [|destruct (sv_current s) as [i|] eqn:Hc]].
    4: { b2p. repeat match goal with H : ~ (_ <> _) |- _ => apply dec_stable in H end. destruct I as [I L]. cbn in *. by destruct (v_none _ _ I). }
    1, 2: (apply (control_same s ts k RLocked); try done; flags_tac Hk (proj1 I); flags_lia).
    b2p. repeat match goal with H : ~ (_ <> _) |- _ => apply dec_stable in H end.
    apply (control_same s ts k RLocked (RBuild i)); try done. flags_tac Hk (proj1 I); flags_lia.
  - injection E as <- <- <-. apply (control_same s ts k RStop RClose); try done. flags_tac Hk (proj1 I); flags_lia.
  - injection E as <- <- <-. apply (control_same s ts k (RUnlock r) (RDone r)); try done. flags_tac Hk (proj1 I); flags_lia.
  - destruct (sv_shutdown s) eqn:Es; [destruct (sv_cacheClosed s) eqn:Ec; [|done]; injection E as <- <- <-|].
    + apply (control_same s ts k SEnter SDone); try done. flags_tac Hk (proj1 I); rewrite ?Ec in *; flags_lia.
    + unfold drain in E. destruct (sv_reloadMu s) eqn:El; [done|]. injection E as <- <- <-.
      apply (control_same s ts k SEnter SHandlers); try done. flags_tac Hk (proj1 I); rewrite ?Es, ?El in *; flags_lia.
  - destruct (sv_handlers s =? 0) eqn:Eh; [|done]. injection E as <- <- <-. b2p. apply (control_same s ts k SHandlers SProducers); try done. flags_tac Hk (proj1 I); flags_lia.
  - destruct (sv_producers s =? 0) eqn:Eh; [|done]. injection E as <- <- <-. b2p. apply (control_same s ts k SProducers SClose); try done. flags_tac Hk (proj1 I); flags_lia.
  - injection E as <- <- <-. destruct I as [I L]. cbn in I, L. pose proof (v_flags _ _ I) as F. destruct F.
    assert (sv_cacheClosed s = false) as Ec by (destruct (sv_cacheClosed s), (sv_shutdown s); cbn in *; lia || done).
    apply (control_same s ts k SCache SDone); try done; [by cbn; rewrite Ec|]. flags_tac Hk I; rewrite ?Ec in *; flags_lia.
Qed.

(** The holder of [reloadMu] is the only process in a reload. *)
Lemma others_idle s ts (k : nat) t t' u : inv0 s ts -> ts !! k = Some t -> holdsReload t = 1 -> u ∈ <[k := t']> ts -> u = t' \/ reloading u = 0.
Proof.
  intros I Hk Ht [j Hu]%list_elem_of_lookup.
  destruct (decide (k = j)) as [<-|Hj]; [rewrite list_lookup_insert_eq in Hu by (by eapply lookup_lt_Some); left; congruence|]. rewrite list_lookup_insert_ne in Hu by done.
  pose proof (sumZ_others holdsReload ts k _ j u (fun y => proj1 (proj2 (proj2 (counts_nonneg y)))) Hk Hu Hj).
  pose proof (v_lock _ _ (v_flags _ _ I)). pose proof (counts_nonneg u). right. destruct (sv_reloadMu s); cbn in *; lia.
Qed.

Lemma reload_running s ts (k : nat) t : inv0 s ts -> ts !! k = Some t -> reloading t = 1 -> sv_cacheClosed s = false /\ sumZ pastClose ts = 0 /\ sv_draining s = false.
Proof.
  intros I Hk Ht. pose proof (v_flags _ _ I) as Fl. pose proof (holder_bounds _ _ _ Hk) as Hb. pose proof (sums_order ts) as So. rewrite Ht in Hb. destruct Fl.
  destruct (sv_draining s) eqn:Ed; [specialize (v_drain0 eq_refl); lia|]. rewrite <- v_draining0 in v_shutdown0. destruct (sv_cacheClosed s); cbn in *; lia || auto with lia.
Qed.

Lemma field_snoc f s rt i : field f (set_sv_runtimes (sv_runtimes s ++ [rt]) s) i = if decide (i = length (sv_runtimes s)) then f rt else field f s i.
Proof.
  unfold field. cbn. case_decide as E; [subst i; by rewrite list_lookup_middle|].
  destruct (decide (i < length (sv_runtimes s))%nat) as [Hl|Hl]; [by rewrite lookup_app_l|].
  rewrite lookup_app_r by lia. rewrite (lookup_ge_None_2 (sv_runtimes s) i) by lia. by rewrite lookup_ge_None_2 by (cbn; lia).
Qed.

(** A runtime that is built but not published. *)
Lemma build_inv s ts (k : nat) old t' closes : inv (mkSystem s ts) -> ts !! k = Some (RBuild old) ->
  let n := length (sv_runtimes s) in let rt := mkRuntime (u64 (field rt_version s old + 1)) 0 closes 0 in
  (exists e, t' = RUnlock (Err e) /\ closes = 1) \/ t' = RPublish n old /\ closes = 0 ->
  inv (mkSystem (set_sv_runtimes (sv_runtimes s ++ [rt]) s) (<[k := t']> ts ++ [])).
Proof.
  intros [I L] Hk n rt Ht'. cbn in I, L. pose proof (v_flags _ _ I) as Fl. pose proof (holder_bounds _ _ _ Hk) as Hb. pose proof (sums_order ts) as So. cbn in Hb.
  destruct (v_reload _ _ I _ (list_elem_of_lookup_2 _ _ _ Hk)) as (Hc & Hr & He).
  assert (forall u, u ∈ ts -> forall i, isCandidate i u = 0) as Hnc.
  { intros u Hu i. destruct (decide (reloading u = 1)) as [E1|E1]; [by rewrite (reload_alone s ts k (RBuild old) u I Hk eq_refl Hu E1)|].
    pose proof (isCandidate_nonneg i u). destruct u; cbn in *; lia. }
  assert (forall i, sumZ (isCandidate i) ts = 0) as Hnc' by (intros i; rewrite (sumZ_ext _ (fun _ => 0)) by eauto; clear; by induction ts).
  assert (forall j, leases j t' = 0) as Hl0 by (by destruct Ht' as [(e & -> & _)|[-> _]]).
  destruct (reload_running s ts k _ I Hk eq_refl) as (Hcc & Hpc & Hdr).
  assert (forall j, sumZ (leases j) (<[k := t']> ts ++ []) = sumZ (leases j) ts) as Hls by (intros j; rewrite (sumZ_move _ _ _ _ _ _ Hk), Hl0; cbn; lia).
  assert (forall i, sv_current s = Some i \/ sv_retired s = Some i -> (i < n)%nat) as Hin by (intros i [?|?]; [by apply (v_cur _ _ I)|by apply (v_ret _ _ I)]).
  assert (old < n)%nat as Ho by auto. set (s' := set_sv_runtimes _ s).
  assert (forall i, i <> n -> forall f, field f s' i = field f s i) as Hfs by (intros i Hi f; unfold s'; rewrite field_snoc; by rewrite decide_False).
  unfold inv; cbn [sys_s sys_ts]. split; [|intros j Hj; specialize (L j Hj); rewrite Hls, (sumZ_move _ _ _ _ _ _ Hk); destruct Ht' as [(e & -> & _)|[-> _]]; cbn; lia].
  constructor.
  - intros i. unfold s'. rewrite Hls, field_snoc. case_decide as Ei; [|apply (v_refs _ _ I)]. cbn. subst i. fold n.
    pose proof (leases_sum_nonneg n ts). destruct (decide (0 < sumZ (leases n) ts)) as [Hp|]; [|lia]. apply (v_lease _ _ I) in Hp as [_ Hp]. apply Hin in Hp. lia.
  - intros i. rewrite Hls. apply (v_lease _ _ I).
  - intros i Hi. cbn. rewrite length_app. cbn. specialize (Hin i (or_introl Hi)). unfold n in *. lia.
  - intros i Hi. destruct (v_ret _ _ I i Hi) as (H1 & H2 & H3). cbn. rewrite length_app. split_and!; try done. unfold n in *. lia.
  - apply (v_none _ _ I).
  - destruct Ht' as [(e & -> & _)|[-> _]]; flags_tac Hk I; unfold s'; cbn; flags_lia.
  - intros u Hu. apply elem_of_move in Hu as [->|[Hu|Hu]]; [| |set_solver].
    + destruct Ht' as [(e & -> & _)|[-> ->]]; [done|]. cbn. split_and!; try done; [lia|]. rewrite (Hfs old) by lia. by rewrite list_lookup_middle.
    + pose proof (v_reload _ _ I u Hu) as Hok. destruct u; try done. specialize (Hnc _ Hu candidate). cbn in Hnc. by rewrite decide_True in Hnc.
  - intros i Hi. cbn in Hi. rewrite length_app in Hi. cbn in Hi. unfold isOpen, s'. rewrite field_snoc. cbn [sv_current sv_retired sv_cacheClosed set_sv_runtimes].
    change (base (set_sv_runtimes _ s)) with (base s). unfold base. rewrite He, !(sumZ_move _ _ _ _ _ _ Hk), Hnc', Hpc, Hcc.
    case_decide as Ei.
    + subst i. rewrite (bool_decide_eq_false_2 (_ = Some n)) by (intros E; specialize (Hin n (or_introl E)); lia).
      rewrite (bool_decide_eq_false_2 (_ = Some n)) by (rewrite Hr; done).
      destruct Ht' as [(e & -> & ->)|[-> ->]]; cbn; [done|]. by rewrite decide_True.
    + pose proof (v_closes _ _ I i ltac:(lia)) as Hcl. unfold isOpen, base in Hcl. rewrite He, Hnc', Hpc, Hcc in Hcl. rewrite Hcl.
      destruct Ht' as [(e & -> & ->)|[-> ->]]; cbn; [done|]. by rewrite decide_False.
  - cbn. rewrite sumZ_app. cbn. rewrite !Z.add_0_r, <- (v_origin _ _ I). do 2 f_equal; [f_equal|].
    + rewrite Hc. change (field rt_requests s' old = field rt_requests s old). by rewrite Hfs by lia.
    + by rewrite Hr.
  - rewrite (sumZ_move _ _ _ _ _ _ Hk). replace (published t') with 0 by (by destruct Ht' as [(e & -> & _)|[-> _]]). cbn [published sumZ]. rewrite Z.sub_0_r, !Z.add_0_r.
    split; intros i Hi; rewrite Hfs by (pose proof (Hin i); cbn in Hi; naive_solver lia); by apply (v_version _ _ I).
Qed.

Lemma publish_inv s ts (k : nat) c old : inv (mkSystem s ts) -> ts !! k = Some (RPublish c old) ->
  inv (mkSystem (reloadPublish c old s) (<[k := RStop]> ts ++ [])).
Proof.
  intros [I L] Hk. cbn in I, L. pose proof (v_flags _ _ I) as Fl. pose proof (holder_bounds _ _ _ Hk) as Hb. pose proof (sums_order ts) as So. cbn in Hb.
  destruct (v_reload _ _ I _ (list_elem_of_lookup_2 _ _ _ Hk)) as (Hc & Hr & He & Hne & Hcd).
  destruct (reload_running s ts k _ I Hk eq_refl) as (Hcc & Hpc & Hdr).
  assert (forall j, sumZ (leases j) (<[k := RStop]> ts ++ []) = sumZ (leases j) ts) as Hls by (intros j; rewrite (sumZ_move _ _ _ _ _ _ Hk); cbn; lia).
  assert (forall i, sumZ (isCandidate i) ts = isCandidate i (RPublish c old)) as Hcand.
  { intros i. assert (sumZ (isCandidate i) (<[k := RStop]> ts) = 0) as X; [|rewrite (sumZ_list_insert _ _ _ _ _ Hk) in X; cbn in *; lia].
    rewrite (sumZ_ext _ (fun _ => 0)); [clear; by induction (<[k := RStop]> ts)|]. intros u Hu.
    destruct (others_idle s ts k _ RStop u I Hk eq_refl Hu) as [->|E0]; [done|]. pose proof (isCandidate_nonneg i u). lia. }
  unfold inv; cbn [sys_s sys_ts]. split; [|intros j _; rewrite Hls, (sumZ_move _ _ _ _ _ _ Hk); cbn; pose proof (leases_sum_nonneg j ts); lia].
  constructor.
  - intros i. rewrite Hls. apply (v_refs _ _ I).
  - intros i. rewrite Hls. intros Hi. destruct (v_lease _ _ I i Hi) as [_ [?|?]]; cbn; split; try done; [right; congruence|congruence].
  - intros i [= <-]. cbn. by eapply lookup_lt_Some.
  - intros i [= <-]. cbn. split_and!; [by apply (v_cur _ _ I)|congruence|done].
  - done.
  - flags_tac Hk I; cbn; rewrite ?Hcc, ?Hdr in *; cbn [Z.b2z] in *; flags_lia.
  - intros u Hu. rewrite app_nil_r in Hu. destruct (others_idle s ts k _ RStop u I Hk eq_refl Hu) as [->|E0]; [done|by destruct u].
  - intros i Hi. change (field rt_closes s i = base s + (if isOpen (reloadPublish c old s) (<[k := RStop]> ts ++ []) i then 0 else 1)). rewrite (v_closes _ _ I i Hi).
    unfold isOpen. cbn [sv_current sv_retired sv_cacheClosed reloadPublish set_sv_published]. rewrite !(sumZ_move _ _ _ _ _ _ Hk), Hcand, Hc, Hr, Hpc, Hcc. cbn.
    destruct (decide (i = c)) as [->|Hic]; [rewrite (bool_decide_eq_true_2 (Some c = Some c)), orb_true_r by done; done|].
    rewrite (bool_decide_eq_false_2 (Some c = Some i)), (bool_decide_eq_false_2 (None = Some i)) by congruence. cbn. by rewrite !orb_false_r.
  - pose proof (v_origin _ _ I) as Ho. rewrite Hc, Hr in Ho.
    change (u64 (sv_closedOrigin s + field rt_requests s c + field rt_requests s old) = u64 (sumZ rt_requests (sv_runtimes s))).
    change (u64 (sv_closedOrigin s + field rt_requests s old + 0) = u64 (sumZ rt_requests (sv_runtimes s))) in Ho.
    rewrite <- Ho. unfold field at 1. rewrite Hcd. cbn [rt_requests]. f_equal. lia.
  - rewrite (sumZ_move _ _ _ _ _ _ Hk). cbn [published sumZ sv_current sv_retired reloadPublish set_sv_published]. pose proof (proj1 (v_version _ _ I) old Hc) as Hv. split; intros i [= <-].
    + change (field rt_version s c = u64 (1 + (sumZ published ts - 0 + 1 + 0))). unfold field at 1. rewrite Hcd. cbn. rewrite Hv. unfold u64. rewrite Zplus_mod_idemp_l. f_equal. lia.
    + change (field rt_version s old = u64 (sumZ published ts - 0 + 1 + 0)). rewrite Hv. f_equal. lia.
Qed.

Lemma close_inv s ts (k : nat) : inv (mkSystem s ts) -> ts !! k = Some RClose -> inv (mkSystem (closeRetiredLocked s) (<[k := RUnlock (Ok tt)]> ts ++ [])).
Proof.
  intros [I L] Hk. cbn in I, L. pose proof (holder_bounds _ _ _ Hk) as Hb. pose proof (sums_order ts) as So. cbn in Hb. set (ts' := _ ++ []).
  assert (inv0 s ts') as I1.
  { apply (frame_same s ts); try done; try (intros; unfold ts'; rewrite (sumZ_move _ _ _ _ _ _ Hk); cbn; lia).
    - unfold ts'. flags_tac Hk I; flags_lia.
    - intros u Hu. apply elem_of_move in Hu as [->|[Hu|Hu]]; [by right|by left|set_solver]. }
  destruct (closeRetiredLocked_inv _ _ I1) as [I2 L2]. split; [exact I2|]. intros j Hj. specialize (L2 j Hj). pose proof (sums_order ts'). cbn. lia.
Qed.

Lemma closeProxies_inv s ts (k : nat) : inv (mkSystem s ts) -> ts !! k = Some SClose -> inv (mkSystem (closeProxies s) (<[k := SCache]> ts ++ [])).
Proof.
  intros [I0 _] Hk. cbn in I0. pose proof (holder_bounds _ _ _ Hk) as Hb. pose proof (sums_order ts) as So. cbn in Hb.
  destruct (closeRetiredLocked_inv _ _ I0) as [I L2]. unfold closeProxies. set (s1 := closeRetiredLocked s) in *. clearbody s1. clear I0.
  pose proof (v_flags _ _ I) as Fl. assert (sumZ isHandler ts = 0 /\ sumZ isProducer ts = 0 /\ sumZ reloading ts = 0 /\ sv_cacheClosed s1 = false /\ sumZ pastClose ts = 0 /\ sumZ inShutdown ts = 1) as (Z1 & Z2 & Z3 & Z4 & Z5 & Z6).
  { destruct Fl. rewrite <- v_handlers0, <- v_producers0. destruct (sv_cacheClosed s1), (sv_shutdown s1); cbn in *; try lia. split_and!; try (auto with lia).
    pose proof (sumZ_move pastClose ts k SClose SCache [] Hk) as M1. pose proof (sumZ_move inShutdown ts k SClose SCache [] Hk) as M2.
    pose proof (sums_order (<[k := SCache]> ts ++ [])) as So2. pose proof (sumZ_holder inShutdown (<[k := SHandlers]> ts) k) as X. pose proof (sumZ_list_insert pastClose ts k SClose SHandlers Hk) as M3.
    pose proof (sumZ_list_insert pastProducers ts k SClose SHandlers Hk) as M4. pose proof (sums_order (<[k := SHandlers]> ts)). pose proof (sumZ_list_insert pastHandlers ts k SClose HDone Hk) as M5.
    pose proof (sumZ_list_insert inShutdown ts k SClose HDone Hk) as M6. pose proof (sumZ_list_insert pastClose ts k SClose HDone Hk) as M7. pose proof (sums_order (<[k := HDone]> ts)). cbn in *. lia. }
  assert (sv_retired s1 = None) as Hr by (destruct (sv_retired s1) as [i|] eqn:E; [specialize (L2 i eq_refl); rewrite (no_leases i ts Z1 Z2) in L2; lia|done]).
  assert (forall i, sumZ (isCandidate i) ts = 0) as Hcand by (intros i; pose proof (candidate_sum i ts); lia).
  set (s' := match sv_current s1 with Some i => adjust closeProxy i s1 | None => s1 end).
  assert (sv_current s' = sv_current s1 /\ sv_retired s' = None /\ sv_initErr s' = sv_initErr s1 /\ sv_closedOrigin s' = sv_closedOrigin s1 /\ sv_cacheClosed s' = false /\
    length (sv_runtimes s') = length (sv_runtimes s1) /\ sumZ rt_requests (sv_runtimes s') = sumZ rt_requests (sv_runtimes s1)) as (E1 & E2 & E3 & E4 & E5 & E6 & E7).
  { unfold s'. destruct (sv_current s1) as [c|] eqn:Ec; [|done]. cbn. rewrite length_alter. split_and!; try done.
    destruct (lookup_lt_is_Some_2 _ _ (v_cur _ _ I c Ec)) as [rt Hrt]. rewrite (sumZ_alter _ _ _ _ _ Hrt). cbn. lia. }
  assert (forall f i, field f s' i = if decide (sv_current s1 = Some i) then match sv_runtimes s1 !! i with Some rt => f (closeProxy rt) | None => 0 end else field f s1 i) as Hf.
  { intros f i. unfold s'. destruct (sv_current s1) as [c|] eqn:Ec; [|by rewrite decide_False]. rewrite field_adjust by (by apply (v_cur _ _ I)).
    destruct (decide (c = i)) as [->|]; [by rewrite decide_True|by rewrite decide_False by congruence]. }
  assert (forall f i, (forall rt, f (closeProxy rt) = f rt) -> field f s' i = field f s1 i) as Hfs.
  { intros f i Hg. rewrite Hf. case_decide; [|done]. unfold field. by destruct (sv_runtimes s1 !! i); rewrite ?Hg. }
  unfold inv; cbn [sys_s sys_ts]. split; [|intros j; by rewrite E2].
  constructor.
  - intros i. rewrite Hfs, (sumZ_move _ _ _ _ _ _ Hk), (v_refs _ _ I) by done. cbn. lia.
  - intros i. rewrite (sumZ_move _ _ _ _ _ _ Hk), no_leases by done. cbn. lia.
  - rewrite E1, E6. apply (v_cur _ _ I).
  - by rewrite E2.
  - rewrite E1, E3. apply (v_none _ _ I).
  - assert (sv_reloadMu s' = sv_reloadMu s1 /\ sv_handlers s' = sv_handlers s1 /\ sv_producers s' = sv_producers s1 /\ sv_shutdown s' = sv_shutdown s1 /\ sv_draining s' = sv_draining s1) as (D1 & D2 & D3 & D4 & D5)
      by (unfold s'; by destruct (sv_current s1)).
    flags_tac Hk I; rewrite ?D1, ?D2, ?D3, ?D4, ?D5, ?E5, ?E2 in *; try done; flags_lia.
  - intros u Hu. apply elem_of_move in Hu as [->|[Hu|Hu]]; [done| |set_solver]. destruct u; try done; exfalso.
    all: pose proof (sumZ_elem_le reloading ts _ (fun y _ => proj1 (proj2 (proj2 (proj2 (counts_nonneg y))))) Hu) as X; cbn in X; lia.
  - intros i Hi. rewrite E6 in Hi. rewrite Hf. pose proof (v_closes _ _ I i Hi) as Hcl. unfold isOpen, base in *. rewrite E5, E3, !(sumZ_move _ _ _ _ _ _ Hk). rewrite Hcand, Z4, Z5, Hr in Hcl. rewrite Z5. cbn in *.
    rewrite andb_false_r. destruct (lookup_lt_is_Some_2 _ _ Hi) as [rt Hrt]. unfold field in *. rewrite Hrt in *. cbn.
    change (0 + 0 =? 0) with true in Hcl. destruct (decide (sv_current s1 = Some i)) as [Ei|Ei]; [rewrite (bool_decide_eq_true_2 _ Ei) in Hcl; cbn in Hcl; destruct (sv_initErr s1); lia|]. rewrite (bool_decide_eq_false_2 _ Ei), (bool_decide_eq_false_2 (None = Some i)) in Hcl by done. exact Hcl.
  - rewrite E1, E2, E4, E7, <- (v_origin _ _ I), Hr. do 2 f_equal. f_equal. destruct (sv_current s1) as [c|] eqn:Ec; [|done]. apply (Hfs rt_requests c). done.
  - rewrite (sumZ_move _ _ _ _ _ _ Hk), E1, E2. cbn [published sumZ]. rewrite Z.sub_0_r, !Z.add_0_r. split; [|done]. intros i Hi. rewrite Hfs by done. by apply (v_version _ _ I).
Qed.

Lemma runtime_step_inv y y' : inv y -> sys_step y y' -> inv y'.
Proof.
  intros I. destruct 1 as [s ts t Ht|s ts k t m s' t' p Hk E].
  - destruct I as [I L]. cbn in I, L. assert (forall f, f t = 0 -> sumZ f (ts ++ [t]) = sumZ f ts) as W by (intros f Hf; rewrite sumZ_app; cbn; lia).
    unfold inv; cbn [sys_s sys_ts]. split.
    + assert (forall j, leases j t = 0 /\ isCandidate j t = 0) as Z1 by (by destruct Ht as [-> | [-> | ->]]).
      assert (published t = 0 /\ pastClose t = 0 /\ isHandler t = 0 /\ isProducer t = 0 /\ holdsReload t = 0 /\ inShutdown t = 0 /\ pastHandlers t = 0 /\ pastProducers t = 0 /\ reloading t = 0 /\ reloadOk s t) as (? & ? & ? & ? & ? & ? & ? & ? & ? & ?)
        by (by destruct Ht as [-> | [-> | ->]]).
      apply (frame_same s ts); try done; try (intros j); rewrite ?W; try done; try apply Z1.
      * destruct (v_flags _ _ I). constructor; by rewrite ?W.
      * intros [Hu|Hu]%elem_of_app; [by left|]. apply list_elem_of_singleton in Hu as ->. by right.
    + intros j Hj. specialize (L j Hj). rewrite !W; [done|by destruct Ht as [-> | [-> | ->]]..].
  - destruct (worker t) eqn:Hw; [by apply (step_worker s ts k t m)|].
    destruct t as [| | | | | | | | |old|c old| | |r|r| | | | | |]; try done; try exact (step_flag s ts k _ m s' t' p I Hk Logic.I E); cbn in E.
    + destruct (match m with Fails a b => (a, b) | _ => (None, None) end) as [reject build].
      assert (forall e, inv (mkSystem s (<[k := RUnlock (Err e)]> ts ++ []))) as X.
      { intros e. pose proof (holder_bounds _ _ _ Hk) as Hb. pose proof (sums_order ts) as So. cbn in Hb. destruct I as [I L]. apply (control_same s ts k (RBuild old) (RUnlock (Err e))); try done. flags_tac Hk I; flags_lia. }
      unfold reloadBuild in E. destruct reject as [e|]; [by injection E as <- <- <-|]. destruct build as [e|]; injection E as <- <- <-.
      * apply (build_inv s ts k old); eauto.
      * apply (build_inv s ts k old); eauto.
    + injection E as <- <- <-. by apply publish_inv.
    + injection E as <- <- <-. by apply close_inv.
    + injection E as <- <- <-. by apply closeProxies_inv.
Qed.

Lemma runtime_init_inv files runtime network health : inv (mkSystem (newServer files runtime network health) []).
Proof.
  assert (forall e, inv (mkSystem (mkServer [] None None 0 false false (Some e) 0 0 false false) [])) as X.
  { intros e. split; [|done]. constructor; try done; try (intros; cbn in *; lia). intros t Ht. by apply not_elem_of_nil in Ht. }
  unfold newServer. destruct files; [apply X|]. destruct runtime; [apply X|]. split; [|done]. constructor; try done.
  - by intros [|i].
  - intros i [= <-]. cbn. lia.
  - intros t Ht. by apply not_elem_of_nil in Ht.
  - intros [|i] Hi; [|cbn in Hi; lia]. unfold field, base, isOpen. cbn. by destruct network, health.
  - split; [|done]. by intros i [= <-].
Qed.

Lemma runtime_reachable_inv files runtime network health y : rtc sys_step (mkSystem (newServer files runtime network health) []) y -> inv y.
Proof. intros Hr. pose proof (runtime_init_inv files runtime network health) as I. induction Hr as [|y1 y2 y3 Hs Hr IH]; [done|]. eauto using runtime_step_inv. Qed.

(** ** Properties *)

(** C16: in every interleaving of requests, detached producers, reloads and
    shutdowns, the count of a runtime is the number of leases held on it, and
    a runtime that is held is published and its proxy has not been closed;
    without an initialisation error every proxy is closed at most once, and
    only the current runtime, the retired one and a candidate under
    construction are open; a retired runtime without leases is gone once its
    reload has ended; the cache is closed only after every request and
    producer has ended and every proxy is closed; the version counts the
    successful reloads; and the origin statistics account for every request
    to the origin across reloads. *)
Theorem runtime_lifecycle files runtime network health y :
  rtc sys_step (mkSystem (newServer files runtime network health) []) y ->
  let s := sys_s y in let ts := sys_ts y in
  (forall i rt, sv_runtimes s !! i = Some rt ->
     rt_refs rt = sumZ (leases i) ts /\
     (0 < rt_refs rt -> rt_closes rt = 0 /\ (sv_current s = Some i \/ sv_retired s = Some i)) /\
     (sv_initErr s = None -> rt_closes rt = 1 \/ rt_closes rt = 0 /\ (sv_current s = Some i \/ sv_retired s = Some i \/ exists old, RPublish i old ∈ ts))) /\
  (forall i, sv_retired s = Some i -> sumZ retiring ts = 0 -> exists rt, sv_runtimes s !! i = Some rt /\ 0 < rt_refs rt) /\
  (sv_cacheClosed s = true -> sumZ isHandler ts = 0 /\ sumZ isProducer ts = 0 /\ (forall i rt, sv_runtimes s !! i = Some rt -> 1 <= rt_closes rt)) /\
  (forall i rt, sv_current s = Some i -> sv_runtimes s !! i = Some rt -> rt_version rt = u64 (1 + sumZ published ts)) /\
  statsOrigin s = u64 (sumZ rt_requests (sv_runtimes s)).
Proof.
  intros Hr. destruct (runtime_reachable_inv _ _ _ _ _ Hr) as [I L]. cbn zeta. set (s := sys_s y) in *. set (ts := sys_ts y) in *. clearbody s ts. clear Hr.
  pose proof (v_flags _ _ I) as Fl. pose proof (sums_order ts) as So.
  assert (forall i rt, sv_runtimes s !! i = Some rt -> rt_refs rt = sumZ (leases i) ts /\ rt_closes rt = base s + (if isOpen s ts i then 0 else 1)) as Hrt.
  { intros i rt Hi. pose proof (v_refs _ _ I i) as H1. pose proof (v_closes _ _ I i ltac:(by eapply lookup_lt_Some)) as H2. unfold field in *. by rewrite Hi in *. }
  assert (0 < sumZ pastClose ts + Z.b2z (sv_cacheClosed s) -> sumZ isHandler ts = 0 /\ sumZ isProducer ts = 0) as Hfin.
  { intros Hp. destruct Fl. rewrite <- v_handlers0, <- v_producers0. destruct (sv_cacheClosed s); cbn in *; split; (apply v_stageH0 || apply v_stageP0); lia. }
  assert (0 <= sumZ pastClose ts + Z.b2z (sv_cacheClosed s)) as Hge by (destruct (sv_cacheClosed s); cbn; lia).
  split_and!.
  - intros i rt Hi. destruct (Hrt i rt Hi) as [H1 H2]. split_and!; [done| |].
    + intros Hp. destruct (v_lease _ _ I i ltac:(lia)) as [He Hcr]. split; [|done]. rewrite H2. unfold base. rewrite He. unfold isOpen.
      destruct (decide (0 < sumZ pastClose ts + Z.b2z (sv_cacheClosed s))) as [Hq|Hq]; [destruct (Hfin Hq) as [Z1 Z2]; rewrite (no_leases i ts Z1 Z2) in H1; lia|].
      replace (_ =? 0) with true by lia. destruct Hcr as [Hc|Hc]; rewrite (bool_decide_eq_true_2 _ Hc); cbn; by rewrite ?orb_true_r.
    + intros He. rewrite H2. unfold base. rewrite He. unfold isOpen. destruct (_ && _) eqn:E; [right|by left]. split; [done|]. b2p.
      match goal with H : (_ || _) = true |- _ => apply orb_true_iff in H as [[H|H]%orb_true_iff|H] end; b2p; [auto|auto|]. right. right.
      destruct (decide (Exists (fun t => 0 < isCandidate i t) ts)) as [Hex|Hno].
      * apply Exists_exists in Hex as (t & Ht & Hp). destruct t; cbn in Hp; try lia. case_decide; [subst|lia]. eauto.
      * exfalso. rewrite (sumZ_ext _ (fun _ => 0)) in H; [|intros t Ht; pose proof (isCandidate_nonneg i t); destruct (decide (0 < isCandidate i t)); [exfalso; apply Hno, Exists_exists; eauto|lia]].
        assert (sumZ (fun _ : pc => 0) ts = 0) as X by (clear; by induction ts). lia.
  - intros i Hi Hz. specialize (L i Hi). destruct (v_ret _ _ I i Hi) as (Hlt & _). destruct (lookup_lt_is_Some_2 _ _ Hlt) as [rt Hr]. exists rt. split; [done|]. rewrite (proj1 (Hrt i rt Hr)). lia.
  - intros Hc. rewrite Hc in *. cbn in *. destruct (Hfin ltac:(lia)) as [Z1 Z2]. split_and!; [done|done|]. intros i rt Hi. rewrite (proj2 (Hrt i rt Hi)). unfold isOpen, base. rewrite Hc.
    replace (sumZ pastClose ts + Z.b2z true =? 0) with false by (cbn; lia). rewrite andb_false_r. destruct (sv_initErr s); lia.
  - intros i rt Hc Hi. pose proof (proj1 (v_version _ _ I) i Hc) as Hv. unfold field in Hv. by rewrite Hi in Hv.
  - rewrite <- (v_origin _ _ I). unfold statsOrigin, u64. by rewrite Zplus_mod_idemp_l.
Qed.

(** A reload is published while a request still runs on the old runtime. *)
Abbreviation reloaded := (mkSystem
  (mkServer [mkRuntime 1 1 0 0; mkRuntime 2 0 0 0] (Some 1%nat) (Some 0%nat) 0 false false None 1 0 false false)
  [HRun 0 0; RDone (Ok tt)]).

Ltac run k t := eapply rtc_l; [apply (sys_run _ _ k t Leave); reflexivity|cbn].

Lemma reloaded_reachable : rtc sys_step (mkSystem (newServer None None None None) []) reloaded.
Proof.
  eapply rtc_l; [apply (sys_call _ _ HEnter); by left|cbn]. run 0%nat HEnter.
  eapply rtc_l; [apply (sys_call _ _ REnter); by right; left|cbn]. run 1%nat REnter. run 1%nat RLocked. run 1%nat (RBuild 0). run 1%nat (RPublish 1 0).
  run 1%nat RStop. run 1%nat RClose. run 1%nat (RUnlock (Ok tt)). apply rtc_refl.
Qed.

Lemma runtime_lifecycle_witness : rt_closes (mkRuntime 1 1 0 0) = 0 /\ rt_version (mkRuntime 2 0 0 0) = u64 (1 + sumZ published (sys_ts reloaded)).
Proof.
  destruct (runtime_lifecycle None None None None reloaded reloaded_reachable) as (H1 & _ & _ & H2 & _). split.
  - destruct (H1 0%nat (mkRuntime 1 1 0 0) eq_refl) as (_ & H & _). apply H. reflexivity.
  - apply (H2 1%nat); reflexivity.
Defined.
