(* ===== verification/Ownership.v ===== *)
(** * Ownership of stripe files

    [cache/stripe_owner.go]: a process locks the inode of a cache file once
    and keeps the spans of its open stripes in a table; several processes
    open, close and crash in any order over the locks of the kernel. *)

From S2P Require Import Prelude.

(** [stripeInode] *)
Abbreviation inode := (Z * Z)%type.

(** What the table needs of a [*Stripe]: the pointer and the span. *)
Record span : Type := mkSpan { so_ptr : Z; so_Skip : Z; so_Len : Z }.
#[global] Instance span_eq_dec : EqDecision span.
Proof. solve_decision. Defined.

(** [stripeOwners.files]: the stripes of every locked inode; the duplicated
    descriptor that carries the lock is in [w_locks] below. *)
Abbreviation owners := (gmap inode (list span)).

Definition overlaps (s other : span) : bool :=
  (so_Skip s <? i64 (so_Skip other + so_Len other)) && (so_Skip other <? i64 (so_Skip s + so_Len s)).

Definition errOverlap : error := Errorf "overlapping cache stripe already open".
Definition errOwned : error := Errorf "cache file already owned".

(** [acquireOwnership]: [stat] and [dup] are the errors of [Stat] and
    [Dup], [held] says that another open file holds the lock; the last
    component tells whether the lock was taken. *)
Definition acquireOwnership (stat dup : option error) (held : bool) (key : inode) (s : span) (files : owners) : owners * result unit * bool :=
  match stat with
  | Some e => (files, Err e, false)
  | None =>
      match files !! key with
      | Some stripes =>
          if existsb (overlaps s) stripes then (files, Err errOverlap, false)
          else (<[key := s :: stripes]> files, Ok tt, false)
      | None =>
          match dup with
          | Some e => (files, Err e, false)
          | None => if held then (files, Err errOwned, false) else (<[key := [s]]> files, Ok tt, true)
          end
      end
  end.

(** [releaseOwnership]; the last component tells whether the descriptor that
    carries the lock was closed. *)
Definition releaseOwnership (key : inode) (s : span) (files : owners) : owners * bool :=
  match files !! key with
  | None => (files, false)
  | Some stripes =>
      let stripes := filter (fun o => o <> s) stripes in
      match stripes with
      | [] => (delete key files, true)
      | _ => (<[key := stripes]> files, false)
      end
  end.

(** ** Processes over one kernel *)

(** The inode locks with the process that holds them, and the table of each
    process. *)
Record world : Type := mkWorld { w_locks : gmap inode nat; w_tables : list owners }.

(** The bounds [Stripe.Init] accepts. *)
Definition validSpan (s : span) : Prop := 0 <= so_Skip s /\ 32768 <= so_Len s /\ so_Skip s + so_Len s < 2 ^ 63.

Inductive w_step : world -> world -> Prop :=
  | w_start locks tables : w_step (mkWorld locks tables) (mkWorld locks (tables ++ [∅]))
  | w_open locks tables p files key s stat dup files' r took :
      tables !! p = Some files -> validSpan s ->
      acquireOwnership stat dup (bool_decide (is_Some (locks !! key))) key s files = (files', r, took) ->
      w_step (mkWorld locks tables) (mkWorld (if took then <[key := p]> locks else locks) (<[p := files']> tables))
  | w_close locks tables p files key s stripes files' closed :
      tables !! p = Some files -> files !! key = Some stripes -> s ∈ stripes ->
      releaseOwnership key s files = (files', closed) ->
      w_step (mkWorld locks tables) (mkWorld (if closed then delete key locks else locks) (<[p := files']> tables))
  | w_crash locks tables p files :
      tables !! p = Some files ->
      w_step (mkWorld locks tables) (mkWorld (filter (fun kv => kv.2 <> p) locks) (<[p := ∅]> tables)).

Definition disjoint_spans (a b : span) : Prop := so_Skip a + so_Len a <= so_Skip b \/ so_Skip b + so_Len b <= so_Skip a.

Fixpoint pairwise (l : list span) : Prop :=
  match l with [] => True | s :: l => Forall (disjoint_spans s) l /\ pairwise l end.

(** The lock of an inode belongs to the process whose table has the inode,
    and the stripes in a table are disjoint. *)
Record owned (w : world) : Prop := mkOwned {
  o_lock : forall key p, w_locks w !! key = Some p <-> exists files, w_tables w !! p = Some files /\ is_Some (files !! key);
  o_spans : forall p files key l, w_tables w !! p = Some files -> files !! key = Some l -> l <> [] /\ pairwise l /\ Forall validSpan l }.

Lemma overlaps_disjoint s o : validSpan s -> validSpan o -> overlaps s o = false -> disjoint_spans s o.
Proof.
  intros (? & ? & ?) (? & ? & ?). unfold overlaps, disjoint_spans. rewrite !i64_small by (unfold fits_i64; lia).
  intros [Ho|Ho]%andb_false_iff; b2p; lia.
Qed.

Lemma pairwise_filter (P : span -> Prop) `{HD : forall x, Decision (P x)} l : pairwise l -> pairwise (filter P l).
Proof.
  induction l as [|s l IH]; [done|]. cbn [pairwise]. intros [Hf Hp]. rewrite filter_cons. case_decide; [|auto].
  split; [|auto]. apply Forall_forall. intros x [_ Hx]%list_elem_of_filter. rewrite Forall_forall in Hf. auto.
Qed.

Lemma pairwise_lookup l i j a b : pairwise l -> l !! i = Some a -> l !! j = Some b -> i <> j -> disjoint_spans a b.
Proof.
  revert i j. induction l as [|s l IH]; intros [|i] [|j] Hp Ha Hb Hne; try done; cbn in *; destruct Hp as [Hf Hp].
  - injection Ha as ->. rewrite Forall_forall in Hf. apply Hf. by eapply list_elem_of_lookup_2.
  - injection Hb as ->. rewrite Forall_forall in Hf. unfold disjoint_spans. destruct (Hf a); [by eapply list_elem_of_lookup_2|lia|lia].
  - apply (IH i j); auto.
Qed.

(** Replacing the table of one process: the lock and the spans of the key
    are what has to be shown. *)
Lemma owned_update locks tables p files key locks' files' : owned (mkWorld locks tables) -> tables !! p = Some files ->
  (forall k, k <> key -> files' !! k = files !! k) -> (forall k, k <> key -> locks' !! k = locks !! k) ->
  (forall q, locks' !! key = Some q <-> if decide (q = p) then is_Some (files' !! key) else locks !! key = Some q) ->
  (forall l, files' !! key = Some l -> l <> [] /\ pairwise l /\ Forall validSpan l) ->
  owned (mkWorld locks' (<[p := files']> tables)).
Proof.
  intros [Ol Os] Hp Hf Hl Hk Hs. cbn in *. constructor; cbn.
  - intros k q. destruct (decide (q = p)) as [->|Hq].
    + rewrite list_lookup_insert_eq by (by eapply lookup_lt_Some). destruct (decide (k = key)) as [->|Hne].
      * rewrite Hk, decide_True by done. naive_solver.
      * rewrite Hl, Ol, Hp by done. split; intros (g & [= <-] & Hg); eexists; (split; [done|]); [by rewrite Hf|by rewrite <- Hf].
    + rewrite list_lookup_insert_ne by done. destruct (decide (k = key)) as [->|Hne]; [by rewrite Hk, decide_False|by rewrite Hl].
  - intros q g k l Hq Hg. destruct (decide (q = p)) as [->|Hne].
    + rewrite list_lookup_insert_eq in Hq by (by eapply lookup_lt_Some). injection Hq as <-. destruct (decide (k = key)) as [->|Hk']; [auto|]. rewrite Hf in Hg by done. eauto.
    + rewrite list_lookup_insert_ne in Hq by done. eauto.
Qed.

Lemma owned_step w w' : owned w -> w_step w w' -> owned w'.
Proof.
  intros O St. destruct St as [locks tables|locks tables p files key s stat dup files' r took Hp Hv E|locks tables p files key s stripes files' closed Hp Hk Hs E|locks tables p files Hp]; pose proof O as [Ol Os]; cbn in *.
  - constructor; cbn.
    + intros key p. rewrite Ol. split; intros (g & Hg & Hk).
      * exists g. split; [by apply lookup_app_l_Some|done].
      * apply lookup_app_Some in Hg as [Hg|[_ Hg]]; [eauto|]. apply list_lookup_singleton_Some in Hg as [_ <-]. by rewrite lookup_empty in Hk; destruct Hk.
    + intros p g key l Hg Hk. apply lookup_app_Some in Hg as [Hg|[_ Hg]]; [eauto|]. apply list_lookup_singleton_Some in Hg as [_ <-]. by rewrite lookup_empty in Hk.
  - unfold acquireOwnership in E. assert (owned (mkWorld locks (<[p := files]> tables))) as Same by (rewrite list_insert_id; done).
    destruct stat; [by simplify_eq|]. destruct (files !! key) as [stripes|] eqn:Ek.
    + destruct (existsb _ _) eqn:Eo; simplify_eq; [done|]. destruct (Os p files key stripes Hp Ek) as (_ & Hw & Hval).
      apply (owned_update locks tables p files key); try done.
      * intros k Hne. by rewrite lookup_insert_ne.
      * intros q. rewrite lookup_insert_eq. destruct (decide (q = p)) as [->|]; [|done]. rewrite Ol. split; [eauto|]. intros _. exists files. by rewrite Ek.
      * intros l. rewrite lookup_insert_eq. intros [= <-]. split_and!; [done| |by constructor]. split; [|done]. apply Forall_forall. intros o Ho. rewrite Forall_forall in Hval.
        apply overlaps_disjoint; [done|auto|]. destruct (overlaps s o) eqn:E; [|done]. assert (existsb (overlaps s) stripes = true); [apply existsb_exists; exists o; by rewrite <- list_elem_of_In|congruence].
    + destruct dup; [by simplify_eq|]. destruct (bool_decide _) eqn:Eh; simplify_eq; [done|]. b2p.
      apply (owned_update locks tables p files key); try done.
      * intros k Hne. by rewrite lookup_insert_ne.
      * intros k Hne. by rewrite lookup_insert_ne.
      * intros q. rewrite !lookup_insert_eq. destruct (decide (q = p)) as [->|Hq]; [split; [by eexists|done]|]. split; [congruence|]. intros Hl. destruct Eh. by rewrite Hl.
      * intros l. rewrite lookup_insert_eq. intros [= <-]. cbn. by rewrite Forall_nil, Forall_singleton.
  - unfold releaseOwnership in E. rewrite Hk in E. destruct (Os p files key stripes Hp Hk) as (_ & Hw & Hval).
    assert (locks !! key = Some p) as Hlk by (rewrite Ol; exists files; by rewrite Hk).
    destruct (filter _ stripes) as [|x rest] eqn:Ef; simplify_eq.
    + apply (owned_update locks tables p files key); try done.
      * intros k Hne. by rewrite lookup_delete_ne.
      * intros k Hne. by rewrite lookup_delete_ne.
      * intros q. rewrite !lookup_delete_eq. destruct (decide (q = p)) as [->|Hq]; [by rewrite is_Some_alt|]. split; [done|congruence].
      * intros l. by rewrite lookup_delete_eq.
    + apply (owned_update locks tables p files key); try done.
      * intros k Hne. by rewrite lookup_insert_ne.
      * intros q. rewrite lookup_insert_eq, Hlk. destruct (decide (q = p)) as [->|Hq]; [split; [by eexists|done]|done].
      * intros l. rewrite lookup_insert_eq, <- Ef. intros [= <-]. split_and!; [by rewrite Ef|by apply pairwise_filter|rewrite Forall_forall in *; intros x' [_ Hx]%list_elem_of_filter; auto].
  - constructor; cbn.
    + intros key q. rewrite map_lookup_filter_Some, Ol. cbn. destruct (decide (q = p)) as [->|Hq].
      * rewrite list_lookup_insert_eq by (by eapply lookup_lt_Some). split; [naive_solver|]. intros (g & [= <-] & Hg). rewrite lookup_empty in Hg. by destruct Hg.
      * rewrite list_lookup_insert_ne by done. naive_solver.
    + intros q g key l Hq Hg. destruct (decide (q = p)) as [->|Hne]; [|rewrite list_lookup_insert_ne in Hq by done; eauto].
      rewrite list_lookup_insert_eq in Hq by (by eapply lookup_lt_Some). injection Hq as <-. by rewrite lookup_empty in Hg.
Qed.

Lemma owned_reachable w : rtc w_step (mkWorld ∅ []) w -> owned w.
Proof.
  intros Hr. assert (owned (mkWorld ∅ [])) as O by (constructor; cbn; [intros key p; rewrite lookup_empty; naive_solver|done]).
  induction Hr as [|w1 w2 w3 Hs Hr IH]; [done|]. eauto using owned_step.
Qed.

(** ** Properties *)

(** C29: in every interleaving of processes that start, open and close
    stripes and crash, two stripes that are open on the same file belong to
    the same process and cover disjoint bytes; a process that has no stripe
    on a file another process uses is refused; and a file without open
    stripes is not locked, so that any process can open a stripe on it. *)
Theorem ownership_exclusive w :
  rtc w_step (mkWorld ∅ []) w ->
  (forall p q files files' key l l' i j s s',
     w_tables w !! p = Some files -> w_tables w !! q = Some files' -> files !! key = Some l -> files' !! key = Some l' ->
     l !! i = Some s -> l' !! j = Some s' -> p = q /\ (i <> j -> disjoint_spans s s')) /\
  (forall p files key s r took files', w_tables w !! p = Some files -> files !! key = None ->
     acquireOwnership None None (bool_decide (is_Some (w_locks w !! key))) key s files = (files', r, took) ->
     (r = Ok tt <-> forall q g, w_tables w !! q = Some g -> g !! key = None) /\
     (r = Ok tt -> files' = <[key := [s]]> files /\ took = true) /\ (r <> Ok tt -> files' = files /\ took = false)).
Proof.
  intros Hr. destruct (owned_reachable w Hr) as [Ol Os]. split.
  - intros p q files files' key l l' i j s s' Hp Hq Hl Hl' Hi Hj.
    assert (p = q) as <-.
    { assert (w_locks w !! key = Some p) as H1 by (rewrite Ol; exists files; by rewrite Hl). assert (w_locks w !! key = Some q) as H2 by (rewrite Ol; exists files'; by rewrite Hl'). congruence. }
    split; [done|]. intros Hne. assert (files' = files) as -> by congruence. assert (l' = l) as -> by congruence. destruct (Os p files key l Hp Hl) as (_ & Hw & _). by apply (pairwise_lookup l i j).
  - intros p files key s r took files' Hp Hk E. unfold acquireOwnership in E. rewrite Hk in E. case_bool_decide as Hh; simplify_eq.
    + split_and!; try done. split; [done|]. intros Hn. destruct Hh as [q Hq]. apply Ol in Hq as (g & Hg & Hs). rewrite (Hn q g Hg) in Hs. by destruct Hs.
    + split_and!; try done. split; [|done]. intros _ q g Hg. destruct (g !! key) eqn:E; [|done]. destruct Hh. exists q. apply Ol. exists g. by rewrite E.
Qed.

(** Two processes; the first has two stripes open on the file. *)
Abbreviation twoStripes := (mkWorld {[ (8, 1) := 0%nat ]} [{[ (8, 1) := [mkSpan 2 65536 65536; mkSpan 1 0 65536] ]}; ∅]).

Lemma twoStripes_reachable : rtc w_step (mkWorld ∅ []) twoStripes.
Proof.
  eapply rtc_l; [apply w_start|]. eapply rtc_l; [apply w_start|].
  eapply rtc_l; [eapply (w_open _ _ 0%nat _ (8, 1) (mkSpan 1 0 65536) None None); [reflexivity|repeat split; cbn; lia|reflexivity]|].
  eapply rtc_l; [eapply (w_open _ _ 0%nat _ (8, 1) (mkSpan 2 65536 65536) None None); [reflexivity|repeat split; cbn; lia|vm_compute; reflexivity]|].
  vm_compute. apply rtc_refl.
Qed.

Lemma ownership_exclusive_witness : disjoint_spans (mkSpan 2 65536 65536) (mkSpan 1 0 65536).
Proof.
  destruct (ownership_exclusive twoStripes twoStripes_reachable) as [H _].
  apply (H 0%nat 0%nat _ _ (8, 1) _ _ 0%nat 1%nat _ _ eq_refl eq_refl eq_refl eq_refl eq_refl eq_refl). discriminate.
Defined.
