(* ===== verification/Config.v ===== *)
(** * Configuration

    [config/]: the records file, the table of integer settings with their
    defaults and bounds, validation, and the memory reservations derived from
    it; [newRuntime] of [server/runtime.go] turns a configuration into
    limiters.  The parsers [url.Parse], [url.ParseRequestURI] and
    [netip.ParsePrefix] are parameters of which nothing is assumed. *)

From S2P Require Import Prelude HttpInfo HttpText Budget.

(** ** The settings *)

Inductive intField : Type :=
  | MaxClientConnections | MaxRequests | MaxQueuedRequests | MaxOriginRequests | MaxOriginQueuedRequests | MaxOriginConnections
  | MaxCacheWriters | MaxQueuedCacheWriters | CacheWriteBufferBytes | MaxCacheObjectBytes
  | RequestHeaderTimeout | ConnectTimeout | TLSHandshakeTimeout | ResponseHeaderTimeout | CacheWriteTimeout | QueueTimeout | ShutdownTimeout
  | KeepAliveTimeout | TransactionTimeoutIn | TransactionTimeoutOut
  | RangeBlockBytes | SharedFillPublicStatic | SharedFillMaxTasks | SharedFillMaxWaiters | SharedFillTimeout
  | HealthCheckInterval | HealthCheckTimeout | HealthCheckFailures | HealthCheckSuccesses
  | RAMCacheBytes | ServerPort.
#[global] Instance intField_eq_dec : EqDecision intField.
Proof. solve_decision. Defined.

(** [Config]; its [int] fields are one map. *)
Record Config : Type := mkConfig {
  c_int : intField -> Z; RAMCacheAlgorithm : bytes; resourceDefaults : bool; ConfigDir : bytes;
  TLSCertFile : bytes; TLSKeyFile : bytes; UpstreamCAFile : bytes; HealthCheckPath : bytes; PurgeToken : bytes;
  UpstreamTargets : list bytes; UpstreamAlgo : bytes; TrustedProxies : list bytes;
  LogfileDir : bytes; AccessLogFilename : bytes; ErrorLogFilename : bytes }.

Definition setInt (f : intField) (v : Z) (c : Config) : Config :=
  mkConfig (fun g => if decide (g = f) then v else c_int c g) (RAMCacheAlgorithm c) (resourceDefaults c) (ConfigDir c) (TLSCertFile c) (TLSKeyFile c) (UpstreamCAFile c)
    (HealthCheckPath c) (PurgeToken c) (UpstreamTargets c) (UpstreamAlgo c) (TrustedProxies c) (LogfileDir c) (AccessLogFilename c) (ErrorLogFilename c).
Definition setRAMCacheAlgorithm (v : bytes) (c : Config) : Config :=
  mkConfig (c_int c) v (resourceDefaults c) (ConfigDir c) (TLSCertFile c) (TLSKeyFile c) (UpstreamCAFile c)
    (HealthCheckPath c) (PurgeToken c) (UpstreamTargets c) (UpstreamAlgo c) (TrustedProxies c) (LogfileDir c) (AccessLogFilename c) (ErrorLogFilename c).
Definition setResourceDefaults (c : Config) : Config :=
  mkConfig (c_int c) (RAMCacheAlgorithm c) true (ConfigDir c) (TLSCertFile c) (TLSKeyFile c) (UpstreamCAFile c)
    (HealthCheckPath c) (PurgeToken c) (UpstreamTargets c) (UpstreamAlgo c) (TrustedProxies c) (LogfileDir c) (AccessLogFilename c) (ErrorLogFilename c).
Definition setNetwork (cert key ca path : bytes) (c : Config) : Config :=
  mkConfig (c_int c) (RAMCacheAlgorithm c) (resourceDefaults c) (ConfigDir c) cert key ca
    path (PurgeToken c) (UpstreamTargets c) (UpstreamAlgo c) (TrustedProxies c) (LogfileDir c) (AccessLogFilename c) (ErrorLogFilename c).
Definition setUpstream (token : bytes) (targets : list bytes) (algo : bytes) (trusted : list bytes) (c : Config) : Config :=
  mkConfig (c_int c) (RAMCacheAlgorithm c) (resourceDefaults c) (ConfigDir c) (TLSCertFile c) (TLSKeyFile c) (UpstreamCAFile c)
    (HealthCheckPath c) token targets algo trusted (LogfileDir c) (AccessLogFilename c) (ErrorLogFilename c).
Definition setDirs (dir logs access errors : bytes) (c : Config) : Config :=
  mkConfig (c_int c) (RAMCacheAlgorithm c) (resourceDefaults c) dir (TLSCertFile c) (TLSKeyFile c) (UpstreamCAFile c)
    (HealthCheckPath c) (PurgeToken c) (UpstreamTargets c) (UpstreamAlgo c) (TrustedProxies c) logs access errors.

(** A row of the tables: name, field, fallback, minimum, maximum. *)
Abbreviation row := (string * intField * Z * Z * Z)%type.
Definition r_field (r : row) : intField := let '(_, f, _, _, _) := r in f.

Definition coalescingFields : list row := [
  ("cache.range_block_bytes", RangeBlockBytes, 2 ^ 20, 64 * 2 ^ 10, 8 * 2 ^ 20);
  ("cache.shared_fill_public_static", SharedFillPublicStatic, 0, 0, 1);
  ("cache.shared_fill_max_tasks", SharedFillMaxTasks, 16, 1, 1000000);
  ("cache.shared_fill_max_waiters", SharedFillMaxWaiters, 256, 1, 1000000);
  ("cache.shared_fill_timeout", SharedFillTimeout, 300, 1, 86400) ]%string.

Definition resourceFields : list row := [
  ("http.max_client_connections", MaxClientConnections, 512, 1, 1000000);
  ("http.max_requests", MaxRequests, 256, 1, 1000000);
  ("http.max_queued_requests", MaxQueuedRequests, 64, 0, 1000000);
  ("http.max_origin_requests", MaxOriginRequests, 64, 1, 1000000);
  ("http.max_origin_queued_requests", MaxOriginQueuedRequests, 32, 0, 1000000);
  ("http.max_origin_connections", MaxOriginConnections, 64, 1, 1000000);
  ("cache.max_writers", MaxCacheWriters, 16, 1, 1000000);
  ("cache.max_queued_writers", MaxQueuedCacheWriters, 16, 0, 1000000);
  ("cache.write_buffer_bytes", CacheWriteBufferBytes, 128 * 2 ^ 20, 1, 2 ^ 40);
  ("cache.max_object_bytes", MaxCacheObjectBytes, 64 * 2 ^ 20, 1, 2 ^ 40);
  ("http.request_header_timeout", RequestHeaderTimeout, 10, 1, 86400);
  ("http.connect_timeout", ConnectTimeout, 5, 1, 86400);
  ("http.tls_handshake_timeout", TLSHandshakeTimeout, 5, 1, 86400);
  ("http.response_header_timeout", ResponseHeaderTimeout, 30, 1, 86400);
  ("cache.write_timeout", CacheWriteTimeout, 5, 1, 86400);
  ("http.queue_timeout", QueueTimeout, 1, 1, 86400);
  ("http.shutdown_timeout", ShutdownTimeout, 30, 1, 86400);
  ("http.keep_alive_no_activity_timeout_in", KeepAliveTimeout, 120, 1, 86400);
  ("http.transaction_no_activity_timeout_in", TransactionTimeoutIn, 30, 1, 86400);
  ("http.transaction_no_activity_timeout_out", TransactionTimeoutOut, 30, 1, 86400) ]%string ++ coalescingFields.

Definition networkFields : list row := [
  ("interval", HealthCheckInterval, 0, 0, 86400);
  ("timeout", HealthCheckTimeout, 3, 1, 60);
  ("failures", HealthCheckFailures, 2, 1, 1000);
  ("successes", HealthCheckSuccesses, 2, 1, 1000) ]%string.

(** The loop of the defaults over a table. *)
Definition fillDefaults (rows : list row) (c : Config) : Config :=
  foldl (fun c r => let '(_, f, fallback, _, _) := r in if c_int c f =? 0 then setInt f fallback c else c) c rows.

Definition networkDefaults (c : Config) : Config :=
  let c := fillDefaults networkFields c in
  if bool_decide (HealthCheckPath c = []) then setNetwork (TLSCertFile c) (TLSKeyFile c) (UpstreamCAFile c) (str "/") c else c.

Definition WithDefaults (c : Config) : Config :=
  if resourceDefaults c then c
  else
    let c := networkDefaults (setResourceDefaults c) in
    let c := if bool_decide (RAMCacheAlgorithm c = [])
             then let c := setRAMCacheAlgorithm (str "otter") c in if c_int c RAMCacheBytes =? 0 then setInt RAMCacheBytes (10 * 2 ^ 20) c else c
             else c in
    fillDefaults resourceFields c.

(** ** Reservations *)

Definition RangeReaderReservation (c : Config) : Z := i64 (c_int c RangeBlockBytes + 2 * 2 ^ 20 + 64 * 2 ^ 10).
Definition CacheWriterReservation (c : Config) : Z :=
  i64 (6 * 2 ^ 20 + (c_int c MaxCacheObjectBytes `quot` 2 ^ 20 + 2) * 128 + c_int c RangeBlockBytes + RangeReaderReservation c).

(** ** Validation *)

(** [balancer.Build]: the registered algorithms. *)
Definition algorithmKnown (algo : bytes) : bool := bool_decide (algo = str "consistent-hash") || bool_decide (algo = str "round-robin").

(** The error of the first row out of bounds. *)
Fixpoint checkRows (prefix : string) (rows : list row) (c : Config) : result unit :=
  match rows with
  | [] => Ok tt
  | (name, f, _, lo, hi) :: rows =>
      if (c_int c f <? lo) || (hi <? c_int c f) then Err (Errorf (prefix ++ name ++ " out of bounds")%string) else checkRows prefix rows c
  end.

(** What validation looks at in a parsed URL. *)
Record URL : Type := mkURL { u_Scheme : bytes; u_Hostname : bytes; u_Port : bytes; u_User : bool; u_Fragment : bytes }.
(** A parsed request URI: [IsAbs], [Host] and [Fragment]. *)
Record RequestURI : Type := mkURI { ri_IsAbs : bool; ri_Host : bytes; ri_Fragment : bytes }.

(** [strconv.ParseUint s 10 16]. *)
Definition ParsePort (s : bytes) : option Z :=
  if bool_decide (s <> []) && forallb isDigit s && (decimalValue s <? 2 ^ 16) then Some (decimalValue s) else None.

(** The checks of a parsed target, here and in [NewHTTPProxy]. *)
Definition checkTarget (u : URL) : result unit :=
  if (negb (bool_decide (u_Scheme u = str "http")) && negb (bool_decide (u_Scheme u = str "https"))) || bool_decide (u_Hostname u = []) || u_User u || negb (bool_decide (u_Fragment u = []))
  then Err (Errorf "invalid upstream URL")
  else if bool_decide (u_Port u = []) then Ok tt
  else match ParsePort (u_Port u) with
       | Some n => guarde (negb (n =? 0)) (Errorf "upstream TCP port must be between 1 and 65535")
       | None => Err (Errorf "upstream TCP port must be between 1 and 65535")
       end.

Section Validation.
Context (Parse : bytes -> option URL) (ParseRequestURI : bytes -> option RequestURI) (ParsePrefix : bytes -> bool).

Definition validTarget (raw : bytes) : result unit :=
  match Parse raw with
  | None => Err (Errorf "invalid upstream URL")
  | Some u => checkTarget u
  end.

Fixpoint firstError {A} (f : A -> result unit) (l : list A) : result unit :=
  match l with [] => Ok tt | x :: l => _ ← f x; firstError f l end.

Definition validateNetwork (c : Config) : result unit :=
  _ ← guarde (Bool.eqb (bool_decide (TLSCertFile c = [])) (bool_decide (TLSKeyFile c = []))) (Errorf "TLS certificate and key must both be configured");
  _ ← checkRows "proxy.config.http.health." networkFields c;
  match ParseRequestURI (HealthCheckPath c) with
  | None => Err (Errorf "health path must be an absolute request path")
  | Some u => guarde (negb (ri_IsAbs u) && bool_decide (ri_Host u = []) && bool_decide (head (HealthCheckPath c) = Some 47) && bool_decide (ri_Fragment u = []))
                (Errorf "health path must be an absolute request path")
  end.

Definition validateRAM (c : Config) : result unit :=
  _ ← guarde (bool_decide (RAMCacheAlgorithm c = str "otter") || bool_decide (RAMCacheAlgorithm c = str "s3-fifo")) (Errorf "proxy.config.cache.ram_cache_algorithm must be otter or s3-fifo");
  guarde ((0 <=? c_int c RAMCacheBytes) && (c_int c RAMCacheBytes <=? 2 ^ 40)) (Errorf "proxy.config.cache.ram_cache_bytes must be between 0 and 1099511627776").

Definition Validate (c : Config) : result unit :=
  _ ← guarde (bool_decide (UpstreamTargets c <> [])) (Errorf "at least one upstream is required");
  _ ← firstError validTarget (UpstreamTargets c);
  _ ← guarde (algorithmKnown (UpstreamAlgo c)) (Errorf "algorithm not supported");
  _ ← firstError (fun n => guarde (ParsePrefix n) (Errorf "invalid trusted proxy network")) (TrustedProxies c);
  _ ← validateNetwork c;
  _ ← validateRAM c;
  _ ← guarde ((0 <=? c_int c ServerPort) && (c_int c ServerPort <=? 65535)) (Errorf "invalid server port");
  _ ← checkRows "proxy.config." resourceFields c;
  _ ← guarde (Z.land (c_int c RangeBlockBytes) (c_int c RangeBlockBytes - 1) =? 0) (Errorf "proxy.config.cache.range_block_bytes must be a power of two");
  guarde (CacheWriterReservation c <=? c_int c CacheWriteBufferBytes) (Errorf "cache write budget cannot hold one writer").
End Validation.

(** ** Records *)

Record RecordValue : Type := mkRecord { rv_Type : bytes; rv_Value : bytes }.
(** [RecordsConfig]: keys are unique, so the map is a list of pairs. *)
Abbreviation RecordsConfig := (list (bytes * RecordValue)).

Definition lookupRecord (rc : RecordsConfig) (key : bytes) : option RecordValue := snd <$> find (fun kv => bool_decide (kv.1 = key)) rc.
Definition Has (rc : RecordsConfig) (key : bytes) : bool := match lookupRecord rc key with Some _ => true | None => false end.
Definition GetString (rc : RecordsConfig) (key dflt : bytes) : bytes := match lookupRecord rc key with Some v => rv_Value v | None => dflt end.

(** [strings.Fields] *)
Fixpoint fieldsLoop (fuel : nat) (token s : bytes) : list bytes :=
  match fuel with
  | O => []
  | S fuel =>
      match s with
      | [] => if bool_decide (token = []) then [] else [rev token]
      | c :: s' =>
          match find (HasPrefix s) spaces with
          | Some p => if bool_decide (token = []) then fieldsLoop fuel [] (drop (length p) s) else rev token :: fieldsLoop fuel [] (drop (length p) s)
          | None => fieldsLoop fuel (c :: token) s'
          end
      end
  end.
Definition Fields (s : bytes) : list bytes := fieldsLoop (S (length s)) [] s.

(** [LoadRecordsConfig] on the lines of the file. *)
Fixpoint loadRecords (lines : list bytes) (rc : RecordsConfig) : result RecordsConfig :=
  match lines with
  | [] => Ok rc
  | line :: lines =>
      let line := TrimSpace line in
      if bool_decide (line = []) || HasPrefix line (str "#") then loadRecords lines rc
      else match Fields line with
      | p0 :: p1 :: p2 :: p3 :: rest =>
          if negb (bool_decide (p0 = str "CONFIG")) then Err (Errorf "invalid configuration syntax")
          else if negb (bool_decide (p2 = str "STRING")) && negb (bool_decide (p2 = str "INT")) && negb (bool_decide (p2 = str "FLOAT")) then Err (Errorf "invalid configuration type")
          else if Has rc p1 then Err (Errorf "duplicate configuration key")
          else loadRecords lines (rc ++ [(p1, mkRecord p2 (Join (p3 :: rest) (str " ")))])
      | _ => Err (Errorf "invalid configuration syntax")
      end
  end.

(** [strconv.Atoi] *)
Definition Atoi (s : bytes) : option Z :=
  let '(neg, d) := match s with c :: s' => if c =? 45 then (true, s') else if c =? 43 then (false, s') else (false, s) | [] => (false, []) end in
  if bool_decide (d = []) || negb (forallb isDigit d) then None
  else let v := if neg : bool then - decimalValue d else decimalValue d in
       if (v <? - 2 ^ 63) || (2 ^ 63 <=? v) then None else Some v.

(** The loop that reads a table from the records. *)
Fixpoint loadRows (prefix : string) (rows : list row) (rc : RecordsConfig) (c : Config) : result Config :=
  match rows with
  | [] => Ok c
  | (name, f, _, _, _) :: rows =>
      let key := str prefix ++ str name in
      if Has rc key then
        match Atoi (GetString rc key []) with
        | None => Err (Errorf "invalid integer")
        | Some v => loadRows prefix rows rc (setInt f v c)
        end
      else loadRows prefix rows rc c
  end.

(** A list setting: comma separated, no empty item. *)
Definition loadList (rc : RecordsConfig) (key : bytes) (dflt : list bytes) : result (list bytes) :=
  if Has rc key then
    let values := map TrimSpace (Split (GetString rc key []) 44) in
    if existsb (fun v => bool_decide (v = [])) values then Err (Errorf "empty value") else Ok values
  else Ok dflt.

Definition emptyConfig : Config := mkConfig (fun _ => 0) [] false [] [] [] [] [] [] [] [] [] [] [] [].

Definition GetDefaultConfig : Config :=
  WithDefaults (setInt TransactionTimeoutOut 30 (setInt TransactionTimeoutIn 30 (setInt KeepAliveTimeout 120 (setInt ServerPort 80
    (setUpstream [] [str "http://127.0.0.1:8081"] (str "consistent-hash") []
      (setDirs (str "conf") (str "/var/log/razor") (str "access.log") (str "error.log") emptyConfig)))))).

Section Load.
Context (Parse : bytes -> option URL) (ParseRequestURI : bytes -> option RequestURI) (ParsePrefix : bytes -> bool).

Definition loadNetwork (rc : RecordsConfig) (c : Config) : result Config :=
  let c := setNetwork (GetString rc (str "proxy.config.ssl.cert_file") []) (GetString rc (str "proxy.config.ssl.key_file") [])
             (GetString rc (str "proxy.config.http.upstream_ca_file") []) (GetString rc (str "proxy.config.http.health.path") (HealthCheckPath c)) c in
  c ← loadRows "proxy.config.http.health." networkFields rc c;
  _ ← validateNetwork ParseRequestURI c; Ok c.

Definition loadRAM (rc : RecordsConfig) (c : Config) : result Config :=
  c ← match lookupRecord rc (str "proxy.config.cache.ram_cache_algorithm") with
      | None => Ok c
      | Some v => if bool_decide (rv_Type v = str "STRING") then Ok (setRAMCacheAlgorithm (rv_Value v) c) else Err (Errorf "requires STRING")
      end;
  c ← match lookupRecord rc (str "proxy.config.cache.ram_cache_bytes") with
      | None => Ok c
      | Some v =>
          if bool_decide (rv_Type v = str "INT") then
            match Atoi (rv_Value v) with Some n => Ok (setInt RAMCacheBytes n c) | None => Err (Errorf "invalid ram_cache_bytes") end
          else Err (Errorf "requires INT")
      end;
  _ ← validateRAM c; Ok c.

Definition loadLimits (rc : RecordsConfig) (c : Config) : result Config :=
  c ← loadRows "proxy.config." resourceFields rc c;
  _ ← Validate Parse ParseRequestURI ParsePrefix c; Ok c.

(** The records applied to the defaults [c]. *)
Definition applyRecords (dir : bytes) (rc : RecordsConfig) (c : Config) : result Config :=
  let key k := str "proxy.config." ++ str k in
  c ← (if Has rc (key "http.server_ports") then
         match Atoi (GetString rc (key "http.server_ports") []) with Some n => Ok (setInt ServerPort n c) | None => Err (Errorf "invalid server port") end
       else Ok c);
  let c := setDirs dir (GetString rc (key "log.logfile_dir") (LogfileDir c)) (GetString rc (key "log.access_log_filename") (AccessLogFilename c))
             (GetString rc (key "log.error_log_filename") (ErrorLogFilename c)) c in
  targets ← loadList rc (key "http.parent_proxy.upstream_targets") (UpstreamTargets c);
  trusted ← loadList rc (key "http.trusted_proxies") (TrustedProxies c);
  let c := setUpstream (GetString rc (key "http.purge_token") []) targets (GetString rc (key "http.parent_proxy.upstream_algo") (UpstreamAlgo c)) trusted c in
  c ← loadNetwork rc c; c ← loadRAM rc c; loadLimits rc c.

(** [Load]: [stat] is the error of looking for the two files, [lines] what
    the records file holds. *)
Definition Load (dir : bytes) (stat : option error) (lines : result (list bytes)) : result Config :=
  if bool_decide (dir = []) then Ok GetDefaultConfig
  else match stat with
  | Some e => Err e
  | None => lines ← lines; rc ← loadRecords lines []; applyRecords dir rc GetDefaultConfig
  end.
End Load.

(** ** Limits of the proxy ([proxy/limits.go]) *)

Definition Second : Z := 10 ^ 9.
Record Limits : Type := mkLimits {
  lm_Requests : Z; lm_Queued : Z; lm_Connections : Z;
  lm_QueueTimeout : Z; lm_DialTimeout : Z; lm_TLSHandshakeTimeout : Z; lm_ResponseHeaderTimeout : Z; lm_BodyIdleTimeout : Z }.

Definition DefaultLimits : Limits := mkLimits 64 32 64 Second (5 * Second) (5 * Second) (30 * Second) (30 * Second).
Definition orDefault (v d : Z) : Z := if v =? 0 then d else v.
Definition limitsDefaults (l : Limits) : Limits :=
  let d := DefaultLimits in
  mkLimits (orDefault (lm_Requests l) (lm_Requests d)) (lm_Queued l) (orDefault (lm_Connections l) (lm_Connections d))
    (orDefault (lm_QueueTimeout l) (lm_QueueTimeout d)) (orDefault (lm_DialTimeout l) (lm_DialTimeout d)) (orDefault (lm_TLSHandshakeTimeout l) (lm_TLSHandshakeTimeout d))
    (orDefault (lm_ResponseHeaderTimeout l) (lm_ResponseHeaderTimeout d)) (orDefault (lm_BodyIdleTimeout l) (lm_BodyIdleTimeout d)).

(** [ConfigureLimits]: the limits in force and one limiter for each origin
    key of the targets; [custom] and [roots] describe the transport. *)
Definition ConfigureLimits (custom roots : bool) (origins : list bytes) (l : Limits) : result (Limits * list (bytes * Limiter)) :=
  let l := limitsDefaults l in
  if (lm_Requests l <? 1) || (lm_Queued l <? 0) || (lm_Connections l <? 1) || (lm_QueueTimeout l <? 0) || (lm_DialTimeout l <? 0) ||
     (lm_TLSHandshakeTimeout l <? 0) || (lm_ResponseHeaderTimeout l <? 0) || (lm_BodyIdleTimeout l <? 0)
  then Err (Errorf "invalid upstream resource limits")
  else if custom && roots then Err (Errorf "upstream CA file cannot be combined with a custom transport")
  else Ok (l, map (fun key => (key, New (lm_Requests l) (lm_Queued l))) (remove_dups origins)).

(** ** Runtimes ([server/runtime.go]) *)

(** The limiters of a [runtimeSnapshot], and the number of response
    buffers. *)
Record runtimeLimits : Type := mkRuntimeLimits { rl_limits : Limits; rl_origins : list (bytes * Limiter); rl_admission : Limiter; rl_buffers : Z; rl_writers : Limiter; rl_rangeReaders : Limiter }.

Definition seconds (c : Config) (f : intField) : Z := i64 (c_int c f * Second).

Definition newRuntime (Parse : bytes -> option URL) (ParseRequestURI : bytes -> option RequestURI) (ParsePrefix : bytes -> bool)
    (custom roots : bool) (origins : list bytes) (c : Config) : result runtimeLimits :=
  let c := WithDefaults c in
  _ ← Validate Parse ParseRequestURI ParsePrefix c;
  '(l, budgets) ← ConfigureLimits custom roots origins
    (mkLimits (c_int c MaxOriginRequests) (c_int c MaxOriginQueuedRequests) (c_int c MaxOriginConnections)
       (seconds c QueueTimeout) (seconds c ConnectTimeout) (seconds c TLSHandshakeTimeout) (seconds c ResponseHeaderTimeout) (seconds c TransactionTimeoutOut));
  let slots := Z.min (c_int c MaxCacheWriters) (c_int c CacheWriteBufferBytes `quot` CacheWriterReservation c) in
  Ok (mkRuntimeLimits l budgets (New (c_int c MaxRequests) (c_int c MaxQueuedRequests)) (c_int c MaxRequests)
        (New slots (c_int c MaxQueuedCacheWriters)) (New slots (c_int c MaxRequests))).

(** The reserved bytes [Server.Stats] reports for one runtime. *)
Definition bufferReserved (c : Config) (writers readers : Limiter) : Z :=
  i64 (i64 (InFlight (stats writers) * i64 (CacheWriterReservation c - RangeReaderReservation c)) + i64 (InFlight (stats readers) * RangeReaderReservation c)).

(** ** Lemmas *)

Definition within (c : Config) (r : row) : Prop := let '(_, f, _, lo, hi) := r in lo <= c_int c f <= hi.

Lemma checkRows_within prefix rows c u : checkRows prefix rows c = Ok u -> Forall (within c) rows.
Proof.
  induction rows as [|[[[[name f] d] lo] hi] rows IH]; [constructor|]. cbn. destruct (_ || _) eqn:E; [done|]. b2p. intros Hrest.
  constructor; [cbn; lia|auto].
Qed.

(** What validation says about the integers. *)
Definition bounded (c : Config) : Prop :=
  Forall (within c) resourceFields /\ Z.land (c_int c RangeBlockBytes) (c_int c RangeBlockBytes - 1) = 0 /\ CacheWriterReservation c <= c_int c CacheWriteBufferBytes.

Lemma Validate_bounded P R X c u : Validate P R X c = Ok u -> bounded c.
Proof.
  unfold Validate. intros H. repeat (apply result_bind_Ok in H as (? & ? & H)).
  repeat match goal with H : guarde _ _ = Ok _ |- _ => apply guarde_Ok in H end. b2p.
  match goal with H : checkRows _ _ _ = _ |- _ => apply checkRows_within in H end. by split_and!.
Qed.

Lemma bounded_get c r : bounded c -> In r resourceFields -> within c r.
Proof. intros [H _] Hr. rewrite Forall_forall in H. apply H. by apply list_elem_of_In. Qed.

(** The reservations of a validated configuration do not overflow. *)
Lemma bounded_reservations c : bounded c ->
  RangeReaderReservation c = c_int c RangeBlockBytes + 2 * 2 ^ 20 + 64 * 2 ^ 10 /\
  CacheWriterReservation c = 6 * 2 ^ 20 + (c_int c MaxCacheObjectBytes / 2 ^ 20 + 2) * 128 + c_int c RangeBlockBytes + RangeReaderReservation c /\
  0 < RangeReaderReservation c < CacheWriterReservation c /\ CacheWriterReservation c < 2 ^ 32.
Proof.
  intros B. pose proof (bounded_get c _ B (in_or_app _ coalescingFields _ (or_intror (or_introl eq_refl)))) as H1.
  assert (within c ("cache.max_object_bytes"%string, MaxCacheObjectBytes, 64 * 2 ^ 20, 1, 2 ^ 40)) as H2 by (apply bounded_get; [done|cbn; tauto]).
  unfold within in H1, H2. unfold CacheWriterReservation, RangeReaderReservation.
  rewrite Z.quot_div_nonneg by lia.
  assert (0 <= c_int c MaxCacheObjectBytes / 2 ^ 20 <= 2 ^ 20) as H3 by (split; [apply Z.div_pos; lia|apply Z.div_le_upper_bound; lia]).
  rewrite (i64_small (c_int c RangeBlockBytes + 2 * 2 ^ 20 + 64 * 2 ^ 10)) by (unfold fits_i64; lia).
  rewrite i64_small by (unfold fits_i64; lia). lia.
Qed.

Lemma power_of_two x : 0 < x -> Z.land x (x - 1) = 0 -> x = 2 ^ Z.log2 x.
Proof.
  intros Hx Hl. pose proof (Z.log2_spec x Hx) as [H1 H2]. destruct (Z.eq_dec x (2 ^ Z.log2 x)) as [|Hne]; [done|exfalso].
  assert (Z.testbit (Z.land x (x - 1)) (Z.log2 x) = true) as Hb.
  { rewrite Z.land_spec. apply andb_true_iff. split; [by apply Z.bit_log2|].
    replace (Z.log2 x) with (Z.log2 (x - 1)) at 1; [apply Z.bit_log2; pose proof (Z.pow_pos_nonneg 2 (Z.log2 x) ltac:(lia) (Z.log2_nonneg x)); lia|].
    apply Z.log2_unique; [apply Z.log2_nonneg|lia]. }
  by rewrite Hl, Z.bits_0 in Hb.
Qed.

(** The slots of a runtime share the configured budget. *)
Definition slotsOf (c : Config) : Z := Z.min (c_int c MaxCacheWriters) (c_int c CacheWriteBufferBytes `quot` CacheWriterReservation c).

Lemma bounded_slots c : bounded c -> 1 <= slotsOf c <= c_int c MaxCacheWriters /\ slotsOf c * CacheWriterReservation c <= c_int c CacheWriteBufferBytes <= 2 ^ 40.
Proof.
  intros B. destruct (bounded_reservations c B) as (_ & _ & H1 & _).
  assert (within c ("cache.max_writers"%string, MaxCacheWriters, 16, 1, 1000000)) as H3 by (apply bounded_get; [done|cbn; tauto]).
  assert (within c ("cache.write_buffer_bytes"%string, CacheWriteBufferBytes, 128 * 2 ^ 20, 1, 2 ^ 40)) as H4 by (apply bounded_get; [done|cbn; tauto]).
  destruct B as (_ & _ & H2). unfold within in *. unfold slotsOf. rewrite Z.quot_div_nonneg by lia.
  assert (1 <= c_int c CacheWriteBufferBytes / CacheWriterReservation c) by (apply Z.div_le_lower_bound; lia).
  pose proof (Z.mul_div_le (c_int c CacheWriteBufferBytes) (CacheWriterReservation c) ltac:(lia)). split_and!; try lia.
  transitivity (c_int c CacheWriteBufferBytes / CacheWriterReservation c * CacheWriterReservation c); [|lia]. apply Z.mul_le_mono_nonneg_r; lia.
Qed.

(** In every state of the two limiters the reported reservation is exact and
    within the budget. *)
Lemma reserved_bounded c queued queued' yw yr : bounded c -> 0 <= queued -> 0 <= queued' ->
  rtc sys_step (mkSystem (New (slotsOf c) queued) []) yw -> rtc sys_step (mkSystem (New (slotsOf c) queued') []) yr ->
  0 <= bufferReserved c (sys_l yw) (sys_l yr) <= c_int c CacheWriteBufferBytes.
Proof.
  intros B Hq Hq' Hw Hr. destruct (bounded_reservations c B) as (_ & _ & H1 & H2). destruct (bounded_slots c B) as (Hs & Hb).
  assert (0 <= slotsOf c) as H0 by lia.
  destruct (sys_inv _ _ _ H0 Hq Hw) as (_ & _ & W1 & _ & W2 & _). destruct (sys_inv _ _ _ H0 Hq' Hr) as (_ & _ & R1 & _ & R2 & _).
  assert (0 <= sumZ holdsSlot (sys_callers yw) /\ 0 <= sumZ holdsSlot (sys_callers yr)) as [N1 N2] by (split; apply sumZ_nonneg; intros t _; apply holds_range).
  unfold bufferReserved, stats. cbn [InFlight]. rewrite (i64_small (_ - _)) by (unfold fits_i64; lia). set (a := c_len (l_slots (sys_l yw))) in *. set (b := c_len (l_slots (sys_l yr))) in *.
  assert (a * (CacheWriterReservation c - RangeReaderReservation c) <= slotsOf c * (CacheWriterReservation c - RangeReaderReservation c)) by (apply Z.mul_le_mono_nonneg_r; lia).
  assert (b * RangeReaderReservation c <= slotsOf c * RangeReaderReservation c) by (apply Z.mul_le_mono_nonneg_r; lia).
  assert (0 <= a * (CacheWriterReservation c - RangeReaderReservation c)) by (apply Z.mul_nonneg_nonneg; lia).
  assert (0 <= b * RangeReaderReservation c) by (apply Z.mul_nonneg_nonneg; lia).
  assert (slotsOf c * (CacheWriterReservation c - RangeReaderReservation c) + slotsOf c * RangeReaderReservation c = slotsOf c * CacheWriterReservation c) by ring.
  assert (0 <= slotsOf c * (CacheWriterReservation c - RangeReaderReservation c) /\ 0 <= slotsOf c * RangeReaderReservation c) by (split; apply Z.mul_nonneg_nonneg; lia).
  rewrite (i64_small (a * _)), (i64_small (b * _)), i64_small by (unfold fits_i64; lia). lia.
Qed.

(** *** Loading *)

Lemma loadRows_defaults prefix rows rc c c' : loadRows prefix rows rc c = Ok c' -> resourceDefaults c' = resourceDefaults c.
Proof.
  revert c. induction rows as [|[[[[name f] d] lo] hi] rows IH]; intros c; cbn; [by intros [= <-]|].
  destruct (Has _ _); [|auto]. destruct (Atoi _); [|done]. intros E. by rewrite (IH _ E).
Qed.

Lemma loadRAM_defaults rc c c' : loadRAM rc c = Ok c' -> resourceDefaults c' = resourceDefaults c.
Proof.
  unfold loadRAM. generalize (lookupRecord rc (str "proxy.config.cache.ram_cache_algorithm")) (lookupRecord rc (str "proxy.config.cache.ram_cache_bytes")). intros v1 v2 H.
  apply result_bind_Ok in H as (c4 & H4 & H). apply result_bind_Ok in H as (c5 & H5 & H). apply result_bind_Ok in H as (u & _ & H). injection H as <-.
  transitivity (resourceDefaults c4).
  - destruct v2 as [v|]; [|by injection H5 as <-]. destruct (bool_decide _) in H5; [|done]. destruct (Atoi _) in H5; [|done]. by injection H5 as <-.
  - destruct v1 as [v|]; [|by injection H4 as <-]. destruct (bool_decide _) in H4; [|done]. by injection H4 as <-.
Qed.

Lemma loadNetwork_defaults R rc c c' : loadNetwork R rc c = Ok c' -> resourceDefaults c' = resourceDefaults c.
Proof.
  unfold loadNetwork. generalize (str "proxy.config.ssl.cert_file") (str "proxy.config.ssl.key_file") (str "proxy.config.http.upstream_ca_file") (str "proxy.config.http.health.path").
  intros k1 k2 k3 k4 H. apply result_bind_Ok in H as (c1 & H1 & H). apply result_bind_Ok in H as (u & _ & H). injection H as <-. by rewrite (loadRows_defaults _ _ _ _ _ H1).
Qed.

Lemma loadLimits_validated P R X rc c c' : loadLimits P R X rc c = Ok c' -> Validate P R X c' = Ok tt /\ resourceDefaults c' = resourceDefaults c.
Proof.
  unfold loadLimits. intros H. apply result_bind_Ok in H as (c1 & H1 & H). apply result_bind_Ok in H as ([] & Hv & H). injection H as <-.
  split; [done|exact (loadRows_defaults _ _ _ _ _ H1)].
Qed.

Lemma applyRecords_validated P R X dir rc c c' : applyRecords P R X dir rc c = Ok c' -> Validate P R X c' = Ok tt /\ resourceDefaults c' = resourceDefaults c.
Proof.
  unfold applyRecords. generalize (fun k : string => str "proxy.config." ++ str k). intros key H. cbv zeta in H.
  apply result_bind_Ok in H as (c1 & H1 & H). apply result_bind_Ok in H as (targets & _ & H). apply result_bind_Ok in H as (trusted & _ & H).
  apply result_bind_Ok in H as (c2 & H2 & H). apply loadNetwork_defaults in H2. apply result_bind_Ok in H as (c3 & H3 & H). apply loadRAM_defaults in H3.
  apply loadLimits_validated in H as [Hv Hd]. split; [exact Hv|]. rewrite Hd, H3, H2.
  change (resourceDefaults c1 = resourceDefaults c). revert H1. destruct (Has _ _); [destruct (Atoi _); [|discriminate]|]; intros [= <-]; reflexivity.
Qed.

Lemma Load_validated P R X dir stat lines c : dir <> [] -> Load P R X dir stat lines = Ok c ->
  Validate P R X c = Ok tt /\ resourceDefaults c = true.
Proof.
  intros Hd. unfold Load. rewrite bool_decide_eq_false_2 by exact Hd. destruct stat; [discriminate|]. intros H.
  apply result_bind_Ok in H as (ls & _ & H). apply result_bind_Ok in H as (rc & _ & H). apply applyRecords_validated in H as [Hv Hr]. split; [exact Hv|]. rewrite Hr. reflexivity.
Qed.

(** A validated configuration passes the checks of the proxy. *)
Lemma newRuntime_ok P R X roots origins c u : Validate P R X (WithDefaults c) = Ok u ->
  exists rl, newRuntime P R X false roots origins c = Ok rl.
Proof.
  intros Hv. unfold newRuntime. rewrite Hv. cbn [mbind result_bind]. pose proof (Validate_bounded _ _ _ _ _ Hv) as B. set (c' := WithDefaults c) in *. clearbody c'.
  assert (forall n f d hi, In (n, f, d, 1, hi) resourceFields -> 1 <= c_int c' f <= hi) as G by (intros n f d hi Hin; exact (bounded_get c' _ B Hin)).
  assert (forall n f d, In (n, f, d, 1, 86400) resourceFields -> 0 < seconds c' f) as T.
  { intros n f d Hin. apply G in Hin. unfold seconds, Second. rewrite i64_small by (unfold fits_i64; lia). lia. }
  assert (forall v d, 0 < v -> orDefault v d = v) as O by (intros v d Hv'; unfold orDefault; destruct (v =? 0) eqn:E; b2p; lia).
  assert (0 <= c_int c' MaxOriginQueuedRequests) by (assert (within c' ("http.max_origin_queued_requests"%string, MaxOriginQueuedRequests, 32, 0, 1000000)) as X1 by (apply bounded_get; [done|cbn; tauto]); unfold within in X1; lia).
  pose proof (G "http.max_origin_requests"%string MaxOriginRequests 64 1000000 ltac:(cbn; tauto)). pose proof (G "http.max_origin_connections"%string MaxOriginConnections 64 1000000 ltac:(cbn; tauto)).
  pose proof (T "http.queue_timeout"%string QueueTimeout 1 ltac:(cbn; tauto)). pose proof (T "http.connect_timeout"%string ConnectTimeout 5 ltac:(cbn; tauto)).
  pose proof (T "http.tls_handshake_timeout"%string TLSHandshakeTimeout 5 ltac:(cbn; tauto)). pose proof (T "http.response_header_timeout"%string ResponseHeaderTimeout 30 ltac:(cbn; tauto)).
  pose proof (T "http.transaction_no_activity_timeout_out"%string TransactionTimeoutOut 30 ltac:(cbn; tauto)).
  unfold ConfigureLimits, limitsDefaults. cbn [lm_Requests lm_Queued lm_Connections lm_QueueTimeout lm_DialTimeout lm_TLSHandshakeTimeout lm_ResponseHeaderTimeout lm_BodyIdleTimeout].
  rewrite !O by lia. repeat match goal with |- context [?x <? ?y] => replace (x <? y) with false by (symmetry; apply Z.ltb_ge; lia) end. cbn. eauto.
Qed.

Lemma newRuntime_limits P R X custom roots origins c rl : newRuntime P R X custom roots origins c = Ok rl ->
  bounded (WithDefaults c) /\ rl_writers rl = New (slotsOf (WithDefaults c)) (c_int (WithDefaults c) MaxQueuedCacheWriters) /\
  rl_rangeReaders rl = New (slotsOf (WithDefaults c)) (c_int (WithDefaults c) MaxRequests).
Proof.
  unfold newRuntime. intros H. apply result_bind_Ok in H as (u & Hv & H). apply Validate_bounded in Hv. apply result_bind_Ok in H as ([l b] & _ & [= <-]). done.
Qed.

(** ** Properties *)


(** A records file with two settings and a comment. *)
Abbreviation exampleLines := [str "# limits"; str "CONFIG proxy.config.cache.max_writers INT 4"; []; str " CONFIG proxy.config.cache.range_block_bytes INT 65536 "].
Abbreviation exampleParse := (fun _ : bytes => Some (mkURL (str "http") (str "127.0.0.1") (str "8081") false [])).
Abbreviation exampleURI := (fun _ : bytes => Some (mkURI false [] [])).
Abbreviation exampleConfig := (match Load exampleParse exampleURI (fun _ => true) (str "conf") None (Ok exampleLines) with Ok c => c | Err _ => emptyConfig end).

Lemma is_ok_default {A} (r : result A) d : is_ok r = true -> r = Ok (match r with Ok c => c | Err _ => d end).
Proof. by destruct r. Qed.

