(* ===== verification/Balancer.v ===== *)
(** * Load balancing and health checks

    [balancer/]: the interface of a balancer, the round-robin balancer and
    the wrapper around the third-party consistent hash, which is a parameter;
    [proxy/health.go]: the checker that removes and restores the targets of a
    balancer while requests select from it. *)

From S2P Require Import Prelude HttpInfo HttpText.

Definition NoHostError : error := Errorf "no host".
Definition AlgorithmNotSupportedError : error := Errorf "algorithm not supported".

(** ** The interface *)

(** [Balancer]; [Inc] and [Done] do nothing in either implementation. *)
Class BalancerOps (B : Type) : Type := {
  Add : bytes -> B -> B;
  Remove : bytes -> B -> B;
  Balance : bytes -> B -> B * result bytes;
  hostsOf : B -> list bytes }.

(** What the proxy relies on. *)
Class BalancerLaws (B : Type) `{BalancerOps B} : Prop := {
  Add_hosts h b x : x ∈ hostsOf (Add h b) <-> x = h \/ x ∈ hostsOf b;
  Remove_hosts h b x : NoDup (hostsOf b) -> x ∈ hostsOf (Remove h b) <-> x <> h /\ x ∈ hostsOf b;
  Add_NoDup h b : NoDup (hostsOf b) -> NoDup (hostsOf (Add h b));
  Remove_NoDup h b : NoDup (hostsOf b) -> NoDup (hostsOf (Remove h b));
  Balance_hosts k b : hostsOf (Balance k b).1 = hostsOf b;
  Balance_result k b : match (Balance k b).2 with Ok h => h ∈ hostsOf b | Err e => hostsOf b = [] /\ e = NoHostError end }.

(** ** Lists of hosts ([BaseBalancer]) *)

Definition BaseAdd (host : bytes) (hosts : list bytes) : list bytes := if bool_decide (host ∈ hosts) then hosts else hosts ++ [host].
Fixpoint BaseRemove (host : bytes) (hosts : list bytes) : list bytes :=
  match hosts with [] => [] | h :: hosts => if bool_decide (h = host) then hosts else h :: BaseRemove host hosts end.

Lemma BaseAdd_elem h l x : x ∈ BaseAdd h l <-> x = h \/ x ∈ l.
Proof. unfold BaseAdd. case_bool_decide; [naive_solver|]. rewrite elem_of_app, list_elem_of_singleton. tauto. Qed.
Lemma BaseAdd_NoDup h l : NoDup l -> NoDup (BaseAdd h l).
Proof.
  intros Hn. unfold BaseAdd. case_bool_decide as E; [done|]. apply NoDup_app. split_and!; [done| |apply NoDup_singleton].
  intros x Hx ->%list_elem_of_singleton. done.
Qed.
Lemma BaseRemove_elem h l x : NoDup l -> x ∈ BaseRemove h l <-> x <> h /\ x ∈ l.
Proof.
  induction 1 as [|y l Hy Hn IH]; cbn; [set_solver|]. case_bool_decide as E; [subst y|]; rewrite elem_of_cons.
  - split; [intros Hx; split; [congruence|auto]|naive_solver].
  - rewrite elem_of_cons, IH. naive_solver.
Qed.
Lemma BaseRemove_NoDup h l : NoDup l -> NoDup (BaseRemove h l).
Proof.
  induction 1 as [|y l Hy Hn IH]; cbn; [constructor|]. case_bool_decide; [done|]. constructor; [|done]. rewrite BaseRemove_elem by done. tauto.
Qed.

(** ** Round robin *)

Record RoundRobin : Type := mkRoundRobin { rr_hosts : list bytes; rr_i : Z }.
Definition NewRoundRobin (hosts : list bytes) : RoundRobin := mkRoundRobin hosts 0.

Definition rrBalance (r : RoundRobin) : RoundRobin * result bytes :=
  match rr_hosts r with
  | [] => (r, Err NoHostError)
  | h :: _ =>
      let i := u64 (rr_i r + 1) in
      (mkRoundRobin (rr_hosts r) i, Ok (default h (rr_hosts r !! Z.to_nat (i mod Z.of_nat (length (rr_hosts r))))))
  end.

#[global] Instance RoundRobin_ops : BalancerOps RoundRobin := {
  Add h r := mkRoundRobin (BaseAdd h (rr_hosts r)) (rr_i r);
  Remove h r := mkRoundRobin (BaseRemove h (rr_hosts r)) (rr_i r);
  Balance _ r := rrBalance r;
  hostsOf := rr_hosts }.

(** The index of a selection is in range. *)
Lemma rr_index (hosts : list bytes) i : hosts <> [] -> exists h, hosts !! Z.to_nat (i mod Z.of_nat (length hosts)) = Some h.
Proof.
  intros Hne. apply lookup_lt_is_Some_2. assert (0 < Z.of_nat (length hosts)) by (destruct hosts; [done|cbn; lia]). pose proof (Z.mod_pos_bound i (Z.of_nat (length hosts)) ltac:(lia)). lia.
Qed.

#[global] Instance RoundRobin_laws : BalancerLaws RoundRobin.
Proof.
  split; cbn; eauto using BaseAdd_elem, BaseRemove_elem, BaseAdd_NoDup, BaseRemove_NoDup.
  - intros _ [hosts i]. unfold rrBalance. cbn. by destruct hosts.
  - intros _ [hosts i]. unfold rrBalance. cbn. destruct hosts as [|h hosts]; [done|]. cbn [snd].
    destruct (rr_index (h :: hosts) (u64 (i + 1)) ltac:(done)) as [x Hx]. rewrite Hx. by eapply list_elem_of_lookup_2.
Qed.

(** [n] selections in a row. *)
Fixpoint rrSelect (n : nat) (r : RoundRobin) : list (result bytes) :=
  match n with O => [] | S n => let '(r, h) := rrBalance r in h :: rrSelect n r end.

Lemma rrSelect_lookup n r : rr_hosts r <> [] -> 0 <= rr_i r -> rr_i r + Z.of_nat n < 2 ^ 64 ->
  rrSelect n r = map (fun k => Ok (default [] (rr_hosts r !! Z.to_nat ((rr_i r + k) mod Z.of_nat (length (rr_hosts r)))))) (seqZ 1 (Z.of_nat n)).
Proof.
  revert r. induction n as [|n IH]; intros [hosts i] Hne Hi Hw; [done|]. cbn in Hne, Hi, Hw. rewrite seqZ_cons by lia. cbn [map rrSelect]. unfold rrBalance. cbn [rr_hosts rr_i].
  destruct hosts as [|h hosts]; [done|]. rewrite u64_small by (unfold fits; lia). f_equal.
  - destruct (rr_index (h :: hosts) (i + 1) ltac:(done)) as [x Hx]. by rewrite Hx.
  - rewrite IH by (cbn; done || lia). cbn [rr_hosts rr_i]. replace (Z.pred (Z.of_nat (S n))) with (Z.of_nat n) by lia. change (Z.succ 1) with (1 + 1). rewrite <- (fmap_add_seqZ 1 1 (Z.of_nat n)).
    change (fmap ?f ?l) with (map f l). rewrite map_map. apply map_ext. intros k. do 5 f_equal. lia.
Qed.

Lemma rotation (l : list bytes) i : l <> [] -> 0 <= i ->
  map (fun k => default [] (l !! Z.to_nat ((i + k) mod Z.of_nat (length l)))) (seqZ 1 (Z.of_nat (length l))) =
  let c := Z.to_nat ((i + 1) mod Z.of_nat (length l)) in drop c l ++ take c l.
Proof.
  intros Hne Hi. set (n := Z.of_nat (length l)). assert (0 < n) as Hn by (destruct l; [done|cbn in *; lia]). cbn zeta.
  pose proof (Z.mod_pos_bound (i + 1) n Hn) as Hc. set (c := (i + 1) mod n) in *. apply list_eq. intros j. rewrite list_lookup_fmap.
  destruct (decide (Z.of_nat j < n)) as [Hj|Hj].
  - rewrite lookup_seqZ_lt by lia. cbn [option_fmap fmap option_map]. 
    assert ((i + (1 + Z.of_nat j)) mod n = (c + Z.of_nat j) mod n) as Hm by (unfold c; rewrite Zplus_mod_idemp_l; f_equal; lia). rewrite Hm.
    destruct (decide (c + Z.of_nat j < n)) as [Hl|Hl].
    + rewrite Z.mod_small by lia. rewrite lookup_app_l by (rewrite length_drop; lia). rewrite lookup_drop. replace (Z.to_nat c + j)%nat with (Z.to_nat (c + Z.of_nat j)) by lia.
      destruct (lookup_lt_is_Some_2 l (Z.to_nat (c + Z.of_nat j))) as [x Hx]; [lia|]. by rewrite Hx.
    + replace ((c + Z.of_nat j) mod n) with (c + Z.of_nat j - n) by (apply Z.mod_unique_pos with 1; lia).
      rewrite lookup_app_r by (rewrite length_drop; lia). rewrite length_drop, lookup_take_lt by lia. replace (j - (length l - Z.to_nat c))%nat with (Z.to_nat (c + Z.of_nat j - n)) by lia.
      destruct (lookup_lt_is_Some_2 l (Z.to_nat (c + Z.of_nat j - n))) as [x Hx]; [lia|]. by rewrite Hx.
  - rewrite lookup_seqZ_ge by lia. cbn. symmetry. apply lookup_ge_None_2. rewrite length_app, length_drop, length_take. lia.
Qed.

(** As many selections in a row as there are hosts take every host once. *)
Lemma rrSelect_fair r : rr_hosts r <> [] -> 0 <= rr_i r -> rr_i r + Z.of_nat (length (rr_hosts r)) < 2 ^ 64 ->
  rrSelect (length (rr_hosts r)) r ≡ₚ map Ok (rr_hosts r).
Proof.
  intros Hne Hi Hw. rewrite rrSelect_lookup by done. rewrite <- (map_map (fun k => default [] (rr_hosts r !! Z.to_nat ((rr_i r + k) mod Z.of_nat (length (rr_hosts r)))))).
  apply Permutation_map. rewrite rotation by done. cbn zeta. rewrite Permutation_app_comm. by rewrite take_drop.
Qed.

(** ** Consistent hashing *)

Section Consistent.
(** [github.com/lafikl/consistent]: a ring of hosts without duplicates, every
    method of which takes the package's lock for itself. *)
Context {C : Type} (ch_Add ch_Remove : bytes -> C -> C) (ch_Hosts : C -> list bytes) (ch_Get : bytes -> C -> result bytes).

Record Consistent : Type := mkConsistent { ch : C }.

(** [Consistent.Balance]: [Hosts] reads the ring as it is in [c1], [Get] as it
    is in [c2], after whatever [Add] and [Remove] ran in between. *)
Definition chBalance (key : bytes) (c1 c2 : Consistent) : result bytes :=
  match ch_Hosts (ch c1) with [] => Err NoHostError | _ => ch_Get key (ch c2) end.

(** [NewConsistent] *)
Definition NewConsistent (new : C) (hosts : list bytes) : Consistent := mkConsistent (foldl (fun c h => ch_Add h c) new hosts).

(** The balancer when no change falls between the two reads. *)
Definition Consistent_ops : BalancerOps Consistent := {|
  Add h c := mkConsistent (ch_Add h (ch c));
  Remove h c := mkConsistent (ch_Remove h (ch c));
  Balance key c := (c, chBalance key c c);
  hostsOf c := ch_Hosts (ch c) |}.

(** The documented behaviour of the package. *)
Record ConsistentSpec : Prop := mkSpec {
  ch_Add_elem h c x : x ∈ ch_Hosts (ch_Add h c) <-> x = h \/ x ∈ ch_Hosts c;
  ch_Remove_elem h c x : x ∈ ch_Hosts (ch_Remove h c) <-> x <> h /\ x ∈ ch_Hosts c;
  ch_unique c : NoDup (ch_Hosts c);
  ch_Get_ok k c : ch_Hosts c <> [] -> exists h, ch_Get k c = Ok h /\ h ∈ ch_Hosts c }.

(** A selection during which the ring changes: the host is one of the ring
    [Get] saw; the error is the balancer's when [Hosts] saw none and the
    package's own, [noHosts], when the last host went in between. *)
Lemma chBalance_interleaved noHosts key c1 c2 : ConsistentSpec ->
  (ch_Hosts (ch c2) = [] -> ch_Get key (ch c2) = Err noHosts) ->
  match chBalance key c1 c2 with
  | Ok h => h ∈ ch_Hosts (ch c2)
  | Err e => (e = NoHostError /\ ch_Hosts (ch c1) = []) \/ (e = noHosts /\ ch_Hosts (ch c1) <> [] /\ ch_Hosts (ch c2) = [])
  end.
Proof.
  intros S He. unfold chBalance. destruct (ch_Hosts (ch c1)) as [|h1 l1]; [by left|].
  destruct (ch_Hosts (ch c2)) as [|h2 l2] eqn:E2; [rewrite He by done; by right|].
  destruct (ch_Get_ok S key (ch c2)) as (h & -> & Hh); [by rewrite E2|]. by rewrite <- E2.
Qed.

Lemma Consistent_laws : ConsistentSpec -> @BalancerLaws Consistent Consistent_ops.
Proof.
  intros S. split; cbn; intros; try apply (ch_unique S); [apply (ch_Add_elem S)|apply (ch_Remove_elem S)|done|].
  unfold chBalance. destruct (ch_Hosts (ch b)) as [|h hs] eqn:E; [done|]. destruct (ch_Get_ok S k (ch b)) as (x & -> & Hx); [by rewrite E|]. by rewrite <- E.
Qed.
End Consistent.

(** ** Health checks *)

Record HealthConfig : Type := mkHealth { hc_Interval : Z; hc_Timeout : Z; hc_Failures : Z; hc_Successes : Z; hc_Path : bytes }.

Definition Hour : Z := 3600 * 10 ^ 9.
(** [HealthConfig.Validate]; [pathOk] is the test of a nonempty path. *)
Definition ValidateHealth (pathOk : bytes -> bool) (c : HealthConfig) : result unit :=
  if (hc_Interval c <? 0) || (24 * Hour <? hc_Interval c) then Err (Errorf "invalid health interval")
  else if hc_Interval c =? 0 then Ok tt
  else if (hc_Timeout c <=? 0) || (60 * 10 ^ 9 <? hc_Timeout c) || (hc_Failures c <? 1) || (1000 <? hc_Failures c) || (hc_Successes c <? 1) || (1000 <? hc_Successes c)
  then Err (Errorf "invalid health timeout or thresholds")
  else if negb (bool_decide (hc_Path c = [])) && negb (pathOk (hc_Path c)) then Err (Errorf "health path must be an absolute request path")
  else Ok tt.

Record streak : Type := mkStreak { failures : Z; successes : Z }.

(** The counts after one probe. *)
Definition countProbe (c : HealthConfig) (healthy : bool) (n : streak) : streak :=
  if healthy then mkStreak 0 (Z.min (successes n + 1) (hc_Successes c)) else mkStreak (Z.min (failures n + 1) (hc_Failures c)) 0.

(** What the checker has left to do for the target it probed. *)
Inductive action (B : Type) : Type := LbRemove (host : bytes) | LbAdd (host : bytes) | SetAlive (host : bytes) (alive : bool).
Arguments LbRemove {B} host.
Arguments LbAdd {B} host.
Arguments SetAlive {B} host alive.

Section Health.
Context {B : Type} `{BL : BalancerLaws B} (c : HealthConfig).

Record checker : Type := mkChecker { h_lb : B; h_alive : gmap bytes bool; h_counts : gmap bytes streak; h_todo : list (action B) }.

Definition ReadAlive (st : checker) (host : bytes) : bool := default false (h_alive st !! host).

(** One probe of [checkHealth] up to its effects on the balancer and the
    table of targets, which requests may interleave with. *)
Definition probe (host : bytes) (healthy : bool) (st : checker) : checker :=
  let count := countProbe c healthy (default (mkStreak 0 0) (h_counts st !! host)) in
  let alive := ReadAlive st host in
  let todo := (if alive && (hc_Failures c <=? failures count) then [LbRemove host; SetAlive host false] else []) ++
              (if negb alive && (hc_Successes c <=? successes count) then [LbAdd host; SetAlive host true] else []) in
  mkChecker (h_lb st) (h_alive st) (<[host := count]> (h_counts st)) todo.

Definition act (a : action B) (rest : list (action B)) (st : checker) : checker :=
  match a with
  | LbRemove host => mkChecker (Remove host (h_lb st)) (h_alive st) (h_counts st) rest
  | LbAdd host => mkChecker (Add host (h_lb st)) (h_alive st) (h_counts st) rest
  | SetAlive host v => mkChecker (h_lb st) (<[host := v]> (h_alive st)) (h_counts st) rest
  end.

(** Events: the checker probes when it has nothing left to do for the
    previous target; requests select at any time. *)
Inductive event : Type := Probe (host : bytes) (healthy : bool) | Act | Select (key : bytes).

Definition stepHealth (targets : list bytes) (e : event) (st : checker) : option checker :=
  match e with
  | Probe host healthy => match h_todo st with [] => if bool_decide (host ∈ targets) then Some (probe host healthy st) else None | _ => None end
  | Act => match h_todo st with a :: rest => Some (act a rest st) | [] => None end
  | Select key => Some (mkChecker (Balance key (h_lb st)).1 (h_alive st) (h_counts st) (h_todo st))
  end.

Fixpoint runHealth (targets : list bytes) (es : list event) (st : checker) : option checker :=
  match es with [] => Some st | e :: es => st ← stepHealth targets e st; runHealth targets es st end.

(** The proxy after construction: every target is alive and in the
    balancer. *)
Definition initHealth (lb : B) (targets : list bytes) : checker := mkChecker lb (list_to_map (map (fun h => (h, true)) targets)) ∅ [].

(** *** The specification *)

(** The results of the probes of a target, the latest first. *)
Fixpoint history (host : bytes) (es : list event) (past : list bool) : list bool :=
  match es with
  | [] => past
  | Probe h healthy :: es => history host es (if bool_decide (h = host) then healthy :: past else past)
  | _ :: es => history host es past
  end.

(** The last [n] results exist and are all [v]. *)
Definition lastAll (n : Z) (v : bool) (past : list bool) : bool := (n <=? Z.of_nat (length past)) && forallb (Bool.eqb v) (take (Z.to_nat n) past).

(** A target goes down with [Failures] failures in a row and comes back
    with [Successes] successes in a row. *)
Fixpoint up (past : list bool) : bool :=
  match past with
  | [] => true
  | _ :: before => if up before then negb (lastAll (hc_Failures c) false past) else lastAll (hc_Successes c) true past
  end.

(** *** Lemmas *)

(** The length of the latest run of [v]. *)
Fixpoint trail (v : bool) (past : list bool) : Z :=
  match past with [] => 0 | x :: past => if Bool.eqb v x then 1 + trail v past else 0 end.

Lemma trail_range v past : 0 <= trail v past <= Z.of_nat (length past).
Proof. induction past as [|x past IH]; cbn; [lia|]. destruct (Bool.eqb v x); lia. Qed.

Lemma lastAll_trail n v past : 0 <= n -> lastAll n v past = (n <=? trail v past).
Proof.
  unfold lastAll. revert n. induction past as [|x past IH]; intros n Hn; cbn [length trail].
  - rewrite firstn_nil. cbn. by rewrite andb_true_r.
  - destruct (decide (n = 0)) as [->|Hn0]; [pose proof (trail_range v past); cbn [take forallb Z.to_nat]; rewrite andb_true_r; transitivity true; [apply Z.leb_le; lia|symmetry; apply Z.leb_le; destruct (Bool.eqb v x); lia]|].
    specialize (IH (n - 1) ltac:(lia)). replace (Z.to_nat n) with (S (Z.to_nat (n - 1))) by lia. cbn [take forallb].
    destruct (Bool.eqb v x); cbn [andb]; [|rewrite andb_false_r; symmetry; apply Z.leb_gt; lia].
    replace (n <=? Z.of_nat (S (length past))) with (n - 1 <=? Z.of_nat (length past)) by (apply Bool.eq_iff_eq_true; rewrite !Z.leb_le; lia).
    rewrite IH. apply Bool.eq_iff_eq_true. rewrite !Z.leb_le. lia.
Qed.

(** The counters are the runs, up to their thresholds. *)
Definition counted (n : streak) (past : list bool) : Prop :=
  failures n = Z.min (trail false past) (hc_Failures c) /\ successes n = Z.min (trail true past) (hc_Successes c).

Lemma countProbe_counted healthy n past : 1 <= hc_Failures c -> 1 <= hc_Successes c -> counted n past -> counted (countProbe c healthy n) (healthy :: past).
Proof.
  intros HF HS [H1 H2]. pose proof (trail_range true past). pose proof (trail_range false past). unfold counted, countProbe. destruct healthy; cbn; lia.
Qed.

Definition settled (targets : list bytes) (past : bytes -> list bool) (st : checker) (except : bytes -> bool) : Prop :=
  forall h, h ∈ targets -> except h = false -> ReadAlive st h = up (past h).

(** The state of the checker, by what it has left to do. *)
Definition todoOk (targets : list bytes) (past : bytes -> list bool) (st : checker) : Prop :=
  let one h x := bool_decide (x = h) in
  match h_todo st with
  | [] => (forall x, x ∈ hostsOf (h_lb st) <-> ReadAlive st x = true) /\ settled targets past st (fun _ => false)
  | [LbRemove h; SetAlive h' false] =>
      h' = h /\ h ∈ targets /\ up (past h) = false /\ (forall x, x ∈ hostsOf (h_lb st) <-> ReadAlive st x = true) /\ settled targets past st (one h)
  | [LbAdd h; SetAlive h' true] =>
      h' = h /\ h ∈ targets /\ up (past h) = true /\ (forall x, x ∈ hostsOf (h_lb st) <-> ReadAlive st x = true) /\ settled targets past st (one h)
  | [SetAlive h v] =>
      h ∈ targets /\ up (past h) = v /\ (forall x, x ∈ hostsOf (h_lb st) <-> (if bool_decide (x = h) then v else ReadAlive st x) = true) /\ settled targets past st (one h)
  | _ => False
  end.

Record healthInv (targets : list bytes) (past : bytes -> list bool) (st : checker) : Prop := mkHealthInv {
  hi_nodup : NoDup (hostsOf (h_lb st));
  hi_alive : forall x, ReadAlive st x = true -> x ∈ targets;
  hi_counts : forall h, h ∈ targets -> counted (default (mkStreak 0 0) (h_counts st !! h)) (past h);
  hi_todo : todoOk targets past st }.

Definition pastStep (e : event) (past : bytes -> list bool) : bytes -> list bool :=
  fun h => match e with Probe host healthy => if bool_decide (host = h) then healthy :: past h else past h | _ => past h end.

Lemma probe_inv targets past st host healthy : 1 <= hc_Failures c -> 1 <= hc_Successes c -> healthInv targets past st -> h_todo st = [] -> host ∈ targets ->
  healthInv targets (pastStep (Probe host healthy) past) (probe host healthy st).
Proof.
  intros HF HS [In Ia Ic It] Et Hh. unfold todoOk in It. rewrite Et in It. destruct It as [Im Is].
  set (n' := countProbe c healthy (default (mkStreak 0 0) (h_counts st !! host))).
  assert (counted n' (healthy :: past host)) as Hn by (apply countProbe_counted; auto).
  assert (forall x, ReadAlive (probe host healthy st) x = ReadAlive st x) as Hra by done.
  assert (forall x, x <> host -> pastStep (Probe host healthy) past x = past x) as Hp by (intros x Hx; cbn; by rewrite bool_decide_eq_false_2).
  assert (pastStep (Probe host healthy) past host = healthy :: past host) as Hp1 by (cbn; by rewrite bool_decide_eq_true_2).
  assert (up (healthy :: past host) = if ReadAlive st host then negb (hc_Failures c <=? failures n') else hc_Successes c <=? successes n') as Hup.
  { cbn [up]. rewrite <- (Is host Hh eq_refl), !lastAll_trail by lia. destruct Hn as [-> ->]. destruct (ReadAlive st host); [f_equal|]; apply Bool.eq_iff_eq_true; rewrite !Z.leb_le; lia. }
  assert (forall ex, ex host = true -> settled targets (pastStep (Probe host healthy) past) (probe host healthy st) ex) as Hse.
  { intros ex Hex h Hin Hf. rewrite Hra, Hp by congruence. by apply Is. }
  split; [exact In|exact Ia| |].
  - intros h Hin. cbn. destruct (decide (h = host)) as [->|Hne]; [rewrite lookup_insert_eq, bool_decide_eq_true_2 by done; exact Hn|]. rewrite lookup_insert_ne, bool_decide_eq_false_2 by done. auto.
  - unfold todoOk. cbn [h_todo probe]. fold n'. destruct (ReadAlive st host) eqn:Ea; cbn [andb negb app].
    + rewrite app_nil_r. destruct (hc_Failures c <=? failures n') eqn:Ef.
      * split_and!; try done; [by rewrite Hp1, Hup|]. apply Hse. by rewrite bool_decide_eq_true_2.
      * split; [exact Im|]. intros h Hin _. rewrite Hra. destruct (decide (h = host)) as [->|Hne]; [by rewrite Hp1, Hup, Ea|rewrite Hp by done; by apply Is].
    + destruct (hc_Successes c <=? successes n') eqn:Ef.
      * split_and!; try done; [by rewrite Hp1, Hup|]. apply Hse. by rewrite bool_decide_eq_true_2.
      * split; [exact Im|]. intros h Hin _. rewrite Hra. destruct (decide (h = host)) as [->|Hne]; [by rewrite Hp1, Hup, Ea|rewrite Hp by done; by apply Is].
Qed.

Lemma ReadAlive_set lb alive counts todo h v x : ReadAlive (mkChecker lb (<[h := v]> alive) counts todo) x = if bool_decide (x = h) then v else default false (alive !! x).
Proof. unfold ReadAlive. cbn. case_bool_decide; [subst; by rewrite lookup_insert_eq|by rewrite lookup_insert_ne]. Qed.

Lemma act_inv targets past st a rest : healthInv targets past st -> h_todo st = a :: rest -> healthInv targets past (act a rest st).
Proof.
  intros [In Ia Ic It] Et. unfold todoOk in It. rewrite Et in It.
  destruct a as [h|h|h v]; destruct rest as [|[h'|h'|h' v'] rest]; try done.
  - destruct v', rest; try done. destruct It as (-> & Hin & Hup & Im & Is). split; cbn; [by apply Remove_NoDup|done|done|]. unfold todoOk. cbn. split_and!; try done.
    intros x. rewrite Remove_hosts by done. change (ReadAlive (mkChecker _ (h_alive st) _ _) x) with (ReadAlive st x). rewrite Im. case_bool_decide; naive_solver.
  - destruct v', rest; try done. destruct It as (-> & Hin & Hup & Im & Is). split; cbn; [by apply Add_NoDup|done|done|]. unfold todoOk. cbn. split_and!; try done.
    intros x. rewrite Add_hosts. change (ReadAlive (mkChecker _ (h_alive st) _ _) x) with (ReadAlive st x). rewrite Im. case_bool_decide; naive_solver.
  - destruct It as (Hin & Hup & Im & Is). split; cbn; [done| |done|].
    + intros x. rewrite ReadAlive_set. case_bool_decide as E; [by subst|]. apply Ia.
    + unfold todoOk. cbn. split.
      * intros x. by rewrite ReadAlive_set, Im.
      * intros x Hx _. rewrite ReadAlive_set. case_bool_decide as E; [by subst|]. apply Is; [done|]. by rewrite bool_decide_eq_false_2.
Qed.

Lemma stepHealth_inv targets past st e st' : 1 <= hc_Failures c -> 1 <= hc_Successes c -> healthInv targets past st -> stepHealth targets e st = Some st' ->
  healthInv targets (pastStep e past) st'.
Proof.
  intros HF HS I E. destruct e as [host healthy| |key]; cbn in E.
  - destruct (h_todo st) eqn:Et; [|done]. case_bool_decide; [|done]. injection E as <-. by apply probe_inv.
  - destruct (h_todo st) as [|a rest] eqn:Et; [done|]. injection E as <-. by apply (act_inv targets past st a rest).
  - injection E as <-. destruct I as [In Ia Ic It]. split; cbn; [by rewrite Balance_hosts|done|done|]. unfold todoOk in *. cbn. rewrite Balance_hosts. exact It.
Qed.

Lemma history_foldl es past h : history h es (past h) = foldl (fun p e => pastStep e p) past es h.
Proof. revert past. induction es as [|[host healthy| |key] es IH]; intros past; cbn; [done|..]; rewrite <- IH; done. Qed.

Lemma runHealth_inv targets es past st st' : 1 <= hc_Failures c -> 1 <= hc_Successes c -> healthInv targets past st -> runHealth targets es st = Some st' ->
  healthInv targets (foldl (fun p e => pastStep e p) past es) st'.
Proof.
  intros HF HS. revert past st. induction es as [|e es IH]; intros past st I; cbn; [by intros [= <-]|].
  destruct (stepHealth targets e st) as [st1|] eqn:E1; [|done]. cbn. intros E. exact (IH _ st1 (stepHealth_inv _ _ _ _ _ HF HS I E1) E).
Qed.

(** The balancer only holds targets. *)
Lemma healthInv_hosts targets past st x : healthInv targets past st -> x ∈ hostsOf (h_lb st) -> x ∈ targets.
Proof.
  intros [In Ia Ic It] Hx. unfold todoOk in It. destruct (h_todo st) as [|[y|y|y v] [|[z|z|z v'] rest]]; try done.
  - destruct It as [Im _]. by apply Ia, Im.
  - destruct v', rest; try done. destruct It as (_ & _ & _ & Im & _). by apply Ia, Im.
  - destruct v', rest; try done. destruct It as (_ & _ & _ & Im & _). by apply Ia, Im.
  - destruct It as (Hin & _ & Im & _). apply Im in Hx. case_bool_decide; [by subst|by apply Ia].
Qed.

Lemma initHealth_inv lb targets : 1 <= hc_Failures c -> 1 <= hc_Successes c -> NoDup (hostsOf lb) -> (forall x, x ∈ hostsOf lb <-> x ∈ targets) -> healthInv targets (fun _ => []) (initHealth lb targets).
Proof.
  intros HF HS Hn Hm. assert (forall x, ReadAlive (initHealth lb targets) x = bool_decide (x ∈ targets)) as Hr.
  { intros x. unfold ReadAlive, initHealth. cbn. clear Hm. induction targets as [|t targets IH]; cbn; [by rewrite lookup_empty|].
    destruct (decide (x = t)) as [->|Hne]; [rewrite lookup_insert_eq; cbn; symmetry; apply bool_decide_eq_true_2; set_solver|]. rewrite lookup_insert_ne, IH by done.
    apply bool_decide_ext. set_solver. }
  split; [done| | |].
  - intros x. rewrite Hr. apply bool_decide_eq_true.
  - intros h _. cbn. rewrite lookup_empty. cbn. unfold counted. cbn. lia.
  - unfold todoOk. cbn. split; [intros x; by rewrite Hr, bool_decide_eq_true|]. intros h Hh _. rewrite Hr. by apply bool_decide_eq_true_2.
Qed.

(** C22: while the checker probes the targets and requests select, in any
    interleaving: a target is out of the balancer after [Failures]
    consecutive failures and back after [Successes] consecutive successes,
    and otherwise keeps its state, and the table of targets agrees, except
    for one target whose transition is in progress; a request is sent to a
    target of the balancer, and finds none only when every target is
    down. *)
Theorem health_selects_up targets es lb st :
  1 <= hc_Failures c -> 1 <= hc_Successes c -> NoDup (hostsOf lb) -> (forall x, x ∈ hostsOf lb <-> x ∈ targets) ->
  runHealth targets es (initHealth lb targets) = Some st ->
  let busy h := match h_todo st with [] => False | LbRemove x :: _ | LbAdd x :: _ | SetAlive x _ :: _ => x = h end in
  (forall h, h ∈ targets -> ~ busy h -> ReadAlive st h = up (history h es []) /\ (h ∈ hostsOf (h_lb st) <-> up (history h es []) = true)) /\
  (forall x, x ∈ hostsOf (h_lb st) -> x ∈ targets) /\
  (forall key, match (Balance key (h_lb st)).2 with
     | Ok h => h ∈ targets /\ (~ busy h -> up (history h es []) = true)
     | Err e => e = NoHostError /\ forall h, h ∈ targets -> ~ busy h -> up (history h es []) = false
     end).
Proof.
  intros HF HS Hn Hm HR busy. pose proof (runHealth_inv _ _ _ _ _ HF HS (initHealth_inv lb targets HF HS Hn Hm) HR) as [In Ia Ic It].
  set (past := foldl _ _ _) in *. assert (forall h, past h = history h es []) as Hp by (intros h; symmetry; apply (history_foldl es (fun _ => []) h)).
  assert (forall x, x ∈ hostsOf (h_lb st) -> x ∈ targets) as Hin by (intros x; apply (healthInv_hosts targets past); by split).
  assert (forall h, h ∈ targets -> ~ busy h -> ReadAlive st h = up (history h es []) /\ (h ∈ hostsOf (h_lb st) <-> up (history h es []) = true)) as Hup.
  { unfold busy. clear busy Hin. unfold todoOk in It. destruct (h_todo st) as [|[x|x|x v] [|[y|y|y v'] rest]]; try done.
    - destruct It as [Im Is]. intros h Hh _. rewrite <- Hp, <- (Is h Hh eq_refl). by rewrite Im.
    - destruct v', rest; try done. destruct It as (-> & Hin & Hup & Im & Is). intros h Hh Hb. rewrite <- Hp, <- (Is h Hh) by (apply bool_decide_eq_false_2; congruence). by rewrite Im.
    - destruct v', rest; try done. destruct It as (-> & Hin & Hup & Im & Is). intros h Hh Hb. rewrite <- Hp, <- (Is h Hh) by (apply bool_decide_eq_false_2; congruence). by rewrite Im.
    - destruct It as (Hin & Hup & Im & Is). intros h Hh Hb. rewrite <- Hp, <- (Is h Hh) by (apply bool_decide_eq_false_2; congruence). rewrite Im, bool_decide_eq_false_2 by congruence. done. }
  split_and!; [done|done|]. intros key. pose proof (Balance_result key (h_lb st)) as Hr. destruct (Balance key (h_lb st)).2 as [h|e].
  - split; [by apply Hin|]. intros Hb. by apply (Hup h (Hin h Hr) Hb).
  - destruct Hr as [He ->]. split; [done|]. intros h Hh Hb. destruct (Hup h Hh Hb) as [_ Hi]. rewrite He in Hi. destruct (up _); [|done]. by destruct (not_elem_of_nil h); apply Hi.
Qed.
End Health.
Arguments checker B : clear implicits.

(** Two targets; one fails twice, and requests go to the other. *)
Abbreviation hostA := [65].
Abbreviation hostB := [66].
Abbreviation exampleHealth := (mkHealth 1 1 2 2 []).
Abbreviation exampleEvents := [Probe hostA false; Probe hostB true; Select []; Probe hostA false; Select []; Act; Select []; Act].
Abbreviation exampleFinal := (mkChecker (mkRoundRobin [hostB] 3) {[ hostA := false; hostB := true ]} {[ hostA := mkStreak 2 0; hostB := mkStreak 0 1 ]} []).

Lemma health_selects_up_witness : up exampleHealth (history hostA exampleEvents []) = false /\ (Balance [] (mkRoundRobin [hostB] 3)).2 = Ok hostB.
Proof.
  destruct (health_selects_up exampleHealth [hostA; hostB] exampleEvents (NewRoundRobin [hostA; hostB]) exampleFinal ltac:(cbn; lia) ltac:(cbn; lia)) as (H1 & _ & _).
  - apply (bool_decide_unpack _). vm_compute. exact I.
  - intros x. reflexivity.
  - vm_compute. reflexivity.
  - split; [|reflexivity]. destruct (H1 hostA) as [_ H]; [set_solver|intros []|]. destruct (up exampleHealth (history hostA exampleEvents [])); [|reflexivity].
    assert (hostA ∈ [hostB]) by (apply H; reflexivity). set_solver.
Defined.
