(* ===== verification/Forwarding.v ===== *)
(** * Requests to the origin

    [proxy/proxy.go], [proxy/cache_key.go] and [proxy/public_request.go]: who
    the client is, what is sent upstream on its behalf, the cache key of a
    request and the canonical form of a request a shared fill makes.  The
    address parsers of [net] and [net/netip] and [httputil.SetURL] are
    parameters of which nothing is assumed. *)

From S2P Require Import Prelude HttpInfo HttpText.

(** What the code reads of a [url.URL]. *)
Record URL : Type := mkURL { url_Scheme : bytes; url_Host : bytes; url_EscapedPath : bytes; url_RawQuery : bytes; url_ForceQuery : bool }.

(** An [http.Request]; [rq_public] is the context value of
    [publicRequestKey]. *)
Record Request : Type := mkRequest {
  rq_Method : bytes; rq_Host : bytes; rq_URL : URL; rq_Header : Header; rq_RemoteAddr : bytes; rq_TLS : bool; rq_public : option bytes;
  rq_RequestURI : bytes; rq_Close : bool }.

Definition set_rq_Header (v : Header) (r : Request) : Request :=
  mkRequest (rq_Method r) (rq_Host r) (rq_URL r) v (rq_RemoteAddr r) (rq_TLS r) (rq_public r) (rq_RequestURI r) (rq_Close r).
Definition set_rq_URL (v : URL) (r : Request) : Request :=
  mkRequest (rq_Method r) (rq_Host r) v (rq_Header r) (rq_RemoteAddr r) (rq_TLS r) (rq_public r) (rq_RequestURI r) (rq_Close r).

(** ** Headers *)

Definition DelAll (names : list bytes) (h : Header) : Header := foldl DelHeader h names.

Definition hopNames : list bytes :=
  map str ["Connection"; "Proxy-Connection"; "Keep-Alive"; "Proxy-Authenticate"; "Proxy-Authorization"; "Te"; "Trailer"; "Transfer-Encoding"; "Upgrade"]%string.
(** The names a [Connection] header nominates. *)
Definition nominated (h : Header) : list bytes := map TrimSpace (concat (map (fun v => Split v 44) (Values h (str "Connection")))).

(** [stripHopHeaders] *)
Definition stripHopHeaders (h : Header) : Header := DelAll hopNames (DelAll (nominated h) h).

Definition forwardedNames : list bytes := map str ["Forwarded"; "X-Forwarded-For"; "X-Forwarded-Host"; "X-Forwarded-Proto"; "X-Real-IP"]%string.
Definition publicNames : list bytes :=
  map str ["Forwarded"; "X-Forwarded-For"; "X-Real-IP"; "Traceparent"; "Tracestate"; "Baggage"; "X-Request-Id"; "X-Correlation-Id"]%string.

(** ** Cache keys *)

(** [GetCacheKey] *)
Definition GetCacheKey (r : Request) : bytes :=
  let u := rq_URL r in
  let scheme := if bool_decide (url_Scheme u = []) then (if rq_TLS r then str "https" else str "http") else url_Scheme u in
  let authority := if bool_decide (rq_Host r = []) then url_Host u else rq_Host r in
  let path := if bool_decide (url_EscapedPath u = []) then str "/" else url_EscapedPath u in
  let key := str "http-v3:" ++ scheme ++ str "://" ++ authority ++ path in
  if negb (bool_decide (url_RawQuery u = [])) || url_ForceQuery u
  then key ++ str "?" ++ Join (sortStrings (Split (url_RawQuery u) 38)) (str "&")
  else key.

(** ** Lemmas *)

Lemma DelAll_lookup names h k : DelAll names h !! k = if bool_decide (k ∈ map CanonicalHeaderKey names) then None else h !! k.
Proof.
  unfold DelAll. revert h. induction names as [|n names IH]; intros h; cbn; [done|]. rewrite IH. unfold DelHeader.
  destruct (decide (k = CanonicalHeaderKey n)) as [->|Hne].
  - rewrite (bool_decide_eq_true_2 (_ ∈ _ :: _)) by set_solver. rewrite lookup_delete_eq. by destruct (bool_decide _).
  - rewrite lookup_delete_ne by done. rewrite (bool_decide_ext (k ∈ CanonicalHeaderKey n :: map CanonicalHeaderKey names) (k ∈ map CanonicalHeaderKey names)) by set_solver. done.
Qed.

(** The headers that do not travel past the proxy. *)
Definition hopHeader (h : Header) (k : bytes) : bool := bool_decide (k ∈ map CanonicalHeaderKey hopNames) || bool_decide (k ∈ map CanonicalHeaderKey (nominated h)).

Lemma stripHopHeaders_lookup h k : stripHopHeaders h !! k = if hopHeader h k then None else h !! k.
Proof. unfold stripHopHeaders, hopHeader. rewrite !DelAll_lookup. by do 2 destruct (bool_decide _). Qed.

(** *** Splitting and joining *)

Lemma splitAt_acc sep acc s : splitAt sep acc s = match splitAt sep [] s with x :: l => (rev acc ++ x) :: l | [] => [] end.
Proof.
  revert acc. induction s as [|c s IH]; intros acc; cbn; [by rewrite app_nil_r|]. destruct (c =? sep); [cbn; by rewrite app_nil_r|].
  rewrite (IH (c :: acc)), (IH [c]). destruct (splitAt sep [] s); [done|]. cbn. by rewrite <- app_assoc.
Qed.

Lemma splitAt_app sep acc a b : Forall (fun c => c <> sep) a -> splitAt sep acc (a ++ sep :: b) = (rev acc ++ a) :: Split b sep.
Proof.
  intros F. revert acc. induction F as [|c a Hc F IH]; intros acc; cbn; [by rewrite Z.eqb_refl, app_nil_r|].
  apply Z.eqb_neq in Hc. rewrite Hc, IH. cbn. by rewrite <- app_assoc.
Qed.
Lemma splitAt_end sep acc a : Forall (fun c => c <> sep) a -> splitAt sep acc a = [rev acc ++ a].
Proof.
  intros F. revert acc. induction F as [|c a Hc F IH]; intros acc; cbn; [by rewrite app_nil_r|]. apply Z.eqb_neq in Hc. rewrite Hc, IH. cbn. by rewrite <- app_assoc.
Qed.

(** Items without the separator are what joining and splitting returns. *)
Lemma Split_Join sep l : l <> [] -> Forall (Forall (fun c => c <> sep)) l -> Split (Join l [sep]) sep = l.
Proof.
  intros Hne F. induction F as [|x l Hx F IH]; [done|]. destruct l as [|y l]; [cbn; unfold Split; by rewrite splitAt_end|].
  change (Join (x :: y :: l) [sep]) with (x ++ sep :: Join (y :: l) [sep]). unfold Split at 1. rewrite splitAt_app by done. cbn [rev app]. by rewrite IH.
Qed.

Lemma Split_items sep s : Split s sep <> [] /\ Forall (Forall (fun c => c <> sep)) (Split s sep).
Proof.
  unfold Split. assert (forall acc, Forall (fun c => c <> sep) acc -> splitAt sep acc s <> [] /\ Forall (Forall (fun c => c <> sep)) (splitAt sep acc s)) as X; [|apply X; constructor].
  induction s as [|c s IH]; intros acc Ha; cbn; [split; [done|]; constructor; [by apply Forall_rev|constructor]|].
  destruct (c =? sep) eqn:E; b2p; [split; [done|]; constructor; [by apply Forall_rev|apply IH; constructor]|apply IH; by constructor].
Qed.

(** Two queries give the same sorted text exactly when their items are the
    same up to order. *)
Lemma sorted_query_eq sep q q' : Join (sortStrings (Split q sep)) [sep] = Join (sortStrings (Split q' sep)) [sep] <-> Split q sep ≡ₚ Split q' sep.
Proof.
  destruct (Split_items sep q) as [N1 F1], (Split_items sep q') as [N2 F2]. split.
  - intros E. assert (forall l, l <> [] -> Forall (Forall (fun c => c <> sep)) l -> Split (Join (sortStrings l) [sep]) sep = sortStrings l) as X.
    { intros l Hl Fl. apply Split_Join; [intros Hs; apply Hl, Permutation_nil_r; by rewrite <- Hs, sortStrings_perm|by rewrite sortStrings_perm]. }
    rewrite <- (sortStrings_perm (Split q sep)), <- (sortStrings_perm (Split q' sep)), <- (X _ N1 F1), <- (X _ N2 F2), E. done.
  - intros P. by rewrite (sortStrings_ext _ _ P).
Qed.

(** ** The proxy *)

(** A string is cut in one way at the first occurrence of a byte. *)
Lemma cut_unique (c : Z) (x y u v : bytes) : c ∉ x -> c ∉ y -> x ++ c :: u = y ++ c :: v -> x = y /\ u = v.
Proof.
  revert y. induction x as [|a x IH]; intros [|b y] Hx Hy E; cbn [app] in E; [by injection E as ->|injection E as <- _; set_solver|injection E as -> _; set_solver|].
  injection E as -> E. apply not_elem_of_cons in Hx as [_ Hx]. apply not_elem_of_cons in Hy as [_ Hy]. destruct (IH y Hx Hy E) as [-> ->]. done.
Qed.

Section Proxy.
Context {Addr : Type} (ParseAddr : bytes -> option Addr) (Unmap : Addr -> Addr) (AddrString : Addr -> bytes).
(** [trustedProxies]: the test of each prefix, [Prefix.Contains]. *)
Context (trustedProxies : list (Addr -> bool)).
(** [net.SplitHostPort] followed by [net.ParseIP] and its [String]. *)
Context (SplitHost : bytes -> option bytes) (ParseIP : bytes -> option bytes).
(** [ProxyRequest.SetURL] for a target: the URL, and the host it clears. *)
Context (SetURL : bytes -> URL -> URL).

Definition trusted (ip : Addr) : bool := existsb (fun contains => contains (Unmap ip)) trustedProxies.

Definition GetIP (r : Request) : bytes :=
  match SplitHost (rq_RemoteAddr r) with Some host => default [] (ParseIP host) | None => [] end.

(** The loop of [forwarding], from the last value to the first. *)
Fixpoint walk (values : list bytes) (chain clientIP : bytes) : bytes * bytes :=
  match values with
  | [] => (chain, clientIP)
  | v :: values =>
      match ParseAddr (TrimSpace v) with
      | None => (chain, clientIP)
      | Some ip =>
          let clientIP := AddrString (Unmap ip) in
          let chain := clientIP ++ str ", " ++ chain in
          if trusted ip then walk values chain clientIP else (chain, clientIP)
      end
  end.

Definition forwardedValues (h : Header) : list bytes := Split (Join (Values h (str "X-Forwarded-For")) (str ",")) 44.

(** [forwarding]: the chain, the client address and the scheme. *)
Definition forwarding (r : Request) : bytes * bytes * bytes :=
  match rq_public r with
  | Some scheme => ([], [], scheme)
  | None =>
      let clientIP := GetIP r in
      let scheme := if rq_TLS r then str "https" else str "http" in
      match ParseAddr clientIP with
      | None => (clientIP, clientIP, scheme)
      | Some peer =>
          if negb (trusted peer) then (clientIP, clientIP, scheme)
          else
            let headers := stripHopHeaders (rq_Header r) in
            let proto := GetHeader headers (str "X-Forwarded-Proto") in
            let scheme := if bool_decide (proto = str "http") || bool_decide (proto = str "https") then proto else scheme in
            let '(chain, clientIP) := walk (rev (forwardedValues headers)) clientIP clientIP in
            (chain, clientIP, scheme)
      end
  end.

(** [rewrite] of the clone [out] of the request [r]. *)
Definition rewriteHeaders (r : Request) (h : Header) : Header :=
  let h := DelAll forwardedNames (stripHopHeaders h) in
  let '(chain, ip, scheme) := forwarding r in
  let h := if bool_decide (ip = []) then h else SetHeader (SetHeader h (str "X-Forwarded-For") chain) (str "X-Real-IP") ip in
  SetHeader (SetHeader (SetHeader h (str "X-Proxy") (str "Balancer-Reverse-Proxy")) (str "X-Forwarded-Host") (rq_Host r)) (str "X-Forwarded-Proto") scheme.

Definition rewrite (target : bytes) (r out : Request) : Request :=
  let u := rq_URL out in
  let u := mkURL (url_Scheme u) (url_Host u) (url_EscapedPath u) (url_RawQuery (rq_URL r)) (url_ForceQuery u) in
  mkRequest (rq_Method out) [] (SetURL target u) (rewriteHeaders r (rq_Header out)) (rq_RemoteAddr out) (rq_TLS out) (rq_public out) [] false.

(** [CacheKey] *)
Definition CacheKey (r : Request) : bytes :=
  let '(_, _, scheme) := forwarding r in
  let u := rq_URL r in
  GetCacheKey (set_rq_URL (mkURL scheme (url_Host u) (url_EscapedPath u) (url_RawQuery u) (url_ForceQuery u)) r).

(** [NormalizePublicRequest] *)
Definition NormalizePublicRequest (r : Request) : Request :=
  let '(_, _, scheme) := forwarding r in
  let h := DelAll publicNames (stripHopHeaders (rq_Header r)) in
  let h := SetHeader (SetHeader (SetHeader h (str "User-Agent") (str "Razor")) (str "X-Forwarded-Host") (rq_Host r)) (str "X-Forwarded-Proto") scheme in
  mkRequest (rq_Method r) (rq_Host r) (rq_URL r) h [] false (Some scheme) (rq_RequestURI r) (rq_Close r).

(** The request [ProxyWithOriginHeaders] sends. *)
Definition upstreamRequest (target : bytes) (r : Request) : Request := rewrite target r r.

(** *** Properties *)

(** A forwarded value that is the address [a]. *)
Definition isAddr (v : bytes) (a : Addr) : Prop := ParseAddr (TrimSpace v) = Some a.
Definition addrText (a : Addr) : bytes := AddrString (Unmap a).

(** The chain of a list of addresses in front of [rest]. *)
Fixpoint chainOf (l : list bytes) (rest : bytes) : bytes := match l with [] => rest | x :: l => x ++ str ", " ++ chainOf l rest end.

Lemma chainOf_app l l' rest : chainOf (l ++ l') rest = chainOf l (chainOf l' rest).
Proof. induction l as [|x l IH]; cbn; [done|by rewrite IH]. Qed.

(** Trusted hops are walked over. *)
Lemma walk_trusted hops addrs more chain ip : Forall2 (fun v a => isAddr v a /\ trusted a = true) hops addrs ->
  walk (rev hops ++ more) chain ip = walk more (chainOf (map addrText addrs) chain) (match addrs with a :: _ => addrText a | [] => ip end).
Proof.
  intros F. revert more chain ip. induction F as [|v a hops addrs [Ha Ht] F IH]; intros more chain ip; [done|].
  cbn [rev map chainOf]. rewrite <- app_assoc, IH. cbn [app]. cbn [walk]. rewrite Ha. rewrite Ht.
  change (walk more (addrText a ++ str ", " ++ chainOf (map addrText addrs) chain) (addrText a) = walk more (addrText a ++ str ", " ++ chainOf (map addrText addrs) chain) (addrText a)). done.
Qed.

Definition schemeOf (r : Request) : bytes :=
  let proto := GetHeader (stripHopHeaders (rq_Header r)) (str "X-Forwarded-Proto") in
  if bool_decide (proto = str "http") || bool_decide (proto = str "https") then proto else if rq_TLS r then str "https" else str "http".

Lemma forwarding_trusted r peer : rq_public r = None -> ParseAddr (GetIP r) = Some peer -> trusted peer = true ->
  forwarding r = let '(chain, ip) := walk (rev (forwardedValues (stripHopHeaders (rq_Header r)))) (GetIP r) (GetIP r) in (chain, ip, schemeOf r).
Proof. intros Hp Ha Ht. unfold forwarding. rewrite Hp. rewrite Ha. by rewrite Ht. Qed.

(** The headers of the request to the origin. *)
Definition upstreamHeader (r : Request) (k : bytes) : option (list bytes) :=
  let '(chain, ip, scheme) := forwarding r in
  let named n := bool_decide (CanonicalHeaderKey (str n) = k) in
  if named "X-Forwarded-Proto"%string then Some [scheme]
  else if named "X-Forwarded-Host"%string then Some [rq_Host r]
  else if named "X-Proxy"%string then Some [str "Balancer-Reverse-Proxy"]
  else if negb (bool_decide (ip = [])) && named "X-Real-IP"%string then Some [ip]
  else if negb (bool_decide (ip = [])) && named "X-Forwarded-For"%string then Some [chain]
  else if bool_decide (k ∈ map CanonicalHeaderKey forwardedNames) || hopHeader (rq_Header r) k then None
  else rq_Header r !! k.

Lemma SetHeader_lookup h n v k : SetHeader h n v !! k = if bool_decide (CanonicalHeaderKey n = k) then Some [v] else h !! k.
Proof. unfold SetHeader. case_bool_decide; [subst; by rewrite lookup_insert_eq|by rewrite lookup_insert_ne]. Qed.

Lemma upstream_lookup target r k : rq_Header (upstreamRequest target r) !! k = upstreamHeader r k.
Proof.
  unfold upstreamRequest, rewrite, upstreamHeader, rewriteHeaders. cbn [rq_Header]. destruct (forwarding r) as [[chain ip] scheme].
  rewrite !SetHeader_lookup. destruct (bool_decide (_ = k)); [done|]. destruct (bool_decide (_ = k)); [done|]. destruct (bool_decide (_ = k)); [done|].
  assert (forall h, DelAll forwardedNames (stripHopHeaders h) !! k = if bool_decide (k ∈ map CanonicalHeaderKey forwardedNames) || hopHeader h k then None else h !! k) as X.
  { intros h. rewrite DelAll_lookup, stripHopHeaders_lookup. by destruct (bool_decide _), (hopHeader h k). }
  destruct (bool_decide (ip = [])); cbn [negb andb]; [apply X|]. rewrite !SetHeader_lookup, X. done.
Qed.


(** The headers a public fill keeps from the request it was made for. *)
Definition publicHeader (h : Header) (k : bytes) : option (list bytes) :=
  if bool_decide (k ∈ map CanonicalHeaderKey (publicNames ++ map str ["User-Agent"; "X-Forwarded-Host"; "X-Forwarded-Proto"]%string)) || hopHeader h k then None else h !! k.

Lemma forwarding_public r : forwarding (NormalizePublicRequest r) = ([], [], (forwarding r).2).
Proof. unfold NormalizePublicRequest. destruct (forwarding r) as [[chain ip] scheme]. done. Qed.

(** The normal form is determined by what is kept. *)
Lemma normalize_ext r r' : rq_Method r = rq_Method r' -> rq_Host r = rq_Host r' -> rq_URL r = rq_URL r' -> rq_RequestURI r = rq_RequestURI r' -> rq_Close r = rq_Close r' ->
  (forwarding r).2 = (forwarding r').2 -> (forall k, publicHeader (rq_Header r) k = publicHeader (rq_Header r') k) -> NormalizePublicRequest r = NormalizePublicRequest r'.
Proof.
  intros H1 H2 H3 H4 H5 Hs Hk. unfold NormalizePublicRequest. destruct (forwarding r) as [[chain ip] scheme], (forwarding r') as [[chain' ip'] scheme']. cbn in Hs. subst scheme'.
  rewrite H1, H2, H3, H4, H5. f_equal. apply map_eq. intros k. rewrite !SetHeader_lookup.
  destruct (bool_decide (CanonicalHeaderKey (str "X-Forwarded-Proto") = k)) eqn:E1; [done|]. destruct (bool_decide (CanonicalHeaderKey (str "X-Forwarded-Host") = k)) eqn:E2; [done|].
  destruct (bool_decide (CanonicalHeaderKey (str "User-Agent") = k)) eqn:E3; [done|]. rewrite !DelAll_lookup, !stripHopHeaders_lookup. specialize (Hk k). unfold publicHeader in Hk.
  assert (bool_decide (k ∈ map CanonicalHeaderKey (publicNames ++ map str ["User-Agent"; "X-Forwarded-Host"; "X-Forwarded-Proto"]%string)) = bool_decide (k ∈ map CanonicalHeaderKey publicNames)) as Hb.
  { apply bool_decide_ext. rewrite map_app, elem_of_app. b2p. split; [|by left]. intros [?|Hx]; [done|]. cbn [map] in Hx. rewrite !elem_of_cons in Hx. destruct Hx as [?|[?|[?|?%not_elem_of_nil]]]; congruence || done. }
  rewrite Hb in Hk. destruct (bool_decide _); cbn [orb] in Hk; [done|exact Hk].
Qed.

Lemma normalize_lookup r k : k ∈ map CanonicalHeaderKey publicNames -> rq_Header (NormalizePublicRequest r) !! k = None.
Proof.
  intros Hk. unfold NormalizePublicRequest. destruct (forwarding r) as [[chain ip] scheme]. cbn [rq_Header]. rewrite !SetHeader_lookup, DelAll_lookup, (bool_decide_eq_true_2 _ Hk).
  rewrite !bool_decide_eq_false_2; [done|intros <-; revert Hk; apply (bool_decide_eq_false _); vm_compute; reflexivity..].
Qed.

(** Only a context value could make the scheme empty. *)
Lemma forwarding_scheme r : rq_public r <> Some [] -> (forwarding r).2 <> [].
Proof.
  intros Hp. unfold forwarding. destruct (rq_public r) as [scheme|]; [cbn; congruence|].
  assert ((if rq_TLS r then str "https" else str "http") <> []) as H0 by (destruct (rq_TLS r); discriminate).
  destruct (ParseAddr (GetIP r)) as [peer|]; [|exact H0]. destruct (negb (trusted peer)); [exact H0|]. destruct (walk _ _ _) as [chain ip]. cbn [snd].
  destruct (bool_decide (_ = str "http")) eqn:E1; [apply bool_decide_eq_true in E1 as ->; discriminate|]. destruct (bool_decide (_ = str "https")) eqn:E2; [apply bool_decide_eq_true in E2 as ->; discriminate|exact H0].
Qed.

(** The key, with the scheme of the forwarding. *)
Definition keyWith (scheme : bytes) (r : Request) : bytes :=
  let u := rq_URL r in
  let key := str "http-v3:" ++ scheme ++ str "://" ++ (if bool_decide (rq_Host r = []) then url_Host u else rq_Host r) ++ (if bool_decide (url_EscapedPath u = []) then str "/" else url_EscapedPath u) in
  if negb (bool_decide (url_RawQuery u = [])) || url_ForceQuery u then key ++ str "?" ++ Join (sortStrings (Split (url_RawQuery u) 38)) (str "&") else key.

Lemma CacheKey_with r : rq_public r <> Some [] -> CacheKey r = keyWith (forwarding r).2 r.
Proof.
  intros Hp. pose proof (forwarding_scheme r Hp) as Hs. unfold CacheKey. destruct (forwarding r) as [[chain ip] scheme]. cbn [snd] in *. unfold GetCacheKey, keyWith. cbn [rq_URL rq_Host set_rq_URL url_Scheme url_Host url_EscapedPath url_RawQuery url_ForceQuery].
  by rewrite (bool_decide_eq_false_2 (scheme = [])).
Qed.

(** What the key is made of: the authority, the path and the items of the
    query, if there is one. *)
Definition authorityOf (r : Request) : bytes := if bool_decide (rq_Host r = []) then url_Host (rq_URL r) else rq_Host r.
Definition pathOf (r : Request) : bytes := if bool_decide (url_EscapedPath (rq_URL r) = []) then str "/" else url_EscapedPath (rq_URL r).
Definition queryOf (r : Request) : option (list bytes) :=
  if negb (bool_decide (url_RawQuery (rq_URL r) = [])) || url_ForceQuery (rq_URL r) then Some (Split (url_RawQuery (rq_URL r)) 38) else None.

(** A request as [net/http] parses it: the authority has no slash, the escaped
    path is rooted and has no question mark; a scheme in the context has no
    colon. *)
Definition parsedRequest (r : Request) : Prop :=
  47 ∉ authorityOf r /\ head (pathOf r) = Some 47 /\ 63 ∉ pathOf r /\ forall s, rq_public r = Some s -> 58 ∉ s.

Definition sameItems (q q' : option (list bytes)) : Prop :=
  match q, q' with Some l, Some l' => l ≡ₚ l' | None, None => True | _, _ => False end.

Lemma scheme_plain r : parsedRequest r -> 58 ∉ (forwarding r).2.
Proof.
  intros (_ & _ & _ & Hs). unfold forwarding. destruct (rq_public r) as [scheme|]; [by apply Hs|].
  assert (58 ∉ str "http" /\ 58 ∉ str "https") as [H1 H2] by (split; apply (bool_decide_eq_false _); vm_compute; reflexivity).
  assert (58 ∉ (if rq_TLS r then str "https" else str "http")) as H0 by (by destruct (rq_TLS r)).
  destruct (ParseAddr (GetIP r)) as [peer|]; [|exact H0]. destruct (negb (trusted peer)); [exact H0|]. destruct (walk _ _ _) as [chain ip]. cbn [snd].
  destruct (bool_decide (_ = str "http")) eqn:E1; [by apply bool_decide_eq_true in E1 as ->|]. destruct (bool_decide (_ = str "https")) eqn:E2; [by apply bool_decide_eq_true in E2 as ->|exact H0].
Qed.

Lemma keyWith_parts scheme r : keyWith scheme r = str "http-v3:" ++ scheme ++ 58 :: str "//" ++ authorityOf r ++ pathOf r ++ match queryOf r with Some l => 63 :: Join (sortStrings l) [38] | None => [] end.
Proof.
  unfold keyWith, queryOf, authorityOf, pathOf. destruct (negb _ || _); change (str "://") with (58 :: str "//"); rewrite ?app_nil_r, <- ?app_assoc; cbn [app]; rewrite <- ?app_assoc; done.
Qed.

(** The key determines the parts of the request. *)
Lemma CacheKey_parts r r' : rq_public r <> Some [] -> rq_public r' <> Some [] -> parsedRequest r -> parsedRequest r' ->
  CacheKey r = CacheKey r' <-> (forwarding r).2 = (forwarding r').2 /\ authorityOf r = authorityOf r' /\ pathOf r = pathOf r' /\ sameItems (queryOf r) (queryOf r').
Proof.
  intros Hp Hp' W W'. rewrite !CacheKey_with, !keyWith_parts by done. pose proof (scheme_plain r W) as Hs. pose proof (scheme_plain r' W') as Hs'.
  destruct W as (A1 & A2 & A3 & _), W' as (A1' & A2' & A3' & _). split.
  - intros E. apply (inj (app (str "http-v3:"))) in E. apply cut_unique in E as [E1 E]; [|done..]. apply (inj (app (str "//"))) in E.
    destruct (pathOf r) as [|c p]; [done|]. destruct (pathOf r') as [|c' p']; [done|]. injection A2 as ->. injection A2' as ->.
    cbn [app] in E. apply cut_unique in E as [E2 E]; [|done..]. apply not_elem_of_cons in A3 as [_ A3]. apply not_elem_of_cons in A3' as [_ A3'].
    destruct (queryOf r) as [l|] eqn:Q, (queryOf r') as [l'|] eqn:Q'; cbn [sameItems].
    + apply cut_unique in E as [-> E]; [|done..]. split_and!; [done..|]. unfold queryOf in Q, Q'. destruct (negb _ || _) in Q; [|done]. destruct (negb _ || _) in Q'; [|done].
      injection Q as <-. injection Q' as <-. by apply sorted_query_eq.
    + exfalso. rewrite app_nil_r in E. apply A3'. rewrite <- E. set_solver.
    + exfalso. rewrite app_nil_r in E. apply A3. rewrite E. set_solver.
    + rewrite !app_nil_r in E. by subst.
  - intros (-> & -> & -> & Hq). do 5 f_equal. unfold queryOf in *. destruct (negb _ || _); destruct (negb _ || _); cbn [sameItems] in Hq; try done. apply (sorted_query_eq 38) in Hq. by rewrite Hq.
Qed.

(** C18: the cache key identifies the resource.  It does not change when the
    request is put into its canonical form; two parsed requests have the same
    key exactly when they agree on the scheme, the authority, the path, the
    presence of a query, and the query items up to order; and what a shared
    fill sends to the origin is the same for any two requests that agree on
    the method, the URL, the scheme and the headers that are kept: it depends
    neither on the peer nor on its trace identifiers, and carries none of the
    headers that name the client.  The context holds no empty scheme. *)
Theorem cache_key_canonical r r' target :
  rq_public r <> Some [] -> rq_public r' <> Some [] ->
  CacheKey (NormalizePublicRequest r) = CacheKey r /\
  (parsedRequest r -> parsedRequest r' ->
   (CacheKey r = CacheKey r' <-> (forwarding r).2 = (forwarding r').2 /\ authorityOf r = authorityOf r' /\ pathOf r = pathOf r' /\ sameItems (queryOf r) (queryOf r'))) /\
  (rq_Method r = rq_Method r' -> rq_Host r = rq_Host r' -> rq_URL r = rq_URL r' -> rq_RequestURI r = rq_RequestURI r' -> rq_Close r = rq_Close r' ->
   (forwarding r).2 = (forwarding r').2 -> (forall k, publicHeader (rq_Header r) k = publicHeader (rq_Header r') k) ->
   upstreamRequest target (NormalizePublicRequest r) = upstreamRequest target (NormalizePublicRequest r')) /\
  (forall k, k ∈ map CanonicalHeaderKey publicNames -> rq_Header (upstreamRequest target (NormalizePublicRequest r)) !! k = None).
Proof.
  intros Hp Hp'. assert (rq_public (NormalizePublicRequest r) <> Some []) as Hn.
  { pose proof (forwarding_scheme r Hp) as Hs. unfold NormalizePublicRequest. destruct (forwarding r) as [[chain ip] scheme]. cbn in *. congruence. }
  split_and!.
  - rewrite !CacheKey_with, forwarding_public by done. cbn [snd]. unfold NormalizePublicRequest. by destruct (forwarding r) as [[chain ip] scheme].
  - by apply CacheKey_parts.
  - intros E1 E2 E3 E4 E5 Es Hk. by rewrite (normalize_ext r r').
  - intros k Hk. rewrite upstream_lookup. unfold upstreamHeader. rewrite forwarding_public. cbn [fst snd bool_decide].
    assert (forall n, CanonicalHeaderKey (str n) ∉ map CanonicalHeaderKey publicNames -> bool_decide (CanonicalHeaderKey (str n) = k) = false) as X by (intros n Hx; apply bool_decide_eq_false_2; intros <-; by destruct Hx).
    rewrite !X by (apply (bool_decide_eq_false _); vm_compute; reflexivity). cbn [negb andb]. rewrite normalize_lookup by done. by destruct (_ || _).
Qed.
End Proxy.

(** Addresses as bytes: two trusted proxies, 110 and 111. *)
Abbreviation exParse := (fun s : bytes => match s with [a] => if (a =? 110) || (a =? 111) || (a =? 99) then Some a else None | _ => None end).
Abbreviation exTrusted := [fun a : Z => a =? 110; fun a => a =? 111].
Abbreviation exHeader := ({[ CanonicalHeaderKey (str "X-Forwarded-For") := [[77]; [99; 44; 111]]; str "Te" := [str "trailers"]; str "Accept" := [[42]] ]} : Header).
Abbreviation exRequest := (mkRequest (str "GET") (str "h") (mkURL [] [] (str "/a") (str "b&a") false) exHeader [110] false None [] false).
Abbreviation exRequest' := (mkRequest (str "GET") (str "h") (mkURL [] [] (str "/a") (str "a&b") false) exHeader [110] false None [] false).
Abbreviation exForwarding := (forwarding exParse (fun a => a) (fun a : Z => [a]) exTrusted Some Some).


Lemma cache_key_canonical_witness :
  CacheKey exParse (fun a => a) (fun a : Z => [a]) exTrusted Some Some exRequest = CacheKey exParse (fun a => a) (fun a : Z => [a]) exTrusted Some Some exRequest'.
Proof.
  destruct (cache_key_canonical exParse (fun a => a) (fun a : Z => [a]) exTrusted Some Some (fun _ u => u) exRequest exRequest' []) as (_ & H & _); [discriminate|discriminate|].
  apply H.
  - split_and!; [apply (bool_decide_eq_false _); vm_compute; reflexivity|vm_compute; reflexivity|apply (bool_decide_eq_false _); vm_compute; reflexivity|discriminate].
  - split_and!; [apply (bool_decide_eq_false _); vm_compute; reflexivity|vm_compute; reflexivity|apply (bool_decide_eq_false _); vm_compute; reflexivity|discriminate].
  - split_and!; [vm_compute; reflexivity..|vm_compute; apply perm_swap].
Defined.
