(* ===== verification/Upstream.v ===== *)
(** * Requests in flight to an origin

    [roundTrip] of [proxy/limits.go] and [trackedBody] of [proxy/proxy.go]: a
    request to an origin takes a slot of the origin's limiter before the
    round trip and gives it back when the round trip fails, or when its body
    ends, fails or is closed.  Requests of the same origin interleave freely;
    the machine refines the machine of [Budget]. *)

From S2P Require Import Prelude Budget.

(** The counters of the proxy. *)
Record counters : Type := mkCounters { n_requests : Z; n_errors : Z; n_bytes : Z; n_ttfb : Z }.
Definition addRequest (n : counters) : counters := mkCounters (u64 (n_requests n + 1)) (n_errors n) (n_bytes n) (n_ttfb n).
Definition addError (n : counters) : counters := mkCounters (n_requests n) (u64 (n_errors n + 1)) (n_bytes n) (n_ttfb n).
Definition addBytes (d : Z) (n : counters) : counters := mkCounters (n_requests n) (n_errors n) (u64 (n_bytes n + d)) (n_ttfb n).
Definition addTTFB (n : counters) : counters := mkCounters (n_requests n) (n_errors n) (n_bytes n) (u64 (n_ttfb n + 1)).

(** Where a request is.  [Body ended total] has its response: [ended] is the
    state of [once], [total] the bytes its body returned. *)
Inductive call : Type :=
  | Acquiring (t : pc)
  | RoundTripping
  | Body (ended : bool) (total : Z)
  | Failed.

(** The outcome of an action of the transport or the body. *)
Inductive outcome : Type :=
  | Admission (ctxErr : option error) (p : pick)   (** an action of [Acquire] *)
  | RoundTrip (err : option error)
  | Read (n : Z) (err : option error)
  | CloseBody.

(** [release()]: the slot goes back. *)
Definition releaseSlot (l : Limiter) : option Limiter := c ← recv (l_slots l); Some (set_slots c l).

(** [once.Do(done)] *)
Definition finishBody (ended : bool) (l : Limiter) : option Limiter := if ended then Some l else releaseSlot l.

(** One action of [roundTrip], [trackedBody.Read] or [trackedBody.Close]. *)
Definition callStep (o : outcome) (l : Limiter) (n : counters) (c : call) : option (Limiter * counters * call) :=
  match c, o with
  | Acquiring t, Admission ctxErr p =>
      '(l, t) ← match t with Held => None | _ => acquireStep ctxErr p l t end;
      match t with
      | Held => Some (l, addRequest n, RoundTripping)
      | Done _ => Some (l, n, Failed)
      | _ => Some (l, n, Acquiring t)
      end
  | RoundTripping, RoundTrip (Some _) => l ← releaseSlot l; Some (l, addError n, Failed)
  | RoundTripping, RoundTrip None => Some (l, addTTFB n, Body false 0)
  | Body ended total, Read k err =>
      if k <? 0 then None
      else
        let n := if 0 <? k then addBytes k n else n in
        let n := match err with Some e => if bool_decide (e = ErrEOF) then n else addError n | None => n end in
        match err with
        | Some _ => l ← finishBody ended l; Some (l, n, Body true (total + k))
        | None => Some (l, n, Body ended (total + k))
        end
  | Body ended total, CloseBody => l ← finishBody ended l; Some (l, n, Body true total)
  | _, _ => None
  end.

Record origin : Type := mkOrigin { o_l : Limiter; o_n : counters; o_calls : list call }.

Inductive o_step : origin -> origin -> Prop :=
  | o_call l n cs : o_step (mkOrigin l n cs) (mkOrigin l n (cs ++ [Acquiring AcquireEnter]))
  | o_run l n cs (i : nat) c o l' n' c' :
      cs !! i = Some c -> callStep o l n c = Some (l', n', c') -> o_step (mkOrigin l n cs) (mkOrigin l' n' (<[i := c']> cs)).

(** ** Refinement of the limiter *)

(** What the limiter sees of a request. *)
Definition view (c : call) : pc :=
  match c with Acquiring t => t | RoundTripping | Body false _ => Held | Body true _ | Failed => Done (Ok tt) end.

(** A slot is held from admission to the end of the body. *)
Definition inFlight (c : call) : Z := match c with Acquiring t => holdsSlot t | RoundTripping | Body false _ => 1 | Body true _ | Failed => 0 end.

Lemma view_holds c : holdsSlot (view c) = inFlight c.
Proof. by destruct c as [t| |[]|]. Qed.

(** Requests that ended look alike to the limiter. *)
Definition similar (t t' : pc) : Prop := match t, t' with Done _, Done _ => True | _, _ => t = t' end.
Definition simulated (y : origin) (z : system) : Prop := sys_l z = o_l y /\ Forall2 (fun c t => similar (view c) t) (o_calls y) (sys_callers z).

Lemma similar_refl t : similar t t.
Proof. by destruct t. Qed.
Lemma similar_eq t t' : similar t t' -> (forall r, t <> Done r) -> t' = t.
Proof. destruct t, t'; cbn; intros; try done; naive_solver. Qed.

Lemma callStep_sim o l n c l' n' c' : callStep o l n c = Some (l', n', c') ->
  (l' = l /\ similar (view c') (view c)) \/
  exists ctxErr p t', (forall r, view c <> Done r) /\ acquireStep ctxErr p l (view c) = Some (l', t') /\ similar (view c') t'.
Proof.
  intros E. destruct c as [t| |ended total|], o as [ctxErr p|err|k err|]; try destruct err as [e|]; unfold callStep in E; cbn in E; try done; try discriminate E.
  - right. destruct (match t with Held => None | _ => acquireStep ctxErr p l t end) as [[l1 t1]|] eqn:E1; [|done]. cbn in E. exists ctxErr, p, t1.
    assert (acquireStep ctxErr p l t = Some (l1, t1) /\ forall r, t <> Done r) as [E2 Hd] by (destruct t; done). cbn [view]. destruct t1; simplify_eq; split_and!; done.
  - right. exists None, PickSlot, (Done (Ok tt)). unfold releaseSlot in E. destruct (recv (l_slots l)) as [s|] eqn:Er; [|done]. cbn in E. simplify_eq. cbn. by rewrite Er.
  - simplify_eq. by left.
  - destruct (k <? 0); [done|]. destruct ended; cbn in E; [simplify_eq; by left|]. right. exists None, PickSlot, (Done (Ok tt)).
    unfold releaseSlot in E. destruct (recv (l_slots l)) as [s|] eqn:Er; [|done]. cbn in E. simplify_eq. cbn. by rewrite Er.
  - destruct (k <? 0); [done|]. simplify_eq. left. split; [done|]. apply similar_refl.
  - destruct ended; cbn in E; [simplify_eq; by left|]. right. exists None, PickSlot, (Done (Ok tt)). unfold releaseSlot in E. destruct (recv (l_slots l)) as [s|] eqn:Er; [|done]. cbn in E. simplify_eq. cbn. by rewrite Er.
Qed.

Lemma sim_step y y' z : simulated y z -> o_step y y' -> exists z', rtc sys_step z z' /\ simulated y' z'.
Proof.
  intros [Hl Hf] St. destruct z as [lz ts]. cbn in *. subst lz. destruct St as [l n cs|l n cs i c o l' n' c' Hi E]; cbn in *.
  - exists (mkSystem l (ts ++ [AcquireEnter])). split; [apply rtc_once, sys_call; by left|]. split; [done|]. apply Forall2_app; [done|]. by repeat constructor.
  - destruct (Forall2_lookup_l _ _ _ _ _ Hf Hi) as (t & Ht & Hs). destruct (callStep_sim _ _ _ _ _ _ _ E) as [[-> Hv]|(ctxErr & p & t' & Hd & Ea & Hv)].
    + exists (mkSystem l ts). split; [done|]. split; [done|]. cbn. rewrite <- (list_insert_id ts i t Ht). apply Forall2_insert; [done|].
      destruct (view c'), (view c), t; cbn in *; congruence || done.
    + apply similar_eq in Hs as ->; [|done]. exists (mkSystem l' (<[i := t']> ts)). split; [apply rtc_once; by eapply sys_run|]. split; [done|]. by apply Forall2_insert.
Qed.

Lemma sim_reachable active queued y : rtc o_step (mkOrigin (New active queued) (mkCounters 0 0 0 0) []) y ->
  exists z, rtc sys_step (mkSystem (New active queued) []) z /\ simulated y z.
Proof.
  intros Hr. remember (mkOrigin (New active queued) (mkCounters 0 0 0 0) []) as y0 eqn:E0.
  assert (exists z0, rtc sys_step (mkSystem (New active queued) []) z0 /\ simulated y0 z0) as (z0 & Hz0 & S0) by (exists (mkSystem (New active queued) []); subst; split; [done|split; [done|constructor]]).
  clear E0. revert z0 Hz0 S0. induction Hr as [|y1 y2 y3 Hs Hr IH]; intros z0 Hz0 S0; [eauto|].
  destruct (sim_step _ _ _ S0 Hs) as (z1 & Hz1 & S1). apply (IH z1); [by etrans|done].
Qed.

Lemma sim_sum y z (f : pc -> Z) : (forall t t', similar t t' -> f t = f t') -> simulated y z -> sumZ f (sys_callers z) = sumZ (fun c => f (view c)) (o_calls y).
Proof. intros Hf [_ F]. induction F as [|c t cs ts Hs F IH]; cbn; [done|]. by rewrite IH, (Hf _ _ Hs). Qed.

(** ** Statistics *)

Definition bodyBytes (c : call) : Z := match c with Body _ total => total | _ => 0 end.

Lemma callStep_bytes o l n c l' n' c' : callStep o l n c = Some (l', n', c') ->
  u64 (n_bytes n') = u64 (n_bytes n + (bodyBytes c' - bodyBytes c)) /\ 0 <= bodyBytes c' - bodyBytes c.
Proof.
  intros E. destruct c as [t| |ended total|], o as [ctxErr p|err|k err|]; try destruct err as [e|]; unfold callStep in E; cbn in E; try done; try discriminate E.
  - destruct (match t with Held => None | _ => acquireStep ctxErr p l t end) as [[l1 t1]|]; [|done]. cbn in E. destruct t1; simplify_eq; cbn; split; f_equal; lia.
  - destruct (releaseSlot l); [|done]. cbn in E. simplify_eq. cbn. split; [f_equal|]; lia.
  - simplify_eq. cbn. split; [f_equal|]; lia.
  - destruct (k <? 0) eqn:Ek; [done|]. b2p. destruct (finishBody ended l); [|done]. cbn in E. simplify_eq. cbn [bodyBytes]. split; [|lia].
    assert (forall m, n_bytes (if bool_decide (e = ErrEOF) then m else addError m) = n_bytes m) as -> by (intros; by destruct (bool_decide _)).
    destruct (0 <? k) eqn:Ek0; b2p; cbn; unfold u64; rewrite ?Zmod_mod; f_equal; lia.
  - destruct (k <? 0) eqn:Ek; [done|]. b2p. simplify_eq. cbn [bodyBytes]. split; [|lia]. destruct (0 <? k) eqn:Ek0; b2p; cbn; unfold u64; rewrite ?Zmod_mod; f_equal; lia.
  - destruct (finishBody ended l); [|done]. cbn in E. simplify_eq. cbn. split; [f_equal|]; lia.
Qed.

Lemma bytes_exact active queued y : rtc o_step (mkOrigin (New active queued) (mkCounters 0 0 0 0) []) y -> u64 (n_bytes (o_n y)) = u64 (sumZ bodyBytes (o_calls y)).
Proof.
  intros Hr. remember (mkOrigin (New active queued) (mkCounters 0 0 0 0) []) as y0 eqn:E0.
  assert (u64 (n_bytes (o_n y0)) = u64 (sumZ bodyBytes (o_calls y0))) as I0 by (by subst). clear E0.
  induction Hr as [|y1 y2 y3 Hs Hr IH]; [done|]. apply IH. destruct Hs as [l n cs|l n cs i c o l' n' c' Hi E]; cbn in *.
  - rewrite sumZ_app. cbn. by rewrite I0, !Z.add_0_r.
  - rewrite (sumZ_list_insert _ _ _ _ _ Hi). destruct (callStep_bytes _ _ _ _ _ _ _ E) as [-> _]. unfold u64 in *. rewrite <- Zplus_mod_idemp_l, I0, Zplus_mod_idemp_l. f_equal. lia.
Qed.

(** ** Properties *)

(** C20: in every interleaving, the slots of an origin are held exactly by the
    requests between admission and the end of their body, and there are at
    most [Requests] of them and at most [Queued] waiting; a failed round
    trip, the end or failure of a body and its close give the slot back once
    and never block, also when a body is closed after it ended or closed
    twice; and the byte counter is the total the bodies returned. *)
Theorem origin_slots_exact active queued y :
  0 <= active -> 0 <= queued -> rtc o_step (mkOrigin (New active queued) (mkCounters 0 0 0 0) []) y ->
  InFlight (stats (o_l y)) = sumZ inFlight (o_calls y) /\ InFlight (stats (o_l y)) <= active /\ Queued (stats (o_l y)) <= queued /\
  u64 (n_bytes (o_n y)) = u64 (sumZ bodyBytes (o_calls y)) /\
  forall i c, o_calls y !! i = Some c ->
    match c with
    | RoundTripping => forall e, exists l' n', callStep (RoundTrip (Some e)) (o_l y) (o_n y) c = Some (l', n', Failed) /\ InFlight (stats l') = InFlight (stats (o_l y)) - 1
    | Body ended total => forall o, o = CloseBody \/ (exists k e, 0 <= k /\ o = Read k (Some e)) ->
        exists l' n' total', callStep o (o_l y) (o_n y) c = Some (l', n', Body true total') /\ InFlight (stats l') = InFlight (stats (o_l y)) - (if ended then 0 else 1)
    | _ => True
    end.
Proof.
  intros Ha Hq Hr. destruct (sim_reachable _ _ _ Hr) as (z & Hz & S). pose proof (bytes_exact _ _ _ Hr) as Hb. destruct (sys_inv _ _ _ Ha Hq Hz) as (I1 & I2 & I3 & I4 & I5 & I6).
  pose proof (sim_sum y z holdsSlot ltac:(intros t t' Hs; destruct t, t'; cbn in Hs; congruence || done) S) as Hs. destruct S as [Hl _]. rewrite Hl in *.
  rewrite (sumZ_ext (fun c => holdsSlot (view c)) inFlight) in Hs by (intros c _; apply view_holds). unfold stats. cbn [InFlight Queued]. split_and!; try lia; try done.
  intros i c Hi. assert (forall x, 0 <= inFlight x) as Hn by (intros x; rewrite <- view_holds; apply holds_range).
  assert (inFlight c = 1 -> exists l', releaseSlot (o_l y) = Some l' /\ c_len (l_slots l') = c_len (l_slots (o_l y)) - 1) as Hrel.
  { intros H1. pose proof (sumZ_holder inFlight _ _ _ Hn Hi). unfold releaseSlot, recv. replace (0 <? _) with true by lia. cbn. eauto. }
  destruct c as [t| |ended total|]; try done.
  - intros e. destruct (Hrel eq_refl) as (l' & E & H). cbn. rewrite E. cbn. eauto.
  - intros o Ho. assert (exists l', finishBody ended (o_l y) = Some l' /\ c_len (l_slots l') = c_len (l_slots (o_l y)) - (if ended then 0 else 1)) as (l' & E & H).
    { destruct ended; [exists (o_l y); split; [done|lia]|]. exact (Hrel eq_refl). }
    destruct Ho as [->|(k & e & Hk & ->)]; cbn; [rewrite E; cbn; eauto|]. replace (k <? 0) with false by lia. rewrite E. cbn. eauto.
Qed.

(** A request whose body was read to its end and then closed, and one that
    still reads. *)
Abbreviation halfDone := (mkOrigin (mkLimiter (mkChan 1 2) (mkChan 0 0) 0) (mkCounters 2 0 7 2) [Body true 5; Body false 2]).

Lemma halfDone_reachable : rtc o_step (mkOrigin (New 2 0) (mkCounters 0 0 0 0) []) halfDone.
Proof.
  eapply rtc_l; [apply o_call|cbn]. eapply rtc_l; [apply o_call|cbn].
  eapply rtc_l; [apply (o_run _ _ _ 0%nat (Acquiring AcquireEnter) (Admission None PickSlot)); reflexivity|cbn].
  eapply rtc_l; [apply (o_run _ _ _ 0%nat (Acquiring AcquireTry) (Admission None PickSlot)); reflexivity|cbn].
  eapply rtc_l; [apply (o_run _ _ _ 1%nat (Acquiring AcquireEnter) (Admission None PickSlot)); reflexivity|cbn].
  eapply rtc_l; [apply (o_run _ _ _ 1%nat (Acquiring AcquireTry) (Admission None PickSlot)); reflexivity|cbn].
  eapply rtc_l; [apply (o_run _ _ _ 0%nat RoundTripping (RoundTrip None)); reflexivity|cbn].
  eapply rtc_l; [apply (o_run _ _ _ 1%nat RoundTripping (RoundTrip None)); reflexivity|cbn].
  eapply rtc_l; [apply (o_run _ _ _ 1%nat (Body false 0) (Read 2 None)); reflexivity|cbn].
  eapply rtc_l; [apply (o_run _ _ _ 0%nat (Body false 0) (Read 5 (Some ErrEOF))); reflexivity|cbn].
  eapply rtc_l; [apply (o_run _ _ _ 0%nat (Body true 5) CloseBody); reflexivity|cbn]. apply rtc_refl.
Qed.

Lemma origin_slots_exact_witness : InFlight (stats (o_l halfDone)) = sumZ inFlight (o_calls halfDone) /\ InFlight (stats (o_l halfDone)) <= 2.
Proof. destruct (origin_slots_exact 2 0 halfDone ltac:(lia) ltac:(lia) halfDone_reachable) as (H1 & H2 & _). exact (conj H1 H2). Defined.
