(* ===== verification/HTTPProxy.v ===== *)
(** * The proxy: construction, routes and reloads

    [HTTPProxy] of [proxy/proxy.go] with its options, [NewHTTPProxy], the
    choice of an origin, the life of the health checker, and the part of
    [Server.Reload] that builds the runtime of a new configuration.  Parsers,
    files, certificates and digests are parameters of which nothing is
    assumed; the third-party consistent hash is the one of [Balancer]. *)

From S2P Require Import Prelude HttpInfo HttpText Budget Config Balancer.

(** ** The registered balancers *)

Section Factories.
Context {C : Type} (ch_New : C) (ch_Add ch_Remove : bytes -> C -> C) (ch_Hosts : C -> list bytes) (ch_Get : bytes -> C -> result bytes).

#[local] Instance consistent_instance : BalancerOps (@Consistent C) := Consistent_ops ch_Add ch_Remove ch_Hosts ch_Get.

(** A [Balancer] made by one of the two factories. *)
Inductive AnyBalancer : Type := OfConsistent (b : @Consistent C) | OfRoundRobin (b : RoundRobin).

Definition AnyBalancer_ops : BalancerOps AnyBalancer := {|
  Add h b := match b with OfConsistent b => OfConsistent (Add h b) | OfRoundRobin b => OfRoundRobin (Add h b) end;
  Remove h b := match b with OfConsistent b => OfConsistent (Remove h b) | OfRoundRobin b => OfRoundRobin (Remove h b) end;
  Balance k b := match b with
                 | OfConsistent b => let '(b, r) := Balance k b in (OfConsistent b, r)
                 | OfRoundRobin b => let '(b, r) := Balance k b in (OfRoundRobin b, r)
                 end;
  hostsOf b := match b with OfConsistent b => hostsOf b | OfRoundRobin b => hostsOf b end |}.

Definition Build (algorithm : bytes) (hosts : list bytes) : result AnyBalancer :=
  if bool_decide (algorithm = str "consistent-hash") then Ok (OfConsistent (NewConsistent ch_Add ch_New hosts))
  else if bool_decide (algorithm = str "round-robin") then Ok (OfRoundRobin (NewRoundRobin hosts))
  else Err AlgorithmNotSupportedError.

Lemma AnyBalancer_laws : ConsistentSpec ch_Add ch_Remove ch_Hosts ch_Get -> @BalancerLaws AnyBalancer AnyBalancer_ops.
Proof.
  intros S. pose proof (Consistent_laws _ _ _ _ S : BalancerLaws (@Consistent C)) as L.
  split; intros; repeat match goal with b : AnyBalancer |- _ => destruct b end; cbn [AnyBalancer_ops Add Remove hostsOf Balance] in *;
    try (apply Add_hosts); try (by apply Remove_hosts); try (by apply Add_NoDup); try (by apply Remove_NoDup).
  1, 2: pose proof (Balance_hosts k b) as H; by destruct (Balance k b).
  1, 2: pose proof (Balance_result k b) as H; by destruct (Balance k b).
Qed.

Lemma Build_hosts algorithm hosts b : ConsistentSpec ch_Add ch_Remove ch_Hosts ch_Get -> ch_Hosts ch_New = [] -> NoDup hosts -> Build algorithm hosts = Ok b ->
  NoDup (@hostsOf _ AnyBalancer_ops b) /\ forall x, x ∈ @hostsOf _ AnyBalancer_ops b <-> x ∈ hosts.
Proof.
  intros S Hnew Hn. unfold Build. destruct (bool_decide _).
  - intros [= <-]. cbn. split; [apply (ch_unique _ _ _ _ S)|]. intros x.
    assert (forall hs c, x ∈ ch_Hosts (foldl (fun c h => ch_Add h c) c hs) <-> x ∈ ch_Hosts c \/ x ∈ hs) as G.
    { induction hs as [|h hs IH]; intros c; cbn; [set_solver|]. rewrite IH, (ch_Add_elem _ _ _ _ S). set_solver. }
    rewrite G, Hnew. set_solver.
  - destruct (bool_decide _); [|done]. intros [= <-]. done.
Qed.

Lemma Build_ok algorithm hosts : algorithmKnown algorithm = true -> exists b, Build algorithm hosts = Ok b.
Proof. unfold algorithmKnown, Build. destruct (bool_decide _); [eauto|]. cbn. intros ->. eauto. Qed.
End Factories.

(** ** The proxy *)

Section Proxy.
Context {Prefix B : Type} {BO : BalancerOps B} {BL : BalancerLaws B} (build : bytes -> list bytes -> result B).
Context (Parse : bytes -> option URL) (URLString URLHost : URL -> bytes) (HasPort : bytes -> bool) (ParseRequestURI : bytes -> option RequestURI) (ParsePrefix : bytes -> option Prefix).
Context (ReadFile : bytes -> result bytes) (IsNotExist : error -> bool) (SystemCertPool : result unit) (HasCerts : bytes -> bool) (Sum256 : bytes -> bytes).
(** The digest of the JSON of the routing policy, and of file contents. *)
Context (Namespace : list bytes -> bytes -> list Prefix -> bytes -> bytes) (FilesDigest : list (option bytes) -> bytes) (StoragePath : bytes -> bytes).

(** [HTTPProxy].  [p_checkers] counts the health checkers started
    ([healthCancel] is set by the first), [p_checking] says that one has not
    been joined, [p_cancelled] is the state of [ctx]. *)
Record HTTPProxy : Type := mkProxy {
  p_limits : Limits; p_budgets : list (bytes * Limiter); p_customTransport : bool; p_caDigest : bytes; p_roots : bool; p_trustedProxies : list Prefix;
  p_cacheNamespace : bytes; p_upstreams : list bytes; p_algorithm : bytes; p_targets : gmap bytes URL; p_lb : option B; p_alive : gmap bytes bool;
  p_checkers : Z; p_checking : bool; p_healthStopped : bool; p_cancelled : bool }.

Definition emptyProxy : HTTPProxy := mkProxy DefaultLimits [] false [] false [] [] [] [] ∅ None ∅ 0 false false false.

(** *** Options *)

Inductive Option : Type :=
  | WithTransport (transport : bool)   (** is the transport given *)
  | WithTrustedProxies (networks : list bytes)
  | WithCAFile (path : bytes)
  | WithLimits (l : Limits).

Fixpoint parsePrefixes (networks : list bytes) (trusted : list Prefix) : result (list Prefix) :=
  match networks with
  | [] => Ok trusted
  | n :: networks => match ParsePrefix n with None => Err (Errorf "trusted proxy") | Some p => parsePrefixes networks (trusted ++ [p]) end
  end.

(** The roots and the digest of a CA file. *)
Definition loadCA (path : bytes) : result bytes :=
  data ← ReadFile path; _ ← SystemCertPool; _ ← guarde (HasCerts data) (Errorf "upstream CA file contains no certificates"); Ok (Sum256 data).

Definition applyOption (o : Option) (h : HTTPProxy) : result HTTPProxy :=
  let set custom ca roots trusted limits :=
    mkProxy limits (p_budgets h) custom ca roots trusted (p_cacheNamespace h) (p_upstreams h) (p_algorithm h) (p_targets h) (p_lb h) (p_alive h)
      (p_checkers h) (p_checking h) (p_healthStopped h) (p_cancelled h) in
  match o with
  | WithTransport given => _ ← guarde given (Errorf "upstream transport is nil"); Ok (set true (p_caDigest h) (p_roots h) (p_trustedProxies h) (p_limits h))
  | WithTrustedProxies networks => t ← parsePrefixes networks (p_trustedProxies h); Ok (set (p_customTransport h) (p_caDigest h) (p_roots h) t (p_limits h))
  | WithCAFile path => if bool_decide (path = []) then Ok h else d ← loadCA path; Ok (set (p_customTransport h) d true (p_trustedProxies h) (p_limits h))
  | WithLimits l => Ok (set (p_customTransport h) (p_caDigest h) (p_roots h) (p_trustedProxies h) l)
  end.

Fixpoint applyOptions (os : list Option) (h : HTTPProxy) : result HTTPProxy :=
  match os with [] => Ok h | o :: os => h ← applyOption o h; applyOptions os h end.

(** *** Construction *)

Definition GetHost (u : URL) : bytes :=
  if HasPort (URLHost u) then URLHost u
  else if bool_decide (u_Scheme u = str "http") then URLHost u ++ str ":80"
  else if bool_decide (u_Scheme u = str "https") then URLHost u ++ str ":443"
  else URLHost u.

Definition originKey (u : URL) : bytes := ToLower (u_Scheme u) ++ str "://" ++ ToLower (GetHost u).

(** The loop over the configured targets: [targets], [alive] and [hosts]. *)
Fixpoint addTargets (raws : list bytes) (targets : gmap bytes URL) (alive : gmap bytes bool) (hosts : list bytes) : result (gmap bytes URL * gmap bytes bool * list bytes) :=
  match raws with
  | [] => Ok (targets, alive, hosts)
  | raw :: raws =>
      match Parse raw with
      | None => Err (Errorf "parse")
      | Some u =>
          _ ← checkTarget u;
          let key := URLString u in
          match targets !! key with
          | Some _ => addTargets raws targets alive hosts
          | None => addTargets raws (<[key := u]> targets) (<[key := true]> alive) (hosts ++ [key])
          end
      end
  end.

Definition originKeys (targets : gmap bytes URL) : list bytes := map (fun kv => originKey kv.2) (map_to_list targets).

Definition NewHTTPProxy (targetHosts : list bytes) (algorithm : bytes) (options : list Option) : result HTTPProxy :=
  h ← applyOptions options emptyProxy;
  '(targets, alive, hosts) ← addTargets targetHosts ∅ ∅ [];
  _ ← guarde (bool_decide (hosts <> [])) (Errorf "at least one upstream is required");
  lb ← build algorithm hosts;
  '(limits, budgets) ← ConfigureLimits (p_customTransport h) (p_roots h) (originKeys targets) (p_limits h);
  Ok (mkProxy limits budgets (p_customTransport h) (p_caDigest h) (p_roots h) (p_trustedProxies h)
        (Namespace hosts algorithm (p_trustedProxies h) (p_caDigest h)) hosts algorithm targets (Some lb) alive 0 false false false).

(** *** Use *)

Definition Reloadable (h : HTTPProxy) : bool := negb (p_customTransport h).

(** The limiter [roundTrip] takes a slot of; [None] is a nil dereference. *)
Definition originLimiter (h : HTTPProxy) (host : bytes) : option Limiter :=
  u ← p_targets h !! host; snd <$> find (fun kl => bool_decide (kl.1 = originKey u)) (p_budgets h).

(** [SelectOrigin] for a cache key, on the balancer [lb] holds now. *)
Definition SelectOrigin (key : bytes) (lb : B) : B * result bytes := Balance key lb.

(** *** The health checker *)

Definition pathOk (path : bytes) : bool :=
  match ParseRequestURI path with
  | None => false
  | Some u => negb (ri_IsAbs u) && bool_decide (ri_Host u = []) && bool_decide (head path = Some 47) && bool_decide (ri_Fragment u = [])
  end.

Definition setHealth (checkers : Z) (checking stopped cancelled : bool) (h : HTTPProxy) : HTTPProxy :=
  mkProxy (p_limits h) (p_budgets h) (p_customTransport h) (p_caDigest h) (p_roots h) (p_trustedProxies h) (p_cacheNamespace h) (p_upstreams h) (p_algorithm h)
    (p_targets h) (p_lb h) (p_alive h) checkers checking stopped cancelled.

Definition StartHealthChecks (c : HealthConfig) (h : HTTPProxy) : HTTPProxy * result unit :=
  match ValidateHealth pathOk c with
  | Err e => (h, Err e)
  | Ok _ =>
      if hc_Interval c =? 0 then (h, Ok tt)
      else if p_healthStopped h then (h, Err (Errorf "health checks already stopped"))
      else if 0 <? p_checkers h then (h, Err (Errorf "health checks already started"))
      else (setHealth (p_checkers h + 1) true (p_healthStopped h) (p_cancelled h) h, Ok tt)
  end.

Definition HealthCheck (interval : Z) (h : HTTPProxy) : HTTPProxy :=
  if (interval =? 0) || (86400 <? interval) then h
  else (StartHealthChecks (mkHealth (i64 (interval * Second)) (3 * Second) 2 2 []) h).1.

Definition StopBackground (h : HTTPProxy) : HTTPProxy := setHealth (p_checkers h) false true (p_cancelled h) h.
Definition Close (h : HTTPProxy) : HTTPProxy := let h := StopBackground h in setHealth (p_checkers h) (p_checking h) (p_healthStopped h) true h.

(** ** Reloads ([server/runtime.go]) *)

Definition healthConfig (c : Config) : HealthConfig :=
  mkHealth (seconds c HealthCheckInterval) (seconds c HealthCheckTimeout) (c_int c HealthCheckFailures) (c_int c HealthCheckSuccesses) (HealthCheckPath c).
Definition startHealth (c : Config) (h : HTTPProxy) : HTTPProxy * result unit := StartHealthChecks (healthConfig c) h.

(** [restartConfig]: the strings and the integers a reload may not change. *)
Definition restartSettings (c : Config) : list bytes * list Z :=
  ([ConfigDir c; LogfileDir c; AccessLogFilename c; ErrorLogFilename c; TLSCertFile c; TLSKeyFile c; PurgeToken c; RAMCacheAlgorithm c],
   map (c_int c) [ServerPort; MaxClientConnections; RequestHeaderTimeout; KeepAliveTimeout; RAMCacheBytes; SharedFillPublicStatic; RangeBlockBytes]).

(** One file of [runtimeFiles]; [first] is the storage file. *)
Definition readRuntimeFile (first : bool) (path : bytes) : result (option bytes) :=
  if bool_decide (path = []) then Ok None
  else match ReadFile path with
  | Ok data => Ok (Some data)
  | Err e => if first && IsNotExist e then Ok None else Err e
  end.

Definition runtimeFiles (c : Config) : result bytes :=
  a ← readRuntimeFile true (StoragePath (ConfigDir c)); b ← readRuntimeFile false (TLSCertFile c); d ← readRuntimeFile false (TLSKeyFile c);
  Ok (FilesDigest [a; b; d]).

(** The checks of [Reload] up to the new proxy: [startup] and [files] are the
    configuration and the files the server started with. *)
Definition reloadProxy (reloadable : bool) (startup : Config) (files : bytes) (c : Config) : result HTTPProxy :=
  _ ← guarde reloadable (Errorf "custom upstream transport requires restart");
  _ ← guarde (bool_decide (restartSettings c = restartSettings startup)) (Errorf "listener, storage, logging or management authorization changes require restart");
  f ← runtimeFiles c;
  _ ← guarde (bool_decide (f = files)) (Errorf "storage or listener TLS contents changed; restart required");
  NewHTTPProxy (UpstreamTargets c) (UpstreamAlgo c) [WithTrustedProxies (TrustedProxies c); WithCAFile (UpstreamCAFile c)].

(** The runtime of the new proxy; an error closes it. *)
Definition reloadRuntime (c : Config) (h : HTTPProxy) : HTTPProxy * result runtimeLimits :=
  match newRuntime Parse ParseRequestURI (fun n => match ParsePrefix n with Some _ => true | None => false end) (p_customTransport h) (p_roots h) (originKeys (p_targets h)) c with
  | Err e => (Close h, Err e)
  | Ok rl =>
      let h := mkProxy (rl_limits rl) (rl_origins rl) (p_customTransport h) (p_caDigest h) (p_roots h) (p_trustedProxies h) (p_cacheNamespace h) (p_upstreams h)
                 (p_algorithm h) (p_targets h) (p_lb h) (p_alive h) (p_checkers h) (p_checking h) (p_healthStopped h) (p_cancelled h) in
      match startHealth (WithDefaults c) h with
      | (h, Ok _) => (h, Ok rl)
      | (h, Err e) => (Close h, Err e)
      end
  end.

(** *** Lemmas *)

(** What construction relies on in the factories. *)
Class FactoryLaws : Prop := {
  build_hosts a hs b : NoDup hs -> build a hs = Ok b -> NoDup (hostsOf b) /\ forall x, x ∈ hostsOf b <-> x ∈ hs;
  build_known a hs : algorithmKnown a = true -> exists b, build a hs = Ok b }.

(** The tables agree, and every target passed the checks. *)
Record tables (targets : gmap bytes URL) (alive : gmap bytes bool) (hosts : list bytes) : Prop := mkTables {
  tb_nodup : NoDup hosts;
  tb_targets k : k ∈ hosts <-> is_Some (targets !! k);
  tb_alive k : alive !! k = if bool_decide (k ∈ hosts) then Some true else None;
  tb_valid k u : targets !! k = Some u -> URLString u = k /\ checkTarget u = Ok tt }.

Lemma tables_empty : tables ∅ ∅ [].
Proof. split; [constructor| |done|done]. intros k. rewrite lookup_empty. split; [by intros ?%not_elem_of_nil|by intros [? ?]]. Qed.

Lemma tables_add targets alive hosts u : tables targets alive hosts -> targets !! URLString u = None -> checkTarget u = Ok tt ->
  tables (<[URLString u := u]> targets) (<[URLString u := true]> alive) (hosts ++ [URLString u]).
Proof.
  intros [Tn Tt Ta Tv] Hnew Hc. assert (URLString u ∉ hosts) as Hnot by (rewrite Tt, Hnew; by intros [? ?]). split.
  - apply NoDup_app. split_and!; [done| |apply NoDup_singleton]. intros x Hx ->%list_elem_of_singleton. done.
  - intros k. rewrite elem_of_app, list_elem_of_singleton. destruct (decide (URLString u = k)) as [<-|Hne]; [rewrite lookup_insert_eq; naive_solver|].
    rewrite lookup_insert_ne, Tt by done. naive_solver.
  - intros k. destruct (decide (URLString u = k)) as [<-|Hne]; [rewrite lookup_insert_eq, bool_decide_eq_true_2; [done|set_solver]|].
    rewrite lookup_insert_ne, Ta by done. replace (bool_decide (k ∈ hosts ++ [URLString u])) with (bool_decide (k ∈ hosts)); [done|]. apply bool_decide_ext. set_solver.
  - intros k v. destruct (decide (URLString u = k)) as [<-|Hne]; [rewrite lookup_insert_eq; intros [= <-]; done|]. rewrite lookup_insert_ne by done. apply Tv.
Qed.

Lemma addTargets_tables raws targets alive hosts targets' alive' hosts' : addTargets raws targets alive hosts = Ok (targets', alive', hosts') -> tables targets alive hosts ->
  tables targets' alive' hosts' /\ forall k, k ∈ hosts' <-> k ∈ hosts \/ exists raw u, raw ∈ raws /\ Parse raw = Some u /\ URLString u = k.
Proof.
  revert targets alive hosts. induction raws as [|raw raws IH]; intros targets alive hosts; cbn [addTargets].
  { intros [= <- <- <-] T. split; [done|]. intros k. split; [by left|]. intros [?|(raw & u & ?%not_elem_of_nil & _)]; done. }
  destruct (Parse raw) as [u|] eqn:Ep; [|done]. intros H T. apply result_bind_Ok in H as ([] & Hc & H).
  destruct (targets !! URLString u) as [v|] eqn:Et.
  - destruct (IH _ _ _ H T) as [T' Hm]. split; [done|]. intros k. rewrite Hm. split; [|].
    + intros [?|(r & w & ? & ?)]; [by left|right; exists r, w; split; [by right|done]].
    + intros [?|(r & w & Hr & Hp & Hk)]; [by left|]. apply elem_of_cons in Hr as [->|Hr]; [|right; by exists r, w].
      left. rewrite Ep in Hp. injection Hp as <-. subst k. apply (tb_targets _ _ _ T). by rewrite Et.
  - destruct (IH _ _ _ H (tables_add _ _ _ _ T Et Hc)) as [T' Hm]. split; [done|]. intros k. rewrite Hm, elem_of_app, list_elem_of_singleton. split.
    + intros [[?| ->]|(r & w & ? & ?)]; [by left|right; exists raw, u; split; [by left|done]|right; exists r, w; split; [by right|done]].
    + intros [?|(r & w & Hr & Hp & Hk)]; [by left; left|]. apply elem_of_cons in Hr as [->|Hr]; [|right; by exists r, w].
      left. right. rewrite Ep in Hp. by injection Hp as <-.
Qed.

Lemma addTargets_ok raws targets alive hosts : firstError (validTarget Parse) raws = Ok tt -> exists r, addTargets raws targets alive hosts = Ok r.
Proof.
  revert targets alive hosts. induction raws as [|raw raws IH]; intros targets alive hosts; cbn [addTargets firstError]; [eauto|].
  intros H. apply result_bind_Ok in H as ([] & Hv & H). unfold validTarget in Hv. destruct (Parse raw) as [u|]; [|done]. rewrite Hv. cbn [mbind result_bind].
  destruct (targets !! URLString u); by apply IH.
Qed.

(** Every target has its limiter. *)
Lemma limiter_found targets requests queued host u (h : HTTPProxy) : p_targets h = targets -> targets !! host = Some u ->
  p_budgets h = map (fun key => (key, New requests queued)) (remove_dups (originKeys targets)) -> originLimiter h host = Some (New requests queued).
Proof.
  intros Ht Hu Hb. unfold originLimiter. rewrite Ht, Hu, Hb. cbn [mbind option_bind].
  assert (originKey u ∈ remove_dups (originKeys targets)) as Hin.
  { rewrite elem_of_remove_dups. unfold originKeys. apply list_elem_of_fmap. exists (host, u). split; [done|]. by apply elem_of_map_to_list. }
  clear Hb. induction (remove_dups (originKeys targets)) as [|k ks IH]; [by apply not_elem_of_nil in Hin|]. cbn [map find fst]. case_bool_decide as E; [done|].
  apply elem_of_cons in Hin as [Hk|Hin]; [by rewrite Hk in E|]. by apply IH.
Qed.

Lemma ConfigureLimits_inv custom roots origins l limits budgets : ConfigureLimits custom roots origins l = Ok (limits, budgets) ->
  1 <= lm_Requests limits /\ 0 <= lm_Queued limits /\ budgets = map (fun key => (key, New (lm_Requests limits) (lm_Queued limits))) (remove_dups origins).
Proof.
  unfold ConfigureLimits. set (d := limitsDefaults l). destruct (_ || _) eqn:E; [done|]. destruct (_ && _); [done|]. intros [= <- <-]. b2p. split_and!; [lia|lia|done].
Qed.

(** The proxy construction returns. *)
Record routes (raws : list bytes) (h : HTTPProxy) (lb : B) : Prop := mkRoutes {
  ro_lb : p_lb h = Some lb;
  ro_tables : tables (p_targets h) (p_alive h) (p_upstreams h);
  ro_some : p_upstreams h <> [];
  ro_all k : k ∈ p_upstreams h <-> exists raw u, raw ∈ raws /\ Parse raw = Some u /\ URLString u = k;
  ro_hosts : NoDup (hostsOf lb) /\ forall x, x ∈ hostsOf lb <-> x ∈ p_upstreams h;
  ro_requests : 1 <= lm_Requests (p_limits h);
  ro_budgets : p_budgets h = map (fun key => (key, New (lm_Requests (p_limits h)) (lm_Queued (p_limits h)))) (remove_dups (originKeys (p_targets h))) }.

Lemma NewHTTPProxy_routes `{FactoryLaws} raws algorithm options h : NewHTTPProxy raws algorithm options = Ok h ->
  (exists lb, routes raws h lb) /\ p_checkers h = 0 /\ p_healthStopped h = false /\ p_checking h = false.
Proof.
  unfold NewHTTPProxy. intros E. apply result_bind_Ok in E as (h0 & _ & E). apply result_bind_Ok in E as ([[targets alive] hosts] & Ht & E).
  apply result_bind_Ok in E as (? & Hg & E). apply result_bind_Ok in E as (lb & Hb & E). apply result_bind_Ok in E as ([limits budgets] & Hc & [= <-]).
  apply guarde_Ok, bool_decide_eq_true in Hg. destruct (addTargets_tables _ _ _ _ _ _ _ Ht tables_empty) as [T Hm]. apply ConfigureLimits_inv in Hc as (H1 & _ & Hb').
  split; [|done]. exists lb. split; cbn; try done.
  - intros k. rewrite Hm. split; [intros [?%not_elem_of_nil|?]; done|by right].
  - exact (build_hosts _ _ _ (tb_nodup _ _ _ T) Hb).
Qed.

(** A target of the proxy can be sent to. *)
Lemma routes_resolve raws h lb host : routes raws h lb -> host ∈ p_upstreams h ->
  exists u, p_targets h !! host = Some u /\ URLString u = host /\ checkTarget u = Ok tt /\ originLimiter h host = Some (New (lm_Requests (p_limits h)) (lm_Queued (p_limits h))).
Proof.
  intros R Hin. apply (tb_targets _ _ _ (ro_tables _ _ _ R)) in Hin as [u Hu]. destruct (tb_valid _ _ _ (ro_tables _ _ _ R) _ _ Hu) as [H1 H2]. exists u.
  split_and!; [done..|]. by apply (limiter_found _ _ _ host u h eq_refl Hu), (ro_budgets _ _ _ R).
Qed.

Lemma routes_alive raws h lb : routes raws h lb -> h_alive (initHealth lb (p_upstreams h)) = p_alive h.
Proof.
  intros R. apply map_eq. intros k. rewrite (tb_alive _ _ _ (ro_tables _ _ _ R)). cbn. induction (p_upstreams h) as [|x l IH]; cbn; [by rewrite lookup_empty|].
  destruct (decide (x = k)) as [->|Hne]; [rewrite lookup_insert_eq, bool_decide_eq_true_2; [done|set_solver]|]. rewrite lookup_insert_ne, IH by done.
  replace (bool_decide (k ∈ x :: l)) with (bool_decide (k ∈ l)); [done|]. apply bool_decide_ext. set_solver.
Qed.

(** *** The checker *)

Inductive healthOp : Type := StartOp (c : HealthConfig) | HealthCheckOp (interval : Z) | StopOp | CloseOp.
Definition healthStep (h : HTTPProxy) (o : healthOp) : HTTPProxy :=
  match o with StartOp c => (StartHealthChecks c h).1 | HealthCheckOp n => HealthCheck n h | StopOp => StopBackground h | CloseOp => Close h end.

(** At most one checker is ever started, and none runs on a proxy that was
    stopped or closed. *)
Definition checkerInv (h : HTTPProxy) : Prop :=
  0 <= p_checkers h <= 1 /\ (p_checking h = true -> p_checkers h = 1 /\ p_healthStopped h = false) /\ (p_cancelled h = true -> p_healthStopped h = true).

Lemma StartHealthChecks_inv c h : checkerInv h -> checkerInv (StartHealthChecks c h).1.
Proof.
  intros I. unfold StartHealthChecks. destruct (ValidateHealth _ _); [|done]. destruct (_ =? 0); [done|]. destruct (p_healthStopped h) eqn:Es; [done|]. destruct (0 <? p_checkers h) eqn:Ec; [done|].
  b2p. destruct I as (I1 & I2 & I3). split_and!; cbn; [lia|lia|intros _; split; [lia|done]|by rewrite <- Es].
Qed.

Lemma health_checker_once os h : checkerInv h -> checkerInv (foldl healthStep h os).
Proof.
  revert h. induction os as [|o os IH]; intros h I; [done|]. apply IH. destruct o as [c|n| |]; cbn [healthStep].
  - by apply StartHealthChecks_inv.
  - unfold HealthCheck. destruct (_ || _); [done|by apply StartHealthChecks_inv].
  - destruct I as ((? & ?) & I2 & I3). by split_and!.
  - destruct I as ((? & ?) & I2 & I3). by split_and!.
Qed.

(** *** Validated configurations *)

Abbreviation prefixOk := (fun n => match ParsePrefix n with Some _ => true | None => false end).

Lemma parsePrefixes_ok networks acc : firstError (fun n => guarde (prefixOk n) (Errorf "invalid trusted proxy network")) networks = Ok tt ->
  exists l, parsePrefixes networks acc = Ok l.
Proof.
  revert acc. induction networks as [|n networks IH]; intros acc; cbn [parsePrefixes firstError]; [eauto|]. intros E. apply result_bind_Ok in E as (? & Hg & E).
  apply guarde_Ok in Hg. destruct (ParsePrefix n); [|done]. by apply IH.
Qed.

Record validated (c : Config) : Prop := mkValidated {
  va_some : UpstreamTargets c <> [];
  va_targets : firstError (validTarget Parse) (UpstreamTargets c) = Ok tt;
  va_algo : algorithmKnown (UpstreamAlgo c) = true;
  va_trusted : firstError (fun n => guarde (prefixOk n) (Errorf "invalid trusted proxy network")) (TrustedProxies c) = Ok tt;
  va_network : Forall (within c) networkFields;
  va_path : pathOk (HealthCheckPath c) = true }.

Lemma Validate_validated c : Validate Parse ParseRequestURI prefixOk c = Ok tt -> validated c.
Proof.
  unfold Validate. intros E. apply result_bind_Ok in E as (? & H1 & E). apply result_bind_Ok in E as ([] & H2 & E). apply result_bind_Ok in E as (? & H3 & E).
  apply result_bind_Ok in E as ([] & H4 & E). apply result_bind_Ok in E as (? & H5 & _). apply guarde_Ok in H1, H3. apply bool_decide_eq_true in H1.
  unfold validateNetwork in H5. apply result_bind_Ok in H5 as (? & _ & H5). apply result_bind_Ok in H5 as (? & H6 & H5). apply checkRows_within in H6.
  split; try done. unfold pathOk. destruct (ParseRequestURI (HealthCheckPath c)); [|done]. by apply guarde_Ok in H5.
Qed.

(** Validation leaves nothing for the checker to refuse. *)
Lemma startHealth_ok c h : validated c -> p_healthStopped h = false -> p_checkers h = 0 ->
  exists h', startHealth c h = (h', Ok tt) /\ p_checking h' = (p_checking h || negb (c_int c HealthCheckInterval =? 0)) /\
    p_targets h' = p_targets h /\ p_upstreams h' = p_upstreams h /\ p_lb h' = p_lb h /\ p_limits h' = p_limits h /\ p_budgets h' = p_budgets h /\ p_alive h' = p_alive h.
Proof.
  intros V Hs Hc. pose proof (va_network _ V) as HN. unfold networkFields in HN.
  apply Forall_cons in HN as [N1 HN]. apply Forall_cons in HN as [N2 HN]. apply Forall_cons in HN as [N3 HN]. apply Forall_cons in HN as [N4 _]. unfold within in *.
  unfold startHealth, StartHealthChecks, ValidateHealth, healthConfig. cbn [hc_Interval hc_Timeout hc_Failures hc_Successes hc_Path]. unfold seconds, Second, Hour.
  rewrite !i64_small by (unfold fits_i64; lia). rewrite (va_path _ V), andb_false_r.
  repeat match goal with |- context [?x <? ?y] => replace (x <? y) with false by (symmetry; apply Z.ltb_ge; lia) end. cbn [orb negb].
  replace (c_int c HealthCheckTimeout * 10 ^ 9 <=? 0) with false by (symmetry; apply Z.leb_gt; lia). cbn [orb].
  replace (c_int c HealthCheckInterval * 10 ^ 9 =? 0) with (c_int c HealthCheckInterval =? 0) by (destruct (c_int c HealthCheckInterval =? 0) eqn:E, (c_int c HealthCheckInterval * 10 ^ 9 =? 0) eqn:E'; b2p; lia || done).
  destruct (c_int c HealthCheckInterval =? 0).
  - exists h. rewrite orb_false_r. done.
  - rewrite Hs. eexists. split; [done|]. cbn. rewrite orb_true_r. done.
Qed.

Lemma fillDefaults_flag rows c : resourceDefaults (fillDefaults rows c) = resourceDefaults c.
Proof. unfold fillDefaults. revert c. induction rows as [|[[[[n f] d] lo] hi] rows IH]; intros c; cbn; [done|]. rewrite IH. by destruct (_ =? 0). Qed.
Lemma WithDefaults_idem c : WithDefaults (WithDefaults c) = WithDefaults c.
Proof.
  assert (resourceDefaults (WithDefaults c) = true) as Hr.
  { unfold WithDefaults. destruct (resourceDefaults c) eqn:E; [done|]. cbv zeta. rewrite fillDefaults_flag.
    assert (resourceDefaults (networkDefaults (setResourceDefaults c)) = true) as Hn.
    { unfold networkDefaults. destruct (bool_decide _); cbn [setNetwork resourceDefaults]; by rewrite fillDefaults_flag. }
    destruct (bool_decide _); [|done]. destruct (_ =? 0); exact Hn. }
  unfold WithDefaults at 1. by rewrite Hr.
Qed.

(** The limits of a runtime are the configured ones. *)
Lemma newRuntime_origins X custom roots origins c rl : newRuntime Parse ParseRequestURI X custom roots origins c = Ok rl ->
  lm_Requests (rl_limits rl) = c_int (WithDefaults c) MaxOriginRequests /\ lm_Queued (rl_limits rl) = c_int (WithDefaults c) MaxOriginQueuedRequests /\
  1 <= lm_Requests (rl_limits rl) /\ rl_origins rl = map (fun key => (key, New (lm_Requests (rl_limits rl)) (lm_Queued (rl_limits rl)))) (remove_dups origins).
Proof.
  unfold newRuntime. intros E. apply result_bind_Ok in E as (? & Hv & E). apply Validate_bounded in Hv. apply result_bind_Ok in E as ([l b] & Hc & [= <-]). cbn [rl_limits rl_origins].
  pose proof (bounded_get _ ("http.max_origin_requests"%string, MaxOriginRequests, 64, 1, 1000000) Hv ltac:(cbn; tauto)) as Hb. unfold within in Hb.
  pose proof (ConfigureLimits_inv _ _ _ _ _ _ Hc) as (H1 & _ & H2). split_and!; [| |done|done]; unfold ConfigureLimits in Hc; destruct (_ || _) in Hc; try done; destruct (_ && _) in Hc; try done; injection Hc as <- _; [|done].
  unfold limitsDefaults, orDefault. cbn [lm_Requests]. destruct (_ =? 0) eqn:E; b2p; lia.
Qed.

(** The options of a configuration. *)
Lemma options_ok c : validated c -> (UpstreamCAFile c = [] \/ is_ok (loadCA (UpstreamCAFile c)) = true) ->
  exists h, applyOptions [WithTrustedProxies (TrustedProxies c); WithCAFile (UpstreamCAFile c)] emptyProxy = Ok h /\ p_customTransport h = false /\ p_limits h = DefaultLimits.
Proof.
  intros V Hca. destruct (parsePrefixes_ok _ [] (va_trusted _ V)) as [l Hl]. cbn [applyOptions applyOption emptyProxy p_trustedProxies mbind result_bind]. rewrite Hl. cbn [mbind result_bind].
  destruct (bool_decide _) eqn:E; [eauto|]. b2p. destruct Hca as [?|Hca]; [done|]. destruct (loadCA _); [|done]. cbn. eauto.
Qed.

Lemma options_custom c h : applyOptions [WithTrustedProxies (TrustedProxies c); WithCAFile (UpstreamCAFile c)] emptyProxy = Ok h -> p_customTransport h = false.
Proof.
  cbn [applyOptions applyOption]. intros E. apply result_bind_Ok in E as (h1 & E1 & E). apply result_bind_Ok in E1 as (t & _ & [= <-]). apply result_bind_Ok in E as (h2 & E2 & [= <-]).
  destruct (bool_decide _) in E2; [by injection E2 as <-|]. apply result_bind_Ok in E2 as (d & _ & [= <-]). done.
Qed.

Lemma NewHTTPProxy_custom targets algorithm options h : NewHTTPProxy targets algorithm options = Ok h -> exists h0, applyOptions options emptyProxy = Ok h0 /\ p_customTransport h = p_customTransport h0.
Proof.
  unfold NewHTTPProxy. intros E. apply result_bind_Ok in E as (h0 & H0 & E). exists h0. split; [done|]. apply result_bind_Ok in E as ([[? ?] ?] & _ & E). apply result_bind_Ok in E as (? & _ & E).
  apply result_bind_Ok in E as (? & _ & E). by apply result_bind_Ok in E as ([? ?] & _ & [= <-]).
Qed.

Lemma NewHTTPProxy_ok `{FactoryLaws} c h0 options : validated c -> applyOptions options emptyProxy = Ok h0 -> p_customTransport h0 = false -> p_limits h0 = DefaultLimits ->
  exists h, NewHTTPProxy (UpstreamTargets c) (UpstreamAlgo c) options = Ok h.
Proof.
  intros V Ho Hc Hl. unfold NewHTTPProxy. rewrite Ho. cbn [mbind result_bind]. destruct (addTargets_ok _ ∅ ∅ [] (va_targets _ V)) as [[[t a] hosts] Ht]. rewrite Ht. cbn [mbind result_bind].
  destruct (addTargets_tables _ _ _ _ _ _ _ Ht tables_empty) as [_ Hm].
  assert (hosts <> []) as Hne.
  { pose proof (va_targets _ V) as Hv. pose proof (va_some _ V) as Hs. destruct (UpstreamTargets c) as [|raw raws]; [done|]. cbn [firstError] in Hv. apply result_bind_Ok in Hv as (? & Hv & _).
    unfold validTarget in Hv. destruct (Parse raw) as [u|] eqn:Ep; [|done]. intros ->. destruct (not_elem_of_nil (URLString u)). apply Hm. right. exists raw, u. split; [by left|done]. }
  rewrite bool_decide_eq_true_2 by done. cbn [guarde mbind result_bind]. destruct (build_known (UpstreamAlgo c) hosts (va_algo _ V)) as [b ->]. cbn [mbind result_bind]. rewrite Hc, Hl.
  unfold ConfigureLimits. cbn. eauto.
Qed.

(** C23: a proxy that was built can send to every target its balancer ever
    selects.  The targets are the distinct URLs of the configured upstreams,
    every one alive and in the balancer; whatever the health checker and the
    requests do in any interleaving, the selected target is one of them, has
    passed the checks of its URL, and has a limiter with the configured
    limits, so no lookup of [roundTrip] is nil. *)
Theorem proxy_routes_resolve raws algorithm options h : FactoryLaws -> NewHTTPProxy raws algorithm options = Ok h ->
  exists lb, p_lb h = Some lb /\ NoDup (p_upstreams h) /\ p_upstreams h <> [] /\
    (forall k, k ∈ p_upstreams h <-> exists raw u, raw ∈ raws /\ Parse raw = Some u /\ URLString u = k) /\
    h_alive (initHealth lb (p_upstreams h)) = p_alive h /\
    forall c es st key host, 1 <= hc_Failures c -> 1 <= hc_Successes c -> runHealth c (p_upstreams h) es (initHealth lb (p_upstreams h)) = Some st ->
      (SelectOrigin key (h_lb st)).2 = Ok host ->
      exists u, p_targets h !! host = Some u /\ URLString u = host /\ checkTarget u = Ok tt /\ 1 <= lm_Requests (p_limits h) /\
        originLimiter h host = Some (New (lm_Requests (p_limits h)) (lm_Queued (p_limits h))).
Proof.
  intros F E. apply NewHTTPProxy_routes in E as ((lb & R) & _). exists lb. destruct (ro_hosts _ _ _ R) as [Hn Hm].
  split_and!; [apply R|apply (ro_tables _ _ _ R)|apply R|apply R|by apply (routes_alive raws)|]. intros c es st key host HF HS HR Hs.
  pose proof (runHealth_inv _ _ _ _ _ _ HF HS (initHealth_inv c lb (p_upstreams h) HF HS Hn Hm) HR) as I. pose proof (Balance_result key (h_lb st)) as Hr. unfold SelectOrigin in Hs. rewrite Hs in Hr.
  destruct (routes_resolve _ _ _ _ R (healthInv_hosts _ _ _ _ _ I Hr)) as (u & H1 & H2 & H3 & H4). exists u. split_and!; [done..|apply R|done].
Qed.

(** C24: a reload of a validated configuration is refused only before a new
    proxy exists: because of a custom transport, of a setting or a file that
    needs a restart, or of the CA file.  Once the proxy is built the runtime
    is too: the limits and the health checks are never refused, every target
    is routed with the configured limits, and health checks run exactly when
    an interval is configured. *)
Theorem reload_builds_after_checks reloadable startup files c0 : let c := WithDefaults c0 in FactoryLaws -> Validate Parse ParseRequestURI prefixOk c = Ok tt ->
  match reloadProxy reloadable startup files c with
  | Err _ => reloadable = false \/ restartSettings c <> restartSettings startup \/ runtimeFiles c <> Ok files \/ (UpstreamCAFile c <> [] /\ is_ok (loadCA (UpstreamCAFile c)) = false)
  | Ok h => reloadable = true /\ restartSettings c = restartSettings startup /\ runtimeFiles c = Ok files /\
      exists h' rl lb, reloadRuntime c h = (h', Ok rl) /\ routes (UpstreamTargets c) h' lb /\ p_checking h' = negb (c_int c HealthCheckInterval =? 0) /\
        lm_Requests (p_limits h') = c_int c MaxOriginRequests /\ lm_Queued (p_limits h') = c_int c MaxOriginQueuedRequests
  end.
Proof.
  intros c F Hv. pose proof (Validate_validated _ Hv) as V. destruct (reloadProxy reloadable startup files c) as [h|e] eqn:E.
  - unfold reloadProxy in E. apply result_bind_Ok in E as (? & H1 & E). apply result_bind_Ok in E as (? & H2 & E). apply result_bind_Ok in E as (f & H3 & E). apply result_bind_Ok in E as (? & H4 & E).
    apply guarde_Ok in H1, H2, H4. b2p. subst f. split_and!; [done..|]. pose proof (NewHTTPProxy_custom _ _ _ _ E) as (h0 & Ho & Hc). apply options_custom in Ho. rewrite Ho in Hc.
    apply NewHTTPProxy_routes in E as ((lb & R) & Hk & Hs & Hg). unfold reloadRuntime. rewrite Hc.
    destruct (newRuntime_ok Parse ParseRequestURI prefixOk (p_roots h) (originKeys (p_targets h)) c tt) as [rl Hrl]; [by unfold c; rewrite WithDefaults_idem|]. rewrite Hrl.
    apply newRuntime_origins in Hrl as (L1 & L2 & L3 & L4). unfold c in *. rewrite WithDefaults_idem in *.
    match goal with |- context [startHealth _ ?p] => destruct (startHealth_ok _ p V Hs Hk) as (h' & -> & Hch & T1 & T2 & T3 & T4 & T5 & T6) end. cbn in Hch, T1, T2, T3, T4, T5, T6.
    exists h', rl, lb. split; [done|]. split.
    + destruct R. split; rewrite ?T1, ?T2, ?T3, ?T4, ?T5, ?T6; done.
    + rewrite Hch, Hg, T4. done.
  - unfold reloadProxy in E. destruct reloadable; [|by left]. cbn [guarde mbind result_bind] in E. destruct (decide (restartSettings c = restartSettings startup)) as [Hr|]; [|by right; left].
    rewrite (bool_decide_eq_true_2 _ Hr) in E. cbn [guarde mbind result_bind] in E. destruct (runtimeFiles c) as [f|e'] eqn:Ef; [|by right; right; left]. cbn [mbind result_bind] in E.
    destruct (decide (f = files)) as [->|Hne]; [|right; right; left; congruence]. rewrite bool_decide_eq_true_2 in E by done. cbn [guarde mbind result_bind] in E.
    right. right. right. destruct (decide (UpstreamCAFile c = [])) as [Hca|Hca].
    + destruct (options_ok c V (or_introl Hca)) as (h0 & H1 & H2 & H3). destruct (NewHTTPProxy_ok c h0 _ V H1 H2 H3) as [h Hh]. by rewrite Hh in E.
    + split; [done|]. destruct (is_ok (loadCA (UpstreamCAFile c))) eqn:El; [|done].
      destruct (options_ok c V (or_intror El)) as (h0 & H1 & H2 & H3). destruct (NewHTTPProxy_ok c h0 _ V H1 H2 H3) as [h Hh]. by rewrite Hh in E.
Qed.
End Proxy.

(** ** Instances *)

Lemma Build_factory {C} ch_New ch_Add ch_Remove ch_Hosts ch_Get : @ConsistentSpec C ch_Add ch_Remove ch_Hosts ch_Get -> ch_Hosts ch_New = [] ->
  @FactoryLaws _ (AnyBalancer_ops ch_Add ch_Remove ch_Hosts ch_Get) (Build ch_New ch_Add).
Proof. intros S Hn. split; [intros a hs b; by apply Build_hosts|apply Build_ok]. Qed.

(** A ring that is a set of hosts and always answers with its first host. *)
Abbreviation setAdd := (fun (h : bytes) (c : gset bytes) => {[h]} ∪ c).
Abbreviation setRemove := (fun (h : bytes) (c : gset bytes) => c ∖ {[h]}).
Abbreviation setGet := (fun (_ : bytes) (c : gset bytes) => match elements c with [] => Err NoHostError | h :: _ => Ok h end).
Lemma set_ring : ConsistentSpec setAdd setRemove elements setGet.
Proof.
  split.
  - intros h c x. rewrite !elem_of_elements. set_solver.
  - intros h c x. rewrite !elem_of_elements. set_solver.
  - intros c. apply NoDup_elements.
  - intros k c Hc. destruct (elements c) as [|h l]; [done|]. exists h. split; [done|by left].
Qed.

Abbreviation set_ops := (AnyBalancer_ops setAdd setRemove elements setGet).
Abbreviation set_laws := (AnyBalancer_laws setAdd setRemove elements setGet set_ring).
Abbreviation set_factory := (Build_factory ∅ setAdd setRemove elements setGet set_ring (elements_empty (C := gset bytes))).
Abbreviation exampleBuild := (Build (∅ : gset bytes) setAdd).

Abbreviation exampleHost := (fun raw : bytes => Some (mkURL (str "http") raw [] false [])).
Abbreviation exampleProxy := (NewHTTPProxy (B := AnyBalancer) exampleBuild exampleHost u_Hostname u_Hostname (fun _ => false) (fun _ : bytes => Some tt)
  (fun _ => Err ErrEOF) (Ok tt) (fun _ => false) (fun d => d) (fun _ _ _ _ => []) [str "a"; str "b"; str "a"] (str "round-robin") [WithTrustedProxies [str "10.0.0.0/8"]]).
Abbreviation exampleBuilt := (match exampleProxy with Ok h => h | Err _ => emptyProxy end).

Lemma proxy_routes_resolve_witness :
  p_upstreams exampleBuilt = [str "a"; str "b"] /\ originLimiter u_Hostname (fun _ => false) exampleBuilt (str "b") = Some (New 64 32).
Proof.
  split; [vm_compute; reflexivity|].
  destruct (proxy_routes_resolve (BO := set_ops) (BL := set_laws) exampleBuild exampleHost u_Hostname u_Hostname (fun _ => false) exampleURI (fun _ : bytes => Some tt)
    (fun _ => Err ErrEOF) (Ok tt) (fun _ => false) (fun d => d) (fun _ _ _ _ => []) (fun d => d) [str "a"; str "b"; str "a"] (str "round-robin") [WithTrustedProxies [str "10.0.0.0/8"]] exampleBuilt
    set_factory (is_ok_default exampleProxy emptyProxy ltac:(vm_compute; reflexivity))) as (lb & Hlb & _ & _ & _ & _ & Hsel).
  assert (lb = OfRoundRobin (NewRoundRobin [str "a"; str "b"])) as -> by (vm_compute in Hlb; injection Hlb as <-; vm_compute; reflexivity).
  destruct (Hsel (mkHealth 0 0 1 1 []) [] _ [] (str "b") ltac:(cbn; lia) ltac:(cbn; lia) eq_refl ltac:(vm_compute; reflexivity)) as (u & _ & _ & _ & _ & ->). vm_compute. reflexivity.
Defined.

(** The default configuration, reloaded with checks every ten seconds. *)
Abbreviation exampleReload := (setInt HealthCheckInterval 10 (setUpstream [] [str "a"] (str "round-robin") [] GetDefaultConfig)).
Abbreviation exampleReloaded := (reloadProxy (B := AnyBalancer) exampleBuild exampleHost u_Hostname u_Hostname (fun _ => false) (fun _ : bytes => Some tt)
  (fun _ => Err ErrEOF) (fun _ => true) (Ok tt) (fun _ => false) (fun d => d) (fun _ _ _ _ => []) (fun _ => []) (fun d => d) true GetDefaultConfig [] exampleReload).

Lemma reload_builds_after_checks_witness : exists h h' rl, exampleReloaded = Ok h /\
  reloadRuntime exampleHost u_Hostname (fun _ => false) exampleURI (fun _ : bytes => Some tt) exampleReload h = (h', Ok rl) /\ p_checking h' = true.
Proof.
  assert (WithDefaults exampleReload = exampleReload) as Hd by reflexivity.
  pose proof (reload_builds_after_checks (BO := set_ops) (BL := set_laws) exampleBuild exampleHost u_Hostname u_Hostname (fun _ => false) exampleURI (fun _ : bytes => Some tt)
    (fun _ => Err ErrEOF) (fun _ => true) (Ok tt) (fun _ => false) (fun d => d) (fun _ _ _ _ => []) (fun _ => []) (fun d => d) true GetDefaultConfig [] exampleReload set_factory
    ltac:(vm_compute; reflexivity)) as H. rewrite Hd in H.
  destruct exampleReloaded as [h|e] eqn:E; [|exfalso; vm_compute in E; discriminate].
  destruct H as (_ & _ & _ & h' & rl & lb & H1 & _ & H2 & _). exists h, h', rl. split; [reflexivity|]. split; [exact H1|]. rewrite H2. reflexivity.
Defined.
